(* ===== verification/_CoqProject ===== *)
-Q . S2P
Prelude.v
RustStr.v
LocalLimits.v
FailureManagement.v
Overload.v
NetCore.v
EndpointRegistry.v
UpstreamHealth.v
SmoothWrr.v
UpstreamBalancer.v
RouteBackendPool.v
RustText.v
RequestTarget.v
RouteMatching.v
HttpMessage.v
BodyRelay.v
RequestTransforms.v
Lifecycle.v
RustIp.v
TrustedClientIp.v
SourceGuards.v
RouteEnumeration.v
ArtifactSecurity.v
ConfigApplication.v
EmergencyProtection.v
HttpCacheStore.v
HttpCacheKey.v
HttpCachePolicy.v
RequestClassification.v
Discovery.v
SnapshotDiff.v
SnapshotControl.v
Rollout.v
FleetStaged.v
Fleet.v
