(* ===== verification/Prelude.v ===== *)
(** * way-balancer: a verification development

    way-balancer is a load balancer written in Rust: a data plane that accepts
    connections, applies limits and overload protection, picks an upstream endpoint
    for each request and reports the outcome back, and a control plane that publishes
    configuration snapshots and rolls them out.  This development models the decision
    core of the data plane, the part that holds state and chooses, the HTTP/1.1 message
    path (heads, framing, bodies, routing), and the publication, rollout and fleet
    coordination of snapshots as executable functions, and proves what makes them
    correct.

    ** How the parts interact

    A route owns a [RouteBackendPool].  A pool of one cluster owns a health registry
    and a balancer; a weighted pool splits the traffic over several such pools.  The
    health registry ([UpstreamHealthRegistry]) keeps the topology in an
    [EndpointRegistry] of [UpstreamCluster]s and a health record per endpoint; probes
    and request outcomes move the records.  To select, the balancer
    ([UpstreamBalancer]) asks the registry for the candidates, narrows them by
    locality, and applies affinity or one of three algorithms.  Beside this path stand
    the retry budget and circuit breaker, the local rate and concurrency limits, and
    overload management, which proxies consult before they forward.

    An HTTP/1.1 request is read by [read_request_head]: the head is filled from the
    stream, parsed by a library, checked for ambiguous framing, and matched against the
    route rules on its canonical target.  Transforms rewrite target and headers, the
    headers are normalised for forwarding, the head is written, and the body is relayed
    in the framing that was detected.  Responses take the same way back.  A proxy with a
    response cache first looks the request up under its storage key; on a miss the
    response that comes back fills the cache while its body is relayed.

    Discovery sources advertise endpoints; a reconciler applies their snapshots to the
    health registry and drains what is withdrawn.  Configuration takes another way: a
    compiled snapshot is published in the registry of [SnapshotControlService] after the
    checks of its attestation, the rollout coordinator applies published versions to the
    [DataplaneSnapshotManager] and rolls them back, a promotion guards this by the impact
    of the diff, and the fleet coordinator does it node by node, in waves behind health
    gates.

    ** Files

    The sources are under [src/crates]; [runtime] stands for [src/crates/runtime/src].
    - [Prelude]: results, machine integers, durations, bounded queues, orders, sorting
      and iterator extrema; the notation scope, tactics and hint database.
    - [RustStr]: the string and byte operations of Rust that the sources use.
    - [LocalLimits]: [runtime/local_limits.rs], key normalisation, the fixed-window
      rate limiter and the concurrency limiter with its leases.
    - [FailureManagement]: [runtime/failure_management.rs], retry budget, timeout
      hierarchy and circuit breaker.
    - [Overload]: [runtime/overload_management.rs], signal windows, overload state,
      shedding and brownout.
    - [NetCore]: [net-core/src/lib.rs] and [net-core/src/upstream.rs], addresses,
      listener validation, endpoints and clusters.
    - [EndpointRegistry]: [runtime/upstream_registry.rs].
    - [UpstreamHealth]: [runtime/upstream_health.rs].
    - [SmoothWrr]: the theory of smooth weighted round-robin, shared by the next two.
    - [UpstreamBalancer] and [RouteBackendPool]: the two halves of
      [runtime/upstream_balancer.rs].
    - [RustText]: splitting, searching and parsing of byte strings.
    - [RequestTarget], [RouteMatching] and [HttpMessage]: three parts of
      [proto-http/src/lib.rs], canonical targets, route rules, and message heads.
    - [BodyRelay]: [runtime/http1_proxy/body_relay.rs] with the errors of
      [runtime/http1_proxy/errors_and_reports.rs] and the categories of
      [runtime/protocol_protection.rs].
    - [RequestTransforms]: [runtime/http1_proxy/request_transforms.rs].
    - [Lifecycle]: [runtime/lifecycle.rs] and [runtime/probe_semantics.rs].
    - [RustIp]: the parser of IP addresses of the standard library.
    - [TrustedClientIp]: [runtime/trusted_client_ip.rs].
    - [SourceGuards]: [runtime/source_guards.rs] and [runtime/anonymous_sources.rs].
    - [RouteEnumeration]: [runtime/route_enumeration.rs].
    - [ArtifactSecurity]: [config-model/src/security.rs].
    - [ConfigApplication]: [runtime/config_application.rs].
    - [EmergencyProtection]: [runtime/emergency_protection.rs] with the redactor of
      [observability/src/diagnostics.rs].
    - [HttpCacheStore]: [runtime/http_cache.rs], the store, its eviction and the
      invalidation bus.
    - [HttpCacheKey]: the keys of [runtime/http_cache.rs] and the cache policy of
      [config-model/src/policy.rs].
    - [HttpCachePolicy]: [cache_headers_and_freshness.rs], [cache_lookup.rs] and the
      fill, revalidation and serving parts of [cache_fill_and_revalidation.rs], all in
      [runtime/http1_proxy].
    - [RequestClassification]: [runtime/request_classification.rs] with its enforcement,
      its adaptation to overload, its scorers and its provider chains, and the configuration
      of [config-model/src/request_classification.rs].
    - [Discovery]: [runtime/discovery.rs].
    - [SnapshotDiff]: the diff of snapshots of [config-model/src/compiler.rs] and the
      analysis of its impact of [admin-api/src/control.rs].
    - [SnapshotControl]: the rest of [admin-api/src/control.rs].
    - [Rollout]: [admin-api/src/rollout.rs] and [promotion.rs].
    - [FleetStaged]: [admin-api/src/fleet_staged.rs] and [fleet_gate.rs].
    - [Fleet]: [admin-api/src/fleet.rs].

    A Rust type [T] is a record or inductive type [T]; its method [m] is the function
    [T_m]; loops and closures inside a method are separate definitions named after
    what they do.  A method that mutates [self] takes and returns the state.  A method
    that holds a lock for its whole body is one atomic step.  [decide] of overload
    management takes its locks in turn, and its steps are interleaved with other calls
    explicitly.  A selection of a balancer or a pool also takes several locks in turn;
    it is modelled as one call that runs without interference.  A
    panic (an index out of range) is [None], and the theorems show that it does not
    occur.  Pools are shared through [Arc], so they live in a store and are passed by
    reference.  The clock is an argument.  A reader is the list of the outcomes of its
    reads, a writer what it accepted and the outcomes of its next writes; the theorems
    quantify over both, so over all segmentations, errors and delays.  Poisoned locks are recovered by the code
    and play no role.

    ** Interfaces

    The balancer is proved against [CandidateSource], with the laws
    [CandidateSourceLaws] that the health registry satisfies under its invariant.
    The hash and floating-point side of affinity, which the sources take from the
    standard library without a specified algorithm, is the class [AffinityScoring];
    its laws [AffinityScoringLaws] say that [total_cmp] is a total order and that no
    score is below negative infinity, and only the theorem on affinity uses them.
    The head parser is the class [Httparse], whose laws are its documented bounds (it
    consumes at most its input and fills at most its header slots); networks of route
    rules, trusted proxies and denied sources are the class [IpNetwork].  The semaphore of
    the asynchronous runtime is the class [SemaphoreOps], whose laws are its documented
    counting behaviour; the signature library is the class [Ed25519], whose laws are the
    lengths of its arrays and that a signature verifies under its signer's key; the
    activation hook of snapshots, a trait of the source, is [SnapshotActivationHook].
    The hash of snapshots is the class [Sha256], whose law is that it yields 32 bytes;
    [NamedSnapshotResource] and [SnapshotResources] give the named resources of a snapshot
    with their serialisation; [SnapshotViews] and [DurableJson], without laws, are the view
    of a snapshot with its recompilation and the JSON of the durable registry.  The
    compiler behind [SnapshotViews] is code of the repository that is not modelled; the
    theorem on the durable state holds for any such function and only assumes that the JSON
    reads back what it wrote.
    The trait of fleet nodes is the class [FleetNodeBackend], without laws.  The hash
    behind the jitter of discovery is a parameter.
    The header and status types of the crate [http], the dates of [httpdate] and the size
    of the cache metadata in memory are plain parameters without laws.

    ** What the theorems show

    - Selection: [select_endpoint_safe] (no panic, only eligible endpoints, locality
      respected), [weighted_round_robin_exact], [round_robin_fair],
      [power_of_two_avoids_worst], [affinity_minimal_disruption], [mix64_injective].
    - Pools: [weighted_selection_falls_back], [weighted_split_exact],
      [destination_order_complete], [pool_store_safe] (an invariant of every reachable
      store, and progress of every operation).
    - Health: [health_registry_consistent] (invariant), [ejection_budget_respected],
      [selection_candidates_spec], [ejected_endpoint_recovers],
      [advance_time_additive], [warmup_weight_spec].
    - Topology: [cluster_refines_map] and [registry_refines_directory], refinements of
      finite maps; [listener_validate_spec], [canonicalize_ip_spec].
    - Failure management: [retry_budget_window_bound], [allow_retry_spec],
      [open_breaker_blocks], [breaker_reachable_inv], [half_open_probe_bound],
      [breaker_recovers], [timeout_hierarchy_spec].
    - Limits: [rate_limit_exact], [rate_limiter_bounded],
      [concurrency_limiter_refines_leases], [normalize_component_spec].
    - Overload: [overload_state_refines_window], [concurrent_decide_sound],
      [shedding_monotone].
    - Heads: [fill_until_head_end_total] (termination, bound, no byte lost),
      [head_end_independent_of_segmentation], [accepted_request_unambiguous],
      [forwarded_framing_preserved], [forwarded_headers_sanitised],
      [close_delimited_response_reframed], [written_request_head_read_back].
    - Bodies: [relay_body_total] (termination and the contract of each framing),
      [chunked_relay_faithful] and [well_formed_chunked_relayed] (soundness and
      completeness of the chunked relay against a grammar of chunked bodies), [content_length_relay_exact],
      [close_delimited_reframed_exactly], [collect_decoded_body_decodes],
      [relay_content_length_collect_equiv].
    - Targets and routes: [canonical_target_roundtrip], [match_canonical_route_spec],
      [transformed_headers].
    - Lifecycle: [lifecycle_monotone], [probe_evaluation_spec].
    - Client addresses: [spoofed_hops_ignored], [forwarded_client_resolved] (what one
      proxy forwards the next one resolves).
    - Sources: [source_guards_exact] (the guards refine the leases and permits held),
      [handshake_refused_iff_full], [source_key_aggregates], [anonymous_filter_spec].
    - Enumeration: [unmatched_route_ban_exact] (refinement of the history of unmatched
      requests, bound of the table, no panic), [ban_holds_exactly],
      [query_signature_by_names].
    - Snapshots: [snapshot_manager_refines_log] (the manager refines the log of applied
      snapshots), [activation_guarded], [accepted_snapshot_attested],
      [attested_snapshot_verifies].
    - Emergencies: [emergency_controller_refines_log], [protection_only_rises],
      [forensic_export_bounded_redacted] (bound, and independence of redacted texts).
    - Cache store: [cache_is_lossy_map] (refinement: only the last write is ever served),
      [eviction_is_lru] (equivalence with a sorted list, termination),
      [cache_store_bounded], [cache_store_well_formed] (typing of every reachable store and
      progress), [insert_then_lookup], [publish_reaches_scope].
    - Cache keys: [cache_key_exact], [keyed_request_is_shareable].
    - Cache policy: [filled_response_served_again] (lookup, relay, store and serving
      composed), [cache_hit_usable], [derived_metadata_bounded],
      [forbidden_response_not_stored].
    - Classification: [request_classification_exact] (range of the signals, score without
      loss in narrow integers, thresholds), [classification_monotone], [mitigation_sound]
      (classification, enforcement and overload composed).
    - Discovery: [discovery_membership_exact] (invariant of every run),
      [snapshot_applied_exactly], [reconcile_atomic], [drain_window_ends],
      [applied_generations_monotone], [refresh_timing_bounded].
    - Snapshot registry: [registry_refines_log] (refinement of an append-only log),
      [published_versions_immutable], [backup_restores_registry],
      [durable_state_restores_registry] (what is restored, and when it is the same), [snapshot_diff_exact], [impact_severity_exact].
    - Rollout: [rollout_plane_consistent] (invariant of registry, coordinator and manager
      together, by rule induction), [rollback_restores_previous],
      [failed_action_keeps_active], [promotion_guarded].
    - Fleets: [fleet_action_halts_exactly], [convergence_report_exact],
      [abort_decision_exact], [staged_plan_exact] (equivalence with a declarative
      specification), [wave_gate_exact].
    - Behaviour that departs from the sources' own documentation:
      [sequential_probes_stall], [validate_scope_never_rejects],
      [set_same_state_reports_missing], [failure_can_raise_availability],
      [nominated_content_length_dropped], [absolute_target_query_dropped],
      [embedded_url_rewrite_rejected], [forwarded_header_spoofs_next_hop],
      [padded_version_recorded], [secret_label_exported],
      [trailing_slash_prefix_misses], [authorization_partitions_collide],
      [vary_outside_policy_shared], [expires_without_date],
      [block_threshold_unreachable], [default_traversal_pattern_dead],
      [collision_half_applied], [recreated_cluster_stays_empty],
      [equal_generation_applied], [jitter_window_vanishes], [padded_version_published],
      [latest_promotion_unguarded], [padded_promotion_refused], [rollback_alternates],
      [fleet_rollback_targets_running], [rejected_answer_goes_on],
      [late_fleet_converged].

    ** Bounds and fuel

    Unsigned integers are [N] with the saturating or wrapping operation the code uses
    written out.  The [i64] weights are [Z]; [weighted_round_robin_exact] and
    [weighted_split_exact] prove that they stay within 64 bits for up to 2^23 choices
    of [u16] weights.  Plain [+=] on counters wraps, as in a release build.  Loops
    that are not structural take fuel: the fallback loop of a weighted pool (each
    iteration adds a destination to the order, [fallback_loop_spec]); filling a head
    (each iteration adds a byte below the limit, [fill_until_head_end_total]); the relay
    loops (each iteration takes a byte of the input or moves one into the buffer, so one
    more than the available bytes is enough, [relay_body_total]); decoding a chunked body
    (each iteration takes a chunk, [decode_chunked_body]); eviction from the cache (each
    iteration removes an entry, [evict_loop_lru]).  [usize] is 64 bits wide.  The theorems
    on the cache store assume that twice its byte bound fits a [usize], so that the count of
    bytes is exact; [promotion_guarded] assumes that the counters of the coordinator fit their
    [u64].

    Text is what the sources accept where the theorems allow it: [cache_key_exact] holds for
    UTF-8 text without line feeds and zero characters.  [canonical_target_roundtrip] is about
    targets of visible ASCII characters, without an empty query pair and a dot at the end of the
    host; examples beside it show that canonicalisation is not idempotent otherwise.

    ** Not modelled

    Sockets, tasks and timers (the request loops of the HTTP/1, HTTP/2, HTTP/3 and TCP
    proxies, hedging, the listener runtime, the binaries), TLS, token verification and
    external authorisation, telemetry export, the Kubernetes controller: I/O or
    third-party code around the decisions modelled here.  Of the control plane the
    validators and the compiler of [config-model], the authentication, transport, cache
    administration, listener canaries and status rendering of [admin-api], and the
    extension surface are left out; they are pure in part and would be the next to model.
    Most [Display] texts are left out. *)

From stdpp Require Export base tactics numbers list gmap strings sorting option fin_maps.
From Stdlib Require Export Lia ZifyN ZifyBool ZifyComparison.

(** ** Notation scope and results

    Fallible Rust code returns [Result<T, E>]; the [?] operator is the bind
    [let? x := c in k]. *)

Declare Scope rust_scope.
Delimit Scope rust_scope with rust.

Inductive Result (T E : Type) : Type :=
| Ok (value : T)
| Err (error : E).
Arguments Ok {T E} value.
Arguments Err {T E} error.

Notation "'let?' x ':=' c 'in' k" :=
  (match c with Ok x => k | Err e => Err e end)
  (at level 10, x pattern, c at level 100, k at level 200) : rust_scope.

Definition is_ok {T E} (r : Result T E) : bool :=
  match r with Ok _ => true | Err _ => false end.

#[export] Instance Result_eq_dec {T E} `{EqDecision T, EqDecision E} :
  EqDecision (Result T E).
Proof. solve_decision. Defined.

(** ** Automation

    The hint database [wb] collects the lemmas that close the common side
    conditions; the components add the preservation lemmas of their invariants.
    [case_key k k'] splits on equality of two keys and computes the lookups in an
    updated map; [by_weakening H] proves a [Forall] from the [Forall] [H] of a
    stronger predicate. *)

Create HintDb wb.

Ltac case_key k k' :=
  let Hne := fresh "Hne" in
  destruct (decide (k = k')) as [<-|Hne];
  [ rewrite ?lookup_insert_eq, ?lookup_alter_eq, ?lookup_delete_eq
  | rewrite ?lookup_insert_ne, ?lookup_alter_ne, ?lookup_delete_ne by congruence ].

Ltac by_weakening H := eapply Forall_impl; [exact H|]; intros; eauto with wb.

(** ** Machine integers

    An unsigned [uN] value is an [N] together with the bound [uN_max]; the
    Rust operation that is used at each place (saturating, wrapping or
    checked) is written out with the functions below. *)

Definition u8_max : N := 255.
Definition u16_max : N := 65535.
Definition u32_max : N := 4294967295.
Definition u64_max : N := 18446744073709551615.

(** [a.saturating_add(b)] and [a.saturating_mul(b)] at the width of [max].
    [a.saturating_sub(b)] is the truncated [a - b] of [N]. *)
Definition saturating_add (max a b : N) : N := N.min max (a + b).
Definition saturating_mul (max a b : N) : N := N.min max (a * b).

(** [AtomicU64::fetch_add] and the other wrapping 64-bit additions. *)
Definition wrapping_add64 (a b : N) : N := (a + b) mod (u64_max + 1).
Definition fetch_add (counter amount : N) : N := wrapping_add64 counter amount.
Definition wrapping_mul64 (a b : N) : N := (a * b) mod (u64_max + 1).

(** ** Time

    [std::time::Duration] is a number of nanoseconds, at most
    [u64::MAX] seconds and 999_999_999 nanoseconds. *)

Abbreviation Duration := N (only parsing).
Definition Duration_MAX : Duration := u64_max * 1000000000 + 999999999.
Definition from_secs (s : N) : Duration := s * 1000000000.
Definition from_millis (ms : N) : Duration := ms * 1000000.
Definition as_millis (d : Duration) : N := d / 1000000.
Definition Duration_saturating_add (a b : Duration) : Duration :=
  saturating_add Duration_MAX a b.

(** ** Bounded queues

    The event logs are [VecDeque]s that drop their oldest entry once they hold
    [cap] entries. *)

Definition push_bounded {A} (cap : nat) (q : list A) (x : A) : list A :=
  (if decide (length q = cap) then tail q else q) ++ [x].

Lemma length_push_bounded {A} (cap : nat) (q : list A) (x : A) :
  (0 < cap → length q ≤ cap → length (push_bounded cap q x) ≤ cap)%nat.
Proof.
  intros ? ?. unfold push_bounded. rewrite length_app; simpl.
  case_decide; rewrite ?length_tl; lia.
Qed.

(** ** Arithmetic *)

Lemma half_up_bounds (n : N) : (n ≤ 2 * ((n + 1) / 2) ≤ n + 1)%N.
Proof.
  lia.
Qed.

(** ** Total orders, sorting and extrema

    The laws of Rust's [Ord] for a comparison function, and the list
    operations that use one: the stable [sort_by], and [min_by_key] (first
    minimum) and [max_by] (last maximum) of iterators. *)

Class LawfulCmp {A} (cmp : A → A → comparison) : Prop := {
  cmp_refl a : cmp a a = Eq;
  cmp_eq a b : cmp a b = Eq → a = b;
  cmp_antisym a b : cmp b a = CompOpp (cmp a b);
  cmp_lt_trans a b c : cmp a b = Lt → cmp b c = Lt → cmp a c = Lt
}.

Section cmp_laws.
Context {A} (cmp : A → A → comparison) `{!LawfulCmp cmp}.

Lemma cmp_gt_lt a b : cmp a b = Gt ↔ cmp b a = Lt.
Proof. rewrite (cmp_antisym b a). destruct (cmp b a); naive_solver. Qed.

Lemma cmp_le_trans a b c : cmp a b ≠ Gt → cmp b c ≠ Gt → cmp a c ≠ Gt.
Proof.
  intros Hab Hbc. destruct (cmp a b) eqn:E1, (cmp b c) eqn:E2; try done.
  - apply cmp_eq in E1, E2. subst. by rewrite cmp_refl.
  - apply cmp_eq in E1. subst. by rewrite E2.
  - apply cmp_eq in E2. subst. by rewrite E1.
  - by rewrite (cmp_lt_trans _ _ _ E1 E2).
Qed.

Lemma cmp_lt_irrefl a : cmp a a ≠ Lt.
Proof. by rewrite cmp_refl. Qed.
End cmp_laws.

#[export] Instance N_compare_lawful : LawfulCmp N.compare.
Proof.
  split.
  - apply N.compare_refl.
  - by intros a b ?%N.compare_eq_iff.
  - intros a b. apply N.compare_antisym.
  - intros a b c. rewrite !N.compare_lt_iff. lia.
Qed.

Lemma Ascii_compare_lt_trans a b c :
  Ascii.compare a b = Lt → Ascii.compare b c = Lt → Ascii.compare a c = Lt.
Proof. unfold Ascii.compare. apply cmp_lt_trans. Qed.

#[export] Instance String_compare_lawful : LawfulCmp String.compare.
Proof.
  assert (Hrefl : ∀ a, String.compare a a = Eq).
  { induction a as [|x a IH]; [done|]. simpl. unfold Ascii.compare. by rewrite N.compare_refl. }
  split; [done | apply String.compare_eq_iff | intros; apply String.compare_antisym |].
  induction a as [|x a IH]; intros [|y b] [|z c]; simpl; try done.
  destruct (Ascii.compare x y) eqn:E1, (Ascii.compare y z) eqn:E2; try done.
  - apply Ascii.compare_eq_iff in E1, E2. subst. unfold Ascii.compare.
    rewrite N.compare_refl. apply IH.
  - apply Ascii.compare_eq_iff in E1. subst. by rewrite E2.
  - apply Ascii.compare_eq_iff in E2. subst. by rewrite E1.
  - by rewrite (Ascii_compare_lt_trans _ _ _ E1 E2).
Qed.

(** [a.then_with(|| b)], and the derived order of a pair. *)
Definition then_with (a b : comparison) : comparison := match a with Eq => b | _ => a end.

Definition lex_cmp {A B} (ca : A → A → comparison) (cb : B → B → comparison)
    (x y : A * B) : comparison := then_with (ca x.1 y.1) (cb x.2 y.2).

#[export] Instance lex_cmp_lawful {A B} (ca : A → A → comparison) (cb : B → B → comparison)
  `{!LawfulCmp ca, !LawfulCmp cb} : LawfulCmp (lex_cmp ca cb).
Proof.
  unfold lex_cmp. split.
  - intros [a b]. simpl. by rewrite (cmp_refl (cmp := ca)), (cmp_refl (cmp := cb)).
  - intros [a b] [a' b']. simpl. destruct (ca a a') eqn:E; simpl; try done.
    apply cmp_eq in E. intros ->%(cmp_eq (cmp := cb)). by subst.
  - intros [a b] [a' b']. simpl.
    rewrite (cmp_antisym (cmp := ca) a a'), (cmp_antisym (cmp := cb) b b').
    by destruct (ca a a').
  - intros [a b] [a' b'] [a'' b'']. simpl.
    destruct (ca a a') eqn:E1, (ca a' a'') eqn:E2; simpl; try done.
    + apply cmp_eq in E1, E2. subst. rewrite (cmp_refl (cmp := ca)). simpl. apply cmp_lt_trans.
    + apply cmp_eq in E1. subst. by rewrite E2.
    + apply cmp_eq in E2. subst. by rewrite E1.
    + by rewrite (cmp_lt_trans _ _ _ E1 E2).
Qed.

(** [left < right] on strings. *)
Definition str_lt (a b : string) : Prop := String.compare a b = Lt.
#[export] Instance str_lt_dec : RelDecision str_lt.
Proof. intros a b. unfold str_lt. solve_decision. Defined.

Section sort_by.
Context {A K} (key : A → K) (cmp : K → K → comparison).

Fixpoint insert_by (x : A) (l : list A) : list A :=
  match l with
  | [] => [x]
  | y :: l' => match cmp (key x) (key y) with
               | Gt => y :: insert_by x l'
               | _ => x :: y :: l'
               end
  end.

(** [slice::sort_by] with the comparison of the keys: stable, because an
    element is inserted before the later elements with an equal key. *)
Definition sort_by (l : list A) : list A := foldr insert_by [] l.

Lemma insert_by_perm x l : insert_by x l ≡ₚ x :: l.
Proof.
  induction l as [|y l IH]; simpl; [done|]. destruct (cmp (key x) (key y)); [done..|].
  rewrite IH. apply Permutation_swap.
Qed.

Lemma sort_by_perm l : sort_by l ≡ₚ l.
Proof. induction l as [|x l IH]; simpl; [done|]. by rewrite insert_by_perm, IH. Qed.

Lemma elem_of_sort_by x l : x ∈ sort_by l ↔ x ∈ l.
Proof. by rewrite sort_by_perm. Qed.

Lemma length_sort_by l : length (sort_by l) = length l.
Proof. by rewrite sort_by_perm. Qed.

Context `{!LawfulCmp cmp}.

Definition key_le (x y : A) : Prop := cmp (key x) (key y) ≠ Gt.

Lemma insert_by_sorted x l : StronglySorted key_le l → StronglySorted key_le (insert_by x l).
Proof.
  induction l as [|y l IH]; intros Hs; simpl; [by repeat constructor|].
  apply StronglySorted_cons in Hs as [Hy Hs].
  destruct (cmp (key x) (key y)) eqn:E.
  1, 2: apply StronglySorted_cons; split; [|by apply StronglySorted_cons].
  1, 2: constructor; [by unfold key_le; rewrite E|].
  1, 2: eapply Forall_impl; [exact Hy|]; intros z Hz;
        eapply (cmp_le_trans cmp); [|exact Hz]; by rewrite E.
  apply StronglySorted_cons; split; [|by apply IH].
  rewrite insert_by_perm. constructor; [|done].
  unfold key_le. apply (cmp_gt_lt cmp) in E. by rewrite E.
Qed.

Lemma sort_by_sorted l : StronglySorted key_le (sort_by l).
Proof. induction l; simpl; [constructor | by apply insert_by_sorted]. Qed.

(** A sorted list is left as it is. *)
Lemma sort_by_sorted_id l : StronglySorted key_le l → sort_by l = l.
Proof.
  induction 1 as [|x l Hs IH Hx]; [done|]. simpl. rewrite IH. destruct l as [|y l]; [done|].
  apply Forall_cons in Hx as [Hxy _]. unfold key_le in Hxy. simpl.
  by destruct (cmp (key x) (key y)).
Qed.

(** With distinct keys the order is strict. *)
Lemma sorted_nodup_strict l :
  StronglySorted key_le l → NoDup (key <$> l) →
  StronglySorted (λ x y, cmp (key x) (key y) = Lt) l.
Proof.
  induction l as [|x l IH]; intros Hs Hnd; [constructor|].
  apply StronglySorted_cons in Hs as [Hx Hs]. rewrite fmap_cons in Hnd.
  apply NoDup_cons in Hnd as [Hni Hnd]. apply StronglySorted_cons. split; [|by apply IH].
  apply Forall_forall. intros y Hy. rewrite Forall_forall in Hx.
  pose proof (Hx y Hy) as Hle. unfold key_le in Hle.
  destruct (cmp (key x) (key y)) eqn:E; [|done..].
  apply cmp_eq in E. destruct Hni. rewrite E. by apply list_elem_of_fmap_2.
Qed.
End sort_by.

(** The elements of a [BTreeSet], in order. *)
Definition btree_set_iter (s : gset string) : list string := sort_by id String.compare (elements s).

Lemma btree_set_iter_sorted s : StronglySorted str_lt (btree_set_iter s).
Proof.
  unfold btree_set_iter. apply (sorted_nodup_strict id String.compare).
  - apply sort_by_sorted, _.
  - rewrite list_fmap_id, (sort_by_perm id String.compare). apply NoDup_elements.
Qed.

Lemma elem_of_btree_set_iter s n : n ∈ btree_set_iter s ↔ n ∈ s.
Proof. unfold btree_set_iter. by rewrite elem_of_sort_by, elem_of_elements. Qed.

(** Iteration over a [BTreeMap<String, V>]: the entries in key order. *)
Definition btree_iter {V} (m : gmap string V) : list (string * V) :=
  sort_by fst String.compare (map_to_list m).

Lemma elem_of_btree_iter {V} (m : gmap string V) k v :
  (k, v) ∈ btree_iter m ↔ m !! k = Some v.
Proof. unfold btree_iter. by rewrite elem_of_sort_by, elem_of_map_to_list. Qed.

Lemma btree_iter_perm {V} (m : gmap string V) : btree_iter m ≡ₚ map_to_list m.
Proof. apply sort_by_perm. Qed.

Lemma btree_iter_nil {V} (m : gmap string V) : btree_iter m = [] → m = ∅.
Proof.
  intros E. apply map_to_list_empty_iff, Permutation_nil_r. by rewrite <- btree_iter_perm, E.
Qed.

Section min_by_key.
Context {A} (f : A → N).

(** [iter().min_by_key(f)]: the first element with the least key. *)
Fixpoint min_by_key_from (best : A) (l : list A) : A :=
  match l with
  | [] => best
  | x :: l' => min_by_key_from (if decide (f x < f best)%N then x else best) l'
  end.

Definition min_by_key (l : list A) : option A :=
  match l with [] => None | x :: l' => Some (min_by_key_from x l') end.

Lemma min_by_key_from_spec l : ∀ best,
  min_by_key_from best l ∈ best :: l ∧
  ∀ x, x ∈ best :: l → (f (min_by_key_from best l) ≤ f x)%N.
Proof.
  induction l as [|y l IH]; intros best; simpl.
  { split; [left|]. intros x ->%list_elem_of_singleton. done. }
  destruct (IH (if decide (f y < f best)%N then y else best)) as [Hin Hle]. split.
  - apply elem_of_cons in Hin as [->|Hin]; [|by do 2 right].
    case_decide; [right; left | left].
  - intros x Hx. case_decide.
    + apply elem_of_cons in Hx as [->|Hx]; [|by apply Hle].
      etransitivity; [apply Hle; left | lia].
    + rewrite !elem_of_cons in Hx. destruct Hx as [->|[->|Hx]]; [apply Hle; left| |].
      * etransitivity; [apply Hle; left | lia].
      * apply Hle. by right.
Qed.

Lemma min_by_key_spec l x :
  min_by_key l = Some x → x ∈ l ∧ ∀ y, y ∈ l → (f x ≤ f y)%N.
Proof. destruct l as [|z l]; simpl; [done|]. intros [= <-]. apply min_by_key_from_spec. Qed.

Lemma min_by_key_None l : min_by_key l = None ↔ l = [].
Proof. by destruct l. Qed.
End min_by_key.

Section max_by.
Context {A} (compare : A → A → comparison).

(** [iter().max_by(compare)]: the last element among the greatest. *)
Fixpoint max_by_from (best : A) (l : list A) : A :=
  match l with
  | [] => best
  | x :: l' => max_by_from (match compare best x with Gt => best | _ => x end) l'
  end.

Definition max_by (l : list A) : option A :=
  match l with [] => None | x :: l' => Some (max_by_from x l') end.

Lemma max_by_elem l x : max_by l = Some x → x ∈ l.
Proof.
  destruct l as [|y l]; simpl; [done|]. intros [= <-]. revert y.
  induction l as [|z l IH]; intros y; simpl; [left|].
  destruct (compare y z); specialize (IH y) as IHy; specialize (IH z) as IHz.
  - by right.
  - by right.
  - apply elem_of_cons in IHy as [->|?]; [left | by do 2 right].
Qed.

(** A measure that the comparison respects is largest at the maximum. *)
Lemma max_by_measure (f : A → Z) l x :
  (∀ a b, match compare a b with Gt => f b ≤ f a | _ => f a ≤ f b end)%Z →
  max_by l = Some x → ∀ y, y ∈ l → (f y ≤ f x)%Z.
Proof.
  intros Hf. destruct l as [|z l]; simpl; [done|]. intros [= <-]. revert z.
  induction l as [|a l IH]; intros z y Hy; simpl; [by apply list_elem_of_singleton in Hy as ->|].
  pose proof (Hf z a) as Hza. rewrite !elem_of_cons in Hy.
  destruct (compare z a); destruct Hy as [->|[->|Hy]];
    solve [apply IH; by left | apply IH; by right
          | etransitivity; [exact Hza | apply IH; by left]].
Qed.

Lemma max_by_None l : max_by l = None ↔ l = [].
Proof. by destruct l. Qed.
End max_by.

(** ** Wrapping arithmetic *)

Lemma wrapping_add64_mod a b : wrapping_add64 (a mod (u64_max + 1)) b = ((a + b) mod (u64_max + 1))%N.
Proof. unfold wrapping_add64. by rewrite N.Div0.add_mod_idemp_l. Qed.

(** Adding [u64::MAX] is [fetch_sub(1)]. *)
Lemma wrapping_sub64_one a : wrapping_add64 ((a + 1) mod (u64_max + 1)) u64_max = (a mod (u64_max + 1))%N.
Proof.
  rewrite wrapping_add64_mod. replace (a + 1 + u64_max)%N with (a + 1 * (u64_max + 1))%N by lia.
  apply N.Div0.mod_add.
Qed.

Lemma N_of_nat_le (a b : nat) : (a ≤ b)%nat → (N.of_nat a ≤ N.of_nat b)%N.
Proof. lia. Qed.

Lemma exists_elem_of_cons {A} (P : A → Prop) (y : A) (l : list A) :
  (∃ x, x ∈ y :: l ∧ P x) ↔ P y ∨ ∃ x, x ∈ l ∧ P x.
Proof. setoid_rewrite elem_of_cons. naive_solver. Qed.

Lemma elem_of_drop_list {A} (x : A) n l : x ∈ drop n l → x ∈ l.
Proof. intros Hx. rewrite <- (take_drop n l). apply elem_of_app. by right. Qed.

Lemma elem_of_take_list {A} (x : A) n l : x ∈ take n l → x ∈ l.
Proof. intros Hx. rewrite <- (take_drop n l). apply elem_of_app. by left. Qed.

(** ** Sorted lists *)

Lemma Forall_filter {A} (Q P : A → Prop) `{!∀ x, Decision (P x)} (l : list A) :
  Forall Q l → Forall Q (filter P l).
Proof. rewrite !Forall_forall. intros HQ x [_ Hx]%list_elem_of_filter. by apply HQ. Qed.

Lemma StronglySorted_filter {A} (R : relation A) (P : A → Prop) `{!∀ x, Decision (P x)} (l : list A) :
  StronglySorted R l → StronglySorted R (filter P l).
Proof.
  induction l as [|x l IH]; intros Hs; [constructor|].
  apply StronglySorted_cons in Hs as [Hx Hs]. rewrite filter_cons. case_decide; [|by apply IH].
  apply StronglySorted_cons. split; [|by apply IH]. by apply Forall_filter.
Qed.

#[export] Hint Resolve Forall_filter StronglySorted_filter max_by_elem : wb.
