(* ===== verification/RustStr.v ===== *)
(** * Rust strings

    What the modelled code uses of [std::string] and [std::net]: a [String] is
    its UTF-8 bytes (a Rocq [string], one [ascii] per byte), [chars] decodes
    them to code points, [trim] and the ASCII case functions are those of
    [str], and IP addresses have the textual form of their [Display]
    implementation. *)

From S2P Require Import Prelude.
From stdpp Require Export pretty.
From Stdlib Require Ascii String.
Local Open Scope N_scope.

(** ** Bytes and code points *)

Definition bytes (s : string) : list N := Ascii.N_of_ascii <$> String.list_ascii_of_string s.
Definition of_bytes (l : list N) : string := String.string_of_list_ascii (Ascii.ascii_of_N <$> l).

Lemma of_bytes_bytes s : of_bytes (bytes s) = s.
Proof.
  unfold of_bytes, bytes. rewrite <- list_fmap_compose.
  rewrite (list_fmap_ext _ id); [by rewrite list_fmap_id, String.string_of_list_ascii_of_string|].
  intros ? x _. simpl. apply Ascii.ascii_N_embedding.
Qed.

Lemma bytes_of_bytes l : Forall (λ b, b < 256) l → bytes (of_bytes l) = l.
Proof.
  intros Hl. unfold of_bytes, bytes. rewrite String.list_ascii_of_string_of_list_ascii.
  rewrite <- list_fmap_compose. rewrite <- (list_fmap_id l) at 2.
  apply list_fmap_ext. intros i x Hx. simpl. apply Ascii.N_ascii_embedding.
  rewrite Forall_forall in Hl. apply Hl. by eapply list_elem_of_lookup_2.
Qed.

Lemma bytes_lt_256 s : Forall (λ b, b < 256) (bytes s).
Proof.
  unfold bytes. apply Forall_fmap, Forall_forall. intros a _. simpl. apply Ascii.N_ascii_bounded.
Qed.

(** [str::chars]: the code points of a well-formed UTF-8 byte sequence. *)
Fixpoint decode_utf8 (l : list N) : list N :=
  match l with
  | [] => []
  | b0 :: l1 =>
      if decide (b0 < 128) then b0 :: decode_utf8 l1
      else match l1 with
      | [] => []
      | b1 :: l2 =>
          if decide (b0 < 224) then ((b0 - 192) * 64 + (b1 - 128)) :: decode_utf8 l2
          else match l2 with
          | [] => []
          | b2 :: l3 =>
              if decide (b0 < 240)
              then ((b0 - 224) * 4096 + (b1 - 128) * 64 + (b2 - 128)) :: decode_utf8 l3
              else match l3 with
              | [] => []
              | b3 :: l4 =>
                  ((b0 - 240) * 262144 + (b1 - 128) * 4096 + (b2 - 128) * 64 + (b3 - 128))
                    :: decode_utf8 l4
              end
          end
      end
  end.

(** [char::encode_utf8]. *)
Definition encode_char (c : N) : list N :=
  if decide (c < 128) then [c]
  else if decide (c < 2048) then [192 + c / 64; 128 + c mod 64]
  else if decide (c < 65536) then [224 + c / 4096; 128 + c / 64 mod 64; 128 + c mod 64]
  else [240 + c / 262144; 128 + c / 4096 mod 64; 128 + c / 64 mod 64; 128 + c mod 64].

Definition encode_utf8 (l : list N) : list N := flat_map encode_char l.

Definition chars (s : string) : list N := decode_utf8 (bytes s).
Definition of_chars (l : list N) : string := of_bytes (encode_utf8 l).

Lemma decode_encode_char c l :
  c < 1114112 → decode_utf8 (encode_char c ++ l) = c :: decode_utf8 l.
Proof.
  intros Hc. unfold encode_char.
  case_decide; [simpl; by rewrite decide_True|].
  case_decide.
  { simpl. rewrite decide_False, decide_True by lia. f_equal. lia. }
  case_decide.
  { simpl. rewrite decide_False, decide_False, decide_True by lia. f_equal. lia. }
  simpl. rewrite decide_False, decide_False, decide_False by lia. f_equal. lia.
Qed.

(** Every sequence of Unicode scalar values survives encoding and decoding. *)
Lemma decode_encode_utf8 l :
  Forall (λ c, c < 1114112) l → decode_utf8 (encode_utf8 l) = l.
Proof.
  induction l as [|c l IH]; intros Hl; [done|]. apply Forall_cons in Hl as [Hc Hl].
  simpl. rewrite decode_encode_char by done. by rewrite IH.
Qed.

(** On ASCII text bytes and characters coincide. *)
Definition is_ascii_text (l : list N) : Prop := Forall (λ c, c < 128) l.

Lemma decode_ascii l : is_ascii_text l → decode_utf8 l = l.
Proof.
  induction 1 as [|c l Hc Hl IH]; [done|]. simpl. by rewrite decide_True, IH.
Qed.

Lemma encode_ascii l : is_ascii_text l → encode_utf8 l = l.
Proof.
  induction 1 as [|c l Hc Hl IH]; [done|]. simpl. rewrite IH.
  unfold encode_char. by rewrite decide_True.
Qed.

(** ** [trim] and ASCII case *)

(** [char::is_whitespace]: the Unicode property White_Space. *)
Definition is_whitespace (c : N) : bool :=
  bool_decide (9 ≤ c ≤ 13 ∨ c = 32 ∨ c = 133 ∨ c = 160 ∨ c = 5760 ∨ 8192 ≤ c ≤ 8202 ∨
               c = 8232 ∨ c = 8233 ∨ c = 8239 ∨ c = 8287 ∨ c = 12288).

Fixpoint drop_while {A} (f : A → bool) (l : list A) : list A :=
  match l with
  | [] => []
  | x :: l' => if f x then drop_while f l' else l
  end.

Definition trim_chars (l : list N) : list N :=
  reverse (drop_while is_whitespace (reverse (drop_while is_whitespace l))).

(** [str::trim]. *)
Definition trim (s : string) : string := of_chars (trim_chars (chars s)).

(** [s.trim().is_empty()]. *)
Definition is_blank (s : string) : bool := bool_decide (trim s = EmptyString).

Lemma drop_while_none {A} (f : A → bool) l : Forall (λ x, f x = false) l → drop_while f l = l.
Proof. destruct 1; simpl; [done|]. by rewrite H. Qed.

Lemma trim_chars_none l :
  Forall (λ c, is_whitespace c = false) l → trim_chars l = l.
Proof.
  intros H. unfold trim_chars. rewrite (drop_while_none _ l) by done.
  rewrite drop_while_none; [apply reverse_involutive|]. by apply Forall_reverse.
Qed.

Lemma drop_while_sublist {A} (f : A → bool) l : drop_while f l `sublist_of` l.
Proof.
  induction l as [|x l IH]; simpl; [constructor|]. destruct (f x); [by constructor | done].
Qed.

(** [char::to_ascii_lowercase] / [u8::to_ascii_lowercase]. *)
Definition ascii_lower (c : N) : N := if decide (65 ≤ c ≤ 90) then c + 32 else c.

Definition to_ascii_lowercase (s : string) : string := of_bytes (ascii_lower <$> bytes s).

Definition eq_ignore_ascii_case (a b : string) : bool :=
  bool_decide (to_ascii_lowercase a = to_ascii_lowercase b).

Definition is_ascii_alphanumeric (c : N) : bool :=
  bool_decide (48 ≤ c ≤ 57 ∨ 65 ≤ c ≤ 90 ∨ 97 ≤ c ≤ 122).

(** ** IP addresses *)

Inductive IpAddr :=
| IpAddr_V4 (octets : N)      (* 32 bits, big endian *)
| IpAddr_V6 (segments : N).   (* 128 bits, big endian *)

#[export] Instance IpAddr_eq_dec : EqDecision IpAddr.
Proof. solve_decision. Defined.

Definition ip_wf (ip : IpAddr) : Prop :=
  match ip with IpAddr_V4 a => a < 2 ^ 32 | IpAddr_V6 a => a < 2 ^ 128 end.

Definition ip_is_unspecified (ip : IpAddr) : bool :=
  match ip with IpAddr_V4 a | IpAddr_V6 a => bool_decide (a = 0) end.

Definition ip_is_ipv6 (ip : IpAddr) : bool :=
  match ip with IpAddr_V4 _ => false | IpAddr_V6 _ => true end.

(** [Ipv6Addr::to_ipv4_mapped]: [::ffff:a.b.c.d]. *)
Definition to_ipv4_mapped (a : N) : option N :=
  if decide (a / 2 ^ 32 = 65535) then Some (a mod 2 ^ 32) else None.

Definition ipv4_octet (a : N) (i : N) : N := a / 2 ^ (8 * (3 - i)) mod 256.

(** [Display for Ipv4Addr]: dotted decimal. *)
Definition ipv4_to_string (a : N) : string :=
  pretty (ipv4_octet a 0) +:+ "." +:+ pretty (ipv4_octet a 1) +:+ "." +:+
  pretty (ipv4_octet a 2) +:+ "." +:+ pretty (ipv4_octet a 3).

Definition hex_digit (d : N) : string :=
  of_bytes [if decide (d < 10) then 48 + d else 87 + d].

(** [{:x}] of a [u16]: lower-case hexadecimal without leading zeros. *)
Definition hex16 (v : N) : string :=
  let d3 := v / 4096 mod 16 in let d2 := v / 256 mod 16 in
  let d1 := v / 16 mod 16 in let d0 := v mod 16 in
  if decide (v < 16) then hex_digit d0
  else if decide (v < 256) then hex_digit d1 +:+ hex_digit d0
  else if decide (v < 4096) then hex_digit d2 +:+ hex_digit d1 +:+ hex_digit d0
  else hex_digit d3 +:+ hex_digit d2 +:+ hex_digit d1 +:+ hex_digit d0.

Definition ipv6_segments (a : N) : list N :=
  (λ i, a / 2 ^ (16 * (7 - N.of_nat i)) mod 65536) <$> seq 0 8.

(** The longest run of zero segments, the first one among equals: the scan of
    [Ipv6Addr]'s [Display], as (start, length) pairs of the longest and of the
    current run. *)
Fixpoint zero_run (i : nat) (segments : list N) (longest current : nat * nat) : nat * nat :=
  match segments with
  | [] => longest
  | s :: rest =>
      if decide (s = 0) then
        let current := ((if decide (current.2 = 0%nat) then i else current.1), S current.2) in
        let longest := if decide (longest.2 < current.2)%nat then current else longest in
        zero_run (S i) rest longest current
      else zero_run (S i) rest longest (0, 0)%nat
  end.

Fixpoint join (sep : string) (l : list string) : string :=
  match l with
  | [] => EmptyString
  | [x] => x
  | x :: l' => x +:+ sep +:+ join sep l'
  end.

(** [Display for Ipv6Addr]. *)
Definition ipv6_to_string (a : N) : string :=
  match to_ipv4_mapped a with
  | Some v4 => "::ffff:" +:+ ipv4_to_string v4
  | None =>
      let segments := ipv6_segments a in
      let '(start, len) := zero_run 0 segments (0, 0)%nat (0, 0)%nat in
      if decide (1 < len)%nat
      then join ":" (hex16 <$> take start segments) +:+ "::" +:+
           join ":" (hex16 <$> drop (start + len) segments)
      else join ":" (hex16 <$> segments)
  end.

Definition ip_to_string (ip : IpAddr) : string :=
  match ip with
  | IpAddr_V4 a => ipv4_to_string a
  | IpAddr_V6 a => ipv6_to_string a
  end.

Example ipv4_display : ip_to_string (IpAddr_V4 3221225994) = "192.0.2.10".
Proof. reflexivity. Qed.

Example ipv6_display_loopback : ip_to_string (IpAddr_V6 1) = "::1".
Proof. reflexivity. Qed.

Example ipv6_display_run :
  ip_to_string (IpAddr_V6 (8193 * 2 ^ 112 + 3512 * 2 ^ 96 + 1)) = "2001:db8::1".
Proof. reflexivity. Qed.

Example ipv6_display_mapped :
  ip_to_string (IpAddr_V6 (65535 * 2 ^ 32 + 3221225994)) = "::ffff:192.0.2.10".
Proof. reflexivity. Qed.

Record SocketAddr := { sa_ip : IpAddr; sa_port : N }.

#[export] Instance SocketAddr_eq_dec : EqDecision SocketAddr.
Proof. solve_decision. Defined.
