(* ===== verification/LocalLimits.v ===== *)
(** * Local rate and concurrency limits

    Models [crates/runtime/src/local_limits.rs]: limit keys, the fixed-window
    rate limiter with a bounded number of tracked keys, and the concurrency
    limiter whose leases give their slot back when they are dropped.  The state
    of each limiter is behind one mutex, so a call is one atomic step. *)

From S2P Require Import Prelude RustStr.
Local Open Scope N_scope.
Local Open Scope rust_scope.

Definition MAX_NORMALIZED_COMPONENT_LEN : nat := 64.

Inductive LocalLimitScope :=
| LocalLimitScope_Listener (name : string)
| LocalLimitScope_Route (name : string)
| LocalLimitScope_RouteDestination (route upstream_cluster : string)
| LocalLimitScope_UpstreamCluster (name : string).

Inductive LocalLimitKeyKind :=
| LocalLimitKeyKind_Global
| LocalLimitKeyKind_SourceIp
| LocalLimitKeyKind_RouteName
| LocalLimitKeyKind_UpstreamCluster.

Record LimitContext := {
  source_ip : option IpAddr;
  route_name : option string;
  upstream_cluster : option string
}.

Inductive LocalLimitError :=
| EmptyScopeName
| ZeroRateLimit
| ZeroRateWindow
| ZeroConcurrencyLimit
| ZeroTrackedKeys
| ConcurrencyLimitExceeded
| StateSaturated.

(** ** Keys *)

Definition normalize_char (ch : N) : N :=
  if decide (is_ascii_alphanumeric ch = true ∨ ch = 45 ∨ ch = 95 ∨ ch = 46 ∨ ch = 58)
  then ascii_lower ch
  else 95.

(** The loop over the characters; [normalized] is the output buffer, whose
    characters are all ASCII, so its length in bytes is its number of characters. *)
Fixpoint normalize_loop (normalized cs : list N) : list N :=
  match cs with
  | [] => normalized
  | ch :: cs =>
      if decide (length normalized = MAX_NORMALIZED_COMPONENT_LEN) then normalized
      else normalize_loop (normalized ++ [normalize_char ch]) cs
  end.

Definition normalize_component (value : string) : string :=
  let normalized := normalize_loop [] (chars (trim value)) in
  if decide (normalized = []) then "missing" else of_bytes normalized.

Definition validate_scope (scope : LocalLimitScope) : Result unit LocalLimitError :=
  let nonempty (s : string) := negb (bool_decide (normalize_component s = EmptyString)) in
  let valid :=
    match scope with
    | LocalLimitScope_Listener name
    | LocalLimitScope_Route name
    | LocalLimitScope_UpstreamCluster name => nonempty name
    | LocalLimitScope_RouteDestination route upstream_cluster =>
        nonempty route && nonempty upstream_cluster
    end in
  if valid then Ok tt else Err EmptyScopeName.

Definition normalize_limit_key (scope : LocalLimitScope) (key_kind : LocalLimitKeyKind)
    (context : LimitContext) : string :=
  let scope_prefix :=
    match scope with
    | LocalLimitScope_Listener name => "listener:" +:+ normalize_component name
    | LocalLimitScope_Route name => "route:" +:+ normalize_component name
    | LocalLimitScope_RouteDestination route upstream_cluster =>
        "route-destination:" +:+ normalize_component route +:+ ":" +:+
        normalize_component upstream_cluster
    | LocalLimitScope_UpstreamCluster name => "upstream:" +:+ normalize_component name
    end in
  let key_value :=
    match key_kind with
    | LocalLimitKeyKind_Global => "global"
    | LocalLimitKeyKind_SourceIp =>
        match context.(source_ip) with Some ip => ip_to_string ip | None => "missing" end
    | LocalLimitKeyKind_RouteName =>
        match context.(route_name) with Some n => normalize_component n | None => "missing" end
    | LocalLimitKeyKind_UpstreamCluster =>
        match context.(upstream_cluster) with
        | Some n => normalize_component n | None => "missing" end
    end in
  scope_prefix +:+ "|key:" +:+ key_value.

(** ** Rate limiter *)

Record LocalRateLimitConfig := {
  rl_scope : LocalLimitScope;
  rl_key_kind : LocalLimitKeyKind;
  requests_per_window : N;
  rl_window : Duration;
  rl_max_tracked_keys : N
}.

Definition LocalRateLimitConfig_validate (c : LocalRateLimitConfig) :
    Result unit LocalLimitError :=
  let? _ := validate_scope c.(rl_scope) in
  if decide (c.(requests_per_window) = 0) then Err ZeroRateLimit
  else if decide (c.(rl_window) = 0) then Err ZeroRateWindow
  else if decide (c.(rl_max_tracked_keys) = 0) then Err ZeroTrackedKeys
  else Ok tt.

Record RateWindowState := {
  rw_window_started : Duration;
  rw_count : N;
  rw_last_seen_tick : N
}.

Record LocalRateLimiter := {
  rl_config : LocalRateLimitConfig;
  rl_state : gmap string RateWindowState;
  rl_allowed_count : N;
  rl_rate_limited_count : N
}.

Record RateLimitDecision := {
  rd_allowed : bool;
  rd_remaining : N;
  rd_retry_after : option Duration
}.

Definition LocalRateLimiter_new (config : LocalRateLimitConfig) :
    Result LocalRateLimiter LocalLimitError :=
  let? _ := LocalRateLimitConfig_validate config in
  Ok {| rl_config := config; rl_state := ∅; rl_allowed_count := 0; rl_rate_limited_count := 0 |}.

Definition duration_tick (value : Duration) : N := N.min (as_millis value) u64_max.

Definition evict_oldest_key (state : gmap string RateWindowState) : gmap string RateWindowState :=
  match min_by_key (λ e, e.2.(rw_last_seen_tick)) (btree_iter state) with
  | Some (oldest_key, _) => delete oldest_key state
  | None => state
  end.

Definition map_len {V} (m : gmap string V) : N := N.of_nat (size m).

Definition LocalRateLimiter_check (l : LocalRateLimiter) (now : Duration)
    (context : LimitContext) : LocalRateLimiter * Result RateLimitDecision LocalLimitError :=
  let config := l.(rl_config) in
  let key := normalize_limit_key config.(rl_scope) config.(rl_key_kind) context in
  let now_tick := duration_tick now in
  let state := l.(rl_state) in
  let state :=
    if decide (state !! key = None ∧ map_len state = config.(rl_max_tracked_keys))
    then evict_oldest_key state else state in
  if decide (state !! key = None ∧ map_len state = config.(rl_max_tracked_keys))
  then ({| rl_config := config; rl_state := state;
           rl_allowed_count := l.(rl_allowed_count);
           rl_rate_limited_count := fetch_add l.(rl_rate_limited_count) 1 |},
        Err StateSaturated)
  else
    let entry := default {| rw_window_started := now; rw_count := 0;
                            rw_last_seen_tick := now_tick |} (state !! key) in
    let entry :=
      if decide (config.(rl_window) ≤ now - entry.(rw_window_started))
      then {| rw_window_started := now; rw_count := 0;
              rw_last_seen_tick := entry.(rw_last_seen_tick) |}
      else entry in
    let entry := {| rw_window_started := entry.(rw_window_started);
                    rw_count := entry.(rw_count); rw_last_seen_tick := now_tick |} in
    if decide (config.(requests_per_window) ≤ entry.(rw_count))
    then
      let retry_after := config.(rl_window) - (now - entry.(rw_window_started)) in
      ({| rl_config := config; rl_state := <[key := entry]> state;
          rl_allowed_count := l.(rl_allowed_count);
          rl_rate_limited_count := fetch_add l.(rl_rate_limited_count) 1 |},
       Ok {| rd_allowed := false; rd_remaining := 0; rd_retry_after := Some retry_after |})
    else
      let entry := {| rw_window_started := entry.(rw_window_started);
                      rw_count := entry.(rw_count) + 1; rw_last_seen_tick := now_tick |} in
      ({| rl_config := config; rl_state := <[key := entry]> state;
          rl_allowed_count := fetch_add l.(rl_allowed_count) 1;
          rl_rate_limited_count := l.(rl_rate_limited_count) |},
       Ok {| rd_allowed := true;
             rd_remaining := config.(requests_per_window) - entry.(rw_count);
             rd_retry_after := None |}).

Record LocalRateLimiterMetrics := {
  rlm_allowed_count : N;
  rlm_rate_limited_count : N;
  rlm_tracked_keys : N
}.

Definition LocalRateLimiter_metrics (l : LocalRateLimiter) : LocalRateLimiterMetrics :=
  {| rlm_allowed_count := l.(rl_allowed_count);
     rlm_rate_limited_count := l.(rl_rate_limited_count);
     rlm_tracked_keys := map_len l.(rl_state) |}.

(** ** Concurrency limiter *)

Record LocalConcurrencyLimitConfig := {
  cl_scope : LocalLimitScope;
  cl_key_kind : LocalLimitKeyKind;
  max_concurrent : N;
  cl_max_tracked_keys : N
}.

Definition LocalConcurrencyLimitConfig_validate (c : LocalConcurrencyLimitConfig) :
    Result unit LocalLimitError :=
  let? _ := validate_scope c.(cl_scope) in
  if decide (c.(max_concurrent) = 0) then Err ZeroConcurrencyLimit
  else if decide (c.(cl_max_tracked_keys) = 0) then Err ZeroTrackedKeys
  else Ok tt.

Record ConcurrencyState := {
  counts : gmap string N;
  active_concurrency : N;
  acquired_count : N;
  concurrency_rejection_count : N
}.

Record LocalConcurrencyLimiter := {
  cl_config : LocalConcurrencyLimitConfig;
  cl_state : ConcurrencyState
}.

(** A lease is the key it holds a slot of; its [Weak] pointer leads to the
    limiter's state. *)
Record LocalConcurrencyLease := { lease_key : string }.

Definition LocalConcurrencyLimiter_new (config : LocalConcurrencyLimitConfig) :
    Result LocalConcurrencyLimiter LocalLimitError :=
  let? _ := LocalConcurrencyLimitConfig_validate config in
  Ok {| cl_config := config;
        cl_state := {| counts := ∅; active_concurrency := 0; acquired_count := 0;
                       concurrency_rejection_count := 0 |} |}.

Definition LocalConcurrencyLimiter_try_acquire (l : LocalConcurrencyLimiter)
    (context : LimitContext) :
    LocalConcurrencyLimiter * Result LocalConcurrencyLease LocalLimitError :=
  let config := l.(cl_config) in
  let st := l.(cl_state) in
  let key := normalize_limit_key config.(cl_scope) config.(cl_key_kind) context in
  let rejected counts :=
    {| cl_config := config;
       cl_state := {| counts := counts; active_concurrency := st.(active_concurrency);
                      acquired_count := st.(acquired_count);
                      concurrency_rejection_count :=
                        fetch_add st.(concurrency_rejection_count) 1 |} |} in
  if decide (st.(counts) !! key = None ∧ map_len st.(counts) = config.(cl_max_tracked_keys))
  then (rejected st.(counts), Err StateSaturated)
  else
    let current := default 0 (st.(counts) !! key) in
    if decide (config.(max_concurrent) ≤ current)
    then (rejected (<[key := current]> st.(counts)), Err ConcurrencyLimitExceeded)
    else
      ({| cl_config := config;
          cl_state := {| counts := <[key := current + 1]> st.(counts);
                         active_concurrency := fetch_add st.(active_concurrency) 1;
                         acquired_count := fetch_add st.(acquired_count) 1;
                         concurrency_rejection_count := st.(concurrency_rejection_count) |} |},
       Ok {| lease_key := key |}).

(** [Drop for LocalConcurrencyLease], while the limiter is alive;
    [fetch_sub(1)] wraps at zero. *)
Definition LocalConcurrencyLease_drop (l : LocalConcurrencyLimiter)
    (lease : LocalConcurrencyLease) : LocalConcurrencyLimiter :=
  let st := l.(cl_state) in
  match st.(counts) !! lease.(lease_key) with
  | None => l
  | Some count =>
      let count := count - 1 in
      {| cl_config := l.(cl_config);
         cl_state := {| counts := if decide (count = 0)
                                  then delete lease.(lease_key) st.(counts)
                                  else <[lease.(lease_key) := count]> st.(counts);
                        active_concurrency :=
                          wrapping_add64 st.(active_concurrency) u64_max;
                        acquired_count := st.(acquired_count);
                        concurrency_rejection_count := st.(concurrency_rejection_count) |} |}
  end.

Record LocalConcurrencyLimiterMetrics := {
  clm_acquired_count : N;
  clm_concurrency_rejection_count : N;
  clm_active_concurrency : N;
  clm_tracked_keys : N
}.

Definition LocalConcurrencyLimiter_metrics (l : LocalConcurrencyLimiter) :
    LocalConcurrencyLimiterMetrics :=
  let st := l.(cl_state) in
  {| clm_acquired_count := st.(acquired_count);
     clm_concurrency_rejection_count := st.(concurrency_rejection_count);
     clm_active_concurrency := st.(active_concurrency);
     clm_tracked_keys := map_len st.(counts) |}.

(** ** Theorems: limit keys *)

(** Bytes that [normalize_char] produces. *)
Definition is_normalized (c : N) : Prop :=
  48 ≤ c ≤ 57 ∨ 97 ≤ c ≤ 122 ∨ c = 45 ∨ c = 95 ∨ c = 46 ∨ c = 58.

Lemma normalize_char_normalized c : is_normalized (normalize_char c).
Proof.
  unfold normalize_char, is_normalized, is_ascii_alphanumeric, ascii_lower.
  case_decide as H; [|lia]. rewrite bool_decide_eq_true in H. case_decide; lia.
Qed.

Lemma normalize_char_fixed c : is_normalized c → normalize_char c = c.
Proof.
  unfold normalize_char, is_normalized, is_ascii_alphanumeric, ascii_lower. intros H.
  rewrite decide_True by (rewrite bool_decide_eq_true; lia). case_decide; lia.
Qed.

Lemma normalize_loop_take cs : ∀ acc,
  (length acc ≤ MAX_NORMALIZED_COMPONENT_LEN)%nat →
  normalize_loop acc cs =
    acc ++ take (MAX_NORMALIZED_COMPONENT_LEN - length acc) (normalize_char <$> cs).
Proof.
  induction cs as [|c cs IH]; intros acc Hacc; simpl; [by rewrite take_nil, app_nil_r|].
  case_decide as E.
  - by rewrite E, Nat.sub_diag, app_nil_r.
  - rewrite IH by (rewrite length_app; simpl; lia). rewrite length_app; simpl.
    replace (MAX_NORMALIZED_COMPONENT_LEN - length acc)%nat
      with (S (MAX_NORMALIZED_COMPONENT_LEN - (length acc + 1))) by lia.
    simpl. by rewrite <- app_assoc.
Qed.

Lemma normalize_component_cases s :
  let out := take MAX_NORMALIZED_COMPONENT_LEN (normalize_char <$> chars (trim s)) in
  normalize_component s = if decide (out = []) then "missing" else of_bytes out.
Proof.
  unfold normalize_component. rewrite normalize_loop_take by (simpl; lia). simpl length.
  by rewrite Nat.sub_0_r, app_nil_l.
Qed.

Lemma Forall_normalized_take (n : nat) cs :
  Forall is_normalized (take n (normalize_char <$> cs)).
Proof. apply Forall_take, Forall_fmap, Forall_true. intros c. apply normalize_char_normalized. Qed.

Lemma bytes_of_normalized l : Forall is_normalized l → bytes (of_bytes l) = l.
Proof.
  intros H. apply bytes_of_bytes. eapply Forall_impl; [exact H|].
  unfold is_normalized. intros c ?. simpl in *. lia.
Qed.

Lemma normalize_component_fixed l :
  Forall is_normalized l → l ≠ [] → (length l ≤ MAX_NORMALIZED_COMPONENT_LEN)%nat →
  normalize_component (of_bytes l) = of_bytes l.
Proof.
  intros Hn Hne Hlen. rewrite normalize_component_cases.
  assert (Hascii : is_ascii_text l).
  { eapply Forall_impl; [exact Hn|]. unfold is_normalized. intros c ?. simpl in *. lia. }
  assert (Htrim : chars (trim (of_bytes l)) = l).
  { unfold trim, chars. rewrite bytes_of_normalized, (decode_ascii l) by done.
    rewrite trim_chars_none.
    - unfold of_chars. by rewrite encode_ascii, bytes_of_normalized, decode_ascii.
    - eapply Forall_impl; [exact Hn|]. unfold is_normalized, is_whitespace. intros c ?.
      apply bool_decide_eq_false. simpl in *. lia. }
  rewrite Htrim. rewrite (list_fmap_ext normalize_char id), list_fmap_id.
  2: { intros i c Hc. simpl. apply normalize_char_fixed. rewrite Forall_forall in Hn.
       apply Hn. by eapply list_elem_of_lookup_2. }
  rewrite take_ge by done. by rewrite decide_False.
Qed.

Lemma missing_normalized :
  "missing" = of_bytes [109; 105; 115; 115; 105; 110; 103] ∧
  Forall is_normalized [109; 105; 115; 115; 105; 110; 103].
Proof. split; [done|]. repeat (constructor; [unfold is_normalized; lia|]). constructor. Qed.

(** A normalised key component consists of 1 to 64 bytes from
    [[a-z0-9-_.:]], and normalising it again changes nothing. *)
Theorem normalize_component_spec (s : string) :
  let n := normalize_component s in
  Forall is_normalized (bytes n) ∧
  (0 < length (bytes n) ≤ MAX_NORMALIZED_COMPONENT_LEN)%nat ∧
  normalize_component n = n.
Proof.
  intros n. unfold n. rewrite normalize_component_cases.
  destruct missing_normalized as [Hm Hmn]. case_decide as E.
  - rewrite Hm, bytes_of_normalized by done.
    split; [done|]. split; [unfold MAX_NORMALIZED_COMPONENT_LEN; simpl; lia|].
    apply normalize_component_fixed; [done | done | unfold MAX_NORMALIZED_COMPONENT_LEN; simpl; lia].
  - set (out := take _ _) in *.
    assert (Hout : Forall is_normalized out) by apply Forall_normalized_take.
    assert (Hlen : (length out ≤ MAX_NORMALIZED_COMPONENT_LEN)%nat)
      by (unfold out; rewrite length_take; lia).
    rewrite bytes_of_normalized by done.
    split; [done|]. split; [destruct out; [done | simpl in *; lia]|].
    by apply normalize_component_fixed.
Qed.

Lemma validate_scope_ok (scope : LocalLimitScope) : validate_scope scope = Ok tt.
Proof.
  assert (Hne : ∀ s, bool_decide (normalize_component s = EmptyString) = false).
  { intros s. apply bool_decide_eq_false. intros E.
    pose proof (normalize_component_cases s) as Hc. cbv zeta in Hc. rewrite E in Hc.
    case_decide as Ho; [done|].
    apply (f_equal bytes) in Hc. rewrite bytes_of_normalized in Hc by apply Forall_normalized_take.
    done. }
  unfold validate_scope. destruct scope; rewrite !Hne; done.
Qed.

(** Scope validation accepts every scope, blank names included: the error
    [EmptyScopeName] cannot occur, because [normalize_component] replaces an empty
    name by ["missing"]. *)
Theorem validate_scope_never_rejects (scope : LocalLimitScope) : validate_scope scope = Ok tt.
Proof. apply validate_scope_ok. Qed.

(** ** Theorems: rate limiter *)

Definition rate_inv (l : LocalRateLimiter) : Prop :=
  let c := l.(rl_config) in
  0 < c.(requests_per_window) ∧ 0 < c.(rl_window) ∧ 0 < c.(rl_max_tracked_keys) ∧
  map_len l.(rl_state) ≤ c.(rl_max_tracked_keys) ∧
  map_Forall (λ _ e, e.(rw_count) ≤ c.(requests_per_window)) l.(rl_state).

Definition rate_key (l : LocalRateLimiter) (context : LimitContext) : string :=
  normalize_limit_key l.(rl_config).(rl_scope) l.(rl_config).(rl_key_kind) context.

(** The entry of a key at [now], after creation or window restart. *)
Definition window_entry (c : LocalRateLimitConfig) (now : Duration)
    (o : option RateWindowState) : RateWindowState :=
  match o with
  | Some e => if decide (c.(rl_window) ≤ now - e.(rw_window_started))
              then {| rw_window_started := now; rw_count := 0;
                      rw_last_seen_tick := duration_tick now |}
              else {| rw_window_started := e.(rw_window_started); rw_count := e.(rw_count);
                      rw_last_seen_tick := duration_tick now |}
  | None => {| rw_window_started := now; rw_count := 0;
               rw_last_seen_tick := duration_tick now |}
  end.

Definition bump (e : RateWindowState) (n : N) : RateWindowState :=
  {| rw_window_started := e.(rw_window_started); rw_count := e.(rw_count) + n;
     rw_last_seen_tick := e.(rw_last_seen_tick) |}.

Lemma bump_0 e : bump e 0 = e.
Proof. destruct e. unfold bump; simpl. by rewrite N.add_0_r. Qed.

Lemma evict_oldest_key_delete st :
  st ≠ ∅ → ∃ k, is_Some (st !! k) ∧ evict_oldest_key st = delete k st.
Proof.
  intros Hne. unfold evict_oldest_key.
  destruct (min_by_key _ (btree_iter st)) as [[k e]|] eqn:E.
  - apply min_by_key_spec in E as [Hin _]. apply elem_of_btree_iter in Hin. eauto.
  - apply min_by_key_None in E. by apply btree_iter_nil in E.
Qed.

Definition make_room (c : LocalRateLimitConfig) (st : gmap string RateWindowState)
    (key : string) : gmap string RateWindowState :=
  if decide (st !! key = None ∧ map_len st = c.(rl_max_tracked_keys))
  then evict_oldest_key st else st.

(** Making room evicts at most one other key, and only when the table is full
    and the key is new; afterwards the key fits. *)
Lemma make_room_spec (c : LocalRateLimitConfig) st key :
  0 < c.(rl_max_tracked_keys) → map_len st ≤ c.(rl_max_tracked_keys) →
  (make_room c st key = st ∨
   (st !! key = None ∧ map_len st = c.(rl_max_tracked_keys) ∧
    ∃ k, k ≠ key ∧ make_room c st key = delete k st)) ∧
  make_room c st key !! key = st !! key ∧
  (make_room c st key !! key = None → map_len (make_room c st key) < c.(rl_max_tracked_keys)) ∧
  (∀ v, map_len (<[key := v]> (make_room c st key)) ≤ c.(rl_max_tracked_keys)).
Proof.
  intros Hpos Hle. unfold make_room. case_decide as Hd.
  - destruct Hd as [Hnone Hfull].
    destruct (evict_oldest_key_delete st) as (k & [e He] & ->).
    { intros ->. unfold map_len in Hfull. rewrite map_size_empty in Hfull. simpl in *. lia. }
    assert (k ≠ key) by congruence.
    assert (Hsz : size (delete k st) = pred (size st)) by (apply map_size_delete_Some; eauto).
    assert (Hlt : map_len (delete k st) < c.(rl_max_tracked_keys))
      by (unfold map_len in *; rewrite Hsz; lia).
    split_and!; [right; eauto | by rewrite lookup_delete_ne | done |].
    intros v. unfold map_len in *. rewrite map_size_insert_None; [lia|].
    by rewrite lookup_delete_ne.
  - split_and!; [by left | done | intros Hn; assert (map_len st ≠ c.(rl_max_tracked_keys));
      [naive_solver | lia] |].
    intros v. unfold map_len in *. destruct (st !! key) eqn:E.
    + rewrite map_size_insert_Some by eauto. lia.
    + rewrite map_size_insert_None by done.
      assert (N.of_nat (size st) ≠ c.(rl_max_tracked_keys)) by naive_solver. lia.
Qed.

(** One call, in closed form: it always yields a decision. *)
Lemma LocalRateLimiter_check_eq l now ctx :
  rate_inv l →
  let c := l.(rl_config) in
  let st := make_room c l.(rl_state) (rate_key l ctx) in
  let e := window_entry c now (l.(rl_state) !! rate_key l ctx) in
  LocalRateLimiter_check l now ctx =
    if decide (c.(requests_per_window) ≤ e.(rw_count))
    then ({| rl_config := c; rl_state := <[rate_key l ctx := e]> st;
             rl_allowed_count := l.(rl_allowed_count);
             rl_rate_limited_count := fetch_add l.(rl_rate_limited_count) 1 |},
          Ok {| rd_allowed := false; rd_remaining := 0;
                rd_retry_after := Some (c.(rl_window) - (now - e.(rw_window_started))) |})
    else ({| rl_config := c; rl_state := <[rate_key l ctx := bump e 1]> st;
             rl_allowed_count := fetch_add l.(rl_allowed_count) 1;
             rl_rate_limited_count := l.(rl_rate_limited_count) |},
          Ok {| rd_allowed := true;
                rd_remaining := c.(requests_per_window) - (e.(rw_count) + 1);
                rd_retry_after := None |}).
Proof.
  intros (? & Hw & Hmax & Hlen & _). intros c st e.
  destruct (make_room_spec c l.(rl_state) (rate_key l ctx) Hmax Hlen) as (_ & Hkey & Hroom & _).
  unfold LocalRateLimiter_check. fold (rate_key l ctx).
  change (if decide (rl_state l !! rate_key l ctx = None ∧ _) then _ else _) with st.
  rewrite decide_False by (fold c st in Hroom; intros [? ?]; unfold c in *; naive_solver lia).
  fold st in Hkey. rewrite Hkey. unfold e, window_entry.
  destruct (rl_state l !! rate_key l ctx) as [e0|]; simpl.
  - fold c. repeat case_decide; done.
  - fold c. rewrite (decide_False (P := rl_window c ≤ now - now)) by (unfold c; lia). simpl.
    repeat case_decide; done.
Qed.

Lemma window_entry_count c now o :
  (∀ e, o = Some e → e.(rw_count) ≤ c.(requests_per_window)) →
  (window_entry c now o).(rw_count) ≤ c.(requests_per_window).
Proof. intros H. unfold window_entry. destruct o as [e|]; [case_decide|]; simpl; auto; lia. Qed.

Lemma LocalRateLimiter_check_inv l now ctx :
  rate_inv l →
  rate_inv (LocalRateLimiter_check l now ctx).1 ∧
  (LocalRateLimiter_check l now ctx).1.(rl_config) = l.(rl_config).
Proof.
  intros Hi. rewrite LocalRateLimiter_check_eq by done.
  destruct Hi as (Hr & Hw & Hmax & Hlen & Hall).
  destruct (make_room_spec l.(rl_config) l.(rl_state) (rate_key l ctx) Hmax Hlen)
    as (Hst & _ & _ & Hins).
  assert (He := window_entry_count l.(rl_config) now (l.(rl_state) !! rate_key l ctx)
                  (λ e, Hall _ e)).
  assert (Hrest : map_Forall (λ _ e, e.(rw_count) ≤ l.(rl_config).(requests_per_window))
                    (make_room l.(rl_config) l.(rl_state) (rate_key l ctx))).
  { destruct Hst as [->|(_ & _ & k & _ & ->)]; [done|]. by apply map_Forall_delete. }
  case_decide; simpl; (split; [|done]); unfold rate_inv; simpl;
    (split_and!; [done..|]); apply map_Forall_insert_2; simpl; auto; lia.
Qed.

Inductive rate_reachable (c : LocalRateLimitConfig) : LocalRateLimiter → Prop :=
| rate_reachable_new l : LocalRateLimiter_new c = Ok l → rate_reachable c l
| rate_reachable_check l now ctx :
    rate_reachable c l → rate_reachable c (LocalRateLimiter_check l now ctx).1.

Lemma LocalRateLimiter_new_inv c l : LocalRateLimiter_new c = Ok l → rate_inv l ∧ l.(rl_config) = c.
Proof.
  unfold LocalRateLimiter_new, LocalRateLimitConfig_validate. intros H.
  destruct (validate_scope _); [|done]. repeat case_decide; simplify_eq.
  unfold rate_inv, map_len; simpl. rewrite map_size_empty.
  split; [|done]. split_and!; try lia. apply map_Forall_empty.
Qed.

Lemma rate_reachable_inv_config c l : rate_reachable c l → rate_inv l ∧ l.(rl_config) = c.
Proof.
  induction 1 as [l Hnew|l now ctx _ [Hi Hc]]; [by apply LocalRateLimiter_new_inv|].
  destruct (LocalRateLimiter_check_inv l now ctx Hi) as [? ?]. split; congruence.
Qed.

(** On every reachable state the rate limiter tracks at most
    [max_tracked_keys] keys, no key has used more than [requests_per_window] of
    its window, and the next [check] yields a decision: the [StateSaturated]
    branch of [check] is unreachable. *)
Theorem rate_limiter_bounded (c : LocalRateLimitConfig) (l : LocalRateLimiter)
  (Hreach : rate_reachable c l) :
  map_len l.(rl_state) ≤ c.(rl_max_tracked_keys) ∧
  (∀ k e, l.(rl_state) !! k = Some e → e.(rw_count) ≤ c.(requests_per_window)) ∧
  (∀ now ctx, is_ok (LocalRateLimiter_check l now ctx).2 = true).
Proof.
  apply rate_reachable_inv_config in Hreach as [Hi Hc]. split_and!.
  - rewrite <- Hc. apply Hi.
  - rewrite <- Hc. intros k e. apply Hi.
  - intros now ctx. rewrite LocalRateLimiter_check_eq by done. by case_decide.
Qed.

(** A history of calls; the result lists the key of each call and whether it
    was admitted. *)
Fixpoint LocalRateLimiter_run (l : LocalRateLimiter) (calls : list (Duration * LimitContext)) :
    LocalRateLimiter * list (string * bool) :=
  match calls with
  | [] => (l, [])
  | (now, ctx) :: calls =>
      let '(l1, r) := LocalRateLimiter_check l now ctx in
      let '(l2, rs) := LocalRateLimiter_run l1 calls in
      (l2, (rate_key l ctx, match r with Ok d => d.(rd_allowed) | Err _ => false end) :: rs)
  end.

Fixpoint admitted (k : string) (rs : list (string * bool)) : N :=
  match rs with
  | [] => 0
  | (k', a) :: rs => (if decide (k' = k) then if a then 1 else 0 else 0) + admitted k rs
  end.

Fixpoint calls_for (l : LocalRateLimiter) (k : string) (calls : list (Duration * LimitContext)) : N :=
  match calls with
  | [] => 0
  | (_, ctx) :: calls => (if decide (rate_key l ctx = k) then 1 else 0) + calls_for l k calls
  end.

Definition call_keys (l : LocalRateLimiter) (calls : list (Duration * LimitContext)) : gset string :=
  list_to_set ((λ call, rate_key l call.2) <$> calls).

(** How much of the window of [k] has been used. *)
Definition used (l : LocalRateLimiter) (k : string) : N :=
  match l.(rl_state) !! k with Some e => e.(rw_count) | None => 0 end.

(** The calls happen in the window of [k] that starts at [t0]. *)
Definition same_window (l : LocalRateLimiter) (k : string) (t0 : Duration)
    (calls : list (Duration * LimitContext)) : Prop :=
  (∀ e, l.(rl_state) !! k = Some e → t0 ≤ e.(rw_window_started)) ∧
  Forall (λ call, t0 ≤ call.1 < t0 + l.(rl_config).(rl_window)) calls.

(** No eviction: the tracked keys and those of the calls fit the table. *)
Definition table_fits (l : LocalRateLimiter) (calls : list (Duration * LimitContext)) : Prop :=
  N.of_nat (size (dom l.(rl_state) ∪ call_keys l calls)) ≤ l.(rl_config).(rl_max_tracked_keys).

Lemma make_room_fits l ctx :
  rate_inv l →
  N.of_nat (size (dom l.(rl_state) ∪ {[rate_key l ctx]})) ≤ l.(rl_config).(rl_max_tracked_keys) →
  make_room l.(rl_config) l.(rl_state) (rate_key l ctx) = l.(rl_state).
Proof.
  intros Hi Hfit. unfold make_room. apply decide_False. intros [Hn Hfull].
  rewrite size_union in Hfit by (apply not_elem_of_dom in Hn; set_solver).
  rewrite size_dom, size_singleton in Hfit. unfold map_len in Hfull. lia.
Qed.

(** One call inside the window, without eviction: the called key is charged one
    unit as long as there is room, all other keys are untouched. *)
Lemma check_in_window l now ctx k t0 :
  rate_inv l →
  N.of_nat (size (dom l.(rl_state) ∪ {[rate_key l ctx]})) ≤ l.(rl_config).(rl_max_tracked_keys) →
  (∀ e, l.(rl_state) !! k = Some e → t0 ≤ e.(rw_window_started)) →
  t0 ≤ now < t0 + l.(rl_config).(rl_window) →
  ∃ l' d, LocalRateLimiter_check l now ctx = (l', Ok d) ∧
    dom l'.(rl_state) = dom l.(rl_state) ∪ {[rate_key l ctx]} ∧
    (∀ e, l'.(rl_state) !! k = Some e → t0 ≤ e.(rw_window_started)) ∧
    used l' k = used l k +
      (if decide (rate_key l ctx = k) then if d.(rd_allowed) then 1 else 0 else 0) ∧
    (rate_key l ctx = k →
     d.(rd_allowed) = bool_decide (used l k < l.(rl_config).(requests_per_window))).
Proof.
  intros Hi Hfit Hk Hnow. rewrite LocalRateLimiter_check_eq by done.
  rewrite (make_room_fits l ctx Hi Hfit). unfold used.
  set (e := window_entry _ _ _).
  assert (He : rate_key l ctx = k → t0 ≤ e.(rw_window_started) ∧
                 e.(rw_count) = match l.(rl_state) !! k with Some e => e.(rw_count) | None => 0 end).
  { intros Ek. unfold e, window_entry. rewrite Ek. destruct (l.(rl_state) !! k) as [e0|] eqn:E0.
    - specialize (Hk _ eq_refl). rewrite decide_False by lia. done.
    - simpl. lia. }
  case_decide as Hd; (eexists _, _; split; [reflexivity|]); simpl.
  - split_and!; [rewrite dom_insert_L; apply (comm_L (∪)) | | |].
    + intros e' He'. destruct (decide (rate_key l ctx = k)) as [Ek|Ek].
      * rewrite Ek, lookup_insert_eq in He'. simplify_eq. by apply He.
      * rewrite lookup_insert_ne in He' by done. by apply Hk.
    + case_decide as Ek; [rewrite Ek, lookup_insert_eq; destruct (He Ek) as [_ ->]; lia|].
      rewrite lookup_insert_ne by done. lia.
    + intros Ek. destruct (He Ek) as [_ <-]. rewrite bool_decide_false by lia. done.
  - split_and!; [rewrite dom_insert_L; apply (comm_L (∪)) | | |].
    + intros e' He'. destruct (decide (rate_key l ctx = k)) as [Ek|Ek].
      * rewrite Ek, lookup_insert_eq in He'. simplify_eq/=. by apply He.
      * rewrite lookup_insert_ne in He' by done. by apply Hk.
    + case_decide as Ek; [rewrite Ek, lookup_insert_eq; simpl; destruct (He Ek) as [_ ->]; lia|].
      rewrite lookup_insert_ne by done. lia.
    + intros Ek. destruct (He Ek) as [_ <-]. rewrite bool_decide_true by lia. done.
Qed.

Lemma rate_key_config l l' ctx : l'.(rl_config) = l.(rl_config) → rate_key l' ctx = rate_key l ctx.
Proof. unfold rate_key. by intros ->. Qed.

Lemma calls_for_config l l' k calls :
  l'.(rl_config) = l.(rl_config) → calls_for l' k calls = calls_for l k calls.
Proof.
  intros H. induction calls as [|[t c] calls IH]; simpl; [done|]. by rewrite IH, (rate_key_config l l').
Qed.

Lemma call_keys_config l l' calls :
  l'.(rl_config) = l.(rl_config) → call_keys l' calls = call_keys l calls.
Proof.
  intros H. unfold call_keys. f_equal. apply list_fmap_ext. intros i [t c] _. simpl.
  by apply rate_key_config.
Qed.

(** Within one window, and while all keys fit the table, the number of calls
    admitted for a key is exactly the smaller of the number of calls made for it
    and what is left of [requests_per_window]. *)
Theorem rate_limit_exact (l : LocalRateLimiter) (calls : list (Duration * LimitContext))
  (k : string) (t0 : Duration)
  (Hinv : rate_inv l) (Hwindow : same_window l k t0 calls) (Hfits : table_fits l calls) :
  admitted k (LocalRateLimiter_run l calls).2 =
    N.min (calls_for l k calls) (l.(rl_config).(requests_per_window) - used l k).
Proof.
  revert l Hinv Hwindow Hfits.
  induction calls as [|[now ctx] calls IH]; intros l Hinv [Hk Hall] Hfits; [simpl; lia|].
  apply Forall_cons in Hall as [Hnow Hall]. unfold table_fits in Hfits.
  change (call_keys l ((now, ctx) :: calls))
    with ({[rate_key l ctx]} ∪ call_keys l calls) in Hfits.
  assert (Hfit1 : N.of_nat (size (dom l.(rl_state) ∪ {[rate_key l ctx]}))
                  ≤ l.(rl_config).(rl_max_tracked_keys)).
  { etransitivity; [|exact Hfits]. apply N_of_nat_le, subseteq_size, union_mono_l, union_subseteq_l. }
  destruct (check_in_window l now ctx k t0 Hinv Hfit1 Hk Hnow)
    as (l1 & d & E & Hdom & Hk1 & Hused & Hd).
  destruct (LocalRateLimiter_check_inv l now ctx Hinv) as [Hi1 Hc1].
  rewrite E in Hi1, Hc1. simpl in Hi1, Hc1. simpl. rewrite E.
  specialize (IH l1 Hi1). destruct (LocalRateLimiter_run l1 calls) as [l2 rs]. simpl in *.
  rewrite IH, (calls_for_config l l1), Hused, Hc1 by
    (done || (split; [done|]; by rewrite Hc1) ||
     (unfold table_fits; rewrite Hdom, (call_keys_config l l1), Hc1 by done;
      by rewrite <- (assoc_L (∪)))).
  assert (used l k ≤ l.(rl_config).(requests_per_window)).
  { unfold used. destruct (l.(rl_state) !! k) eqn:Ek; [|lia]. by eapply Hinv. }
  case_decide as Ek; [|lia]. rewrite (Hd Ek). case_bool_decide; lia.
Qed.

Definition sample_rate_config : LocalRateLimitConfig :=
  {| rl_scope := LocalLimitScope_Listener "public"; rl_key_kind := LocalLimitKeyKind_SourceIp;
     requests_per_window := 2; rl_window := from_secs 1; rl_max_tracked_keys := 8 |}.

Definition sample_rate_limiter : LocalRateLimiter :=
  {| rl_config := sample_rate_config; rl_state := ∅; rl_allowed_count := 0;
     rl_rate_limited_count := 0 |}.

Definition from_ip (a : N) : LimitContext :=
  {| source_ip := Some (IpAddr_V4 a); route_name := None; upstream_cluster := None |}.

Lemma rate_limiter_bounded_witness :
  map_len (LocalRateLimiter_check sample_rate_limiter 5 (from_ip 1)).1.(rl_state) ≤ 8 ∧
  is_ok (LocalRateLimiter_check
           (LocalRateLimiter_check sample_rate_limiter 5 (from_ip 1)).1 6 (from_ip 2)).2 = true.
Proof.
  assert (H : rate_reachable sample_rate_config
                (LocalRateLimiter_check sample_rate_limiter 5 (from_ip 1)).1).
  { apply rate_reachable_check, rate_reachable_new. reflexivity. }
  destruct (rate_limiter_bounded _ _ H) as (H1 & _ & H3).
  split; [exact H1 | apply H3].
Defined.

Lemma rate_limit_exact_witness :
  admitted "listener:public|key:0.0.0.1"
    (LocalRateLimiter_run sample_rate_limiter
       [(5, from_ip 1); (6, from_ip 2); (7, from_ip 1); (8, from_ip 1)]).2 = 2.
Proof.
  refine (rate_limit_exact sample_rate_limiter _ _ 5 _ _ _).
  - unfold rate_inv; simpl. split_and!; [vm_compute; (reflexivity || discriminate)..|].
    apply map_Forall_empty.
  - split; [intros e He; discriminate He|].
    repeat (constructor; [vm_compute; split; (reflexivity || discriminate)|]). constructor.
  - vm_compute. discriminate.
Defined.

(** ** Theorems: concurrency limiter

    The clients' view is the collection of leases that are still held.  A
    configuration of the system is the limiter together with that collection. *)

Definition held (k : string) (leases : list LocalConcurrencyLease) : N :=
  N.of_nat (length (filter (λ x, x.(lease_key) = k) leases)).

Inductive lease_step : LocalConcurrencyLimiter * list LocalConcurrencyLease →
                       LocalConcurrencyLimiter * list LocalConcurrencyLease → Prop :=
| lease_acquired l l' ctx lease leases :
    LocalConcurrencyLimiter_try_acquire l ctx = (l', Ok lease) →
    lease_step (l, leases) (l', lease :: leases)
| lease_refused l l' ctx e leases :
    LocalConcurrencyLimiter_try_acquire l ctx = (l', Err e) →
    lease_step (l, leases) (l', leases)
| lease_dropped l lease leases1 leases2 :
    lease_step (l, leases1 ++ lease :: leases2)
               (LocalConcurrencyLease_drop l lease, leases1 ++ leases2).

Inductive lease_reachable (c : LocalConcurrencyLimitConfig) :
    LocalConcurrencyLimiter * list LocalConcurrencyLease → Prop :=
| lease_reachable_new l : LocalConcurrencyLimiter_new c = Ok l → lease_reachable c (l, [])
| lease_reachable_step s s' : lease_reachable c s → lease_step s s' → lease_reachable c s'.

(** The limiter's table is exactly the count of held leases. *)
Definition lease_inv (c : LocalConcurrencyLimitConfig)
    (s : LocalConcurrencyLimiter * list LocalConcurrencyLease) : Prop :=
  let '(l, leases) := s in
  l.(cl_config) = c ∧ 0 < c.(max_concurrent) ∧ 0 < c.(cl_max_tracked_keys) ∧
  (∀ k, l.(cl_state).(counts) !! k = if decide (held k leases = 0) then None
                                      else Some (held k leases)) ∧
  (∀ k, held k leases ≤ c.(max_concurrent)) ∧
  map_len l.(cl_state).(counts) ≤ c.(cl_max_tracked_keys) ∧
  l.(cl_state).(active_concurrency) = N.of_nat (length leases) mod (u64_max + 1).

Lemma held_cons k x leases :
  held k (x :: leases) = (if decide (x.(lease_key) = k) then 1 else 0) + held k leases.
Proof. unfold held. rewrite filter_cons. case_decide; simpl; lia. Qed.

Lemma held_middle k x l1 l2 : held k (l1 ++ x :: l2) = held k (x :: l1 ++ l2).
Proof. unfold held. by rewrite <- Permutation_middle. Qed.

Lemma acquire_inv c l l' ctx leases r :
  lease_inv c (l, leases) → LocalConcurrencyLimiter_try_acquire l ctx = (l', r) →
  lease_inv c (l', match r with Ok lease => lease :: leases | Err _ => leases end).
Proof.
  intros (Hc & Hmc & Hmt & Hcnt & Hle & Hlen & Hact) E.
  unfold LocalConcurrencyLimiter_try_acquire in E.
  set (key := normalize_limit_key _ _ _) in E.
  case_decide as Hsat; [simplify_eq; unfold lease_inv; simpl; done|].
  assert (Hcur : default 0 (l.(cl_state).(counts) !! key) = held key leases).
  { rewrite Hcnt. clear. case_decide; simpl; lia. }
  rewrite Hcur in E. case_decide as Hmax; simplify_eq; unfold lease_inv; simpl.
  - assert (Hkey : l.(cl_state).(counts) !! key = Some (held key leases))
      by (rewrite Hcnt, decide_False; [done | lia]).
    rewrite insert_id by done. done.
  - split_and!; try done.
    + intros k. rewrite held_cons; simpl. destruct (decide (key = k)) as [<-|Hne].
      * rewrite lookup_insert_eq, decide_False by lia. f_equal. lia.
      * by rewrite lookup_insert_ne, Hcnt.
    + intros k. rewrite held_cons; simpl. case_decide; [subst; lia | apply Hle].
    + unfold map_len in *. destruct (l.(cl_state).(counts) !! key) eqn:Ek.
      * rewrite map_size_insert_Some by eauto. lia.
      * rewrite map_size_insert_None by done.
        assert (N.of_nat (size l.(cl_state).(counts)) ≠ l.(cl_config).(cl_max_tracked_keys))
          by naive_solver. lia.
    + unfold fetch_add. rewrite Hact, wrapping_add64_mod. f_equal. lia.
Qed.

Lemma drop_inv c l lease leases1 leases2 :
  lease_inv c (l, leases1 ++ lease :: leases2) →
  lease_inv c (LocalConcurrencyLease_drop l lease, leases1 ++ leases2).
Proof.
  intros (Hc & Hmc & Hmt & Hcnt & Hle & Hlen & Hact).
  assert (Hheld : ∀ k, held k (leases1 ++ lease :: leases2) =
    (if decide (lease.(lease_key) = k) then 1 else 0) + held k (leases1 ++ leases2))
    by (intros; by rewrite held_middle, held_cons).
  unfold LocalConcurrencyLease_drop. rewrite Hcnt, Hheld, !(decide_True _ _ eq_refl).
  rewrite decide_False by lia.
  replace (1 + held (lease_key lease) (leases1 ++ leases2) - 1)
    with (held (lease_key lease) (leases1 ++ leases2)) by lia.
  unfold lease_inv; simpl. split_and!; try done.
  - intros k. specialize (Hcnt k). rewrite Hheld in Hcnt.
    destruct (decide (lease.(lease_key) = k)) as [<-|Hne];
      destruct (decide (held (lease_key lease) (leases1 ++ leases2) = 0)) as [E0|E0].
    + by rewrite lookup_delete_eq.
    + by rewrite lookup_insert_eq.
    + by rewrite lookup_delete_ne, Hcnt.
    + by rewrite lookup_insert_ne, Hcnt.
  - intros k. specialize (Hle k). rewrite Hheld in Hle. case_decide; lia.
  - etransitivity; [|exact Hlen]. unfold map_len. apply N_of_nat_le. case_decide.
    + apply map_subseteq_size, delete_subseteq.
    + rewrite map_size_insert_Some; [lia|].
      rewrite Hcnt, Hheld, !(decide_True _ _ eq_refl), decide_False by lia. eauto.
  - rewrite Hact, length_app; simpl.
    replace (N.of_nat (length leases1 + S (length leases2)))
      with (N.of_nat (length (leases1 ++ leases2)) + 1) by (rewrite length_app; lia).
    apply wrapping_sub64_one.
Qed.

(** The concurrency limiter refines a multiset of leases: at every point
    of every history of acquisitions and drops, the count of a key is the number
    of leases held on it, which never exceeds [max_concurrent]; the number of
    tracked keys is bounded, [active_concurrency] is the number of held leases,
    and when every lease has been dropped the table is empty again. *)
Theorem concurrency_limiter_refines_leases (c : LocalConcurrencyLimitConfig)
  (l : LocalConcurrencyLimiter) (leases : list LocalConcurrencyLease)
  (Hreach : lease_reachable c (l, leases)) :
  (∀ k, default 0 (l.(cl_state).(counts) !! k) = held k leases ∧
        held k leases ≤ c.(max_concurrent)) ∧
  map_len l.(cl_state).(counts) ≤ c.(cl_max_tracked_keys) ∧
  l.(cl_state).(active_concurrency) = N.of_nat (length leases) mod (u64_max + 1) ∧
  (leases = [] → l.(cl_state).(counts) = ∅).
Proof.
  assert (Hinv : ∀ s, lease_reachable c s → lease_inv c s).
  { induction 1 as [l0 Hnew|s s' _ IH Hstep].
    - unfold LocalConcurrencyLimiter_new, LocalConcurrencyLimitConfig_validate in Hnew.
      rewrite validate_scope_ok in Hnew. repeat case_decide; simplify_eq.
      unfold lease_inv, map_len; simpl. rewrite map_size_empty.
      split_and!; try done; try lia. intros k. unfold held; simpl. lia.
    - destruct Hstep as [? ? ? ? ? E|? ? ? ? ? E|].
      + exact (acquire_inv _ _ _ _ _ _ IH E).
      + exact (acquire_inv _ _ _ _ _ _ IH E).
      + by apply drop_inv. }
  apply Hinv in Hreach as (_ & _ & _ & Hcnt & Hle & Hlen & Hact). split_and!; try done.
  - intros k. split; [|done]. rewrite Hcnt. case_decide; simpl; lia.
  - intros ->. apply map_eq. intros k. rewrite Hcnt. done.
Qed.

Definition sample_concurrency_config : LocalConcurrencyLimitConfig :=
  {| cl_scope := LocalLimitScope_Route "orders"; cl_key_kind := LocalLimitKeyKind_Global;
     max_concurrent := 1; cl_max_tracked_keys := 4 |}.

Definition sample_concurrency_limiter : LocalConcurrencyLimiter :=
  {| cl_config := sample_concurrency_config;
     cl_state := {| counts := ∅; active_concurrency := 0; acquired_count := 0;
                    concurrency_rejection_count := 0 |} |}.

Definition sample_lease : LocalConcurrencyLease := {| lease_key := "route:orders|key:global" |}.

Lemma concurrency_limiter_refines_leases_witness :
  let l1 := (LocalConcurrencyLimiter_try_acquire sample_concurrency_limiter (from_ip 1)).1 in
  held "route:orders|key:global" [sample_lease] ≤ 1 ∧
  (LocalConcurrencyLease_drop l1 sample_lease).(cl_state).(counts) = ∅.
Proof.
  assert (H1 : lease_reachable sample_concurrency_config
    ((LocalConcurrencyLimiter_try_acquire sample_concurrency_limiter (from_ip 1)).1,
     [sample_lease])).
  { eapply lease_reachable_step; [apply lease_reachable_new; reflexivity|].
    apply (lease_acquired _ _ (from_ip 1)). reflexivity. }
  split.
  - exact (proj2 (proj1 (concurrency_limiter_refines_leases _ _ _ H1)
             "route:orders|key:global")).
  - assert (H2 := lease_reachable_step _ _ _ H1 (lease_dropped _ sample_lease [] [])).
    exact (proj2 (proj2 (proj2 (concurrency_limiter_refines_leases _ _ _ H2))) eq_refl).
Defined.
