(* ===== verification/FailureManagement.v ===== *)
(** * Failure management: retry budgets, timeout hierarchy, circuit breaker

    Models [crates/runtime/src/failure_management.rs].  The three parts are a
    retry budget over a fixed window, a hierarchy of timeouts with an explicit
    precedence, and a circuit breaker (closed / open / half-open) whose record
    lives behind one mutex, so every method is one atomic step on its state.
    [FailureManager] combines them.  The event payloads are those of
    [crates/observability/src/lib.rs]. *)

From S2P Require Import Prelude.
Local Open Scope N_scope.
Local Open Scope rust_scope.

Definition MAX_FAILURE_EVENTS : nat := 64.

Inductive FailureManagementError :=
| ZeroRetryWindow
| ZeroTimeout
| InvalidTimeoutOrder
| InvalidBreakerThreshold.

(** ** Retry budget *)

Record RetryBudgetPolicy := {
  min_retry_tokens : N;
  retry_percent : N;
  window : Duration
}.

Definition RetryBudgetPolicy_default : RetryBudgetPolicy :=
  {| min_retry_tokens := 3; retry_percent := 20; window := from_secs 10 |}.

Record RetryBudgetState := {
  window_started : Duration;
  base_request_count : N;
  retry_count : N
}.

Record RetryBudget := {
  rb_policy : RetryBudgetPolicy;
  rb_state : RetryBudgetState;
  exhausted_count : N
}.

Record RetryDecision := {
  allowed : bool;
  remaining_retry_tokens : N
}.

Record RetryBudgetSnapshot := {
  rbs_base_request_count : N;
  rbs_retry_count : N;
  rbs_remaining_retry_tokens : N
}.

Definition RetryBudget_new (policy : RetryBudgetPolicy) :
    Result RetryBudget FailureManagementError :=
  if decide (policy.(window) = 0) then Err ZeroRetryWindow
  else Ok {| rb_policy := policy;
             rb_state := {| window_started := 0; base_request_count := 0; retry_count := 0 |};
             exhausted_count := 0 |}.

Definition reset_retry_window_if_needed (policy : RetryBudgetPolicy) (now : Duration)
    (state : RetryBudgetState) : RetryBudgetState :=
  if decide (policy.(window) ≤ now - state.(window_started))
  then {| window_started := now; base_request_count := 0; retry_count := 0 |}
  else state.

(** The product [base_request_count * retry_percent] is plain [u64]
    multiplication, which wraps in a release build. *)
Definition retry_capacity (policy : RetryBudgetPolicy) (state : RetryBudgetState) : N :=
  let proportional :=
    wrapping_mul64 state.(base_request_count) policy.(retry_percent) / 100 in
  saturating_add u64_max proportional policy.(min_retry_tokens).

Definition RetryBudget_record_base_request (b : RetryBudget) (now : Duration) : RetryBudget :=
  let state := reset_retry_window_if_needed b.(rb_policy) now b.(rb_state) in
  {| rb_policy := b.(rb_policy);
     rb_state := {| window_started := state.(window_started);
                    base_request_count := saturating_add u64_max state.(base_request_count) 1;
                    retry_count := state.(retry_count) |};
     exhausted_count := b.(exhausted_count) |}.

Definition RetryBudget_allow_retry (b : RetryBudget) (now : Duration) :
    RetryBudget * RetryDecision :=
  let state := reset_retry_window_if_needed b.(rb_policy) now b.(rb_state) in
  let available := retry_capacity b.(rb_policy) state - state.(retry_count) in
  if decide (available = 0)
  then ({| rb_policy := b.(rb_policy); rb_state := state;
           exhausted_count := fetch_add b.(exhausted_count) 1 |},
        {| allowed := false; remaining_retry_tokens := 0 |})
  else ({| rb_policy := b.(rb_policy);
           rb_state := {| window_started := state.(window_started);
                          base_request_count := state.(base_request_count);
                          retry_count := saturating_add u64_max state.(retry_count) 1 |};
           exhausted_count := b.(exhausted_count) |},
        {| allowed := true; remaining_retry_tokens := available - 1 |}).

Definition RetryBudget_snapshot (b : RetryBudget) (now : Duration) :
    RetryBudget * RetryBudgetSnapshot :=
  let state := reset_retry_window_if_needed b.(rb_policy) now b.(rb_state) in
  ({| rb_policy := b.(rb_policy); rb_state := state; exhausted_count := b.(exhausted_count) |},
   {| rbs_base_request_count := state.(base_request_count);
      rbs_retry_count := state.(retry_count);
      rbs_remaining_retry_tokens :=
        retry_capacity b.(rb_policy) state - state.(retry_count) |}).

(** ** Timeout hierarchy *)

Inductive TimeoutCategory :=
| TimeoutCategory_Request
| TimeoutCategory_Attempt
| TimeoutCategory_Connect
| TimeoutCategory_Idle.

#[export] Instance TimeoutCategory_eq_dec : EqDecision TimeoutCategory.
Proof. solve_decision. Defined.

Definition TimeoutCategory_index (c : TimeoutCategory) : nat :=
  match c with
  | TimeoutCategory_Request => 0 | TimeoutCategory_Attempt => 1
  | TimeoutCategory_Connect => 2 | TimeoutCategory_Idle => 3
  end%nat.

Definition TimeoutCategory_of_index (n : nat) : TimeoutCategory :=
  match n with
  | 0 => TimeoutCategory_Request | 1 => TimeoutCategory_Attempt
  | 2 => TimeoutCategory_Connect | _ => TimeoutCategory_Idle
  end%nat.

#[export] Instance TimeoutCategory_countable : Countable TimeoutCategory.
Proof.
  refine (inj_countable' TimeoutCategory_index TimeoutCategory_of_index _).
  by intros [].
Defined.

Record TimeoutHierarchy := {
  request_timeout : Duration;
  attempt_timeout : Duration;
  connect_timeout : Duration;
  idle_timeout : Duration
}.

Definition TimeoutHierarchy_validate (t : TimeoutHierarchy) :
    Result unit FailureManagementError :=
  if decide (t.(request_timeout) = 0 ∨ t.(attempt_timeout) = 0 ∨
             t.(connect_timeout) = 0 ∨ t.(idle_timeout) = 0)
  then Err ZeroTimeout
  else if decide (t.(request_timeout) < t.(attempt_timeout) ∨
                  t.(attempt_timeout) < t.(connect_timeout) ∨
                  t.(attempt_timeout) < t.(idle_timeout))
  then Err InvalidTimeoutOrder
  else Ok tt.

Definition TimeoutHierarchy_effective_timeout (t : TimeoutHierarchy)
    (category : TimeoutCategory) : Duration :=
  match category with
  | TimeoutCategory_Request => t.(request_timeout)
  | TimeoutCategory_Attempt => N.min t.(attempt_timeout) t.(request_timeout)
  | TimeoutCategory_Connect => N.min t.(connect_timeout) t.(attempt_timeout)
  | TimeoutCategory_Idle => N.min t.(idle_timeout) t.(attempt_timeout)
  end.

(** ** Failure classification *)

Inductive UpstreamFailureClass :=
| UpstreamFailureClass_Connect
| UpstreamFailureClass_Timeout
| UpstreamFailureClass_Overloaded
| UpstreamFailureClass_Temporary
| UpstreamFailureClass_Permanent.

Definition is_retryable (c : UpstreamFailureClass) : bool :=
  match c with
  | UpstreamFailureClass_Connect | UpstreamFailureClass_Timeout
  | UpstreamFailureClass_Overloaded | UpstreamFailureClass_Temporary => true
  | UpstreamFailureClass_Permanent => false
  end.

Definition counts_toward_breaker (c : UpstreamFailureClass) : bool :=
  match c with UpstreamFailureClass_Permanent => false | _ => true end.

(** ** Circuit breaker *)

Record CircuitBreakerPolicy := {
  open_failure_threshold : N;
  open_duration : Duration;
  half_open_success_threshold : N
}.

Definition CircuitBreakerPolicy_default : CircuitBreakerPolicy :=
  {| open_failure_threshold := 3; open_duration := from_secs 30;
     half_open_success_threshold := 2 |}.

Inductive CircuitBreakerState := Closed | Open | HalfOpen.

#[export] Instance CircuitBreakerState_eq_dec : EqDecision CircuitBreakerState.
Proof. solve_decision. Defined.

Inductive FailureManagementEventKind := BreakerOpened | BreakerHalfOpened | BreakerClosed.

Record FailureManagementEvent := {
  fme_kind : FailureManagementEventKind;
  fme_scope : string;
  fme_detail : string
}.

Record CircuitBreakerRecord := {
  cbr_state : CircuitBreakerState;
  consecutive_failures : N;
  half_open_successes : N;
  opened_at : Duration;
  half_open_admitted : N;
  half_open_window_started : Duration
}.

Record CircuitBreaker := {
  cb_policy : CircuitBreakerPolicy;
  cb_record : CircuitBreakerRecord;
  breaker_state_change_count : N;
  breaker_open_rejection_count : N;
  cb_events : list FailureManagementEvent
}.

Record CircuitBreakerSnapshot := {
  cbs_state : CircuitBreakerState;
  cbs_remaining_open_duration : option Duration;
  cbs_consecutive_failures : N;
  cbs_half_open_successes : N
}.

Definition CircuitBreaker_new (policy : CircuitBreakerPolicy) :
    Result CircuitBreaker FailureManagementError :=
  if decide (policy.(open_failure_threshold) = 0 ∨
             policy.(half_open_success_threshold) = 0 ∨
             policy.(open_duration) = 0)
  then Err InvalidBreakerThreshold
  else Ok {| cb_policy := policy;
             cb_record := {| cbr_state := Closed; consecutive_failures := 0;
                             half_open_successes := 0; opened_at := 0;
                             half_open_admitted := 0; half_open_window_started := 0 |};
             breaker_state_change_count := 0;
             breaker_open_rejection_count := 0;
             cb_events := [] |}.

Definition with_record (b : CircuitBreaker) (r : CircuitBreakerRecord) : CircuitBreaker :=
  {| cb_policy := b.(cb_policy); cb_record := r;
     breaker_state_change_count := b.(breaker_state_change_count);
     breaker_open_rejection_count := b.(breaker_open_rejection_count);
     cb_events := b.(cb_events) |}.

Definition count_rejection (b : CircuitBreaker) : CircuitBreaker :=
  {| cb_policy := b.(cb_policy); cb_record := b.(cb_record);
     breaker_state_change_count := b.(breaker_state_change_count);
     breaker_open_rejection_count := fetch_add b.(breaker_open_rejection_count) 1;
     cb_events := b.(cb_events) |}.

Definition transition_breaker_state (b : CircuitBreaker) (new_state : CircuitBreakerState)
    (kind : FailureManagementEventKind) (detail : string) : CircuitBreaker :=
  let r := b.(cb_record) in
  if decide (r.(cbr_state) = new_state) then b
  else
    {| cb_policy := b.(cb_policy);
       cb_record := {| cbr_state := new_state;
                       consecutive_failures := r.(consecutive_failures);
                       half_open_successes := r.(half_open_successes);
                       opened_at := r.(opened_at);
                       half_open_admitted := r.(half_open_admitted);
                       half_open_window_started := r.(half_open_window_started) |};
       breaker_state_change_count := fetch_add b.(breaker_state_change_count) 1;
       breaker_open_rejection_count := b.(breaker_open_rejection_count);
       cb_events := push_bounded MAX_FAILURE_EVENTS b.(cb_events)
                      {| fme_kind := kind; fme_scope := "upstream"; fme_detail := detail |} |}.

(** Field assignments [record.half_open_admitted = _],
    [record.half_open_window_started = _], ... *)
Definition set_probe_window (b : CircuitBreaker) (admitted : N) (started : Duration) :
    CircuitBreaker :=
  let r := b.(cb_record) in
  with_record b {| cbr_state := r.(cbr_state);
                   consecutive_failures := r.(consecutive_failures);
                   half_open_successes := r.(half_open_successes);
                   opened_at := r.(opened_at);
                   half_open_admitted := admitted;
                   half_open_window_started := started |}.

Definition set_failures (b : CircuitBreaker) (n : N) : CircuitBreaker :=
  let r := b.(cb_record) in
  with_record b {| cbr_state := r.(cbr_state); consecutive_failures := n;
                   half_open_successes := r.(half_open_successes);
                   opened_at := r.(opened_at);
                   half_open_admitted := r.(half_open_admitted);
                   half_open_window_started := r.(half_open_window_started) |}.

Definition set_successes (b : CircuitBreaker) (n : N) : CircuitBreaker :=
  let r := b.(cb_record) in
  with_record b {| cbr_state := r.(cbr_state);
                   consecutive_failures := r.(consecutive_failures);
                   half_open_successes := n;
                   opened_at := r.(opened_at);
                   half_open_admitted := r.(half_open_admitted);
                   half_open_window_started := r.(half_open_window_started) |}.

Definition set_opened_at (b : CircuitBreaker) (t : Duration) : CircuitBreaker :=
  let r := b.(cb_record) in
  with_record b {| cbr_state := r.(cbr_state);
                   consecutive_failures := r.(consecutive_failures);
                   half_open_successes := r.(half_open_successes);
                   opened_at := t;
                   half_open_admitted := r.(half_open_admitted);
                   half_open_window_started := r.(half_open_window_started) |}.

Definition CircuitBreaker_allow_request (b : CircuitBreaker) (now : Duration) :
    CircuitBreaker * bool :=
  let policy := b.(cb_policy) in
  let b :=
    if decide (b.(cb_record).(cbr_state) = Open ∧
               policy.(open_duration) ≤ now - b.(cb_record).(opened_at))
    then set_probe_window
           (transition_breaker_state b HalfOpen BreakerHalfOpened
              "breaker cool-down elapsed; allowing probe traffic") 0 now
    else b in
  match b.(cb_record).(cbr_state) with
  | Open => (count_rejection b, false)
  | HalfOpen =>
      let b :=
        if decide (policy.(open_duration) ≤ now - b.(cb_record).(half_open_window_started))
        then set_probe_window b 0 now
        else b in
      let r := b.(cb_record) in
      let probe_budget := policy.(half_open_success_threshold) - r.(half_open_successes) in
      if decide (r.(half_open_admitted) < probe_budget)
      then (set_probe_window b (r.(half_open_admitted) + 1) r.(half_open_window_started), true)
      else (count_rejection b, false)
  | Closed => (b, true)
  end.

Definition CircuitBreaker_record_success (b : CircuitBreaker) : CircuitBreaker :=
  match b.(cb_record).(cbr_state) with
  | Closed => set_failures b 0
  | Open => b
  | HalfOpen =>
      let b := set_successes b
                 (saturating_add u32_max b.(cb_record).(half_open_successes) 1) in
      if decide (b.(cb_policy).(half_open_success_threshold)
                 ≤ b.(cb_record).(half_open_successes))
      then set_successes
             (set_failures
                (transition_breaker_state b Closed BreakerClosed
                   "breaker recovered after successful half-open probes") 0) 0
      else b
  end.

Definition CircuitBreaker_record_failure (b : CircuitBreaker) (now : Duration)
    (class : UpstreamFailureClass) : CircuitBreaker :=
  if negb (counts_toward_breaker class) then b
  else
    match b.(cb_record).(cbr_state) with
    | Closed =>
        let b := set_failures b
                   (saturating_add u32_max b.(cb_record).(consecutive_failures) 1) in
        if decide (b.(cb_policy).(open_failure_threshold)
                   ≤ b.(cb_record).(consecutive_failures))
        then set_successes
               (transition_breaker_state (set_opened_at b now) Open BreakerOpened
                  "breaker opened after repeated upstream failures") 0
        else b
    | HalfOpen =>
        let b := transition_breaker_state (set_opened_at b now) Open BreakerOpened
                   "breaker re-opened after failed half-open probe" in
        set_successes (set_failures b b.(cb_policy).(open_failure_threshold)) 0
    | Open => set_opened_at b now
    end.

Definition CircuitBreaker_snapshot (b : CircuitBreaker) (now : Duration) :
    CircuitBreakerSnapshot :=
  let r := b.(cb_record) in
  {| cbs_state := r.(cbr_state);
     cbs_remaining_open_duration :=
       if decide (r.(cbr_state) = Open)
       then Some (b.(cb_policy).(open_duration) - (now - r.(opened_at)))
       else None;
     cbs_consecutive_failures := r.(consecutive_failures);
     cbs_half_open_successes := r.(half_open_successes) |}.

(** ** The combined manager *)

Record FailureManager := {
  fm_retry_budget : RetryBudget;
  fm_timeout_hierarchy : TimeoutHierarchy;
  fm_circuit_breaker : CircuitBreaker;
  fm_timeout_category_counts : gmap TimeoutCategory N
}.

Record FailureManagementMetrics := {
  fmm_retry_budget_exhausted_count : N;
  fmm_breaker_state_change_count : N;
  fmm_breaker_open_rejection_count : N;
  fmm_timeout_category_counts : gmap TimeoutCategory N
}.

Definition FailureManager_new (retry_budget : RetryBudgetPolicy)
    (timeout_hierarchy : TimeoutHierarchy) (circuit_breaker : CircuitBreakerPolicy) :
    Result FailureManager FailureManagementError :=
  let? _ := TimeoutHierarchy_validate timeout_hierarchy in
  let? retry_budget := RetryBudget_new retry_budget in
  let? circuit_breaker := CircuitBreaker_new circuit_breaker in
  Ok {| fm_retry_budget := retry_budget;
        fm_timeout_hierarchy := timeout_hierarchy;
        fm_circuit_breaker := circuit_breaker;
        fm_timeout_category_counts := ∅ |}.

Definition FailureManager_record_base_request (m : FailureManager) (now : Duration) :
    FailureManager :=
  {| fm_retry_budget := RetryBudget_record_base_request m.(fm_retry_budget) now;
     fm_timeout_hierarchy := m.(fm_timeout_hierarchy);
     fm_circuit_breaker := m.(fm_circuit_breaker);
     fm_timeout_category_counts := m.(fm_timeout_category_counts) |}.

Definition FailureManager_allow_retry (m : FailureManager) (now : Duration)
    (failure : UpstreamFailureClass) : FailureManager * RetryDecision :=
  if negb (is_retryable failure)
  then (m, {| allowed := false; remaining_retry_tokens := 0 |})
  else
    let '(budget, decision) := RetryBudget_allow_retry m.(fm_retry_budget) now in
    ({| fm_retry_budget := budget;
        fm_timeout_hierarchy := m.(fm_timeout_hierarchy);
        fm_circuit_breaker := m.(fm_circuit_breaker);
        fm_timeout_category_counts := m.(fm_timeout_category_counts) |}, decision).

Definition FailureManager_effective_timeout (m : FailureManager)
    (category : TimeoutCategory) : Duration :=
  TimeoutHierarchy_effective_timeout m.(fm_timeout_hierarchy) category.

Definition FailureManager_record_timeout (m : FailureManager) (category : TimeoutCategory) :
    FailureManager :=
  {| fm_retry_budget := m.(fm_retry_budget);
     fm_timeout_hierarchy := m.(fm_timeout_hierarchy);
     fm_circuit_breaker := m.(fm_circuit_breaker);
     fm_timeout_category_counts :=
       <[category := wrapping_add64 (default 0 (m.(fm_timeout_category_counts) !! category)) 1]>
         m.(fm_timeout_category_counts) |}.

Definition FailureManager_with_breaker (m : FailureManager) (b : CircuitBreaker) :
    FailureManager :=
  {| fm_retry_budget := m.(fm_retry_budget);
     fm_timeout_hierarchy := m.(fm_timeout_hierarchy);
     fm_circuit_breaker := b;
     fm_timeout_category_counts := m.(fm_timeout_category_counts) |}.

Definition FailureManager_allow_request (m : FailureManager) (now : Duration) :
    FailureManager * bool :=
  let '(b, ok) := CircuitBreaker_allow_request m.(fm_circuit_breaker) now in
  (FailureManager_with_breaker m b, ok).

Definition FailureManager_record_success (m : FailureManager) : FailureManager :=
  FailureManager_with_breaker m (CircuitBreaker_record_success m.(fm_circuit_breaker)).

Definition FailureManager_record_failure (m : FailureManager) (now : Duration)
    (class : UpstreamFailureClass) : FailureManager :=
  FailureManager_with_breaker m (CircuitBreaker_record_failure m.(fm_circuit_breaker) now class).

Definition FailureManager_metrics (m : FailureManager) : FailureManagementMetrics :=
  {| fmm_retry_budget_exhausted_count := m.(fm_retry_budget).(exhausted_count);
     fmm_breaker_state_change_count :=
       m.(fm_circuit_breaker).(breaker_state_change_count);
     fmm_breaker_open_rejection_count :=
       m.(fm_circuit_breaker).(breaker_open_rejection_count);
     fmm_timeout_category_counts := m.(fm_timeout_category_counts) |}.

(** ** Theorems: retry budget

    A history of one retry budget is a list of calls; [RetryBudget_run] threads
    the state through it and counts the retries that were granted. *)

Inductive RetryOp :=
| RetryOp_base (now : Duration)
| RetryOp_retry (now : Duration)
| RetryOp_snapshot (now : Duration).

Definition RetryOp_now (op : RetryOp) : Duration :=
  match op with RetryOp_base t | RetryOp_retry t | RetryOp_snapshot t => t end.

Definition RetryOp_is_base (op : RetryOp) : bool :=
  match op with RetryOp_base _ => true | _ => false end.

Definition RetryBudget_step (b : RetryBudget) (op : RetryOp) : RetryBudget * N :=
  match op with
  | RetryOp_base now => (RetryBudget_record_base_request b now, 0)
  | RetryOp_retry now =>
      let '(b', d) := RetryBudget_allow_retry b now in (b', if d.(allowed) then 1 else 0)
  | RetryOp_snapshot now => ((RetryBudget_snapshot b now).1, 0)
  end.

Fixpoint RetryBudget_run (b : RetryBudget) (ops : list RetryOp) : RetryBudget * N :=
  match ops with
  | [] => (b, 0)
  | op :: ops =>
      let '(b, granted) := RetryBudget_step b op in
      let '(b, rest) := RetryBudget_run b ops in
      (b, granted + rest)
  end.

(** The ideal budget of one window, on unbounded counters: [nb] base requests
    entitle to [retry_allowance] retries. *)
Definition retry_allowance (p : RetryBudgetPolicy) (nb : N) : N :=
  p.(min_retry_tokens) + nb * p.(retry_percent) / 100.

Definition ideal_retry_step (p : RetryBudgetPolicy) (nb nr : N) (op : RetryOp) : N * N :=
  match op with
  | RetryOp_base _ => (nb + 1, nr)
  | RetryOp_retry _ => if decide (nr < retry_allowance p nb) then (nb, nr + 1) else (nb, nr)
  | RetryOp_snapshot _ => (nb, nr)
  end.

Fixpoint ideal_retry_run (p : RetryBudgetPolicy) (nb nr : N) (ops : list RetryOp) : N * N :=
  match ops with
  | [] => (nb, nr)
  | op :: ops => let '(nb, nr) := ideal_retry_step p nb nr op in ideal_retry_run p nb nr ops
  end.

Definition base_ops (ops : list RetryOp) : N :=
  N.of_nat (length (List.filter RetryOp_is_base ops)).

Lemma base_ops_cons op ops :
  base_ops (op :: ops) = (if RetryOp_is_base op then 1 else 0) + base_ops ops.
Proof. unfold base_ops. destruct op; simpl; lia. Qed.

(** The counters the implementation holds in window [t0]. *)
Definition in_window (b : RetryBudget) (t0 nb nr : N) : Prop :=
  b.(rb_state) = {| window_started := t0; base_request_count := nb; retry_count := nr |}.

(** No 64-bit overflow for [nb] base requests. *)
Definition budget_fits (p : RetryBudgetPolicy) (nb : N) : Prop :=
  nb * p.(retry_percent) ≤ u64_max ∧ nb ≤ u64_max ∧ retry_allowance p nb ≤ u64_max.

Lemma budget_fits_le p nb nb' : nb ≤ nb' → budget_fits p nb' → budget_fits p nb.
Proof.
  unfold budget_fits, retry_allowance. intros Hle (? & ? & ?). split_and!; [nia | lia |].
  etransitivity; [|eassumption]. apply N.add_le_mono_l, N.Div0.div_le_mono; nia.
Qed.

Lemma reset_retry_window_inside p now st :
  now - st.(window_started) < p.(window) → reset_retry_window_if_needed p now st = st.
Proof. intros. unfold reset_retry_window_if_needed. case_decide; [lia | done]. Qed.

Lemma retry_capacity_exact p st :
  budget_fits p st.(base_request_count) →
  retry_capacity p st = retry_allowance p st.(base_request_count).
Proof.
  intros (? & ? & ?). unfold retry_capacity, saturating_add, wrapping_mul64.
  unfold retry_allowance in *. rewrite N.mod_small by lia. lia.
Qed.

Lemma RetryBudget_step_refines b t0 nb nr op :
  in_window b t0 nb nr →
  RetryOp_now op - t0 < b.(rb_policy).(window) →
  budget_fits b.(rb_policy) ((if RetryOp_is_base op then 1 else 0) + nb) →
  nr ≤ retry_allowance b.(rb_policy) nb →
  let '(b', granted) := RetryBudget_step b op in
  let '(nb', nr') := ideal_retry_step b.(rb_policy) nb nr op in
  in_window b' t0 nb' nr' ∧ nr' = nr + granted ∧ b'.(rb_policy) = b.(rb_policy) ∧
  nb' = (if RetryOp_is_base op then 1 else 0) + nb ∧ nr' ≤ retry_allowance b.(rb_policy) nb'.
Proof.
  destruct b as [p st ex]; unfold in_window; simpl. intros -> Hnow Hfit Hle.
  pose proof Hfit as (_ & ? & ?).
  destruct op as [now|now|now]; simpl in *;
    unfold RetryBudget_record_base_request, RetryBudget_allow_retry, saturating_add; simpl;
    rewrite reset_retry_window_inside by done; simpl.
  - split_and!; try lia; [by f_equal; lia | done |].
    etransitivity; [exact Hle|]. apply N.add_le_mono_l, N.Div0.div_le_mono; nia.
  - rewrite retry_capacity_exact by (by rewrite N.add_0_l in Hfit). simpl.
    rewrite N.add_0_l in *. repeat case_decide; simpl; split_and!; try lia; done || f_equal; lia.
  - split_and!; lia || done.
Qed.

Lemma RetryBudget_run_refines ops : ∀ b t0 nb nr,
  in_window b t0 nb nr →
  Forall (λ op, RetryOp_now op - t0 < b.(rb_policy).(window)) ops →
  budget_fits b.(rb_policy) (base_ops ops + nb) →
  nr ≤ retry_allowance b.(rb_policy) nb →
  let '(b', granted) := RetryBudget_run b ops in
  let '(nb', nr') := ideal_retry_run b.(rb_policy) nb nr ops in
  in_window b' t0 nb' nr' ∧ nr' = nr + granted ∧ nb' = base_ops ops + nb ∧
  nr' ≤ retry_allowance b.(rb_policy) nb'.
Proof.
  induction ops as [|op ops IH]; intros b t0 nb nr Hin Hall Hfit Hle; simpl.
  { unfold base_ops; simpl. split_and!; lia || done. }
  apply Forall_cons in Hall as [Hnow Hall]. rewrite base_ops_cons in *.
  assert (Hfit1 : budget_fits b.(rb_policy) ((if RetryOp_is_base op then 1 else 0) + nb))
    by (eapply budget_fits_le; [|exact Hfit]; lia).
  pose proof (RetryBudget_step_refines _ _ _ _ _ Hin Hnow Hfit1 Hle) as Hstep.
  destruct (RetryBudget_step b op) as [b1 g1] eqn:E1.
  destruct (ideal_retry_step _ nb nr op) as [nb1 nr1] eqn:E2.
  destruct Hstep as (Hin1 & Hnr1 & Hpol & Hnb1 & Hle1). rewrite <- Hpol in *.
  assert (Hfit2 : budget_fits b1.(rb_policy) (base_ops ops + nb1))
    by (eapply budget_fits_le; [|exact Hfit]; lia).
  specialize (IH b1 t0 nb1 nr1 Hin1 Hall Hfit2 Hle1).
  destruct (RetryBudget_run b1 ops) as [b2 g2].
  destruct (ideal_retry_run _ nb1 nr1 ops) as [nb2 nr2].
  destruct IH as (? & ? & ? & ?). split_and!; lia || done.
Qed.

(** Within one window the budget never grants more retries than
    [min_retry_tokens] plus [retry_percent] percent of the base requests of that
    window; the granted retries are exactly those of the ideal budget. *)
Theorem retry_budget_window_bound (b : RetryBudget) (t0 : Duration) (ops : list RetryOp)
  (Hfresh : in_window b t0 0 0)
  (Hinside : Forall (λ op, RetryOp_now op - t0 < b.(rb_policy).(window)) ops)
  (Hfits : budget_fits b.(rb_policy) (base_ops ops)) :
  (RetryBudget_run b ops).2 = (ideal_retry_run b.(rb_policy) 0 0 ops).2 ∧
  (RetryBudget_run b ops).2 ≤ retry_allowance b.(rb_policy) (base_ops ops).
Proof.
  assert (Hfit : budget_fits b.(rb_policy) (base_ops ops + 0)) by (by rewrite N.add_0_r).
  pose proof (RetryBudget_run_refines ops b t0 0 0 Hfresh Hinside Hfit) as H.
  destruct (RetryBudget_run b ops), (ideal_retry_run _ 0 0 ops); simpl.
  destruct H as (_ & ? & ? & ?); [lia|]. rewrite N.add_0_r in *. subst. split; [lia | done].
Qed.

Definition sample_budget : RetryBudget :=
  {| rb_policy := {| min_retry_tokens := 1; retry_percent := 50; window := from_secs 10 |};
     rb_state := {| window_started := 0; base_request_count := 0; retry_count := 0 |};
     exhausted_count := 0 |}.

Lemma retry_budget_window_bound_witness :
  (RetryBudget_run sample_budget
     [RetryOp_base 0; RetryOp_base 0; RetryOp_retry 0; RetryOp_retry 1; RetryOp_retry 2]).2 ≤ 2.
Proof.
  refine (proj2 (retry_budget_window_bound sample_budget 0
    [RetryOp_base 0; RetryOp_base 0; RetryOp_retry 0; RetryOp_retry 1; RetryOp_retry 2]
    eq_refl _ _)).
  - repeat (constructor; [vm_compute; reflexivity|]). constructor.
  - unfold budget_fits. vm_compute. split_and!; discriminate.
Defined.

(** [allow_retry] grants exactly when the (possibly restarted) window has
    capacity left, reports the tokens that a following [snapshot] at the same
    time reports, and otherwise counts one exhaustion and leaves the window as it
    is. *)
Theorem allow_retry_spec (b : RetryBudget) (now : Duration) :
  let st := reset_retry_window_if_needed b.(rb_policy) now b.(rb_state) in
  let '(b', d) := RetryBudget_allow_retry b now in
  (d.(allowed) = true ↔ st.(retry_count) < retry_capacity b.(rb_policy) st) ∧
  (d.(allowed) = false → b'.(rb_state) = st ∧
                         b'.(exhausted_count) = fetch_add b.(exhausted_count) 1) ∧
  (d.(allowed) = true → b'.(exhausted_count) = b.(exhausted_count)) ∧
  (0 < b.(rb_policy).(window) →
   (RetryBudget_snapshot b' now).2.(rbs_remaining_retry_tokens) = d.(remaining_retry_tokens)).
Proof.
  destruct b as [p st0 ex]; simpl. unfold RetryBudget_allow_retry, RetryBudget_snapshot; simpl.
  set (st := reset_retry_window_if_needed p now st0).
  assert (Hcap : retry_capacity p st ≤ u64_max)
    by (unfold retry_capacity, saturating_add; lia).
  assert (Hstay : 0 < window p → now - st.(window_started) < window p).
  { unfold st, reset_retry_window_if_needed. case_decide; simpl; lia. }
  case_decide as Hav; simpl; split_and!; try done; try (split; [done | lia]).
  - intros Hw. rewrite reset_retry_window_inside by auto. lia.
  - split; [lia | done].
  - intros Hw. rewrite reset_retry_window_inside by (simpl; auto). simpl.
    unfold saturating_add. rewrite N.min_r by lia.
    change (retry_capacity p _) with (retry_capacity p st). lia.
Qed.

(** ** Theorems: circuit breaker

    The breaker as a state machine: one labelled step per public method that
    changes it.  The output is whether a request was admitted. *)

Inductive BreakerOp :=
| BreakerOp_allow (now : Duration)
| BreakerOp_success
| BreakerOp_failure (now : Duration) (class : UpstreamFailureClass).

Definition CircuitBreaker_step (b : CircuitBreaker) (op : BreakerOp) : CircuitBreaker * bool :=
  match op with
  | BreakerOp_allow now => CircuitBreaker_allow_request b now
  | BreakerOp_success => (CircuitBreaker_record_success b, false)
  | BreakerOp_failure now class => (CircuitBreaker_record_failure b now class, false)
  end.

Fixpoint CircuitBreaker_run (b : CircuitBreaker) (ops : list BreakerOp) : CircuitBreaker * N :=
  match ops with
  | [] => (b, 0)
  | op :: ops =>
      let '(b, admitted) := CircuitBreaker_step b op in
      let '(b, rest) := CircuitBreaker_run b ops in
      (b, (if admitted then 1 else 0) + rest)
  end.

Inductive breaker_reachable (p : CircuitBreakerPolicy) : CircuitBreaker → Prop :=
| breaker_reachable_new b : CircuitBreaker_new p = Ok b → breaker_reachable p b
| breaker_reachable_step b op :
    breaker_reachable p b → breaker_reachable p (CircuitBreaker_step b op).1.

Definition BreakerOp_within (lo hi : Duration) (op : BreakerOp) : Prop :=
  match op with
  | BreakerOp_allow t | BreakerOp_failure t _ => lo ≤ t < hi
  | BreakerOp_success => True
  end.

(** Policies accepted by [CircuitBreaker_new], with their fields at [u32] width. *)
Definition policy_ok (p : CircuitBreakerPolicy) : Prop :=
  0 < p.(open_failure_threshold) ≤ u32_max ∧
  0 < p.(half_open_success_threshold) ≤ u32_max ∧ 0 < p.(open_duration).

Definition breaker_inv (b : CircuitBreaker) : Prop :=
  let p := b.(cb_policy) in
  let r := b.(cb_record) in
  (length b.(cb_events) ≤ MAX_FAILURE_EVENTS)%nat ∧
  match r.(cbr_state) with
  | Closed => r.(consecutive_failures) < p.(open_failure_threshold) ∧ r.(half_open_successes) = 0
  | Open => r.(consecutive_failures) = p.(open_failure_threshold) ∧ r.(half_open_successes) = 0
  | HalfOpen => r.(consecutive_failures) = p.(open_failure_threshold) ∧
                r.(half_open_successes) < p.(half_open_success_threshold) ∧
                r.(half_open_admitted) ≤ p.(half_open_success_threshold)
  end.

(** What one call does, branch by branch; the setters above name the fields
    each branch assigns. *)
Inductive allow_branch (b : CircuitBreaker) (now : Duration) : CircuitBreaker → bool → Prop :=
| allow_closed :
    b.(cb_record).(cbr_state) = Closed → allow_branch b now b true
| allow_open_cold :
    b.(cb_record).(cbr_state) = Open →
    now - b.(cb_record).(opened_at) < b.(cb_policy).(open_duration) →
    allow_branch b now (count_rejection b) false
| allow_open_probe b1 :
    b.(cb_record).(cbr_state) = Open →
    b.(cb_policy).(open_duration) ≤ now - b.(cb_record).(opened_at) →
    b1 = transition_breaker_state b HalfOpen BreakerHalfOpened
           "breaker cool-down elapsed; allowing probe traffic" →
    0 < b.(cb_policy).(half_open_success_threshold) - b.(cb_record).(half_open_successes) →
    allow_branch b now (set_probe_window b1 1 now) true
| allow_open_spent b1 :
    b.(cb_record).(cbr_state) = Open →
    b.(cb_policy).(open_duration) ≤ now - b.(cb_record).(opened_at) →
    b1 = transition_breaker_state b HalfOpen BreakerHalfOpened
           "breaker cool-down elapsed; allowing probe traffic" →
    b.(cb_policy).(half_open_success_threshold) - b.(cb_record).(half_open_successes) = 0 →
    allow_branch b now (count_rejection (set_probe_window b1 0 now)) false
| allow_half_rearm :
    b.(cb_record).(cbr_state) = HalfOpen →
    b.(cb_policy).(open_duration) ≤ now - b.(cb_record).(half_open_window_started) →
    0 < b.(cb_policy).(half_open_success_threshold) - b.(cb_record).(half_open_successes) →
    allow_branch b now (set_probe_window b 1 now) true
| allow_half_rearm_spent :
    b.(cb_record).(cbr_state) = HalfOpen →
    b.(cb_policy).(open_duration) ≤ now - b.(cb_record).(half_open_window_started) →
    b.(cb_policy).(half_open_success_threshold) - b.(cb_record).(half_open_successes) = 0 →
    allow_branch b now (count_rejection (set_probe_window b 0 now)) false
| allow_half_probe :
    b.(cb_record).(cbr_state) = HalfOpen →
    now - b.(cb_record).(half_open_window_started) < b.(cb_policy).(open_duration) →
    b.(cb_record).(half_open_admitted) <
      b.(cb_policy).(half_open_success_threshold) - b.(cb_record).(half_open_successes) →
    allow_branch b now
      (set_probe_window b (b.(cb_record).(half_open_admitted) + 1)
         b.(cb_record).(half_open_window_started)) true
| allow_half_spent :
    b.(cb_record).(cbr_state) = HalfOpen →
    now - b.(cb_record).(half_open_window_started) < b.(cb_policy).(open_duration) →
    b.(cb_policy).(half_open_success_threshold) - b.(cb_record).(half_open_successes)
      ≤ b.(cb_record).(half_open_admitted) →
    allow_branch b now (count_rejection b) false.

Lemma transition_record b st k d :
  b.(cb_record).(cbr_state) ≠ st →
  (transition_breaker_state b st k d).(cb_record) =
    {| cbr_state := st;
       consecutive_failures := b.(cb_record).(consecutive_failures);
       half_open_successes := b.(cb_record).(half_open_successes);
       opened_at := b.(cb_record).(opened_at);
       half_open_admitted := b.(cb_record).(half_open_admitted);
       half_open_window_started := b.(cb_record).(half_open_window_started) |} ∧
  (transition_breaker_state b st k d).(cb_policy) = b.(cb_policy).
Proof. intros. unfold transition_breaker_state. by rewrite decide_False. Qed.

Lemma transition_events b st k d :
  (length b.(cb_events) ≤ MAX_FAILURE_EVENTS →
   length (transition_breaker_state b st k d).(cb_events) ≤ MAX_FAILURE_EVENTS)%nat.
Proof.
  intros. unfold transition_breaker_state. case_decide; [done|]. simpl.
  apply length_push_bounded; [unfold MAX_FAILURE_EVENTS; lia | done].
Qed.

Lemma allow_request_branch b now :
  0 < b.(cb_policy).(open_duration) →
  allow_branch b now (CircuitBreaker_allow_request b now).1
                     (CircuitBreaker_allow_request b now).2.
Proof.
  intros Hdur. unfold CircuitBreaker_allow_request.
  destruct (cbr_state (cb_record b)) eqn:Hst.
  - rewrite decide_False by (intros [? _]; congruence). rewrite Hst. by apply allow_closed.
  - destruct (decide (open_duration (cb_policy b) ≤ now - opened_at (cb_record b))) as [Hd|Hd].
    + rewrite decide_True by done.
      pose proof (transition_record b HalfOpen BreakerHalfOpened
        "breaker cool-down elapsed; allowing probe traffic" ltac:(congruence)) as [Hr _].
      remember (transition_breaker_state b HalfOpen _ _) as b1 eqn:Hb1.
      cbn [set_probe_window with_record cb_record cbr_state half_open_window_started].
      rewrite Hr. cbn [cbr_state half_open_window_started half_open_successes
        half_open_admitted consecutive_failures opened_at].
      rewrite (decide_False (P := open_duration _ ≤ now - now)) by lia.
      cbn [set_probe_window with_record cb_record half_open_successes half_open_admitted].
      rewrite Hr. cbn [half_open_successes].
      case_decide; [by apply (allow_open_probe b now b1)
                  | apply (allow_open_spent b now b1); [done..|lia]].
    + rewrite decide_False by tauto. rewrite Hst. apply allow_open_cold; [done | lia].
  - rewrite decide_False by (intros [? _]; congruence). rewrite Hst.
    destruct (decide (open_duration (cb_policy b)
      ≤ now - half_open_window_started (cb_record b))) as [Hd|Hd].
    + cbn [set_probe_window with_record cb_record half_open_successes half_open_admitted].
      case_decide; [by apply allow_half_rearm | apply allow_half_rearm_spent; [done..|lia]].
    + case_decide; [apply allow_half_probe | apply allow_half_spent]; done || lia.
Qed.

Inductive success_branch (b : CircuitBreaker) : CircuitBreaker → Prop :=
| success_closed : b.(cb_record).(cbr_state) = Closed → success_branch b (set_failures b 0)
| success_open : b.(cb_record).(cbr_state) = Open → success_branch b b
| success_count n :
    b.(cb_record).(cbr_state) = HalfOpen →
    n = saturating_add u32_max b.(cb_record).(half_open_successes) 1 →
    n < b.(cb_policy).(half_open_success_threshold) →
    success_branch b (set_successes b n)
| success_close b1 n :
    b.(cb_record).(cbr_state) = HalfOpen →
    n = saturating_add u32_max b.(cb_record).(half_open_successes) 1 →
    b.(cb_policy).(half_open_success_threshold) ≤ n →
    b1 = transition_breaker_state (set_successes b n) Closed BreakerClosed
           "breaker recovered after successful half-open probes" →
    success_branch b (set_successes (set_failures b1 0) 0).

Lemma record_success_branch b : success_branch b (CircuitBreaker_record_success b).
Proof.
  unfold CircuitBreaker_record_success. destruct (cbr_state (cb_record b)) eqn:Hst.
  - by apply success_closed.
  - by apply success_open.
  - cbn [set_successes with_record cb_policy cb_record half_open_successes].
    case_decide; [by eapply success_close | eapply success_count; [done..|lia]].
Qed.

Inductive failure_branch (b : CircuitBreaker) (now : Duration) (class : UpstreamFailureClass) :
    CircuitBreaker → Prop :=
| failure_ignored : counts_toward_breaker class = false → failure_branch b now class b
| failure_count n :
    counts_toward_breaker class = true →
    b.(cb_record).(cbr_state) = Closed →
    n = saturating_add u32_max b.(cb_record).(consecutive_failures) 1 →
    n < b.(cb_policy).(open_failure_threshold) →
    failure_branch b now class (set_failures b n)
| failure_open b1 n :
    counts_toward_breaker class = true →
    b.(cb_record).(cbr_state) = Closed →
    n = saturating_add u32_max b.(cb_record).(consecutive_failures) 1 →
    b.(cb_policy).(open_failure_threshold) ≤ n →
    b1 = transition_breaker_state (set_opened_at (set_failures b n) now) Open BreakerOpened
           "breaker opened after repeated upstream failures" →
    failure_branch b now class (set_successes b1 0)
| failure_reopen b1 :
    counts_toward_breaker class = true →
    b.(cb_record).(cbr_state) = HalfOpen →
    b1 = transition_breaker_state (set_opened_at b now) Open BreakerOpened
           "breaker re-opened after failed half-open probe" →
    failure_branch b now class
      (set_successes (set_failures b1 b1.(cb_policy).(open_failure_threshold)) 0)
| failure_extend :
    counts_toward_breaker class = true →
    b.(cb_record).(cbr_state) = Open → failure_branch b now class (set_opened_at b now).

Lemma record_failure_branch b now class :
  failure_branch b now class (CircuitBreaker_record_failure b now class).
Proof.
  unfold CircuitBreaker_record_failure.
  destruct (counts_toward_breaker class) eqn:Hc; simpl; [|by apply failure_ignored].
  destruct (cbr_state (cb_record b)) eqn:Hst.
  - cbn [set_failures with_record cb_policy cb_record consecutive_failures].
    case_decide; [by eapply failure_open | eapply failure_count; [done..|lia]].
  - by apply failure_extend.
  - by eapply failure_reopen.
Qed.

(** Splits one breaker step into its branches, with the transition's record and
    event bound at hand. *)
Ltac breaker_branches :=
  match goal with
  | H : allow_branch _ _ _ _ |- _ => destruct H
  | H : success_branch _ _ |- _ => destruct H
  | H : failure_branch _ _ _ _ |- _ => destruct H
  end;
  try match goal with
  | H : ?b1 = transition_breaker_state ?b ?st ?k ?d |- _ =>
      pose proof (transition_events b st k d);
      destruct (transition_record b st k d) as [? ?]; [simpl; congruence|]; subst b1
  end;
  simpl in *;
  repeat match goal with
  | H : cb_record (transition_breaker_state _ _ _ _) = _ |- _ => rewrite !H; clear H
  | H : cb_policy (transition_breaker_state _ _ _ _) = _ |- _ => rewrite !H; clear H
  end; simpl in *.

Lemma CircuitBreaker_step_policy b op :
  0 < b.(cb_policy).(open_duration) →
  (CircuitBreaker_step b op).1.(cb_policy) = b.(cb_policy).
Proof.
  intros Hdur. destruct op as [now| |now class]; simpl.
  - pose proof (allow_request_branch b now Hdur). breaker_branches; done.
  - pose proof (record_success_branch b). breaker_branches; done.
  - pose proof (record_failure_branch b now class). breaker_branches; done.
Qed.

Lemma CircuitBreaker_step_inv b op :
  policy_ok b.(cb_policy) → breaker_inv b → breaker_inv (CircuitBreaker_step b op).1.
Proof.
  intros Hp [Hev Hi]. pose proof Hp as (? & ? & Hdur). split.
  - destruct op as [now| |now class]; simpl.
    + pose proof (allow_request_branch b now Hdur). breaker_branches; auto.
    + pose proof (record_success_branch b). breaker_branches; auto.
    + pose proof (record_failure_branch b now class). breaker_branches; auto.
  - rewrite CircuitBreaker_step_policy by done. destruct op as [now| |now class]; simpl.
    + pose proof (allow_request_branch b now Hdur).
      breaker_branches; case_match; simplify_eq; split_and?; lia.
    + pose proof (record_success_branch b).
      breaker_branches; case_match; simplify_eq; unfold saturating_add in *; split_and?; lia.
    + pose proof (record_failure_branch b now class).
      breaker_branches; case_match; simplify_eq; unfold saturating_add in *; split_and?; lia.
Qed.

(** On every state the breaker can reach, the closed state holds fewer than
    [open_failure_threshold] consecutive failures, an open or half-open breaker
    holds exactly that many, the half-open success count stays below its
    threshold, at most [half_open_success_threshold] probes are in flight, and the
    event log stays within its bound. *)
Theorem breaker_reachable_inv (p : CircuitBreakerPolicy) (b : CircuitBreaker)
  (Hwidth : p.(open_failure_threshold) ≤ u32_max ∧ p.(half_open_success_threshold) ≤ u32_max)
  (Hreach : breaker_reachable p b) :
  b.(cb_policy) = p ∧ policy_ok p ∧ breaker_inv b.
Proof.
  induction Hreach as [b Hnew | b op _ (Hpol & Hok & Hinv)].
  - unfold CircuitBreaker_new in Hnew. case_decide; simplify_eq.
    unfold policy_ok, breaker_inv, MAX_FAILURE_EVENTS; simpl. split_and!; lia || done.
  - subst p. split_and!; [apply CircuitBreaker_step_policy, Hok | done |].
    by apply CircuitBreaker_step_inv.
Qed.

Definition sample_breaker : CircuitBreaker :=
  {| cb_policy := CircuitBreakerPolicy_default;
     cb_record := {| cbr_state := Closed; consecutive_failures := 0; half_open_successes := 0;
                     opened_at := 0; half_open_admitted := 0; half_open_window_started := 0 |};
     breaker_state_change_count := 0; breaker_open_rejection_count := 0; cb_events := [] |}.

Lemma breaker_reachable_inv_witness :
  breaker_inv (CircuitBreaker_step sample_breaker
                 (BreakerOp_failure 5 UpstreamFailureClass_Timeout)).1.
Proof.
  refine (proj2 (proj2 (breaker_reachable_inv CircuitBreakerPolicy_default _ _ _))).
  - vm_compute. split; discriminate.
  - apply breaker_reachable_step, breaker_reachable_new. reflexivity.
Defined.

Lemma CircuitBreaker_run_cons b op ops :
  CircuitBreaker_run b (op :: ops) =
    let '(b1, admitted) := CircuitBreaker_step b op in
    ((CircuitBreaker_run b1 ops).1,
     (if admitted then 1 else 0) + (CircuitBreaker_run b1 ops).2).
Proof. simpl. destruct (CircuitBreaker_step b op) as [b1 a]. by destruct (CircuitBreaker_run b1 ops). Qed.

Lemma CircuitBreaker_run_app ops1 : ∀ b ops2,
  CircuitBreaker_run b (ops1 ++ ops2) =
    ((CircuitBreaker_run (CircuitBreaker_run b ops1).1 ops2).1,
     (CircuitBreaker_run b ops1).2 + (CircuitBreaker_run (CircuitBreaker_run b ops1).1 ops2).2).
Proof.
  induction ops1 as [|op ops1 IH]; intros b ops2; simpl app.
  { simpl. by destruct (CircuitBreaker_run b ops2). }
  rewrite !CircuitBreaker_run_cons. destruct (CircuitBreaker_step b op) as [b1 a].
  rewrite IH. simpl. f_equal. lia.
Qed.

(** Open, not opened before [t]. *)
Definition open_since (t : Duration) (b : CircuitBreaker) : Prop :=
  b.(cb_record).(cbr_state) = Open ∧ t ≤ b.(cb_record).(opened_at).

Lemma open_since_step t b op :
  0 < b.(cb_policy).(open_duration) →
  open_since t b → BreakerOp_within t (t + b.(cb_policy).(open_duration)) op →
  open_since t (CircuitBreaker_step b op).1 ∧ (CircuitBreaker_step b op).2 = false.
Proof.
  unfold open_since. intros Hdur [Hst Ht] Hop. destruct op as [now| |now class]; simpl in *.
  - pose proof (allow_request_branch b now Hdur) as Hb.
    destruct (CircuitBreaker_allow_request b now) as [b' a]; simpl in *.
    breaker_branches; try congruence; try lia. done.
  - pose proof (record_success_branch b). breaker_branches; try congruence. done.
  - pose proof (record_failure_branch b now class).
    breaker_branches; try congruence; done || split_and!; done || lia.
Qed.

(** Once open, the breaker admits no request until its cool-down has
    elapsed, whatever successes and failures are reported in the meantime. *)
Theorem open_breaker_blocks (b : CircuitBreaker) (t : Duration) (ops : list BreakerOp)
  (Hdur : 0 < b.(cb_policy).(open_duration))
  (Hopen : open_since t b)
  (Hinside : Forall (BreakerOp_within t (t + b.(cb_policy).(open_duration))) ops) :
  (CircuitBreaker_run b ops).2 = 0 ∧ open_since t (CircuitBreaker_run b ops).1.
Proof.
  revert b Hdur Hopen Hinside. induction ops as [|op ops IH]; intros b Hdur Hopen Hin; [done|].
  apply Forall_cons in Hin as [Hop Hin]. rewrite CircuitBreaker_run_cons.
  pose proof (CircuitBreaker_step_policy b op Hdur) as Hpol.
  destruct (open_since_step t b op Hdur Hopen Hop) as [Ho Ha].
  destruct (CircuitBreaker_step b op) as [b1 a]; simpl in *. subst a. rewrite <- Hpol in *.
  by apply IH.
Qed.

Definition opened_breaker : CircuitBreaker :=
  (CircuitBreaker_run sample_breaker
     [BreakerOp_failure 7 UpstreamFailureClass_Timeout;
      BreakerOp_failure 7 UpstreamFailureClass_Connect;
      BreakerOp_failure 7 UpstreamFailureClass_Overloaded]).1.

Lemma open_breaker_blocks_witness :
  (CircuitBreaker_run opened_breaker
     [BreakerOp_allow 8; BreakerOp_success;
      BreakerOp_failure 9 UpstreamFailureClass_Temporary; BreakerOp_allow 29]).2 = 0.
Proof.
  refine (proj1 (open_breaker_blocks opened_breaker 7 _ _ _ _)).
  - vm_compute. reflexivity.
  - split; [reflexivity | vm_compute; discriminate].
  - repeat (constructor; [vm_compute; (exact I || (split; [discriminate | reflexivity]))|]).
    constructor.
Defined.

(** No longer half-open within the window that started at [w]. *)
Definition left_half_open (w : Duration) (b : CircuitBreaker) : Prop :=
  b.(cb_record).(cbr_state) = Closed ∨ open_since w b.

Lemma left_half_open_step w b op :
  0 < b.(cb_policy).(open_duration) →
  left_half_open w b → BreakerOp_within w (w + b.(cb_policy).(open_duration)) op →
  left_half_open w (CircuitBreaker_step b op).1.
Proof.
  unfold left_half_open. intros Hdur [Hst|Ho] Hop.
  2: { right. by apply open_since_step. }
  unfold open_since. destruct op as [now| |now class]; simpl in *.
  - pose proof (allow_request_branch b now Hdur). breaker_branches; try congruence. by left.
  - pose proof (record_success_branch b). breaker_branches; try congruence. by left.
  - pose proof (record_failure_branch b now class).
    breaker_branches; try congruence; [by left | by left | right; split; [done | lia]].
Qed.

Lemma left_half_open_run w ops : ∀ b,
  0 < b.(cb_policy).(open_duration) → left_half_open w b →
  Forall (BreakerOp_within w (w + b.(cb_policy).(open_duration))) ops →
  (CircuitBreaker_run b ops).1.(cb_record).(cbr_state) ≠ HalfOpen.
Proof.
  induction ops as [|op ops IH]; intros b Hdur Hl Hin.
  { destruct Hl as [Hst|[Hst _]]; simpl; congruence. }
  apply Forall_cons in Hin as [Hop Hin]. rewrite CircuitBreaker_run_cons.
  pose proof (CircuitBreaker_step_policy b op Hdur) as Hpol.
  pose proof (left_half_open_step w b op Hdur Hl Hop) as Hl1.
  destruct (CircuitBreaker_step b op) as [b1 a]; simpl in *. rewrite <- Hpol in *. by apply IH.
Qed.

(** Inside its window a half-open breaker either stays half-open, counting each
    admitted probe, or leaves for good. *)
Lemma half_open_step w b op :
  0 < b.(cb_policy).(open_duration) →
  b.(cb_record).(cbr_state) = HalfOpen → b.(cb_record).(half_open_window_started) = w →
  BreakerOp_within w (w + b.(cb_policy).(open_duration)) op →
  let '(b', a) := CircuitBreaker_step b op in
  left_half_open w b' ∨
  (b'.(cb_record).(cbr_state) = HalfOpen ∧ b'.(cb_record).(half_open_window_started) = w ∧
   b'.(cb_record).(half_open_admitted) =
     b.(cb_record).(half_open_admitted) + (if a then 1 else 0)).
Proof.
  unfold left_half_open, open_since. intros Hdur Hst Hw Hop.
  destruct op as [now| |now class]; simpl in *.
  - pose proof (allow_request_branch b now Hdur) as Hb.
    destruct (CircuitBreaker_allow_request b now) as [b' a]; simpl in *.
    breaker_branches; try congruence; try lia; right; split_and!; done || lia.
  - pose proof (record_success_branch b).
    breaker_branches; try congruence; [right; split_and!; done || lia | by left; left].
  - pose proof (record_failure_branch b now class).
    breaker_branches; try congruence; [right; split_and!; done || lia |].
    left; right. split; [done | lia].
Qed.

Lemma half_open_run w ops : ∀ b,
  0 < b.(cb_policy).(open_duration) →
  b.(cb_record).(cbr_state) = HalfOpen → b.(cb_record).(half_open_window_started) = w →
  Forall (BreakerOp_within w (w + b.(cb_policy).(open_duration))) ops →
  (CircuitBreaker_run b ops).1.(cb_record).(cbr_state) = HalfOpen →
  (CircuitBreaker_run b ops).1.(cb_record).(half_open_admitted) =
    b.(cb_record).(half_open_admitted) + (CircuitBreaker_run b ops).2.
Proof.
  induction ops as [|op ops IH]; intros b Hdur Hst Hw Hin Hend; [simpl; lia|].
  apply Forall_cons in Hin as [Hop Hin]. rewrite CircuitBreaker_run_cons in *.
  pose proof (CircuitBreaker_step_policy b op Hdur) as Hpol.
  pose proof (half_open_step w b op Hdur Hst Hw Hop) as Hs.
  destruct (CircuitBreaker_step b op) as [b1 a]; simpl in *. rewrite <- Hpol in *.
  destruct Hs as [Hl|(? & ? & Hadm)].
  - by apply (left_half_open_run w ops) in Hend.
  - rewrite IH by done. lia.
Qed.

Lemma CircuitBreaker_run_inv ops : ∀ b,
  policy_ok b.(cb_policy) → breaker_inv b →
  breaker_inv (CircuitBreaker_run b ops).1 ∧
  (CircuitBreaker_run b ops).1.(cb_policy) = b.(cb_policy).
Proof.
  induction ops as [|op ops IH]; intros b Hp Hi; [done|]. rewrite CircuitBreaker_run_cons.
  pose proof (CircuitBreaker_step_inv b op Hp Hi) as Hi1.
  pose proof (CircuitBreaker_step_policy b op ltac:(apply Hp)) as Hpol.
  destruct (CircuitBreaker_step b op) as [b1 a]; simpl in *.
  rewrite <- Hpol in Hp |- *. by apply IH.
Qed.

(** As long as the breaker stays half-open within one probe window, the
    requests it has admitted in that window never exceed the
    [half_open_success_threshold]. *)
Theorem half_open_probe_bound (b : CircuitBreaker) (ops : list BreakerOp)
  (Hp : policy_ok b.(cb_policy)) (Hinv : breaker_inv b)
  (Hst : b.(cb_record).(cbr_state) = HalfOpen)
  (Hinside : Forall (BreakerOp_within b.(cb_record).(half_open_window_started)
     (b.(cb_record).(half_open_window_started) + b.(cb_policy).(open_duration))) ops)
  (Hend : (CircuitBreaker_run b ops).1.(cb_record).(cbr_state) = HalfOpen) :
  b.(cb_record).(half_open_admitted) + (CircuitBreaker_run b ops).2
    ≤ b.(cb_policy).(half_open_success_threshold).
Proof.
  rewrite <- (half_open_run _ ops b) by (done || apply Hp).
  destruct (CircuitBreaker_run_inv ops b Hp Hinv) as [[_ Hi] Hpol].
  rewrite Hend, Hpol in Hi. apply Hi.
Qed.

Definition half_open_breaker : CircuitBreaker :=
  (CircuitBreaker_run opened_breaker [BreakerOp_allow (7 + from_secs 30)]).1.

Lemma half_open_probe_bound_witness :
  1 + (CircuitBreaker_run half_open_breaker
         [BreakerOp_allow (8 + from_secs 30); BreakerOp_allow (9 + from_secs 30)]).2 ≤ 2.
Proof.
  refine (half_open_probe_bound half_open_breaker _ _ _ _ _ _).
  - vm_compute. split_and!; (reflexivity || discriminate).
  - split; [vm_compute; lia | vm_compute; split_and!; (reflexivity || discriminate)].
  - reflexivity.
  - repeat (constructor; [vm_compute; split; [discriminate | reflexivity]|]). constructor.
  - reflexivity.
Defined.

(** Half-open in a window that started at [now], with the given counters. *)
Definition half_open_at (now admitted successes : N) (b : CircuitBreaker) : Prop :=
  b.(cb_record).(cbr_state) = HalfOpen ∧ b.(cb_record).(half_open_window_started) = now ∧
  b.(cb_record).(half_open_admitted) = admitted ∧ b.(cb_record).(half_open_successes) = successes.

(** One call of [allow_request] in the window: admitted while the probes counted
    so far leave budget. *)
Lemma half_open_allow now t a s b :
  policy_ok b.(cb_policy) → half_open_at now a s b → t - now < b.(cb_policy).(open_duration) →
  let '(b', ok) := CircuitBreaker_step b (BreakerOp_allow t) in
  ok = bool_decide (a < b.(cb_policy).(half_open_success_threshold) - s) ∧
  half_open_at now (if ok then a + 1 else a) s b' ∧ b'.(cb_policy) = b.(cb_policy).
Proof.
  unfold half_open_at. intros (? & ? & Hdur) (Hst & Hw & Ha & Hs) Ht. simpl.
  pose proof (allow_request_branch b t Hdur) as Hb.
  destruct (CircuitBreaker_allow_request b t) as [b' ok]; simpl in *.
  breaker_branches; try congruence; try lia; case_bool_decide; try lia;
    split_and!; done || lia.
Qed.

(** One reported success in the window: counted until the threshold closes the breaker. *)
Lemma half_open_success now a s b :
  policy_ok b.(cb_policy) → half_open_at now a s b →
  s < b.(cb_policy).(half_open_success_threshold) →
  let b' := (CircuitBreaker_step b BreakerOp_success).1 in
  b'.(cb_policy) = b.(cb_policy) ∧
  (s + 1 < b.(cb_policy).(half_open_success_threshold) → half_open_at now a (s + 1) b') ∧
  (s + 1 = b.(cb_policy).(half_open_success_threshold) →
   b'.(cb_record).(cbr_state) = Closed ∧ b'.(cb_record).(consecutive_failures) = 0).
Proof.
  unfold half_open_at. intros (? & ? & Hdur) (Hst & Hw & Ha & Hs) Hlt. simpl.
  pose proof (record_success_branch b). breaker_branches; try congruence;
    unfold saturating_add in *; split_and!; try done; intros; try lia; split_and!; done || lia.
Qed.

Lemma half_open_allow_many now k : ∀ a b,
  policy_ok b.(cb_policy) → half_open_at now a 0 b →
  a + N.of_nat k ≤ b.(cb_policy).(half_open_success_threshold) →
  let '(b', n) := CircuitBreaker_run b (replicate k (BreakerOp_allow now)) in
  n = N.of_nat k ∧ half_open_at now (a + N.of_nat k) 0 b' ∧ b'.(cb_policy) = b.(cb_policy).
Proof.
  induction k as [|k IH]; intros a b Hp Hh Hle; simpl replicate.
  { simpl. rewrite N.add_0_r. done. }
  rewrite CircuitBreaker_run_cons.
  pose proof (half_open_allow now now a 0 b Hp Hh) as Hstep.
  destruct (CircuitBreaker_step b _) as [b1 ok].
  destruct Hstep as (-> & Hh1 & Hpol); [destruct Hp as (? & ? & ?); lia|].
  rewrite bool_decide_true in Hh1 |- * by lia. rewrite <- Hpol in Hp, Hle.
  specialize (IH (a + 1) b1 Hp Hh1). destruct (CircuitBreaker_run b1 _) as [b2 n].
  destruct IH as (-> & Hh2 & Hpol2); [lia|]. simpl. split_and!; [lia | | congruence].
  by replace (a + N.of_nat (S k)) with (a + 1 + N.of_nat k) by lia.
Qed.

Lemma half_open_success_many now a k : ∀ s b,
  policy_ok b.(cb_policy) → half_open_at now a s b →
  s + N.of_nat (S k) = b.(cb_policy).(half_open_success_threshold) →
  let b' := (CircuitBreaker_run b (replicate (S k) BreakerOp_success)).1 in
  b'.(cb_record).(cbr_state) = Closed ∧ b'.(cb_record).(consecutive_failures) = 0.
Proof.
  induction k as [|k IH]; intros s b Hp Hh Heq; simpl replicate;
    rewrite CircuitBreaker_run_cons;
    destruct (half_open_success now a s b Hp Hh) as (Hpol & Hgo & Hclose); try lia;
    destruct (CircuitBreaker_step b BreakerOp_success) as [b1 x]; simpl in *.
  - apply Hclose; lia.
  - rewrite <- Hpol in *. apply (IH (s + 1) b1); auto with lia.
Qed.

(** An open breaker recovers: once the cool-down has elapsed,
    [half_open_success_threshold] probes are admitted, and when all of them
    succeed the breaker is closed with its failure count cleared. *)
Theorem breaker_recovers (b : CircuitBreaker) (now : Duration)
  (Hp : policy_ok b.(cb_policy)) (Hinv : breaker_inv b)
  (Hst : b.(cb_record).(cbr_state) = Open)
  (Hcool : b.(cb_policy).(open_duration) ≤ now - b.(cb_record).(opened_at)) :
  let thr := N.to_nat b.(cb_policy).(half_open_success_threshold) in
  let '(b1, admitted) := CircuitBreaker_run b (replicate thr (BreakerOp_allow now)) in
  let b2 := (CircuitBreaker_run b1 (replicate thr BreakerOp_success)).1 in
  admitted = b.(cb_policy).(half_open_success_threshold) ∧
  b2.(cb_record).(cbr_state) = Closed ∧ b2.(cb_record).(consecutive_failures) = 0.
Proof.
  pose proof Hp as (? & ? & Hdur). destruct Hinv as [_ Hi]. rewrite Hst in Hi.
  destruct (N.to_nat (half_open_success_threshold (cb_policy b))) as [|k] eqn:Hthr; [lia|].
  simpl replicate at 1. rewrite CircuitBreaker_run_cons. simpl.
  pose proof (allow_request_branch b now Hdur) as Hb.
  pose proof (CircuitBreaker_step_policy b (BreakerOp_allow now) Hdur) as Hpol. simpl in Hpol.
  destruct (CircuitBreaker_allow_request b now) as [b1 ok]; simpl in *.
  assert (ok = true ∧ half_open_at now 1 0 b1) as [-> Hh].
  { unfold half_open_at. breaker_branches; try congruence; try lia. split_and!; done || lia. }
  rewrite <- Hpol in *.
  pose proof (half_open_allow_many now k 1 b1 Hp Hh) as Hmany.
  destruct (CircuitBreaker_run b1 _) as [b2 n]. destruct Hmany as (-> & Hh2 & Hpol2); [lia|].
  split; [simpl; lia|]. rewrite <- Hpol2 in *.
  by apply (half_open_success_many now (1 + N.of_nat k) k 0 b2); [| |lia].
Qed.

Lemma breaker_recovers_witness :
  let now := 7 + from_secs 30 in
  let thr := N.to_nat opened_breaker.(cb_policy).(half_open_success_threshold) in
  let '(b1, admitted) := CircuitBreaker_run opened_breaker (replicate thr (BreakerOp_allow now)) in
  let b2 := (CircuitBreaker_run b1 (replicate thr BreakerOp_success)).1 in
  admitted = opened_breaker.(cb_policy).(half_open_success_threshold) ∧
  b2.(cb_record).(cbr_state) = Closed ∧ b2.(cb_record).(consecutive_failures) = 0.
Proof.
  apply breaker_recovers.
  - vm_compute. split_and!; (reflexivity || discriminate).
  - split; [vm_compute; lia | vm_compute; split_and!; (reflexivity || discriminate)].
  - reflexivity.
  - vm_compute. discriminate.
Defined.

(** A client that waits for each probe's outcome before the next request. *)
Definition sequential_probes (now : Duration) (j : nat) : list BreakerOp :=
  concat (replicate j [BreakerOp_allow now; BreakerOp_success]).

Lemma sequential_probes_run now j : ∀ i b,
  policy_ok b.(cb_policy) → half_open_at now i i b →
  2 * (i + N.of_nat j) < b.(cb_policy).(half_open_success_threshold) + 2 →
  i + N.of_nat j < b.(cb_policy).(half_open_success_threshold) →
  let '(b', n) := CircuitBreaker_run b (sequential_probes now j) in
  n = N.of_nat j ∧ half_open_at now (i + N.of_nat j) (i + N.of_nat j) b' ∧
  b'.(cb_policy) = b.(cb_policy).
Proof.
  induction j as [|j IH]; intros i b Hp Hh H2 Hlt.
  { simpl. rewrite N.add_0_r. done. }
  unfold sequential_probes in *. simpl concat. rewrite !CircuitBreaker_run_cons.
  pose proof (half_open_allow now now i i b Hp Hh) as Hallow.
  destruct (CircuitBreaker_step b _) as [b1 ok].
  destruct Hallow as (-> & Hh1 & Hpol); [destruct Hp as (? & ? & ?); lia|].
  rewrite bool_decide_true in Hh1 |- * by lia. rewrite <- Hpol in Hp, H2, Hlt |- *.
  destruct (half_open_success now (i + 1) i b1 Hp Hh1) as (Hpol1 & Hgo & _); [lia|].
  rewrite CircuitBreaker_run_cons.
  destruct (CircuitBreaker_step b1 BreakerOp_success) as [b2 x] eqn:E2.
  assert (x = false) as -> by (simpl in E2; congruence). simpl in Hgo, Hpol1.
  assert (Hh2 : half_open_at now (i + 1) (i + 1) b2) by (apply Hgo; lia).
  rewrite <- Hpol1 in Hp, H2, Hlt |- *. specialize (IH (i + 1) b2 Hp Hh2).
  destruct (CircuitBreaker_run b2 _) as [b3 n]. destruct IH as (-> & Hh3 & Hpol3); [lia | lia |].
  simpl. split_and!; [lia | | done].
  by replace (i + N.of_nat (S j)) with (i + 1 + N.of_nat j) by lia.
Qed.

(** Probes are charged twice, once when admitted and once when their success
    lowers the budget, so a half-open breaker whose probes are sequential stalls: with
    a success threshold of at least two it rejects the request that follows
    half of the needed successes, and stays half-open, although every probe so
    far succeeded. *)
Theorem sequential_probes_stall (b : CircuitBreaker) (now t : Duration)
  (Hp : policy_ok b.(cb_policy)) (Hh : half_open_at now 0 0 b)
  (Hthr : 2 ≤ b.(cb_policy).(half_open_success_threshold))
  (Ht : t - now < b.(cb_policy).(open_duration)) :
  let j := N.to_nat ((b.(cb_policy).(half_open_success_threshold) + 1) / 2) in
  let '(b1, admitted) := CircuitBreaker_run b (sequential_probes now j) in
  admitted = N.of_nat j ∧ N.of_nat j < b.(cb_policy).(half_open_success_threshold) ∧
  (CircuitBreaker_step b1 (BreakerOp_allow t)).2 = false ∧
  (CircuitBreaker_step b1 (BreakerOp_allow t)).1.(cb_record).(cbr_state) = HalfOpen.
Proof.
  set (thr := half_open_success_threshold (cb_policy b)) in *. intros j.
  assert (Hj : N.of_nat j = (thr + 1) / 2) by (unfold j; lia).
  pose proof (half_up_bounds thr) as Hdiv.
  pose proof (sequential_probes_run now j 0 b Hp Hh) as Hrun. fold thr in Hrun.
  destruct (CircuitBreaker_run b _) as [b1 n].
  destruct Hrun as (-> & Hh1 & Hpol); [lia | lia |].
  rewrite <- Hpol in *. pose proof (half_open_allow now t _ _ b1 Hp Hh1 Ht) as Hallow.
  destruct (CircuitBreaker_step b1 _) as [b2 ok]. destruct Hallow as (-> & Hh2 & _).
  rewrite bool_decide_false by (fold thr in Hpol; rewrite Hpol; fold thr; lia).
  split_and!; [done | lia | done |]. apply Hh2.
Qed.

Lemma sequential_probes_stall_witness :
  let b := set_probe_window half_open_breaker 0 (7 + from_secs 30) in
  let j := N.to_nat ((b.(cb_policy).(half_open_success_threshold) + 1) / 2) in
  let '(b1, admitted) := CircuitBreaker_run b (sequential_probes (7 + from_secs 30) j) in
  admitted = N.of_nat j ∧ N.of_nat j < b.(cb_policy).(half_open_success_threshold) ∧
  (CircuitBreaker_step b1 (BreakerOp_allow (8 + from_secs 30))).2 = false ∧
  (CircuitBreaker_step b1 (BreakerOp_allow (8 + from_secs 30))).1.(cb_record).(cbr_state)
    = HalfOpen.
Proof.
  apply sequential_probes_stall.
  - vm_compute. split_and!; (reflexivity || discriminate).
  - vm_compute. split_and!; reflexivity.
  - vm_compute. discriminate.
  - vm_compute. reflexivity.
Defined.

(** ** Theorems: timeout hierarchy and the manager *)

(** A hierarchy is accepted exactly when all four timeouts are positive,
    the attempt timeout is within the request timeout, and the connect and idle
    timeouts are within the attempt timeout; then every effective timeout is the
    configured one, positive, and within the request timeout. *)
Theorem timeout_hierarchy_spec (t : TimeoutHierarchy) :
  (TimeoutHierarchy_validate t = Ok tt ↔
     0 < t.(connect_timeout) ≤ t.(attempt_timeout) ∧
     0 < t.(idle_timeout) ≤ t.(attempt_timeout) ∧
     t.(attempt_timeout) ≤ t.(request_timeout)) ∧
  (TimeoutHierarchy_validate t = Ok tt → ∀ category,
     0 < TimeoutHierarchy_effective_timeout t category ≤ t.(request_timeout) ∧
     TimeoutHierarchy_effective_timeout t category =
       match category with
       | TimeoutCategory_Request => t.(request_timeout)
       | TimeoutCategory_Attempt => t.(attempt_timeout)
       | TimeoutCategory_Connect => t.(connect_timeout)
       | TimeoutCategory_Idle => t.(idle_timeout)
       end).
Proof.
  unfold TimeoutHierarchy_validate. split.
  - repeat case_decide; split; intros; try done; try lia.
  - repeat case_decide; try done. intros _ []; simpl; lia.
Qed.
