(* ===== verification/Overload.v ===== *)
(** * Overload management

    Models [crates/runtime/src/overload_management.rs]: pressure signals are
    kept in a sliding window, their number selects one of four overload states,
    the state decides which traffic class is shed and which brownout features
    are switched off.  [record_signal], [snapshot] and [metrics] hold the state
    mutex for their whole body and are atomic steps.  [decide] takes it twice, once
    to choose the action and once to report the state, and accounts a shed request
    in between without it: [OverloadManager_decide] composes these parts, and the
    step relation [decide_step] lets other calls run between them. *)

From S2P Require Import Prelude RustStr.
Local Open Scope N_scope.
Local Open Scope rust_scope.

Definition MAX_OVERLOAD_EVENTS : nat := 64.

Inductive TrafficClass := Critical | Default | BestEffort.
#[export] Instance TrafficClass_eq_dec : EqDecision TrafficClass.
Proof. solve_decision. Defined.

Inductive OverloadState := Normal | Constrained | Shedding | Brownout.
#[export] Instance OverloadState_eq_dec : EqDecision OverloadState.
Proof. solve_decision. Defined.

Record BrownoutFeature := { bf_name : string; bf_priority : TrafficClass }.

Record OverloadPolicy := {
  signal_window : Duration;
  constrained_signal_threshold : N;
  shedding_signal_threshold : N;
  brownout_signal_threshold : N
}.

Definition OverloadPolicy_default : OverloadPolicy :=
  {| signal_window := from_secs 10; constrained_signal_threshold := 3;
     shedding_signal_threshold := 6; brownout_signal_threshold := 9 |}.

Inductive OverloadManagementError :=
| ZeroSignalWindow
| ZeroSignalThreshold
| InvalidSignalThresholdOrder
| EmptyBrownoutFeatureName
| DuplicateBrownoutFeature.

Definition OverloadPolicy_validate (p : OverloadPolicy) : Result unit OverloadManagementError :=
  if decide (p.(signal_window) = 0) then Err ZeroSignalWindow
  else if decide (p.(constrained_signal_threshold) = 0 ∨ p.(shedding_signal_threshold) = 0 ∨
                  p.(brownout_signal_threshold) = 0) then Err ZeroSignalThreshold
  else if decide (p.(shedding_signal_threshold) < p.(constrained_signal_threshold) ∨
                  p.(brownout_signal_threshold) < p.(shedding_signal_threshold))
  then Err InvalidSignalThresholdOrder
  else Ok tt.

Inductive OverloadSignalKind :=
| RateLimited
| ConcurrencyLimited
| CircuitBreakerOpen
| RetryBudgetExhausted.
#[export] Instance OverloadSignalKind_eq_dec : EqDecision OverloadSignalKind.
Proof. solve_decision. Defined.

Definition OverloadSignalKind_index (k : OverloadSignalKind) : nat :=
  match k with
  | RateLimited => 0 | ConcurrencyLimited => 1
  | CircuitBreakerOpen => 2 | RetryBudgetExhausted => 3
  end%nat.
Definition OverloadSignalKind_of_index (n : nat) : OverloadSignalKind :=
  match n with
  | 0 => RateLimited | 1 => ConcurrencyLimited
  | 2 => CircuitBreakerOpen | _ => RetryBudgetExhausted
  end%nat.
#[export] Instance OverloadSignalKind_countable : Countable OverloadSignalKind.
Proof.
  refine (inj_countable' OverloadSignalKind_index OverloadSignalKind_of_index _).
  by intros [].
Defined.

Record OverloadSignal := {
  rate_limited : bool;
  concurrency_limited : bool;
  breaker_open : bool;
  retry_budget_exhausted : bool
}.

(** [u64::from(bool)]. *)
Definition bit (b : bool) : N := if b then 1 else 0.

Definition active_count (s : OverloadSignal) : N :=
  bit s.(rate_limited) + bit s.(concurrency_limited) +
  bit s.(breaker_open) + bit s.(retry_budget_exhausted).

Definition active_kinds (s : OverloadSignal) : list OverloadSignalKind :=
  (if s.(rate_limited) then [RateLimited] else []) ++
  (if s.(concurrency_limited) then [ConcurrencyLimited] else []) ++
  (if s.(breaker_open) then [CircuitBreakerOpen] else []) ++
  (if s.(retry_budget_exhausted) then [RetryBudgetExhausted] else []).

Inductive SheddingAction := Allow | Shed.
#[export] Instance SheddingAction_eq_dec : EqDecision SheddingAction.
Proof. solve_decision. Defined.

Inductive ShedReason := PriorityDrop | BrownoutActive.

Record SheddingDecision := {
  sd_action : SheddingAction;
  sd_state : OverloadState;
  sd_reason : option ShedReason
}.

Record OverloadSnapshot := {
  os_state : OverloadState;
  os_active_signal_count : N;
  os_rate_limited_count : N;
  os_concurrency_limited_count : N;
  os_breaker_open_count : N;
  os_retry_budget_exhausted_count : N;
  os_shed_request_count : N;
  os_brownout_feature_count : N
}.

Record OverloadMetrics := {
  om_state_change_count : N;
  om_shed_request_count : N;
  om_brownout_activation_count : N;
  om_signal_counts : gmap OverloadSignalKind N
}.

Record SignalSample := { observed_at : Duration; sample_signal : OverloadSignal }.

Record OverloadStateRecord := {
  osr_state : OverloadState;
  samples : list SignalSample;
  disabled_features : gset string
}.

Inductive OverloadEventKind := StateChanged | RequestShed | BrownoutFeaturesChanged.

Record OverloadEvent := {
  oe_kind : OverloadEventKind;
  oe_scope : string;
  oe_detail : string
}.

(** The [{:?}] texts of the two enumerations. *)
Definition OverloadState_debug (s : OverloadState) : string :=
  match s with
  | Normal => "Normal" | Constrained => "Constrained"
  | Shedding => "Shedding" | Brownout => "Brownout"
  end.
Definition TrafficClass_debug (c : TrafficClass) : string :=
  match c with Critical => "Critical" | Default => "Default" | BestEffort => "BestEffort" end.

(** ** Brownout hooks *)

Record BrownoutHookRegistry := { features : list BrownoutFeature }.

Fixpoint check_features (seen : gset string) (fs : list BrownoutFeature) :
    Result unit OverloadManagementError :=
  match fs with
  | [] => Ok tt
  | f :: fs =>
      let normalized := to_ascii_lowercase (trim f.(bf_name)) in
      if decide (normalized = EmptyString) then Err EmptyBrownoutFeatureName
      else if decide (normalized ∈ seen) then Err DuplicateBrownoutFeature
      else check_features ({[normalized]} ∪ seen) fs
  end.

Definition BrownoutHookRegistry_new (fs : list BrownoutFeature) :
    Result BrownoutHookRegistry OverloadManagementError :=
  let? _ := check_features ∅ fs in Ok {| features := fs |}.

Definition feature_count (r : BrownoutHookRegistry) : nat := length r.(features).

Definition should_disable_feature (state : OverloadState) (priority : TrafficClass) : bool :=
  match state with
  | Normal | Constrained => false
  | Shedding => bool_decide (priority = BestEffort)
  | Brownout => negb (bool_decide (priority = Critical))
  end.

Definition disabled_features_for (r : BrownoutHookRegistry) (state : OverloadState) :
    gset string :=
  foldl (λ disabled f, if should_disable_feature state f.(bf_priority)
                       then {[f.(bf_name)]} ∪ disabled else disabled) ∅ r.(features).

(** ** The manager *)

Record OverloadManager := {
  om_policy : OverloadPolicy;
  om_hooks : BrownoutHookRegistry;
  om_state : OverloadStateRecord;
  state_change_count : N;
  shed_request_count : N;
  brownout_activation_count : N;
  om_events : list OverloadEvent
}.

Definition OverloadManager_new (policy : OverloadPolicy) (hooks : BrownoutHookRegistry) :
    Result OverloadManager OverloadManagementError :=
  let? _ := OverloadPolicy_validate policy in
  Ok {| om_policy := policy; om_hooks := hooks;
        om_state := {| osr_state := Normal; samples := []; disabled_features := ∅ |};
        state_change_count := 0; shed_request_count := 0; brownout_activation_count := 0;
        om_events := [] |}.

Definition classify_state (policy : OverloadPolicy) (active_signal_count : N) : OverloadState :=
  if decide (policy.(brownout_signal_threshold) ≤ active_signal_count) then Brownout
  else if decide (policy.(shedding_signal_threshold) ≤ active_signal_count) then Shedding
  else if decide (policy.(constrained_signal_threshold) ≤ active_signal_count) then Constrained
  else Normal.

(** Pops from the front while the front sample is outside the window. *)
Fixpoint evict_old_samples (policy : OverloadPolicy) (now : Duration) (l : list SignalSample) :
    list SignalSample :=
  match l with
  | [] => []
  | s :: l' => if decide (now - s.(observed_at) < policy.(signal_window)) then l
               else evict_old_samples policy now l'
  end.

Definition add_kind (counts : gmap OverloadSignalKind N) (k : OverloadSignalKind) :
    gmap OverloadSignalKind N :=
  <[k := default 0 (counts !! k) + 1]> counts.

Definition aggregate_signal_counts (l : list SignalSample) : gmap OverloadSignalKind N :=
  foldl (λ counts s, foldl add_kind counts (active_kinds s.(sample_signal))) ∅ l.

(** [signal_counts.values().sum()]. *)
Definition total_signals (counts : gmap OverloadSignalKind N) : N :=
  map_fold (λ _ n acc, n + acc) 0 counts.

(** Iteration over a [BTreeSet<String>]. *)
Definition sorted_elements (s : gset string) : list string :=
  sort_by id String.compare (elements s).

Definition push_overload_event (events : list OverloadEvent) (kind : OverloadEventKind)
    (detail : string) : list OverloadEvent :=
  push_bounded MAX_OVERLOAD_EVENTS events
    {| oe_kind := kind; oe_scope := "dataplane"; oe_detail := detail |}.

Definition make_snapshot (st : OverloadStateRecord) (shed : N) : OverloadSnapshot :=
  let signal_counts := aggregate_signal_counts st.(samples) in
  let get k := default 0 (signal_counts !! k) in
  {| os_state := st.(osr_state);
     os_active_signal_count := total_signals signal_counts;
     os_rate_limited_count := get RateLimited;
     os_concurrency_limited_count := get ConcurrencyLimited;
     os_breaker_open_count := get CircuitBreakerOpen;
     os_retry_budget_exhausted_count := get RetryBudgetExhausted;
     os_shed_request_count := shed;
     os_brownout_feature_count := N.of_nat (size st.(disabled_features)) |}.

Definition OverloadManager_record_signal (m : OverloadManager) (now : Duration)
    (signal : OverloadSignal) : OverloadManager * OverloadSnapshot :=
  let st := m.(om_state) in
  let samples' := evict_old_samples m.(om_policy) now
                    (st.(samples) ++ [{| observed_at := now; sample_signal := signal |}]) in
  let signal_counts := aggregate_signal_counts samples' in
  let active_signal_count := total_signals signal_counts in
  let next_state := classify_state m.(om_policy) active_signal_count in
  let changed := bool_decide (next_state ≠ st.(osr_state)) in
  let events := if changed
                then push_overload_event m.(om_events) StateChanged
                       ("overload state transitioned to " +:+ OverloadState_debug next_state)
                else m.(om_events) in
  let disabled := disabled_features_for m.(om_hooks) next_state in
  let differs := bool_decide (disabled ≠ st.(disabled_features)) in
  let brownout_entering :=
    differs && bool_decide (disabled ≠ ∅) && bool_decide (st.(disabled_features) = ∅) in
  let events := if differs && bool_decide (disabled ≠ ∅)
                then push_overload_event events BrownoutFeaturesChanged
                       ("brownout features disabled: " +:+ join "," (sorted_elements disabled))
                else events in
  let st' := {| osr_state := next_state; samples := samples'; disabled_features := disabled |} in
  ({| om_policy := m.(om_policy); om_hooks := m.(om_hooks); om_state := st';
      state_change_count :=
        if changed then fetch_add m.(state_change_count) 1 else m.(state_change_count);
      shed_request_count := m.(shed_request_count);
      brownout_activation_count :=
        if brownout_entering then fetch_add m.(brownout_activation_count) 1
        else m.(brownout_activation_count);
      om_events := events |},
   make_snapshot st' m.(shed_request_count)).

(** The action and the reason [decide] derives from the state it reads. *)
Definition decide_action (state : OverloadState) (traffic_class : TrafficClass) : SheddingAction :=
  match state with
  | Normal => Allow
  | Constrained => match traffic_class with BestEffort => Shed | Critical | Default => Allow end
  | Shedding | Brownout =>
      match traffic_class with Critical => Allow | Default | BestEffort => Shed end
  end.

Definition decide_reason (state : OverloadState) (action : SheddingAction) : option ShedReason :=
  match state, action with
  | _, Allow => None
  | Brownout, Shed => Some BrownoutActive
  | _, Shed => Some PriorityDrop
  end.

(** The accounting of a shed request, after the state mutex is released. *)
Definition count_shed (m : OverloadManager) : OverloadManager :=
  {| om_policy := m.(om_policy); om_hooks := m.(om_hooks); om_state := m.(om_state);
     state_change_count := m.(state_change_count);
     shed_request_count := fetch_add m.(shed_request_count) 1;
     brownout_activation_count := m.(brownout_activation_count);
     om_events := m.(om_events) |}.

Definition log_shed (m : OverloadManager) (traffic_class : TrafficClass) : OverloadManager :=
  {| om_policy := m.(om_policy); om_hooks := m.(om_hooks); om_state := m.(om_state);
     state_change_count := m.(state_change_count);
     shed_request_count := m.(shed_request_count);
     brownout_activation_count := m.(brownout_activation_count);
     om_events := push_overload_event m.(om_events) RequestShed
                    ("shed " +:+ TrafficClass_debug traffic_class +:+ " traffic under overload") |}.

Definition current_state (m : OverloadManager) : OverloadState := m.(om_state).(osr_state).

(** [decide] with no other call between its critical sections. *)
Definition OverloadManager_decide (m : OverloadManager) (traffic_class : TrafficClass) :
    OverloadManager * SheddingDecision :=
  let state := m.(om_state).(osr_state) in
  let action := decide_action state traffic_class in
  let reason := decide_reason state action in
  let m := match action with
           | Shed => log_shed (count_shed m) traffic_class
           | Allow => m
           end in
  (m, {| sd_action := action; sd_state := current_state m; sd_reason := reason |}).

Definition OverloadManager_disabled_features (m : OverloadManager) : gset string :=
  m.(om_state).(disabled_features).

Definition recent_events (m : OverloadManager) : list OverloadEvent := m.(om_events).

Definition OverloadManager_evict (m : OverloadManager) (now : Duration) : OverloadManager :=
  let st := m.(om_state) in
  {| om_policy := m.(om_policy); om_hooks := m.(om_hooks);
     om_state := {| osr_state := st.(osr_state);
                    samples := evict_old_samples m.(om_policy) now st.(samples);
                    disabled_features := st.(disabled_features) |};
     state_change_count := m.(state_change_count);
     shed_request_count := m.(shed_request_count);
     brownout_activation_count := m.(brownout_activation_count);
     om_events := m.(om_events) |}.

Definition OverloadManager_snapshot (m : OverloadManager) (now : Duration) :
    OverloadManager * OverloadSnapshot :=
  let m := OverloadManager_evict m now in
  (m, make_snapshot m.(om_state) m.(shed_request_count)).

Definition OverloadManager_metrics (m : OverloadManager) (now : Duration) :
    OverloadManager * OverloadMetrics :=
  let m := OverloadManager_evict m now in
  (m, {| om_state_change_count := m.(state_change_count);
         om_shed_request_count := m.(shed_request_count);
         om_brownout_activation_count := m.(brownout_activation_count);
         om_signal_counts := aggregate_signal_counts m.(om_state).(samples) |}).

(** ** Theorems: sliding window *)

(** The sum of the active signals of some samples. *)
Fixpoint sum_active (l : list SignalSample) : N :=
  match l with [] => 0 | s :: l => active_count s.(sample_signal) + sum_active l end.

Definition in_window (p : OverloadPolicy) (now : Duration) (s : SignalSample) : Prop :=
  now - s.(observed_at) < p.(signal_window).
#[export] Instance in_window_dec p now s : Decision (in_window p now s).
Proof. unfold in_window. apply _. Defined.

Definition sample_le (a b : SignalSample) : Prop := a.(observed_at) ≤ b.(observed_at).

Lemma evict_old_samples_filter p now l :
  StronglySorted sample_le l → evict_old_samples p now l = filter (in_window p now) l.
Proof.
  induction l as [|s l IH]; intros Hs; [done|].
  apply StronglySorted_cons in Hs as [Hle Hs]. simpl. rewrite filter_cons.
  change (now - s.(observed_at) < p.(signal_window)) with (in_window p now s).
  destruct (decide (in_window p now s)) as [Hw|Hw]; [|by apply IH].
  f_equal. symmetry. clear IH Hs. induction Hle as [|s' l Hs' Hle IH]; [done|].
  rewrite filter_cons_True; [by f_equal|]. unfold in_window, sample_le in *. lia.
Qed.

Lemma filter_window_later p now now' (l : list SignalSample) :
  now ≤ now' → filter (in_window p now') (filter (in_window p now) l) = filter (in_window p now') l.
Proof.
  intros Hle. rewrite list_filter_filter. apply list_filter_iff.
  intros s. unfold in_window. lia.
Qed.

Lemma total_signals_add counts k : total_signals (add_kind counts k) = total_signals counts + 1.
Proof.
  assert (Hins : ∀ (m : gmap OverloadSignalKind N) i x, m !! i = None →
            total_signals (<[i:=x]> m) = x + total_signals m).
  { intros m i x Hi. unfold total_signals. rewrite map_fold_insert_L; [done| |done].
    intros. lia. }
  unfold add_kind. destruct (counts !! k) as [n|] eqn:E; simpl.
  - rewrite <- (insert_delete_id counts k n E) at 2.
    rewrite <- insert_delete_eq, !Hins by apply lookup_delete_eq. lia.
  - rewrite Hins by done. lia.
Qed.

Lemma total_signals_kinds ks : ∀ counts,
  total_signals (foldl add_kind counts ks) = total_signals counts + N.of_nat (length ks).
Proof.
  induction ks as [|k ks IH]; intros counts; simpl; [lia|].
  rewrite IH, total_signals_add. lia.
Qed.

Lemma length_active_kinds s : N.of_nat (length (active_kinds s)) = active_count s.
Proof. by destruct s as [[] [] [] []]. Qed.

Lemma total_aggregate l : total_signals (aggregate_signal_counts l) = sum_active l.
Proof.
  assert (H : ∀ counts, total_signals (foldl (λ counts s, foldl add_kind counts
      (active_kinds s.(sample_signal))) counts l) = total_signals counts + sum_active l).
  { induction l as [|s l IH]; intros counts; simpl; [lia|].
    rewrite IH, total_signals_kinds, length_active_kinds. lia. }
  unfold aggregate_signal_counts. by rewrite H.
Qed.

(** A call on the manager, and a history of calls. *)
Inductive OverloadCall :=
| CallRecord (now : Duration) (signal : OverloadSignal)
| CallSnapshot (now : Duration)
| CallMetrics (now : Duration)
| CallDecide (traffic_class : TrafficClass).

Definition OverloadManager_call (m : OverloadManager) (c : OverloadCall) : OverloadManager :=
  match c with
  | CallRecord now s => (OverloadManager_record_signal m now s).1
  | CallSnapshot now => (OverloadManager_snapshot m now).1
  | CallMetrics now => (OverloadManager_metrics m now).1
  | CallDecide k => (OverloadManager_decide m k).1
  end.

Definition OverloadManager_run : OverloadManager → list OverloadCall → OverloadManager :=
  foldl OverloadManager_call.

Definition call_time (c : OverloadCall) : option Duration :=
  match c with
  | CallRecord now _ | CallSnapshot now | CallMetrics now => Some now
  | CallDecide _ => None
  end.

(** The clock passed to the calls never runs backwards. *)
Fixpoint clock_monotone (now : Duration) (calls : list OverloadCall) : Prop :=
  match calls with
  | [] => True
  | c :: calls => match call_time c with
                  | Some t => now ≤ t ∧ clock_monotone t calls
                  | None => clock_monotone now calls
                  end
  end.

(** The abstract manager remembers every signal ever recorded, and derives its
    state from those within the window at the time of the last one. *)
Fixpoint recorded (calls : list OverloadCall) : list SignalSample :=
  match calls with
  | [] => []
  | CallRecord now s :: calls => {| observed_at := now; sample_signal := s |} :: recorded calls
  | _ :: calls => recorded calls
  end.

Definition spec_state (p : OverloadPolicy) (history : list SignalSample) : OverloadState :=
  match last history with
  | None => Normal
  | Some s => classify_state p (sum_active (filter (in_window p s.(observed_at)) history))
  end.

(** The simulation relation between the abstract history and the manager. *)
Record simulates (p : OverloadPolicy) (h : BrownoutHookRegistry) (now : Duration)
    (history : list SignalSample) (m : OverloadManager) : Prop := {
  sim_policy : m.(om_policy) = p;
  sim_hooks : m.(om_hooks) = h;
  sim_sorted : StronglySorted sample_le history;
  sim_past : Forall (λ s, s.(observed_at) ≤ now) history;
  sim_samples : m.(om_state).(samples) = filter (in_window p now) history;
  sim_state : m.(om_state).(osr_state) = spec_state p history;
  sim_features : m.(om_state).(disabled_features) = disabled_features_for h (spec_state p history);
  sim_events : (length m.(om_events) ≤ MAX_OVERLOAD_EVENTS)%nat
}.

Lemma StronglySorted_snoc_le history (s : SignalSample) :
  StronglySorted sample_le history → Forall (λ x, x.(observed_at) ≤ s.(observed_at)) history →
  StronglySorted sample_le (history ++ [s]).
Proof.
  induction history as [|x l IH]; intros Hs Hf; simpl; [by repeat constructor|].
  apply StronglySorted_cons in Hs as [Hx Hs]. apply Forall_cons in Hf as [Hf1 Hf].
  apply StronglySorted_cons. split; [|by apply IH].
  apply Forall_app. split; [done|]. by constructor.
Qed.

Lemma push_overload_event_bound ev k d :
  (length ev ≤ MAX_OVERLOAD_EVENTS →
   length (push_overload_event ev k d) ≤ MAX_OVERLOAD_EVENTS)%nat.
Proof. apply length_push_bounded. unfold MAX_OVERLOAD_EVENTS. lia. Qed.

Lemma spec_state_snoc p history s :
  spec_state p (history ++ [s]) =
    classify_state p (sum_active (filter (in_window p s.(observed_at)) (history ++ [s]))).
Proof. unfold spec_state. by rewrite last_snoc. Qed.

Lemma record_signal_state m now s :
  (OverloadManager_record_signal m now s).1.(om_state) =
    let samples' := evict_old_samples m.(om_policy) now
                      (m.(om_state).(samples) ++ [{| observed_at := now; sample_signal := s |}]) in
    let next := classify_state m.(om_policy) (sum_active samples') in
    {| osr_state := next; samples := samples';
       disabled_features := disabled_features_for m.(om_hooks) next |}.
Proof. simpl. by rewrite total_aggregate. Qed.

Lemma record_signal_events m now s :
  (length m.(om_events) ≤ MAX_OVERLOAD_EVENTS →
   length (OverloadManager_record_signal m now s).1.(om_events) ≤ MAX_OVERLOAD_EVENTS)%nat.
Proof. intros H. cbn. repeat case_match; auto using push_overload_event_bound. Qed.

Lemma simulates_record p h t now history m s :
  simulates p h t history m → t ≤ now →
  simulates p h now (history ++ [{| observed_at := now; sample_signal := s |}])
    (OverloadManager_record_signal m now s).1.
Proof.
  intros [Hp Hh Hs Hpast Hsam Hst Hf Hev] Hle. set (x := {| observed_at := now; sample_signal := s |}).
  assert (Hpast' : Forall (λ s, s.(observed_at) ≤ now) history)
    by (eapply Forall_impl; [exact Hpast | simpl; lia]).
  assert (Hs' : StronglySorted sample_le (history ++ [x])) by by apply StronglySorted_snoc_le.
  assert (Hsam' : evict_old_samples p now (m.(om_state).(samples) ++ [x]) =
                  filter (in_window p now) (history ++ [x])).
  { rewrite Hsam, evict_old_samples_filter, !filter_app, filter_window_later; [done|done|].
    apply StronglySorted_snoc_le; [by apply StronglySorted_filter | by apply Forall_filter]. }
  split; [by rewrite <- Hp | by rewrite <- Hh | done | | | | | by apply record_signal_events].
  - apply Forall_app. split; [done|]. by repeat constructor.
  - by rewrite record_signal_state, Hp; cbn; fold x; rewrite Hsam'.
  - rewrite record_signal_state, Hp; cbn; fold x; rewrite Hsam'. by rewrite spec_state_snoc.
  - rewrite record_signal_state, Hp, Hh; cbn; fold x; rewrite Hsam'. by rewrite spec_state_snoc.
Qed.

Lemma simulates_evict p h t now history m :
  simulates p h t history m → t ≤ now → simulates p h now history (OverloadManager_evict m now).
Proof.
  intros [Hp Hh Hs Hpast Hsam Hst Hf Hev] Hle. split; try done.
  - eapply Forall_impl; [exact Hpast | simpl; lia].
  - cbn. rewrite Hp, Hsam, evict_old_samples_filter by by apply StronglySorted_filter.
    by apply filter_window_later.
Qed.

Lemma simulates_decide p h t history m k :
  simulates p h t history m → simulates p h t history (OverloadManager_decide m k).1.
Proof.
  intros [Hp Hh Hs Hpast Hsam Hst Hf Hev]. unfold OverloadManager_decide.
  destruct (decide_action _ _); simpl; [by split|].
  split; try done. by apply push_overload_event_bound.
Qed.

Lemma simulates_run p h calls : ∀ t history m,
  simulates p h t history m → clock_monotone t calls →
  ∃ t', simulates p h t' (history ++ recorded calls) (OverloadManager_run m calls).
Proof.
  induction calls as [|c calls IH]; intros t history m Hsim Hclock.
  { exists t. by rewrite app_nil_r. }
  destruct c as [now s|now|now|k]; simpl in Hclock |- *.
  - destruct Hclock as [Hle Hclock]. rewrite (cons_middle _ history), app_assoc.
    eapply IH; [|exact Hclock]. by eapply simulates_record.
  - destruct Hclock as [Hle Hclock]. eapply IH; [|exact Hclock]. by eapply simulates_evict.
  - destruct Hclock as [Hle Hclock]. eapply IH; [|exact Hclock]. by eapply simulates_evict.
  - eapply IH; [|exact Hclock]. by apply simulates_decide.
Qed.

Lemma simulates_new p h m : OverloadManager_new p h = Ok m → simulates p h 0 [] m.
Proof.
  unfold OverloadManager_new. intros E. case_match; simplify_eq. split; try done; try by constructor.
  - unfold spec_state; simpl. unfold disabled_features_for, should_disable_feature; simpl.
    by induction h.(features).
  - unfold MAX_OVERLOAD_EVENTS. simpl. lia.
Qed.

(** C39: The manager refines an abstract one that remembers every signal: after
    any history of calls with a monotone clock, its state is the classification of
    the signals recorded within [signal_window] of the last one, and the disabled
    features are those the hooks prescribe for that state; calls of [snapshot],
    [metrics] and [decide], however late, change neither. *)
Theorem overload_state_refines_window (p : OverloadPolicy) (h : BrownoutHookRegistry)
  (m : OverloadManager) (calls : list OverloadCall)
  (Hnew : OverloadManager_new p h = Ok m) (Hclock : clock_monotone 0 calls) :
  let m' := OverloadManager_run m calls in
  current_state m' = spec_state p (recorded calls) ∧
  OverloadManager_disabled_features m' =
    disabled_features_for h (spec_state p (recorded calls)) ∧
  (length (recent_events m') ≤ MAX_OVERLOAD_EVENTS)%nat.
Proof.
  destruct (simulates_run p h calls 0 [] m) as [t' Hsim]; [by apply simulates_new | done |].
  destruct Hsim. done.
Qed.

Definition example_policy : OverloadPolicy :=
  {| signal_window := from_secs 10; constrained_signal_threshold := 2;
     shedding_signal_threshold := 4; brownout_signal_threshold := 6 |}.
Definition example_hooks : BrownoutHookRegistry :=
  {| features := [ {| bf_name := "expensive_search"; bf_priority := BestEffort |};
                   {| bf_name := "html_previews"; bf_priority := Default |} ] |}.
Definition all_signals : OverloadSignal :=
  {| rate_limited := true; concurrency_limited := true;
     breaker_open := true; retry_budget_exhausted := true |}.
Definition example_manager : OverloadManager :=
  {| om_policy := example_policy; om_hooks := example_hooks;
     om_state := {| osr_state := Normal; samples := []; disabled_features := ∅ |};
     state_change_count := 0; shed_request_count := 0; brownout_activation_count := 0;
     om_events := [] |}.
Definition example_calls : list OverloadCall :=
  [CallRecord 0 all_signals; CallDecide Default; CallRecord (from_secs 1) all_signals;
   CallSnapshot (from_secs 30); CallDecide Critical].

Lemma overload_state_refines_window_witness :
  current_state (OverloadManager_run example_manager example_calls) = Brownout.
Proof.
  destruct (overload_state_refines_window example_policy example_hooks example_manager example_calls)
    as [E _]; [vm_compute; reflexivity | vm_compute; split_and!; done |].
  rewrite E. vm_compute. reflexivity.
Defined.

(** ** Theorems: priorities *)

Definition severity (s : OverloadState) : N :=
  match s with Normal => 0 | Constrained => 1 | Shedding => 2 | Brownout => 3 end.
Definition importance (c : TrafficClass) : N :=
  match c with Critical => 2 | Default => 1 | BestEffort => 0 end.

Lemma classify_state_mono p a b :
  OverloadPolicy_validate p = Ok tt → a ≤ b →
  severity (classify_state p a) ≤ severity (classify_state p b).
Proof.
  unfold OverloadPolicy_validate, classify_state. intros Hv Hab.
  repeat case_decide; simplify_eq; simpl; lia.
Qed.

Lemma elem_of_disabled_features r st x :
  x ∈ disabled_features_for r st ↔
  ∃ f, f ∈ r.(features) ∧ bf_name f = x ∧ should_disable_feature st f.(bf_priority) = true.
Proof.
  unfold disabled_features_for.
  assert (H : ∀ l (acc : gset string), x ∈ foldl (λ d f, if should_disable_feature st f.(bf_priority)
                 then {[f.(bf_name)]} ∪ d else d) acc l ↔
              x ∈ acc ∨ ∃ f, f ∈ l ∧ bf_name f = x ∧
                             should_disable_feature st f.(bf_priority) = true).
  { induction l as [|f l IH]; intros acc; simpl; [by setoid_rewrite elem_of_nil; naive_solver|].
    rewrite IH, exists_elem_of_cons.
    destruct (should_disable_feature st f.(bf_priority)) eqn:E; [|naive_solver].
    rewrite elem_of_union, elem_of_singleton. naive_solver. }
  rewrite H, elem_of_empty. naive_solver.
Qed.

(** Load shedding respects priorities, and more signals never relax it: with
    a valid policy, when the signal count grows from [a] to [b], every request class
    shed at [a] is shed at [b], so is every less important class, every feature
    disabled at [a] stays disabled, and critical traffic is never shed. *)
Theorem shedding_monotone (p : OverloadPolicy) (h : BrownoutHookRegistry) (a b : N)
  (c d : TrafficClass)
  (Hvalid : OverloadPolicy_validate p = Ok tt) (Hab : a ≤ b) (Hcd : importance d ≤ importance c) :
  (decide_action (classify_state p a) c = Shed → decide_action (classify_state p b) d = Shed) ∧
  disabled_features_for h (classify_state p a) ⊆ disabled_features_for h (classify_state p b) ∧
  decide_action (classify_state p b) Critical = Allow.
Proof.
  pose proof (classify_state_mono p a b Hvalid Hab) as Hsev.
  generalize dependent (classify_state p b). generalize dependent (classify_state p a).
  intros sa sb Hsev. split_and!.
  - destruct sa, sb, c, d; simpl in *; try done; lia.
  - intros x. rewrite !elem_of_disabled_features. intros (f & Hf & Hn & Hd). exists f.
    split_and!; [done..|]. destruct sa, sb, f.(bf_priority); simpl in *; try done; lia.
  - by destruct sb.
Qed.

Lemma shedding_monotone_witness :
  decide_action (classify_state example_policy 9) BestEffort = Shed.
Proof.
  destruct (shedding_monotone example_policy example_hooks 4 9 Default BestEffort)
    as [H _]; [vm_compute; reflexivity | vm_compute; discriminate | vm_compute; discriminate |].
  apply H. vm_compute. reflexivity.
Defined.

(** ** Theorems: concurrent calls of [decide]

    A call of [decide] is a thread; between two of its steps any other call may
    run.  A thread remembers the state it read in its first critical section. *)

Inductive DecidePc :=
| Begin (c : TrafficClass)
| Chosen (c : TrafficClass) (read : OverloadState)
| Counted (c : TrafficClass) (read : OverloadState)
| Logged (c : TrafficClass) (read : OverloadState)
| Done (c : TrafficClass) (read : OverloadState) (d : SheddingDecision).

Definition decision_of (m : OverloadManager) (c : TrafficClass) (read : OverloadState) :
    SheddingDecision :=
  {| sd_action := decide_action read c; sd_state := current_state m;
     sd_reason := decide_reason read (decide_action read c) |}.

Inductive decide_step : OverloadManager * list DecidePc → OverloadManager * list DecidePc → Prop :=
| step_record m ts now s :
    decide_step (m, ts) ((OverloadManager_record_signal m now s).1, ts)
| step_evict m ts now :
    decide_step (m, ts) (OverloadManager_evict m now, ts)
| step_begin m ts c :
    decide_step (m, ts) (m, ts ++ [Begin c])
| step_choose m ts1 ts2 c :
    decide_step (m, ts1 ++ Begin c :: ts2) (m, ts1 ++ Chosen c (current_state m) :: ts2)
| step_count m ts1 ts2 c st :
    decide_action st c = Shed →
    decide_step (m, ts1 ++ Chosen c st :: ts2) (count_shed m, ts1 ++ Counted c st :: ts2)
| step_log m ts1 ts2 c st :
    decide_step (m, ts1 ++ Counted c st :: ts2) (log_shed m c, ts1 ++ Logged c st :: ts2)
| step_return_allow m ts1 ts2 c st :
    decide_action st c = Allow →
    decide_step (m, ts1 ++ Chosen c st :: ts2) (m, ts1 ++ Done c st (decision_of m c st) :: ts2)
| step_return_shed m ts1 ts2 c st :
    decide_step (m, ts1 ++ Logged c st :: ts2) (m, ts1 ++ Done c st (decision_of m c st) :: ts2).

(** The sequential [decide] is a run of one thread without interference. *)
Lemma decide_is_run m ts c :
  let '(m', d) := OverloadManager_decide m c in
  rtc decide_step (m, ts ++ [Begin c]) (m', ts ++ [Done c (current_state m) d]).
Proof.
  unfold OverloadManager_decide. fold (current_state m).
  eapply rtc_l; [apply step_choose|].
  destruct (decide_action (current_state m) c) eqn:E.
  - replace {| sd_action := _ |} with (decision_of m c (current_state m))
      by (unfold decision_of; by rewrite E).
    apply rtc_once, step_return_allow, E.
  - replace {| sd_action := _ |}
      with (decision_of (log_shed (count_shed m) c) c (current_state m))
      by (unfold decision_of; by rewrite E).
    eapply rtc_l; [by apply step_count|]. eapply rtc_l; [apply step_log|].
    apply rtc_once, step_return_shed.
Qed.

(** Threads that have been counted as shed. *)
Definition is_counted (t : DecidePc) : bool :=
  match t with
  | Begin _ | Chosen _ _ => false
  | Counted _ _ | Logged _ _ => true
  | Done _ _ d => bool_decide (d.(sd_action) = Shed)
  end.

Fixpoint sheds (ts : list DecidePc) : N :=
  match ts with [] => 0 | t :: ts => (if is_counted t then 1 else 0) + sheds ts end.

Lemma sheds_app ts1 ts2 : sheds (ts1 ++ ts2) = sheds ts1 + sheds ts2.
Proof. induction ts1; simpl; lia. Qed.

Definition thread_ok (t : DecidePc) : Prop :=
  match t with
  | Begin _ | Chosen _ _ => True
  | Counted c st | Logged c st => decide_action st c = Shed
  | Done c st d => d.(sd_action) = decide_action st c ∧
                   d.(sd_reason) = decide_reason st d.(sd_action)
  end.

Definition threads_inv (s : OverloadManager * list DecidePc) : Prop :=
  s.1.(shed_request_count) = sheds s.2 mod (u64_max + 1) ∧ Forall thread_ok s.2.

Lemma decide_step_inv s s' : decide_step s s' → threads_inv s → threads_inv s'.
Proof.
  unfold threads_inv. intros Hstep [Hc Hok].
  destruct Hstep as [| | | |m ts1 ts2 c st Ha| |m ts1 ts2 c st Ha|]; simpl in *;
    rewrite ?sheds_app in *; simpl in *; rewrite ?Forall_app, ?Forall_cons in *;
    destruct_and?; simpl in *; try (split_and!; done).
  - rewrite N.add_0_r. split_and!; repeat constructor; done.
  - unfold fetch_add. rewrite Hc, wrapping_add64_mod. split_and!; try done. f_equal. lia.
  - rewrite Ha. split_and!; try done.
  - match goal with H : decide_action _ _ = Shed |- _ => rewrite H end.
    split_and!; try done.
Qed.

(** However calls of [decide], [record_signal], [snapshot] and [metrics]
    interleave, the shed counter is the number of requests shed so far (modulo
    2^64), every decision returned is the one its traffic class gets in the state the
    call read in its first critical section, and no critical request is shed. *)
Theorem concurrent_decide_sound (p : OverloadPolicy) (h : BrownoutHookRegistry)
  (m0 m : OverloadManager) (ts : list DecidePc)
  (Hnew : OverloadManager_new p h = Ok m0) (Hrun : rtc decide_step (m0, []) (m, ts)) :
  m.(shed_request_count) = sheds ts mod (u64_max + 1) ∧
  ∀ c st d, Done c st d ∈ ts →
    d.(sd_action) = decide_action st c ∧
    d.(sd_reason) = decide_reason st d.(sd_action) ∧
    (c = Critical → d.(sd_action) = Allow).
Proof.
  assert (H0 : threads_inv (m0, [])).
  { unfold OverloadManager_new in Hnew. case_match; simplify_eq. split; [done | constructor]. }
  assert (Hinv : threads_inv (m, ts)).
  { revert H0. induction Hrun as [|? ? ? Hs _ IH]; [done|]. intros Hi. by apply IH, (decide_step_inv _ _ Hs). }
  destruct Hinv as [Hc Hok]. split; [exact Hc|]. rewrite Forall_forall in Hok.
  intros c st d Hd. destruct (Hok _ Hd) as [Ha Hr]. split_and!; [done..|].
  intros ->. rewrite Ha. by destruct st.
Qed.

(** A decision to shed may be reported together with the state [Normal]: the
    window emptied between the two critical sections of the call. *)
Example decide_reports_later_state :
  let m1 := (OverloadManager_record_signal example_manager 0 all_signals).1 in
  let m2 := (OverloadManager_record_signal (log_shed (count_shed m1) Default) (from_secs 60)
              {| rate_limited := false; concurrency_limited := false;
                 breaker_open := false; retry_budget_exhausted := false |}).1 in
  rtc decide_step (example_manager, []) (m2, [Done Default Shedding
    {| sd_action := Shed; sd_state := Normal; sd_reason := Some PriorityDrop |}]).
Proof.
  intros m1 m2.
  eapply rtc_l; [apply (step_record _ _ 0 all_signals)|].
  eapply rtc_l; [apply (step_begin _ _ Default)|].
  eapply rtc_l; [apply (step_choose _ [] [])|].
  eapply rtc_l; [apply (step_count _ [] []); vm_compute; reflexivity|].
  eapply rtc_l; [apply (step_log _ [] [])|].
  eapply rtc_l; [apply (step_record _ _ (from_secs 60) {| rate_limited := false;
    concurrency_limited := false; breaker_open := false; retry_budget_exhausted := false |})|].
  eapply rtc_l; [apply (step_return_shed _ [] [])|].
  fold m1 m2. replace (current_state m1) with Shedding by (vm_compute; reflexivity).
  unfold decision_of. replace (current_state m2) with Normal by (vm_compute; reflexivity).
  apply rtc_refl.
Qed.

Lemma concurrent_decide_sound_witness :
  let m1 := (OverloadManager_record_signal example_manager 0 all_signals).1 in
  (log_shed (count_shed m1) Default).(shed_request_count) = 1.
Proof.
  intros m1.
  destruct (concurrent_decide_sound example_policy example_hooks example_manager
    (log_shed (count_shed m1) Default) [Logged Default (current_state m1)]) as [E _].
  - vm_compute. reflexivity.
  - eapply rtc_l; [apply (step_record _ _ 0 all_signals)|].
    eapply rtc_l; [apply (step_begin _ _ Default)|].
    eapply rtc_l; [apply (step_choose _ [] [])|].
    eapply rtc_l; [apply (step_count _ [] []); vm_compute; reflexivity|].
    apply rtc_once, (step_log _ [] []).
  - rewrite E. vm_compute. reflexivity.
Defined.
