(* ===== verification/NetCore.v ===== *)
(** * Shared network model

    Models [crates/net-core/src/lib.rs] (listener configuration and its
    validation, address canonicalisation) and [crates/net-core/src/upstream.rs]
    (upstream endpoints and clusters).  The newtypes [UpstreamClusterName] and
    [UpstreamEndpointId] are strings; that they are never blank is the predicate
    [name_wf].  Methods that take [&mut self] return the new value. *)

From S2P Require Import Prelude RustStr.
Local Open Scope N_scope.
Local Open Scope rust_scope.

(** ** Addresses *)

Definition canonicalize_ip (ip : IpAddr) : IpAddr :=
  match ip with
  | IpAddr_V4 ipv4 => IpAddr_V4 ipv4
  | IpAddr_V6 ipv6 => match to_ipv4_mapped ipv6 with
                      | Some v4 => IpAddr_V4 v4
                      | None => IpAddr_V6 ipv6
                      end
  end.

(** ** Listener configuration *)

Record NetworkDefaults := { nd_backlog : N; nd_idle_timeout_secs : N }.
Definition NetworkDefaults_default : NetworkDefaults :=
  {| nd_backlog := 1024; nd_idle_timeout_secs := 30 |}.

Inductive ListenerClass := ListenerClass_Public | ListenerClass_Admin.
Inductive ProxyProtocolMode := ProxyProtocol_Disabled | ProxyProtocol_V1 | ProxyProtocol_V2.
Inductive ListenerBindMode := SingleStack | DualStack | Ipv6Only.

Record TlsListenerConfig := { cert_path : string; key_path : string }.

Record ListenerConfig := {
  lc_name : string;
  lc_class : ListenerClass;
  bind_address : SocketAddr;
  bind_mode : ListenerBindMode;
  max_connections : N;
  backlog : N;
  lc_idle_timeout : Duration;
  drain_timeout : Duration;
  allow_unspecified_bind : bool;
  proxy_protocol : ProxyProtocolMode;
  tls_termination : option TlsListenerConfig
}.

Inductive ListenerConfigError :=
| EmptyName
| ZeroMaxConnections
| ZeroBacklog
| UnspecifiedBindRequiresOptIn (a : SocketAddr)
| DualStackRequiresIpv6Bind (a : SocketAddr)
| DualStackRequiresIpv6Wildcard (a : SocketAddr)
| Ipv6OnlyRequiresIpv6Bind (a : SocketAddr)
| EmptyTlsCertificatePath
| EmptyTlsPrivateKeyPath.

Definition TlsListenerConfig_validate (t : TlsListenerConfig) : Result unit ListenerConfigError :=
  if is_blank t.(cert_path) then Err EmptyTlsCertificatePath
  else if is_blank t.(key_path) then Err EmptyTlsPrivateKeyPath
  else Ok tt.

Definition LOCALHOST : N := 2130706433.

Definition ListenerConfig_foundation_local (name : string) (class : ListenerClass) :
    ListenerConfig :=
  let defaults := NetworkDefaults_default in
  {| lc_name := name; lc_class := class;
     bind_address := {| sa_ip := IpAddr_V4 LOCALHOST; sa_port := 0 |};
     bind_mode := SingleStack; max_connections := 128; backlog := defaults.(nd_backlog);
     lc_idle_timeout := from_secs defaults.(nd_idle_timeout_secs);
     drain_timeout := from_secs 5; allow_unspecified_bind := false;
     proxy_protocol := ProxyProtocol_Disabled; tls_termination := None |}.

Definition validate_bind_mode (c : ListenerConfig) : Result unit ListenerConfigError :=
  let ip := c.(bind_address).(sa_ip) in
  match c.(bind_mode) with
  | SingleStack => Ok tt
  | DualStack =>
      if negb (ip_is_ipv6 ip) then Err (DualStackRequiresIpv6Bind c.(bind_address))
      else if negb (ip_is_unspecified ip) then Err (DualStackRequiresIpv6Wildcard c.(bind_address))
      else Ok tt
  | Ipv6Only =>
      if negb (ip_is_ipv6 ip) then Err (Ipv6OnlyRequiresIpv6Bind c.(bind_address)) else Ok tt
  end.

Definition ListenerConfig_validate (c : ListenerConfig) : Result unit ListenerConfigError :=
  if is_blank c.(lc_name) then Err EmptyName
  else if decide (c.(max_connections) = 0) then Err ZeroMaxConnections
  else if decide (c.(backlog) = 0) then Err ZeroBacklog
  else if ip_is_unspecified c.(bind_address).(sa_ip) && negb c.(allow_unspecified_bind)
  then Err (UnspecifiedBindRequiresOptIn c.(bind_address))
  else let? _ := validate_bind_mode c in
       match c.(tls_termination) with
       | Some t => TlsListenerConfig_validate t
       | None => Ok tt
       end.

Inductive UpstreamTransport := Transport_Http1 | Transport_Http2 | Transport_Http3.

Record UpstreamTarget := {
  ut_name : string; ut_address : SocketAddr; ut_transport : UpstreamTransport }.

Definition UpstreamTarget_new (name : string) (address : SocketAddr) : UpstreamTarget :=
  {| ut_name := name; ut_address := address; ut_transport := Transport_Http1 |}.
Definition UpstreamTarget_with_transport (name : string) (address : SocketAddr)
    (transport : UpstreamTransport) : UpstreamTarget :=
  {| ut_name := name; ut_address := address; ut_transport := transport |}.

(** ** Endpoints *)

Definition MAX_METADATA_VALUE_LEN : nat := 64.

Record EndpointMetadata := {
  zone : option string;
  locality : option string;
  weight : N
}.
#[export] Instance EndpointMetadata_eq_dec : EqDecision EndpointMetadata.
Proof. solve_decision. Defined.

Definition EndpointMetadata_default : EndpointMetadata :=
  {| zone := None; locality := None; weight := 1 |}.

Inductive EndpointState := EndpointState_Ready | EndpointState_Draining | EndpointState_Unavailable.
#[export] Instance EndpointState_eq_dec : EqDecision EndpointState.
Proof. solve_decision. Defined.

Definition EndpointState_is_ready (s : EndpointState) : bool :=
  match s with EndpointState_Ready => true | _ => false end.

Record UpstreamEndpoint := {
  ep_id : string;
  ep_address : SocketAddr;
  ep_state : EndpointState;
  ep_metadata : EndpointMetadata
}.
#[export] Instance UpstreamEndpoint_eq_dec : EqDecision UpstreamEndpoint.
Proof. solve_decision. Defined.

Inductive UpstreamModelError :=
| EmptyClusterName
| EmptyEndpointId
| ZeroPort (a : SocketAddr)
| UnspecifiedAddress (a : SocketAddr)
| MetadataTooLong (field : string) (max_len : nat)
| ZeroEndpointWeight
| DuplicateEndpointId (id : string).
#[export] Instance UpstreamModelError_eq_dec : EqDecision UpstreamModelError.
Proof. solve_decision. Defined.

Definition UpstreamClusterName_new (value : string) : Result string UpstreamModelError :=
  if is_blank value then Err EmptyClusterName else Ok value.
Definition UpstreamEndpointId_new (value : string) : Result string UpstreamModelError :=
  if is_blank value then Err EmptyEndpointId else Ok value.

Definition validate_endpoint_address (address : SocketAddr) : Result unit UpstreamModelError :=
  if decide (address.(sa_port) = 0) then Err (ZeroPort address)
  else if ip_is_unspecified address.(sa_ip) then Err (UnspecifiedAddress address)
  else Ok tt.

Definition validate_metadata_field (field : string) (value : option string) :
    Result unit UpstreamModelError :=
  match value with
  | Some value =>
      if decide (MAX_METADATA_VALUE_LEN < length (bytes value))%nat
      then Err (MetadataTooLong field MAX_METADATA_VALUE_LEN) else Ok tt
  | None => Ok tt
  end.

Definition EndpointMetadata_validate (m : EndpointMetadata) : Result unit UpstreamModelError :=
  let? _ := validate_metadata_field "zone" m.(zone) in
  let? _ := validate_metadata_field "locality" m.(locality) in
  if decide (m.(weight) = 0) then Err ZeroEndpointWeight else Ok tt.

Definition UpstreamEndpoint_new (id : string) (address : SocketAddr) (state : EndpointState)
    (metadata : EndpointMetadata) : Result UpstreamEndpoint UpstreamModelError :=
  let? _ := validate_endpoint_address address in
  let? _ := EndpointMetadata_validate metadata in
  Ok {| ep_id := id; ep_address := address; ep_state := state; ep_metadata := metadata |}.

Definition with_state (e : UpstreamEndpoint) (state : EndpointState) : UpstreamEndpoint :=
  {| ep_id := e.(ep_id); ep_address := e.(ep_address); ep_state := state;
     ep_metadata := e.(ep_metadata) |}.

Definition UpstreamEndpoint_validate (e : UpstreamEndpoint) : Result unit UpstreamModelError :=
  let? _ := validate_endpoint_address e.(ep_address) in
  EndpointMetadata_validate e.(ep_metadata).

(** ** Clusters *)

Inductive UpstreamClusterState :=
| UpstreamClusterState_Empty
| UpstreamClusterState_Unavailable (total_endpoints : nat)
| UpstreamClusterState_Ready (total_endpoints ready_endpoints : nat).

Record UpstreamCluster := { cluster_name : string; endpoints : list UpstreamEndpoint }.
#[export] Instance UpstreamCluster_eq_dec : EqDecision UpstreamCluster.
Proof. solve_decision. Defined.

Fixpoint check_uniqueness (seen : gset string) (eps : list UpstreamEndpoint) :
    Result unit UpstreamModelError :=
  match eps with
  | [] => Ok tt
  | e :: eps =>
      let? _ := UpstreamEndpoint_validate e in
      if decide (e.(ep_id) ∈ seen) then Err (DuplicateEndpointId e.(ep_id))
      else check_uniqueness ({[e.(ep_id)]} ∪ seen) eps
  end.

Definition validate_endpoint_uniqueness (eps : list UpstreamEndpoint) :
    Result unit UpstreamModelError := check_uniqueness ∅ eps.

Definition UpstreamCluster_new (name : string) (eps : list UpstreamEndpoint) :
    Result UpstreamCluster UpstreamModelError :=
  let? _ := validate_endpoint_uniqueness eps in
  Ok {| cluster_name := name; endpoints := eps |}.

Definition count_ready (eps : list UpstreamEndpoint) : nat :=
  length (filter (λ e, EndpointState_is_ready e.(ep_state) = true) eps).

Definition UpstreamCluster_state (c : UpstreamCluster) : UpstreamClusterState :=
  let total_endpoints := length c.(endpoints) in
  if decide (total_endpoints = 0%nat) then UpstreamClusterState_Empty
  else let ready_endpoints := count_ready c.(endpoints) in
       if decide (ready_endpoints = 0%nat) then UpstreamClusterState_Unavailable total_endpoints
       else UpstreamClusterState_Ready total_endpoints ready_endpoints.

Definition UpstreamCluster_insert_endpoint (c : UpstreamCluster) (e : UpstreamEndpoint) :
    UpstreamCluster * Result unit UpstreamModelError :=
  match UpstreamEndpoint_validate e with
  | Err err => (c, Err err)
  | Ok _ =>
      if existsb (λ existing, bool_decide (existing.(ep_id) = e.(ep_id))) c.(endpoints)
      then (c, Err (DuplicateEndpointId e.(ep_id)))
      else ({| cluster_name := c.(cluster_name); endpoints := c.(endpoints) ++ [e] |}, Ok tt)
  end.

(** [iter().position(|endpoint| endpoint.id() == endpoint_id)]. *)
Fixpoint position (id : string) (eps : list UpstreamEndpoint) : option nat :=
  match eps with
  | [] => None
  | e :: eps => if decide (e.(ep_id) = id) then Some 0%nat else S <$> position id eps
  end.

Definition UpstreamCluster_remove_endpoint (c : UpstreamCluster) (id : string) :
    UpstreamCluster * option UpstreamEndpoint :=
  match position id c.(endpoints) with
  | None => (c, None)
  | Some index =>
      ({| cluster_name := c.(cluster_name); endpoints := delete index c.(endpoints) |},
       c.(endpoints) !! index)
  end.

Fixpoint find_endpoint (id : string) (eps : list UpstreamEndpoint) : option UpstreamEndpoint :=
  match eps with
  | [] => None
  | e :: eps => if decide (e.(ep_id) = id) then Some e else find_endpoint id eps
  end.

Definition UpstreamCluster_endpoint (c : UpstreamCluster) (id : string) :
    option UpstreamEndpoint := find_endpoint id c.(endpoints).

Definition UpstreamCluster_set_endpoint_state (c : UpstreamCluster) (id : string)
    (state : EndpointState) : UpstreamCluster * bool :=
  match position id c.(endpoints) with
  | None => (c, false)
  | Some index =>
      match c.(endpoints) !! index with
      | None => (c, false)   (* not reached: [position] is in range *)
      | Some e =>
          if decide (e.(ep_state) = state) then (c, false)
          else ({| cluster_name := c.(cluster_name);
                   endpoints := <[index := with_state e state]> c.(endpoints) |}, true)
      end
  end.

(** ** Theorems: addresses and listeners *)

(** Canonicalisation is idempotent, leaves no IPv4-mapped IPv6 address, keeps
    well-formed addresses well-formed, and identifies a mapped address with the
    IPv4 address it embeds. *)
Theorem canonicalize_ip_spec (ip : IpAddr) (v4 : N) (Hwf : ip_wf ip) (Hv4 : v4 < 2 ^ 32) :
  ip_wf (canonicalize_ip ip) ∧
  canonicalize_ip (canonicalize_ip ip) = canonicalize_ip ip ∧
  (∀ a, canonicalize_ip ip = IpAddr_V6 a → to_ipv4_mapped a = None) ∧
  canonicalize_ip (IpAddr_V6 (65535 * 2 ^ 32 + v4)) = canonicalize_ip (IpAddr_V4 v4).
Proof.
  split_and!.
  - destruct ip as [a|a]; simpl in *; [done|]. unfold to_ipv4_mapped.
    case_decide; simpl; [|done]. apply N.mod_lt. done.
  - destruct ip as [a|a]; simpl; [done|]. by destruct (to_ipv4_mapped a) eqn:E; simpl; rewrite ?E.
  - destruct ip as [a|a]; simpl; intros b E; [done|]. by destruct (to_ipv4_mapped a) eqn:E'; simplify_eq.
  - simpl. unfold to_ipv4_mapped. rewrite N.div_add_l, N.div_small, N.add_0_r by done.
    rewrite decide_True by done. by rewrite N.add_comm, N.Div0.mod_add, N.mod_small.
Qed.

Lemma canonicalize_ip_spec_witness :
  canonicalize_ip (IpAddr_V6 (65535 * 2 ^ 32 + 3221225994)) = canonicalize_ip (IpAddr_V4 3221225994).
Proof.
  apply (canonicalize_ip_spec (IpAddr_V6 1) 3221225994); vm_compute; reflexivity.
Defined.

(** What a listener must satisfy to be started. *)
Definition listener_safe (c : ListenerConfig) : Prop :=
  is_blank c.(lc_name) = false ∧ 0 < c.(max_connections) ∧ 0 < c.(backlog) ∧
  (ip_is_unspecified c.(bind_address).(sa_ip) = true → c.(allow_unspecified_bind) = true) ∧
  (c.(bind_mode) = DualStack → c.(bind_address).(sa_ip) = IpAddr_V6 0) ∧
  (c.(bind_mode) = Ipv6Only → ip_is_ipv6 c.(bind_address).(sa_ip) = true) ∧
  (∀ t, c.(tls_termination) = Some t →
        is_blank t.(cert_path) = false ∧ is_blank t.(key_path) = false).

Lemma validate_bind_mode_ok c :
  validate_bind_mode c = Ok tt ↔
  (c.(bind_mode) = DualStack → c.(bind_address).(sa_ip) = IpAddr_V6 0) ∧
  (c.(bind_mode) = Ipv6Only → ip_is_ipv6 c.(bind_address).(sa_ip) = true).
Proof.
  unfold validate_bind_mode. destruct c.(bind_mode); simpl; [done| |];
    destruct c.(bind_address).(sa_ip) as [a|a]; simpl; try naive_solver.
  case_bool_decide; simpl; naive_solver.
Qed.

Lemma TlsListenerConfig_validate_ok t :
  TlsListenerConfig_validate t = Ok tt ↔
  is_blank t.(cert_path) = false ∧ is_blank t.(key_path) = false.
Proof.
  unfold TlsListenerConfig_validate.
  destruct (is_blank t.(cert_path)), (is_blank t.(key_path)); naive_solver.
Qed.

(** [ListenerConfig::validate] accepts exactly the safe configurations: named,
    with positive limits, bound to a wildcard address only with the opt-in, with an
    address family its bind mode allows, and with complete TLS material. *)
Theorem listener_validate_spec (c : ListenerConfig) :
  ListenerConfig_validate c = Ok tt ↔ listener_safe c.
Proof.
  unfold ListenerConfig_validate, listener_safe.
  destruct (is_blank c.(lc_name)); [by split; [|intros []]|].
  case_decide as Hm; [split; [done|intros (_ & ? & _); lia]|].
  case_decide as Hb; [split; [done|intros (_ & _ & ? & _); lia]|].
  assert (Hunspec : ip_is_unspecified c.(bind_address).(sa_ip) && negb c.(allow_unspecified_bind)
    = true ↔ ¬ (ip_is_unspecified c.(bind_address).(sa_ip) = true → c.(allow_unspecified_bind) = true))
    by (destruct (ip_is_unspecified _), c.(allow_unspecified_bind); naive_solver).
  destruct (ip_is_unspecified _ && _); [by split; [|intros (_ & _ & _ & H & _); apply Hunspec in H]|].
  assert (Hopt : ip_is_unspecified c.(bind_address).(sa_ip) = true → c.(allow_unspecified_bind) = true)
    by (apply dec_stable; intros Hn%Hunspec; done).
  pose proof (validate_bind_mode_ok c) as Hmode.
  destruct (validate_bind_mode c) as [[]|].
  2: { split; [done|]. intros (_ & _ & _ & _ & Hd & Hs & _). by destruct (proj2 Hmode (conj Hd Hs)). }
  destruct (proj1 Hmode eq_refl) as [Hd Hs].
  destruct c.(tls_termination) as [t|]; rewrite ?TlsListenerConfig_validate_ok.
  - split; [intros Ht; split_and!; try done; try lia; by intros ? [= <-] |].
    intros (_ & _ & _ & _ & _ & _ & Ht). by apply Ht.
  - split; [|done]. intros _. split_and!; try done; lia.
Qed.

(** ** Theorems: clusters *)

Definition ids (eps : list UpstreamEndpoint) : list string := ep_id <$> eps.

Definition cluster_wf (c : UpstreamCluster) : Prop :=
  NoDup (ids c.(endpoints)) ∧ Forall (λ e, UpstreamEndpoint_validate e = Ok tt) c.(endpoints).

Lemma check_uniqueness_ok eps : ∀ seen,
  check_uniqueness seen eps = Ok tt ↔
  NoDup (ids eps) ∧ Forall (λ e, UpstreamEndpoint_validate e = Ok tt) eps ∧
  ∀ id, id ∈ ids eps → id ∉ seen.
Proof.
  induction eps as [|e eps IH]; intros seen; simpl.
  { split; [|done]. intros _. split_and!; [constructor | constructor|]. by intros ? ?%elem_of_nil. }
  rewrite NoDup_cons, Forall_cons.
  destruct (UpstreamEndpoint_validate e) as [[]|]; [|naive_solver].
  case_decide as Hin.
  { split; [done|]. intros (_ & _ & Hseen). by destruct (Hseen e.(ep_id)); [left|]. }
  rewrite IH. setoid_rewrite elem_of_cons. setoid_rewrite not_elem_of_union.
  setoid_rewrite not_elem_of_singleton. split.
  - intros (Hnd & Hv & Hs). split_and!; try done; [intros ?%Hs; naive_solver | naive_solver].
  - intros ([Hni Hnd] & [_ Hv] & Hs). split_and!; try done. intros id Hid. split; [by intros ->|].
    apply Hs. by right.
Qed.

Lemma UpstreamCluster_new_ok name eps c :
  UpstreamCluster_new name eps = Ok c ↔
  c = {| cluster_name := name; endpoints := eps |} ∧ cluster_wf c.
Proof.
  unfold UpstreamCluster_new, validate_endpoint_uniqueness, cluster_wf.
  pose proof (check_uniqueness_ok eps ∅) as Hu.
  destruct (check_uniqueness ∅ eps) as [[]|err]; split.
  - intros [= <-]. naive_solver.
  - naive_solver.
  - done.
  - intros [-> [Hnd Hv]]. simpl in *. destruct Hu as [_ Hu].
    discriminate Hu. split_and!; try done.
Qed.

(** The abstract cluster is a finite map from endpoint ids. *)
Definition cluster_view (c : UpstreamCluster) : gmap string UpstreamEndpoint :=
  list_to_map ((λ e, (e.(ep_id), e)) <$> c.(endpoints)).

Lemma find_endpoint_view id eps :
  find_endpoint id eps = (list_to_map ((λ e, (e.(ep_id), e)) <$> eps) : gmap string _) !! id.
Proof.
  induction eps as [|e eps IH]; simpl; [by rewrite lookup_empty|].
  rewrite lookup_insert, IH. done.
Qed.

Lemma find_endpoint_None id eps : find_endpoint id eps = None ↔ id ∉ ids eps.
Proof.
  induction eps as [|e eps IH]; simpl; [split; [intros _; apply not_elem_of_nil | done]|].
  rewrite not_elem_of_cons. case_decide; naive_solver.
Qed.

Lemma find_endpoint_Some id eps e : find_endpoint id eps = Some e → e ∈ eps ∧ e.(ep_id) = id.
Proof.
  induction eps as [|e' eps IH]; simpl; [done|]. case_decide; [intros [= ->]|intros [? ?]%IH];
    (split; [|done]); by constructor.
Qed.

Lemma position_find id eps :
  match position id eps with
  | None => find_endpoint id eps = None
  | Some i => ∃ l1 e l2, eps = l1 ++ e :: l2 ∧ i = length l1 ∧ e.(ep_id) = id ∧ (id ∉ ids l1) ∧
                         find_endpoint id eps = Some e
  end.
Proof.
  induction eps as [|e eps IH]; simpl; [done|]. case_decide as E.
  - exists [], e, eps. split_and!; try done. apply not_elem_of_nil.
  - destruct (position id eps) as [i|]; simpl; [|done].
    destruct IH as (l1 & e' & l2 & -> & -> & He & Hni & Hf). exists (e :: l1), e', l2.
    split_and!; try done. apply not_elem_of_cons. naive_solver.
Qed.

Lemma existsb_id id eps :
  existsb (λ e, bool_decide (e.(ep_id) = id)) eps = true ↔ id ∈ ids eps.
Proof.
  unfold ids. rewrite existsb_exists, list_elem_of_fmap.
  setoid_rewrite bool_decide_eq_true. setoid_rewrite list_elem_of_In. naive_solver.
Qed.

Lemma view_None c id : cluster_view c !! id = None ↔ id ∉ ids c.(endpoints).
Proof. unfold cluster_view. by rewrite <- find_endpoint_view, find_endpoint_None. Qed.

Lemma list_to_map_ids_app eps1 eps2 :
  list_to_map ((λ e, (e.(ep_id), e)) <$> (eps1 ++ eps2)) =
    (list_to_map ((λ e, (e.(ep_id), e)) <$> eps1) ∪
     list_to_map ((λ e, (e.(ep_id), e)) <$> eps2) : gmap string UpstreamEndpoint).
Proof. by rewrite fmap_app, list_to_map_app. Qed.

(** The operations of the abstract cluster. *)
Inductive ClusterOp :=
| OpInsert (e : UpstreamEndpoint)
| OpRemove (id : string)
| OpSetState (id : string) (state : EndpointState).

Inductive ClusterObs :=
| ObsInsert (r : Result unit UpstreamModelError)
| ObsRemove (r : option UpstreamEndpoint)
| ObsSetState (changed : bool).

Definition UpstreamCluster_op (c : UpstreamCluster) (o : ClusterOp) : UpstreamCluster * ClusterObs :=
  match o with
  | OpInsert e => prod_map id ObsInsert (UpstreamCluster_insert_endpoint c e)
  | OpRemove id => prod_map (λ c, c) ObsRemove (UpstreamCluster_remove_endpoint c id)
  | OpSetState id s => prod_map (λ c, c) ObsSetState (UpstreamCluster_set_endpoint_state c id s)
  end.

Definition map_op (v : gmap string UpstreamEndpoint) (o : ClusterOp) :
    gmap string UpstreamEndpoint * ClusterObs :=
  match o with
  | OpInsert e =>
      match UpstreamEndpoint_validate e, v !! e.(ep_id) with
      | Err err, _ => (v, ObsInsert (Err err))
      | Ok _, Some _ => (v, ObsInsert (Err (DuplicateEndpointId e.(ep_id))))
      | Ok _, None => (<[e.(ep_id) := e]> v, ObsInsert (Ok tt))
      end
  | OpRemove id => (delete id v, ObsRemove (v !! id))
  | OpSetState id s =>
      match v !! id with
      | Some e => if decide (e.(ep_state) = s) then (v, ObsSetState false)
                  else (<[id := with_state e s]> v, ObsSetState true)
      | None => (v, ObsSetState false)
      end
  end.

Section cluster_refinement.
Variable c : UpstreamCluster.
Hypothesis Hwf : cluster_wf c.

Lemma insert_endpoint_refines e :
  let '(c', r) := UpstreamCluster_insert_endpoint c e in
  cluster_wf c' ∧ c'.(cluster_name) = c.(cluster_name) ∧
  map_op (cluster_view c) (OpInsert e) = (cluster_view c', ObsInsert r).
Proof.
  destruct Hwf as [Hnd Hv]. unfold UpstreamCluster_insert_endpoint. simpl.
  destruct (UpstreamEndpoint_validate e) as [[]|err] eqn:Ev; [|done].
  destruct (existsb _ _) eqn:Ex.
  { apply existsb_id in Ex. split_and!; try done.
    destruct (cluster_view c !! e.(ep_id)) eqn:E; [done|]. by apply view_None in E. }
  assert (Hni : e.(ep_id) ∉ ids c.(endpoints)).
  { intros Hin%existsb_id. by rewrite Hin in Ex. }
  split_and!; [|done|].
  - split; simpl.
    + unfold ids. rewrite fmap_app. apply NoDup_app. split_and!; [done| |apply NoDup_singleton].
      intros x Hx ->%list_elem_of_singleton. done.
    + apply Forall_app. by split; [|constructor].
  - apply view_None in Hni. rewrite Hni. f_equal. unfold cluster_view at 2. cbn [endpoints].
    rewrite list_to_map_ids_app. simpl. fold (cluster_view c).
    by rewrite insert_empty, map_union_comm, <- insert_union_singleton_l
      by by apply map_disjoint_singleton_r.
Qed.

Lemma remove_endpoint_refines i :
  let '(c', r) := UpstreamCluster_remove_endpoint c i in
  cluster_wf c' ∧ c'.(cluster_name) = c.(cluster_name) ∧
  map_op (cluster_view c) (OpRemove i) = (cluster_view c', ObsRemove r).
Proof.
  destruct Hwf as [Hnd Hv]. unfold UpstreamCluster_remove_endpoint.
  pose proof (position_find i c.(endpoints)) as Hp.
  destruct (position i c.(endpoints)) as [n|]; simpl.
  2: { rewrite find_endpoint_view in Hp. fold (cluster_view c) in Hp.
       by rewrite Hp, delete_id. }
  destruct Hp as (l1 & e & l2 & El & -> & <- & Hni & Hf).
  rewrite find_endpoint_view in Hf. fold (cluster_view c) in Hf. rewrite Hf.
  rewrite El in Hnd, Hv |- *. rewrite delete_middle, list_lookup_middle by done.
  unfold ids in Hnd. rewrite fmap_app, fmap_cons in Hnd.
  split_and!; [|done|].
  - split; simpl.
    + unfold ids. rewrite fmap_app. eapply sublist_NoDup; [exact Hnd|].
      apply sublist_app; [done|]. by apply sublist_cons.
    + apply Forall_app in Hv as [? [? ?]%Forall_cons]. by apply Forall_app.
  - f_equal. unfold cluster_view; cbn [endpoints]. rewrite El, !list_to_map_ids_app. simpl.
    rewrite delete_union, delete_insert_eq. f_equal; apply delete_id; rewrite <- find_endpoint_view.
    + by apply find_endpoint_None.
    + apply find_endpoint_None. apply NoDup_app in Hnd as (_ & _ & Hnd). apply NoDup_cons in Hnd as [Hnd _]. exact Hnd.
Qed.

Lemma set_endpoint_state_refines i s :
  let '(c', r) := UpstreamCluster_set_endpoint_state c i s in
  cluster_wf c' ∧ c'.(cluster_name) = c.(cluster_name) ∧
  map_op (cluster_view c) (OpSetState i s) = (cluster_view c', ObsSetState r).
Proof.
  destruct Hwf as [Hnd Hv]. unfold UpstreamCluster_set_endpoint_state.
  pose proof (position_find i c.(endpoints)) as Hp.
  destruct (position i c.(endpoints)) as [n|]; simpl.
  2: { rewrite find_endpoint_view in Hp. fold (cluster_view c) in Hp. by rewrite Hp. }
  destruct Hp as (l1 & e & l2 & El & -> & <- & Hni & Hf).
  rewrite find_endpoint_view in Hf. fold (cluster_view c) in Hf. rewrite Hf.
  rewrite El, list_lookup_middle by done. case_decide; [done|].
  rewrite El in Hnd, Hv. rewrite insert_app_r_alt, Nat.sub_diag by done. simpl.
  split_and!; [|done|].
  - split; simpl.
    + unfold ids in *. rewrite fmap_app, fmap_cons in *. done.
    + apply Forall_app in Hv as [? [He ?]%Forall_cons]. apply Forall_app. split; [done|].
      by constructor.
  - f_equal. unfold cluster_view; cbn [endpoints]. rewrite El, !list_to_map_ids_app. simpl.
    rewrite insert_union_r; [by rewrite insert_insert_eq|].
    rewrite <- find_endpoint_view. by apply find_endpoint_None.
Qed.
End cluster_refinement.

Fixpoint UpstreamCluster_run (c : UpstreamCluster) (ops : list ClusterOp) :
    UpstreamCluster * list ClusterObs :=
  match ops with
  | [] => (c, [])
  | o :: ops => let '(c, r) := UpstreamCluster_op c o in
                let '(c, rs) := UpstreamCluster_run c ops in (c, r :: rs)
  end.

Fixpoint map_run (v : gmap string UpstreamEndpoint) (ops : list ClusterOp) :
    gmap string UpstreamEndpoint * list ClusterObs :=
  match ops with
  | [] => (v, [])
  | o :: ops => let '(v, r) := map_op v o in
                let '(v, rs) := map_run v ops in (v, r :: rs)
  end.

Lemma UpstreamCluster_op_refines c o :
  cluster_wf c →
  let '(c', r) := UpstreamCluster_op c o in
  cluster_wf c' ∧ c'.(cluster_name) = c.(cluster_name) ∧
  map_op (cluster_view c) o = (cluster_view c', r).
Proof.
  intros Hwf. destruct o as [e|i|i s]; unfold UpstreamCluster_op.
  - pose proof (insert_endpoint_refines c Hwf e) as H.
    by destruct (UpstreamCluster_insert_endpoint c e).
  - pose proof (remove_endpoint_refines c Hwf i) as H.
    by destruct (UpstreamCluster_remove_endpoint c i).
  - pose proof (set_endpoint_state_refines c Hwf i s) as H.
    by destruct (UpstreamCluster_set_endpoint_state c i s).
Qed.

(** A cluster built by [UpstreamCluster::new] refines a finite map from
    endpoint ids: after any sequence of operations its endpoints have distinct ids
    and are valid, every operation returned what it returns on the map, and lookups
    by id agree with the map. *)
Theorem cluster_refines_map (name : string) (eps : list UpstreamEndpoint) (c : UpstreamCluster)
  (ops : list ClusterOp) (Hnew : UpstreamCluster_new name eps = Ok c) :
  let '(c', obs) := UpstreamCluster_run c ops in
  cluster_wf c' ∧ c'.(cluster_name) = name ∧
  map_run (cluster_view c) ops = (cluster_view c', obs) ∧
  ∀ id, UpstreamCluster_endpoint c' id = cluster_view c' !! id.
Proof.
  apply UpstreamCluster_new_ok in Hnew as [Hc Hwf].
  assert (Hn : c.(cluster_name) = name) by by rewrite Hc. clear Hc.
  revert c Hwf Hn. induction ops as [|o ops IH]; intros c Hwf Hn; simpl.
  { split_and!; try done. intros id. apply find_endpoint_view. }
  pose proof (UpstreamCluster_op_refines c o Hwf) as Ho.
  destruct (UpstreamCluster_op c o) as [c1 r]. destruct Ho as (Hwf1 & Hn1 & ->).
  specialize (IH c1 Hwf1 (eq_trans Hn1 Hn)). destruct (UpstreamCluster_run c1 ops) as [c2 rs].
  destruct IH as (? & ? & -> & ?). done.
Qed.

Definition example_endpoint (id : string) (port : N) : UpstreamEndpoint :=
  {| ep_id := id; ep_address := {| sa_ip := IpAddr_V4 LOCALHOST; sa_port := port |};
     ep_state := EndpointState_Ready; ep_metadata := EndpointMetadata_default |}.

Lemma cluster_refines_map_witness :
  (UpstreamCluster_run {| cluster_name := "payments"; endpoints := [example_endpoint "a" 8080] |}
     [OpInsert (example_endpoint "b" 8081)]).1.(cluster_name) = "payments".
Proof.
  pose proof (cluster_refines_map "payments" [example_endpoint "a" 8080]
    {| cluster_name := "payments"; endpoints := [example_endpoint "a" 8080] |}
    [OpInsert (example_endpoint "b" 8081)] ltac:(vm_compute; reflexivity)) as H.
  destruct (UpstreamCluster_run _ _) as [c' obs]. apply H.
Defined.
