(* ===== verification/EndpointRegistry.v ===== *)
(** * Endpoint registry

    Models [crates/runtime/src/upstream_registry.rs]: the in-memory registry of
    clusters.  Every method holds the [RwLock] of the cluster map for its whole
    body, so each is an atomic operation on the state record.  The theorems relate
    the registry to a two-level finite map, cluster name to endpoint id to
    endpoint. *)

From S2P Require Import Prelude RustStr NetCore.
Local Open Scope N_scope.
Local Open Scope rust_scope.

Record EndpointRegistryMetrics := {
  erm_cluster_count : N;
  erm_endpoint_count : N;
  erm_unavailable_endpoint_count : N;
  erm_invalid_definition_count : N
}.

Inductive EndpointRegistryError :=
| DuplicateCluster (cluster : string)
| DuplicateEndpoint (cluster endpoint_id : string)
| ClusterNotFound (cluster : string)
| EndpointNotFound (cluster endpoint_id : string)
| InvalidDefinition (error : UpstreamModelError).
#[export] Instance EndpointRegistryError_eq_dec : EqDecision EndpointRegistryError.
Proof. solve_decision. Defined.

Record EndpointRegistry := {
  clusters : gmap string UpstreamCluster;
  invalid_definition_count : N
}.

Definition EndpointRegistry_new : EndpointRegistry :=
  {| clusters := ∅; invalid_definition_count := 0 |}.

Definition increment_invalid_definition_count (r : EndpointRegistry) : EndpointRegistry :=
  {| clusters := r.(clusters);
     invalid_definition_count := fetch_add r.(invalid_definition_count) 1 |}.

Definition set_clusters (r : EndpointRegistry) (m : gmap string UpstreamCluster) :
    EndpointRegistry :=
  {| clusters := m; invalid_definition_count := r.(invalid_definition_count) |}.

Definition EndpointRegistry_insert_cluster (r : EndpointRegistry) (c : UpstreamCluster) :
    EndpointRegistry * Result unit EndpointRegistryError :=
  match r.(clusters) !! c.(cluster_name) with
  | Some _ => (increment_invalid_definition_count r, Err (DuplicateCluster c.(cluster_name)))
  | None => (set_clusters r (<[c.(cluster_name) := c]> r.(clusters)), Ok tt)
  end.

Definition EndpointRegistry_remove_cluster (r : EndpointRegistry) (name : string) :
    EndpointRegistry * option UpstreamCluster :=
  (set_clusters r (delete name r.(clusters)), r.(clusters) !! name).

Definition EndpointRegistry_insert_endpoint (r : EndpointRegistry) (name : string)
    (e : UpstreamEndpoint) : EndpointRegistry * Result unit EndpointRegistryError :=
  match r.(clusters) !! name with
  | None => (r, Err (ClusterNotFound name))
  | Some cluster =>
      match UpstreamCluster_insert_endpoint cluster e with
      | (cluster', Ok _) => (set_clusters r (<[name := cluster']> r.(clusters)), Ok tt)
      | (cluster', Err (DuplicateEndpointId _)) =>
          (increment_invalid_definition_count (set_clusters r (<[name := cluster']> r.(clusters))),
           Err (DuplicateEndpoint name e.(ep_id)))
      | (cluster', Err error) =>
          (increment_invalid_definition_count (set_clusters r (<[name := cluster']> r.(clusters))),
           Err (InvalidDefinition error))
      end
  end.

Definition EndpointRegistry_remove_endpoint (r : EndpointRegistry) (name id : string) :
    EndpointRegistry * Result UpstreamEndpoint EndpointRegistryError :=
  match r.(clusters) !! name with
  | None => (r, Err (ClusterNotFound name))
  | Some cluster =>
      let '(cluster', removed) := UpstreamCluster_remove_endpoint cluster id in
      (set_clusters r (<[name := cluster']> r.(clusters)),
       match removed with
       | Some e => Ok e
       | None => Err (EndpointNotFound name id)
       end)
  end.

Definition EndpointRegistry_set_endpoint_state (r : EndpointRegistry) (name id : string)
    (state : EndpointState) : EndpointRegistry * Result unit EndpointRegistryError :=
  match r.(clusters) !! name with
  | None => (r, Err (ClusterNotFound name))
  | Some cluster =>
      let '(cluster', changed) := UpstreamCluster_set_endpoint_state cluster id state in
      (set_clusters r (<[name := cluster']> r.(clusters)),
       if changed then Ok tt else Err (EndpointNotFound name id))
  end.

Definition EndpointRegistry_cluster (r : EndpointRegistry) (name : string) :
    option UpstreamCluster := r.(clusters) !! name.

Definition EndpointRegistry_cluster_state (r : EndpointRegistry) (name : string) :
    Result UpstreamClusterState EndpointRegistryError :=
  match r.(clusters) !! name with
  | None => Err (ClusterNotFound name)
  | Some cluster => Ok (UpstreamCluster_state cluster)
  end.

Definition EndpointRegistry_metrics (r : EndpointRegistry) : EndpointRegistryMetrics :=
  {| erm_cluster_count := N.of_nat (size r.(clusters));
     erm_endpoint_count :=
       map_fold (λ _ c n, n + N.of_nat (length c.(endpoints))) 0 r.(clusters);
     erm_unavailable_endpoint_count :=
       map_fold (λ _ c n, n + N.of_nat (length (filter
         (λ e, EndpointState_is_ready e.(ep_state) = false) c.(endpoints)))) 0 r.(clusters);
     erm_invalid_definition_count := r.(invalid_definition_count) |}.

(** ** The abstract registry *)

Definition registry_wf (r : EndpointRegistry) : Prop :=
  map_Forall (λ name c, c.(cluster_name) = name ∧ cluster_wf c) r.(clusters).

Abbreviation Directory := (gmap string (gmap string UpstreamEndpoint)) (only parsing).

Definition directory (r : EndpointRegistry) : Directory := cluster_view <$> r.(clusters).

Inductive RegistryOp :=
| RInsertCluster (c : UpstreamCluster)
| RRemoveCluster (name : string)
| RInsertEndpoint (name : string) (e : UpstreamEndpoint)
| RRemoveEndpoint (name id : string)
| RSetState (name id : string) (state : EndpointState).

Definition EndpointRegistry_op (r : EndpointRegistry) (o : RegistryOp) : EndpointRegistry :=
  match o with
  | RInsertCluster c => (EndpointRegistry_insert_cluster r c).1
  | RRemoveCluster name => (EndpointRegistry_remove_cluster r name).1
  | RInsertEndpoint name e => (EndpointRegistry_insert_endpoint r name e).1
  | RRemoveEndpoint name id => (EndpointRegistry_remove_endpoint r name id).1
  | RSetState name id s => (EndpointRegistry_set_endpoint_state r name id s).1
  end.

(** Whether the call reports success. *)
Definition EndpointRegistry_op_ok (r : EndpointRegistry) (o : RegistryOp) : bool :=
  match o with
  | RInsertCluster c => is_ok (EndpointRegistry_insert_cluster r c).2
  | RRemoveCluster name => bool_decide (is_Some (EndpointRegistry_remove_cluster r name).2)
  | RInsertEndpoint name e => is_ok (EndpointRegistry_insert_endpoint r name e).2
  | RRemoveEndpoint name id => is_ok (EndpointRegistry_remove_endpoint r name id).2
  | RSetState name id s => is_ok (EndpointRegistry_set_endpoint_state r name id s).2
  end.

(** The effect of an operation on the directory; [None] when it is refused. *)
Definition directory_op (d : Directory) (o : RegistryOp) : option Directory :=
  match o with
  | RInsertCluster c =>
      match d !! c.(cluster_name) with
      | None => Some (<[c.(cluster_name) := cluster_view c]> d)
      | Some _ => None
      end
  | RRemoveCluster name => _ ← d !! name; Some (delete name d)
  | RInsertEndpoint name e =>
      v ← d !! name;
      if decide (UpstreamEndpoint_validate e = Ok tt ∧ v !! e.(ep_id) = None)
      then Some (<[name := <[e.(ep_id) := e]> v]> d) else None
  | RRemoveEndpoint name id =>
      v ← d !! name; _ ← v !! id; Some (<[name := delete id v]> d)
  | RSetState name id s =>
      v ← d !! name; e ← v !! id;
      if decide (e.(ep_state) = s) then None else Some (<[name := <[id := with_state e s]> v]> d)
  end.

Definition op_wf (o : RegistryOp) : Prop :=
  match o with RInsertCluster c => cluster_wf c | _ => True end.

(** ** Theorems *)

Definition refines_op (r : EndpointRegistry) (o : RegistryOp) : Prop :=
  registry_wf (EndpointRegistry_op r o) ∧
  directory (EndpointRegistry_op r o) = default (directory r) (directory_op (directory r) o) ∧
  EndpointRegistry_op_ok r o = bool_decide (is_Some (directory_op (directory r) o)).

Lemma directory_lookup r name : directory r !! name = cluster_view <$> r.(clusters) !! name.
Proof. apply lookup_fmap. Qed.

Lemma directory_insert r name c :
  directory (set_clusters r (<[name := c]> r.(clusters))) = <[name := cluster_view c]> (directory r).
Proof. apply fmap_insert. Qed.

Lemma directory_insert_same r name c c' :
  r.(clusters) !! name = Some c → cluster_view c' = cluster_view c →
  directory (set_clusters r (<[name := c']> r.(clusters))) = directory r.
Proof.
  intros Hc Hv. rewrite directory_insert, Hv. apply insert_id. by rewrite directory_lookup, Hc.
Qed.

Lemma directory_increment r : directory (increment_invalid_definition_count r) = directory r.
Proof. done. Qed.

Lemma registry_wf_insert r name c :
  registry_wf r → c.(cluster_name) = name → cluster_wf c →
  registry_wf (set_clusters r (<[name := c]> r.(clusters))).
Proof. intros Hr Hn Hc. by apply map_Forall_insert_2. Qed.

Lemma insert_endpoint_refines_op r name e :
  registry_wf r → refines_op r (RInsertEndpoint name e).
Proof.
  intros Hwf. unfold refines_op; simpl. unfold EndpointRegistry_insert_endpoint.
  rewrite directory_lookup. destruct (r.(clusters) !! name) as [c|] eqn:Hc; simpl; [|done].
  destruct (Hwf name c Hc) as [Hn Hcwf].
  pose proof (insert_endpoint_refines c Hcwf e) as Href.
  destruct (UpstreamCluster_insert_endpoint c e) as [c' res]. destruct Href as (Hwf' & Hn' & Hop).
  simpl in Hop.
  assert (Hr' : registry_wf (set_clusters r (<[name := c']> r.(clusters))))
    by (apply registry_wf_insert; [done | congruence | done]).
  destruct (UpstreamEndpoint_validate e) as [[]|err].
  - destruct (cluster_view c !! e.(ep_id)) eqn:Hid; injection Hop as Hv <-.
    + rewrite decide_False by naive_solver. split_and!; try done.
      simpl. rewrite directory_increment. by eapply directory_insert_same.
    + rewrite decide_True by done. split_and!; try done.
      simpl. by rewrite directory_insert, Hv.
  - injection Hop as Hv <-. rewrite decide_False by naive_solver.
    assert (Hd : directory (increment_invalid_definition_count
      (set_clusters r (<[name := c']> r.(clusters)))) = directory r)
      by (rewrite directory_increment; by eapply directory_insert_same).
    by destruct err; split_and!.
Qed.

Lemma remove_endpoint_refines_op r name id :
  registry_wf r → refines_op r (RRemoveEndpoint name id).
Proof.
  intros Hwf. unfold refines_op; simpl. unfold EndpointRegistry_remove_endpoint.
  rewrite directory_lookup. destruct (r.(clusters) !! name) as [c|] eqn:Hc; simpl; [|done].
  destruct (Hwf name c Hc) as [Hn Hcwf].
  pose proof (remove_endpoint_refines c Hcwf id) as Href.
  destruct (UpstreamCluster_remove_endpoint c id) as [c' res]. destruct Href as (Hwf' & Hn' & Hop).
  simpl in Hop. injection Hop as Hv <-. split_and!.
  - apply registry_wf_insert; [done | congruence | done].
  - destruct (cluster_view c !! id) eqn:Hid; simpl; [by rewrite directory_insert, Hv|].
    eapply directory_insert_same; [done|]. by rewrite <- Hv, delete_id.
  - by destruct (cluster_view c !! id).
Qed.

Lemma set_endpoint_state_refines_op r name id s :
  registry_wf r → refines_op r (RSetState name id s).
Proof.
  intros Hwf. unfold refines_op; simpl. unfold EndpointRegistry_set_endpoint_state.
  rewrite directory_lookup. destruct (r.(clusters) !! name) as [c|] eqn:Hc; simpl; [|done].
  destruct (Hwf name c Hc) as [Hn Hcwf].
  pose proof (set_endpoint_state_refines c Hcwf id s) as Href.
  destruct (UpstreamCluster_set_endpoint_state c id s) as [c' res].
  destruct Href as (Hwf' & Hn' & Hop). simpl in Hop.
  split; [apply registry_wf_insert; [done | congruence | done]|].
  destruct (cluster_view c !! id) as [e|] eqn:Hid; simpl.
  - case_decide; injection Hop as Hv <-; (split; [|done]); simpl.
    + by eapply directory_insert_same.
    + by rewrite directory_insert, Hv.
  - injection Hop as Hv <-. split; [|done]. by eapply directory_insert_same.
Qed.

Lemma registry_op_refines r o : registry_wf r → op_wf o → refines_op r o.
Proof.
  intros Hwf Ho. destruct o as [c|name|name e|name id|name id s];
    [| |by apply insert_endpoint_refines_op|by apply remove_endpoint_refines_op
     |by apply set_endpoint_state_refines_op]; unfold refines_op; simpl;
    unfold EndpointRegistry_insert_cluster; rewrite directory_lookup.
  - destruct (r.(clusters) !! c.(cluster_name)) eqn:Hc; simpl; [done|].
    split_and!; [by apply registry_wf_insert | apply directory_insert | done].
  - destruct (r.(clusters) !! name) eqn:Hc; simpl.
    + split_and!; [by apply map_Forall_delete | apply fmap_delete | done].
    + unfold set_clusters. rewrite delete_id by done. by destruct r.
Qed.

Definition EndpointRegistry_run : EndpointRegistry → list RegistryOp → EndpointRegistry :=
  foldl EndpointRegistry_op.

Definition directory_run : Directory → list RegistryOp → Directory :=
  foldl (λ d o, default d (directory_op d o)).

Lemma registry_run_refines ops : ∀ r,
  registry_wf r → Forall op_wf ops →
  registry_wf (EndpointRegistry_run r ops) ∧
  directory (EndpointRegistry_run r ops) = directory_run (directory r) ops.
Proof.
  induction ops as [|o ops IH]; intros r Hwf Hops; [done|].
  apply Forall_cons in Hops as [Ho Hops].
  destruct (registry_op_refines r o Hwf Ho) as (Hwf' & Hd & _). simpl. rewrite <- Hd. by apply IH.
Qed.

Lemma registry_wf_new : registry_wf EndpointRegistry_new.
Proof. apply map_Forall_empty. Qed.

(** The registry refines the two-level directory: after any sequence of
    operations on a new registry every cluster is stored under its own name and has
    valid endpoints with distinct ids, the directory is the one obtained by applying
    the operations to the empty directory, and the next operation succeeds exactly
    when the directory admits it. *)
Theorem registry_refines_directory (ops : list RegistryOp) (o : RegistryOp)
  (Hops : Forall op_wf (ops ++ [o])) :
  let r := EndpointRegistry_run EndpointRegistry_new ops in
  registry_wf r ∧ directory r = directory_run ∅ ops ∧
  (EndpointRegistry_op_ok r o = true ↔ is_Some (directory_op (directory_run ∅ ops) o)).
Proof.
  apply Forall_app in Hops as [Hops [Ho _]%Forall_cons].
  destruct (registry_run_refines ops _ registry_wf_new Hops) as [Hwf Hd].
  cbv zeta. split_and!; [done | exact Hd |].
  destruct (registry_op_refines _ o Hwf Ho) as (_ & _ & ->). rewrite bool_decide_eq_true.
  by rewrite Hd.
Qed.

Definition example_cluster : UpstreamCluster :=
  {| cluster_name := "payments"; endpoints := [example_endpoint "a" 8080] |}.

Lemma registry_refines_directory_witness :
  registry_wf (EndpointRegistry_run EndpointRegistry_new
    [RInsertCluster example_cluster; RRemoveEndpoint "payments" "a"]).
Proof.
  apply (registry_refines_directory
    [RInsertCluster example_cluster; RRemoveEndpoint "payments" "a"] (RRemoveCluster "payments")).
  repeat constructor. intros Hin. by apply elem_of_nil in Hin.
Defined.

(** Setting an endpoint to the state it already has fails with
    [EndpointNotFound], although the endpoint is registered, and changes nothing. *)
Theorem set_same_state_reports_missing (r : EndpointRegistry) (name id : string)
  (c : UpstreamCluster) (e : UpstreamEndpoint)
  (Hc : EndpointRegistry_cluster r name = Some c) (He : UpstreamCluster_endpoint c id = Some e) :
  EndpointRegistry_set_endpoint_state r name id e.(ep_state) = (r, Err (EndpointNotFound name id)).
Proof.
  unfold EndpointRegistry_set_endpoint_state, EndpointRegistry_cluster in *. rewrite Hc.
  unfold UpstreamCluster_set_endpoint_state. unfold UpstreamCluster_endpoint in He.
  pose proof (position_find id c.(endpoints)) as Hp. rewrite He in Hp.
  destruct (position id c.(endpoints)) as [i|]; [|done].
  destruct Hp as (l1 & e' & l2 & -> & -> & _ & _ & [= <-]).
  rewrite list_lookup_middle, decide_True by done.
  unfold set_clusters. rewrite insert_id by done. by destruct r.
Qed.

Lemma set_same_state_reports_missing_witness :
  let r := EndpointRegistry_run EndpointRegistry_new [RInsertCluster example_cluster] in
  EndpointRegistry_set_endpoint_state r "payments" "a" EndpointState_Ready =
    (r, Err (EndpointNotFound "payments" "a")).
Proof.
  intros r. apply (set_same_state_reports_missing r "payments" "a" example_cluster
    (example_endpoint "a" 8080)); vm_compute; reflexivity.
Defined.
