(* ===== verification/UpstreamHealth.v ===== *)
(** * Upstream health

    Models [crates/runtime/src/upstream_health.rs]: health records kept next to
    the endpoint registry, driven by active and passive signals and by time, with
    ejection under a cluster budget, recovery and slow-start warm-up.  The state is
    [UpstreamHealthRegistry]; each method is one operation on it.  The methods that
    change records or topology hold the [topology] and [records] locks while they do
    so and are atomic here; events and counters are updated within the same step. *)

From S2P Require Import Prelude RustStr NetCore EndpointRegistry.
Local Open Scope N_scope.
Local Open Scope rust_scope.

Definition MAX_HEALTH_EVENTS : nat := 64.

Record EndpointHealthPolicy := {
  degraded_failure_threshold : N;
  unhealthy_failure_threshold : N;
  ejection_failure_threshold : N;
  recovery_success_threshold : N;
  ejection_duration : Duration;
  warmup_duration : Duration;
  consecutive_passive_failure_ejection_threshold : N;
  outlier_window_size : N;
  success_rate_ejection_threshold_percent : N;
  cluster_ejection_budget_percent : N;
  slow_start_min_weight_percent : N
}.

Definition EndpointHealthPolicy_default : EndpointHealthPolicy :=
  {| degraded_failure_threshold := 1; unhealthy_failure_threshold := 2;
     ejection_failure_threshold := 3; recovery_success_threshold := 2;
     ejection_duration := from_secs 30; warmup_duration := from_secs 15;
     consecutive_passive_failure_ejection_threshold := 5; outlier_window_size := 20;
     success_rate_ejection_threshold_percent := 50; cluster_ejection_budget_percent := 50;
     slow_start_min_weight_percent := 10 |}.

Inductive ProtocolHealthClass := Generic | Http1 | Http2 | Grpc | Tcp.
#[export] Instance ProtocolHealthClass_eq_dec : EqDecision ProtocolHealthClass.
Proof. solve_decision. Defined.
Definition protocol_index (p : ProtocolHealthClass) : nat :=
  match p with Generic => 0 | Http1 => 1 | Http2 => 2 | Grpc => 3 | Tcp => 4 end%nat.
Definition protocol_of_index (n : nat) : ProtocolHealthClass :=
  match n with 0 => Generic | 1 => Http1 | 2 => Http2 | 3 => Grpc | _ => Tcp end%nat.
#[export] Instance ProtocolHealthClass_countable : Countable ProtocolHealthClass.
Proof. refine (inj_countable' protocol_index protocol_of_index _). by intros []. Defined.

Inductive EndpointHealthStatus := Healthy | Degraded | Unhealthy | Ejected | Warming.
#[export] Instance EndpointHealthStatus_eq_dec : EqDecision EndpointHealthStatus.
Proof. solve_decision. Defined.

Definition is_available (s : EndpointHealthStatus) : bool :=
  match s with Healthy | Degraded | Warming => true | Unhealthy | Ejected => false end.

Record EndpointHealthSnapshot := {
  hs_status : EndpointHealthStatus;
  hs_active_failures : N;
  hs_passive_failures : N;
  hs_recovery_successes : N;
  hs_effective_weight : N;
  hs_remaining_ejection : option Duration;
  hs_remaining_warmup : option Duration;
  hs_passive_failures_by_protocol : gmap ProtocolHealthClass N
}.

Record UpstreamHealthMetrics := {
  hm_active_success_count : N;
  hm_active_failure_count : N;
  hm_passive_success_count : N;
  hm_passive_failure_count : N;
  hm_state_change_count : N;
  hm_ejection_count : N;
  hm_degraded_endpoint_count : N;
  hm_unhealthy_endpoint_count : N;
  hm_ejected_endpoint_count : N;
  hm_warming_endpoint_count : N
}.

Inductive UpstreamHealthError :=
| Registry (error : EndpointRegistryError)
| InconsistentState (cluster endpoint_id : string)
| EndpointNotTracked (cluster endpoint_id : string).

(** [EndpointKey]: cluster and endpoint id, ordered lexicographically. *)
Abbreviation EndpointKey := (string * string)%type (only parsing).

Definition EndpointKey_cmp : EndpointKey → EndpointKey → comparison :=
  lex_cmp String.compare String.compare.

Record EndpointHealthRecord := {
  hr_status : EndpointHealthStatus;
  hr_active_failures : N;
  hr_passive_failures : N;
  hr_recovery_successes : N;
  hr_effective_weight : N;
  hr_remaining_ejection : Duration;
  hr_warmup_elapsed : Duration;
  hr_nominal_weight : N;
  hr_by_protocol : gmap ProtocolHealthClass N;
  hr_window : list bool
}.

Definition EndpointHealthRecord_new (e : UpstreamEndpoint) (policy : EndpointHealthPolicy) :
    EndpointHealthRecord :=
  let nominal_weight := e.(ep_metadata).(weight) in
  if EndpointState_is_ready e.(ep_state) && negb (bool_decide (policy.(warmup_duration) = 0)) then
    {| hr_status := Warming; hr_active_failures := 0; hr_passive_failures := 0;
       hr_recovery_successes := 0; hr_effective_weight := 1; hr_remaining_ejection := 0;
       hr_warmup_elapsed := 0; hr_nominal_weight := nominal_weight;
       hr_by_protocol := ∅; hr_window := [] |}
  else
    {| hr_status := Healthy; hr_active_failures := 0; hr_passive_failures := 0;
       hr_recovery_successes := 0; hr_effective_weight := nominal_weight;
       hr_remaining_ejection := 0; hr_warmup_elapsed := 0; hr_nominal_weight := nominal_weight;
       hr_by_protocol := ∅; hr_window := [] |}.

Definition EndpointHealthRecord_snapshot (r : EndpointHealthRecord) (policy : EndpointHealthPolicy) :
    EndpointHealthSnapshot :=
  {| hs_status := r.(hr_status);
     hs_active_failures := r.(hr_active_failures);
     hs_passive_failures := r.(hr_passive_failures);
     hs_recovery_successes := r.(hr_recovery_successes);
     hs_effective_weight := r.(hr_effective_weight);
     hs_remaining_ejection :=
       if decide (r.(hr_remaining_ejection) = 0) then None else Some r.(hr_remaining_ejection);
     hs_remaining_warmup :=
       match r.(hr_status) with
       | Warming => Some (policy.(warmup_duration) - r.(hr_warmup_elapsed))
       | _ => None
       end;
     hs_passive_failures_by_protocol := r.(hr_by_protocol) |}.

Definition combined_failures (r : EndpointHealthRecord) : N :=
  saturating_add u32_max r.(hr_active_failures) r.(hr_passive_failures).

(** *** Assignments to the fields of a record *)

Section record_setters.
Variable r : EndpointHealthRecord.

(** [status], [remaining_ejection] and [effective_weight]. *)
Definition set_health (status : EndpointHealthStatus) (remaining : Duration) (eff : N) :
    EndpointHealthRecord :=
  {| hr_status := status; hr_active_failures := r.(hr_active_failures);
     hr_passive_failures := r.(hr_passive_failures);
     hr_recovery_successes := r.(hr_recovery_successes); hr_effective_weight := eff;
     hr_remaining_ejection := remaining; hr_warmup_elapsed := r.(hr_warmup_elapsed);
     hr_nominal_weight := r.(hr_nominal_weight); hr_by_protocol := r.(hr_by_protocol);
     hr_window := r.(hr_window) |}.

Definition set_warmup_elapsed (elapsed : Duration) : EndpointHealthRecord :=
  {| hr_status := r.(hr_status); hr_active_failures := r.(hr_active_failures);
     hr_passive_failures := r.(hr_passive_failures);
     hr_recovery_successes := r.(hr_recovery_successes);
     hr_effective_weight := r.(hr_effective_weight);
     hr_remaining_ejection := r.(hr_remaining_ejection); hr_warmup_elapsed := elapsed;
     hr_nominal_weight := r.(hr_nominal_weight); hr_by_protocol := r.(hr_by_protocol);
     hr_window := r.(hr_window) |}.

Definition set_recovery_successes (n : N) : EndpointHealthRecord :=
  {| hr_status := r.(hr_status); hr_active_failures := r.(hr_active_failures);
     hr_passive_failures := r.(hr_passive_failures); hr_recovery_successes := n;
     hr_effective_weight := r.(hr_effective_weight);
     hr_remaining_ejection := r.(hr_remaining_ejection);
     hr_warmup_elapsed := r.(hr_warmup_elapsed); hr_nominal_weight := r.(hr_nominal_weight);
     hr_by_protocol := r.(hr_by_protocol); hr_window := r.(hr_window) |}.

(** [active_failures], [passive_failures] and the protocol counters. *)
Definition set_failures (active passive : N) (by_protocol : gmap ProtocolHealthClass N) :
    EndpointHealthRecord :=
  {| hr_status := r.(hr_status); hr_active_failures := active; hr_passive_failures := passive;
     hr_recovery_successes := r.(hr_recovery_successes);
     hr_effective_weight := r.(hr_effective_weight);
     hr_remaining_ejection := r.(hr_remaining_ejection);
     hr_warmup_elapsed := r.(hr_warmup_elapsed); hr_nominal_weight := r.(hr_nominal_weight);
     hr_by_protocol := by_protocol; hr_window := r.(hr_window) |}.

Definition set_window (w : list bool) : EndpointHealthRecord :=
  {| hr_status := r.(hr_status); hr_active_failures := r.(hr_active_failures);
     hr_passive_failures := r.(hr_passive_failures);
     hr_recovery_successes := r.(hr_recovery_successes);
     hr_effective_weight := r.(hr_effective_weight);
     hr_remaining_ejection := r.(hr_remaining_ejection);
     hr_warmup_elapsed := r.(hr_warmup_elapsed); hr_nominal_weight := r.(hr_nominal_weight);
     hr_by_protocol := r.(hr_by_protocol); hr_window := w |}.
End record_setters.

(** *** Transitions of a record *)

Definition transition_on_failures (r : EndpointHealthRecord) (policy : EndpointHealthPolicy)
    (force_ejection : bool) : EndpointHealthRecord :=
  if decide (r.(hr_status) = Ejected) then r
  else
    let combined := combined_failures r in
    if force_ejection || bool_decide (policy.(ejection_failure_threshold) ≤ combined) then
      set_recovery_successes (set_health r Ejected policy.(ejection_duration) 0) 0
    else if decide (policy.(unhealthy_failure_threshold) ≤ combined) then
      set_health r Unhealthy r.(hr_remaining_ejection) 0
    else if decide (policy.(degraded_failure_threshold) ≤ combined) then
      set_health r Degraded r.(hr_remaining_ejection) r.(hr_nominal_weight)
    else r.

Definition clear_protocol_failure_state (r : EndpointHealthRecord) : EndpointHealthRecord :=
  set_failures r r.(hr_active_failures) r.(hr_passive_failures) ((λ _, 0) <$> r.(hr_by_protocol)).

Definition transition_on_success (r : EndpointHealthRecord) (policy : EndpointHealthPolicy) :
    EndpointHealthRecord :=
  match r.(hr_status) with
  | Ejected => r
  | Healthy | Warming =>
      let r := set_failures r 0 0 r.(hr_by_protocol) in
      set_recovery_successes (clear_protocol_failure_state r) 0
  | Degraded | Unhealthy =>
      let r := set_recovery_successes r (saturating_add u32_max r.(hr_recovery_successes) 1) in
      if decide (r.(hr_recovery_successes) < policy.(recovery_success_threshold)) then r
      else
        let r := set_failures r 0 0 r.(hr_by_protocol) in
        let r := set_recovery_successes (clear_protocol_failure_state r) 0 in
        if decide (policy.(warmup_duration) = 0) then
          set_health r Healthy r.(hr_remaining_ejection) r.(hr_nominal_weight)
        else
          set_health (set_warmup_elapsed r 0) Warming r.(hr_remaining_ejection) 1
  end.

(** [x as u16] and [x as u32]. *)
Definition as_u16 (n : N) : N := n mod (u16_max + 1).
Definition as_u32 (n : N) : N := n mod (u32_max + 1).

Definition warmup_weight (nominal_weight : N) (warmup_elapsed warmup_duration : Duration)
    (slow_start_min_weight_percent : N) : N :=
  if decide (warmup_duration = 0 ∨ warmup_duration ≤ warmup_elapsed) then nominal_weight
  else
    let numerator := nominal_weight * as_millis warmup_elapsed in
    let denominator := N.max (as_millis warmup_duration) 1 in
    let progressive_weight := as_u16 (numerator / denominator) in
    let min_weight :=
      as_u16 (N.max (saturating_mul u32_max nominal_weight
                       (N.max slow_start_min_weight_percent 1) / 100) 1) in
    N.min (N.max progressive_weight min_weight) nominal_weight.

Definition increment_protocol_failure_counter (r : EndpointHealthRecord)
    (protocol : ProtocolHealthClass) : EndpointHealthRecord :=
  let counter := default 0 (r.(hr_by_protocol) !! protocol) in
  set_failures r r.(hr_active_failures) r.(hr_passive_failures)
    (<[protocol := saturating_add u32_max counter 1]> r.(hr_by_protocol)).

Definition clear_protocol_failure_counter (r : EndpointHealthRecord)
    (protocol : ProtocolHealthClass) : EndpointHealthRecord :=
  set_failures r r.(hr_active_failures) r.(hr_passive_failures)
    (<[protocol := 0]> r.(hr_by_protocol)).

(** [values().copied().max().unwrap_or(0)]. *)
Definition max_counter (by_protocol : gmap ProtocolHealthClass N) : N :=
  map_fold (λ _ n acc, N.max n acc) 0 by_protocol.

Definition refresh_passive_failure_aggregate (r : EndpointHealthRecord) : EndpointHealthRecord :=
  set_failures r r.(hr_active_failures) (max_counter r.(hr_by_protocol)) r.(hr_by_protocol).

(** The [while] loop pops from the front until the window fits. *)
Definition push_passive_result (r : EndpointHealthRecord) (success : bool) (window_size : N) :
    EndpointHealthRecord :=
  if decide (window_size = 0) then r
  else
    let w := r.(hr_window) ++ [success] in
    set_window r (drop (length w - N.to_nat window_size) w).

Definition passive_failure_triggers_ejection (r : EndpointHealthRecord)
    (policy : EndpointHealthPolicy) : bool :=
  let consecutive_trigger :=
    bool_decide (0 < policy.(consecutive_passive_failure_ejection_threshold)) &&
    bool_decide (policy.(consecutive_passive_failure_ejection_threshold)
                 ≤ r.(hr_passive_failures)) in
  if consecutive_trigger then true
  else if decide (policy.(outlier_window_size) = 0 ∨
                  N.of_nat (length r.(hr_window)) < policy.(outlier_window_size)) then false
  else
    let success_count := as_u32 (N.of_nat (length (filter (λ b, b = true) r.(hr_window)))) in
    let observed := as_u32 (N.of_nat (length r.(hr_window))) in
    bool_decide (saturating_mul u32_max success_count 100 <
                 saturating_mul u32_max policy.(success_rate_ejection_threshold_percent) observed).

Inductive HealthSignal :=
| ActiveSuccess
| ActiveFailure
| PassiveSuccess (protocol : ProtocolHealthClass)
| PassiveFailure (protocol : ProtocolHealthClass).

(** The [match signal] of [apply_signal]. *)
Definition apply_signal_record (r : EndpointHealthRecord) (policy : EndpointHealthPolicy)
    (signal : HealthSignal) : EndpointHealthRecord :=
  match signal with
  | ActiveFailure =>
      let r := set_failures r (saturating_add u32_max r.(hr_active_failures) 1)
                 r.(hr_passive_failures) r.(hr_by_protocol) in
      transition_on_failures (set_recovery_successes r 0) policy false
  | PassiveFailure protocol =>
      let r := refresh_passive_failure_aggregate (increment_protocol_failure_counter r protocol) in
      let r := push_passive_result r false policy.(outlier_window_size) in
      let r := set_recovery_successes r 0 in
      transition_on_failures r policy (passive_failure_triggers_ejection r policy)
  | ActiveSuccess => transition_on_success r policy
  | PassiveSuccess protocol =>
      let r := refresh_passive_failure_aggregate (clear_protocol_failure_counter r protocol) in
      let r := push_passive_result r true policy.(outlier_window_size) in
      transition_on_success r policy
  end.

(** ** The registry of health records *)

Inductive UpstreamHealthEventKind :=
| Event_Degraded | Event_Unhealthy | Event_Ejected | Event_WarmupStarted
| Event_WarmupCompleted | Event_RecoveryStarted | Event_Recovered.

Record UpstreamHealthEvent := {
  he_kind : UpstreamHealthEventKind;
  he_cluster_name : string;
  he_endpoint_id : string;
  he_detail : string
}.

Record MetricsState := {
  ms_active_success_count : N;
  ms_active_failure_count : N;
  ms_passive_success_count : N;
  ms_passive_failure_count : N;
  ms_state_change_count : N;
  ms_ejection_count : N
}.

Definition MetricsState_default : MetricsState :=
  {| ms_active_success_count := 0; ms_active_failure_count := 0; ms_passive_success_count := 0;
     ms_passive_failure_count := 0; ms_state_change_count := 0; ms_ejection_count := 0 |}.

Abbreviation Records := (gmap EndpointKey EndpointHealthRecord) (only parsing).

Definition count_status (records : Records) (s : EndpointHealthStatus) : N :=
  N.of_nat (size (filter (λ kr, kr.2.(hr_status) = s) records)).

Definition MetricsState_snapshot (m : MetricsState) (records : Records) : UpstreamHealthMetrics :=
  {| hm_active_success_count := m.(ms_active_success_count);
     hm_active_failure_count := m.(ms_active_failure_count);
     hm_passive_success_count := m.(ms_passive_success_count);
     hm_passive_failure_count := m.(ms_passive_failure_count);
     hm_state_change_count := m.(ms_state_change_count);
     hm_ejection_count := m.(ms_ejection_count);
     hm_degraded_endpoint_count := count_status records Degraded;
     hm_unhealthy_endpoint_count := count_status records Unhealthy;
     hm_ejected_endpoint_count := count_status records Ejected;
     hm_warming_endpoint_count := count_status records Warming |}.

Record UpstreamHealthRegistry := {
  uh_registry : EndpointRegistry;
  uh_policy : EndpointHealthPolicy;
  uh_records : Records;
  uh_events : list UpstreamHealthEvent;
  uh_metrics : MetricsState
}.

Definition UpstreamHealthRegistry_new (policy : EndpointHealthPolicy) : UpstreamHealthRegistry :=
  {| uh_registry := EndpointRegistry_new; uh_policy := policy; uh_records := ∅;
     uh_events := []; uh_metrics := MetricsState_default |}.

Section health_setters.
Variable h : UpstreamHealthRegistry.

Definition set_registry (r : EndpointRegistry) : UpstreamHealthRegistry :=
  {| uh_registry := r; uh_policy := h.(uh_policy); uh_records := h.(uh_records);
     uh_events := h.(uh_events); uh_metrics := h.(uh_metrics) |}.
Definition set_records (rs : Records) : UpstreamHealthRegistry :=
  {| uh_registry := h.(uh_registry); uh_policy := h.(uh_policy); uh_records := rs;
     uh_events := h.(uh_events); uh_metrics := h.(uh_metrics) |}.
Definition set_events (es : list UpstreamHealthEvent) : UpstreamHealthRegistry :=
  {| uh_registry := h.(uh_registry); uh_policy := h.(uh_policy); uh_records := h.(uh_records);
     uh_events := es; uh_metrics := h.(uh_metrics) |}.
Definition set_metrics (m : MetricsState) : UpstreamHealthRegistry :=
  {| uh_registry := h.(uh_registry); uh_policy := h.(uh_policy); uh_records := h.(uh_records);
     uh_events := h.(uh_events); uh_metrics := m |}.
End health_setters.

Definition push_event (h : UpstreamHealthRegistry) (kind : UpstreamHealthEventKind)
    (cluster id detail : string) : UpstreamHealthRegistry :=
  set_events h (push_bounded MAX_HEALTH_EVENTS h.(uh_events)
    {| he_kind := kind; he_cluster_name := cluster; he_endpoint_id := id; he_detail := detail |}).

(** Body of the loop of [insert_cluster], also the tail of [insert_endpoint]: the
    record of an endpoint and its warm-up event. *)
Definition admit_endpoint (cluster : string) (h : UpstreamHealthRegistry) (e : UpstreamEndpoint) :
    UpstreamHealthRegistry :=
  let record := EndpointHealthRecord_new e h.(uh_policy) in
  let h := match record.(hr_status) with
           | Warming => push_event h Event_WarmupStarted cluster e.(ep_id)
                          "endpoint admitted in warm-up mode"
           | _ => h
           end in
  set_records h (<[(cluster, e.(ep_id)) := record]> h.(uh_records)).

Definition UpstreamHealthRegistry_insert_cluster (h : UpstreamHealthRegistry)
    (c : UpstreamCluster) : UpstreamHealthRegistry * Result unit UpstreamHealthError :=
  let '(registry, r) := EndpointRegistry_insert_cluster h.(uh_registry) c in
  let h := set_registry h registry in
  match r with
  | Err error => (h, Err (Registry error))
  | Ok _ => (foldl (admit_endpoint c.(cluster_name)) h c.(endpoints), Ok tt)
  end.

Definition UpstreamHealthRegistry_remove_cluster (h : UpstreamHealthRegistry) (name : string) :
    UpstreamHealthRegistry * option UpstreamCluster :=
  let '(registry, removed) := EndpointRegistry_remove_cluster h.(uh_registry) name in
  let h := set_registry h registry in
  match removed with
  | Some c => (set_records h (filter (λ kr, kr.1.1 ≠ name) h.(uh_records)), Some c)
  | None => (h, None)
  end.

Definition UpstreamHealthRegistry_insert_endpoint (h : UpstreamHealthRegistry) (name : string)
    (e : UpstreamEndpoint) : UpstreamHealthRegistry * Result unit UpstreamHealthError :=
  let '(registry, r) := EndpointRegistry_insert_endpoint h.(uh_registry) name e in
  let h := set_registry h registry in
  match r with
  | Err error => (h, Err (Registry error))
  | Ok _ => (admit_endpoint name h e, Ok tt)
  end.

Definition UpstreamHealthRegistry_remove_endpoint (h : UpstreamHealthRegistry)
    (name id : string) : UpstreamHealthRegistry * Result UpstreamEndpoint UpstreamHealthError :=
  let '(registry, r) := EndpointRegistry_remove_endpoint h.(uh_registry) name id in
  let h := set_registry h registry in
  match r with
  | Err error => (h, Err (Registry error))
  | Ok e => (set_records h (delete (name, id) h.(uh_records)), Ok e)
  end.

Definition UpstreamHealthRegistry_set_endpoint_state (h : UpstreamHealthRegistry)
    (name id : string) (state : EndpointState) :
    UpstreamHealthRegistry * Result unit UpstreamHealthError :=
  let '(registry, r) := EndpointRegistry_set_endpoint_state h.(uh_registry) name id state in
  (set_registry h registry, match r with Ok _ => Ok tt | Err error => Err (Registry error) end).

Definition can_apply_ejection_budget (records : Records) (name id : string)
    (policy : EndpointHealthPolicy) : bool :=
  if decide (100 ≤ policy.(cluster_ejection_budget_percent)) then true
  else
    let in_cluster := filter (λ kr, kr.1.1 = name) records in
    let total := N.min u64_max (N.of_nat (size in_cluster)) in
    let ejected := N.min u64_max (count_status in_cluster Ejected) in
    if decide (total = 0) then false
    else
      let allowed := saturating_add u64_max
        (saturating_mul u64_max total policy.(cluster_ejection_budget_percent)) 99 / 100 in
      if decide (allowed = 0) then false
      else
        let this_is_ejected :=
          match records !! (name, id) with
          | Some r => bool_decide (r.(hr_status) = Ejected)
          | None => false
          end in
        if this_is_ejected then bool_decide (ejected ≤ allowed) else bool_decide (ejected < allowed).

Definition event_for_transition (previous current : EndpointHealthStatus) :
    UpstreamHealthEventKind * string :=
  match previous, current with
  | _, Degraded => (Event_Degraded, "endpoint entered degraded health state")
  | _, Unhealthy => (Event_Unhealthy, "endpoint became unhealthy and is excluded from traffic")
  | _, Ejected => (Event_Ejected, "endpoint was ejected after repeated failures")
  | _, Warming => (Event_WarmupStarted, "endpoint re-entered warm-up after recovery")
  | _, Healthy => (Event_Recovered, "endpoint recovered and is fully healthy")
  end.

Definition count_transition (m : MetricsState) (previous current : EndpointHealthStatus) :
    MetricsState :=
  if decide (previous = current) then m
  else
    {| ms_active_success_count := m.(ms_active_success_count);
       ms_active_failure_count := m.(ms_active_failure_count);
       ms_passive_success_count := m.(ms_passive_success_count);
       ms_passive_failure_count := m.(ms_passive_failure_count);
       ms_state_change_count := fetch_add m.(ms_state_change_count) 1;
       ms_ejection_count := if decide (current = Ejected) then fetch_add m.(ms_ejection_count) 1
                            else m.(ms_ejection_count) |}.

(** The record [apply_signal] stores: the signal's transition, capped at
    [Unhealthy] when it would newly eject the endpoint beyond the budget. *)
Definition apply_signal_capped (policy : EndpointHealthPolicy) (records : Records)
    (name id : string) (r : EndpointHealthRecord) (signal : HealthSignal) :
    EndpointHealthRecord :=
  let r' := apply_signal_record r policy signal in
  let records := <[(name, id) := r']> records in
  let needs_budget_cap :=
    bool_decide (r'.(hr_status) = Ejected) && negb (bool_decide (r.(hr_status) = Ejected)) &&
    negb (can_apply_ejection_budget records name id policy) in
  if needs_budget_cap then set_health r' Unhealthy 0 0 else r'.

Definition apply_signal (h : UpstreamHealthRegistry) (name id : string) (signal : HealthSignal) :
    UpstreamHealthRegistry * Result EndpointHealthSnapshot UpstreamHealthError :=
  match h.(uh_records) !! (name, id) with
  | None => (h, Err (EndpointNotTracked name id))
  | Some record =>
      let previous_status := record.(hr_status) in
      let r := apply_signal_capped h.(uh_policy) h.(uh_records) name id record signal in
      let h := set_records h (<[(name, id) := r]> h.(uh_records)) in
      let h := set_metrics h (count_transition h.(uh_metrics) previous_status r.(hr_status)) in
      let snapshot := EndpointHealthRecord_snapshot r h.(uh_policy) in
      let h := if decide (previous_status = r.(hr_status)) then h
               else let '(kind, detail) := event_for_transition previous_status r.(hr_status) in
                    push_event h kind name id detail in
      (h, Ok snapshot)
  end.

(** The signal counters, incremented before the signal is applied. *)
Definition count_signal (m : MetricsState) (signal : HealthSignal) : MetricsState :=
  {| ms_active_success_count :=
       match signal with ActiveSuccess => fetch_add m.(ms_active_success_count) 1
                       | _ => m.(ms_active_success_count) end;
     ms_active_failure_count :=
       match signal with ActiveFailure => fetch_add m.(ms_active_failure_count) 1
                       | _ => m.(ms_active_failure_count) end;
     ms_passive_success_count :=
       match signal with PassiveSuccess _ => fetch_add m.(ms_passive_success_count) 1
                       | _ => m.(ms_passive_success_count) end;
     ms_passive_failure_count :=
       match signal with PassiveFailure _ => fetch_add m.(ms_passive_failure_count) 1
                       | _ => m.(ms_passive_failure_count) end;
     ms_state_change_count := m.(ms_state_change_count);
     ms_ejection_count := m.(ms_ejection_count) |}.

Definition note_signal (h : UpstreamHealthRegistry) (name id : string) (signal : HealthSignal) :
    UpstreamHealthRegistry * Result EndpointHealthSnapshot UpstreamHealthError :=
  apply_signal (set_metrics h (count_signal h.(uh_metrics) signal)) name id signal.

Definition UpstreamHealthRegistry_note_active_success h (name id : string) :=
  note_signal h name id ActiveSuccess.
Definition UpstreamHealthRegistry_note_active_failure h (name id : string) :=
  note_signal h name id ActiveFailure.
Definition UpstreamHealthRegistry_note_passive_success_for_protocol h (name id : string) protocol :=
  note_signal h name id (PassiveSuccess protocol).
Definition UpstreamHealthRegistry_note_passive_failure_for_protocol h (name id : string) protocol :=
  note_signal h name id (PassiveFailure protocol).
Definition UpstreamHealthRegistry_note_passive_success h (name id : string) :=
  UpstreamHealthRegistry_note_passive_success_for_protocol h name id Generic.
Definition UpstreamHealthRegistry_note_passive_failure h (name id : string) :=
  UpstreamHealthRegistry_note_passive_failure_for_protocol h name id Generic.

(** Body of the loop of [advance_time]. *)
Definition advance_record (policy : EndpointHealthPolicy) (elapsed : Duration)
    (r : EndpointHealthRecord) : EndpointHealthRecord :=
  match r.(hr_status) with
  | Ejected =>
      if decide (r.(hr_remaining_ejection) ≤ elapsed)
      then set_health r Unhealthy 0 r.(hr_effective_weight)
      else set_health r Ejected (r.(hr_remaining_ejection) - elapsed) r.(hr_effective_weight)
  | Warming =>
      let r := set_warmup_elapsed r (Duration_saturating_add r.(hr_warmup_elapsed) elapsed) in
      let weight := warmup_weight r.(hr_nominal_weight) r.(hr_warmup_elapsed)
                      policy.(warmup_duration) policy.(slow_start_min_weight_percent) in
      if decide (policy.(warmup_duration) ≤ r.(hr_warmup_elapsed))
      then set_health r Healthy r.(hr_remaining_ejection) r.(hr_nominal_weight)
      else set_health r Warming r.(hr_remaining_ejection) weight
  | _ => r
  end.

(** The keys whose record leaves status [s] in this step, in key order. *)
Definition leaving (policy : EndpointHealthPolicy) (elapsed : Duration) (records : Records)
    (s : EndpointHealthStatus) : list EndpointKey :=
  fst <$> filter (λ kr, kr.2.(hr_status) = s ∧ (advance_record policy elapsed kr.2).(hr_status) ≠ s)
    (sort_by fst EndpointKey_cmp (map_to_list records)).

Definition add_state_changes (m : MetricsState) (n : N) : MetricsState :=
  {| ms_active_success_count := m.(ms_active_success_count);
     ms_active_failure_count := m.(ms_active_failure_count);
     ms_passive_success_count := m.(ms_passive_success_count);
     ms_passive_failure_count := m.(ms_passive_failure_count);
     ms_state_change_count := fetch_add m.(ms_state_change_count) n;
     ms_ejection_count := m.(ms_ejection_count) |}.

Definition UpstreamHealthRegistry_advance_time (h : UpstreamHealthRegistry) (elapsed : Duration) :
    UpstreamHealthRegistry :=
  if decide (elapsed = 0) then h
  else
    let records := h.(uh_records) in
    let ejection_expirations := leaving h.(uh_policy) elapsed records Ejected in
    let warmup_completions := leaving h.(uh_policy) elapsed records Warming in
    let state_changes := N.of_nat (length ejection_expirations + length warmup_completions) in
    let h := set_records h (advance_record h.(uh_policy) elapsed <$> records) in
    let h := if decide (state_changes = 0) then h
             else set_metrics h (add_state_changes h.(uh_metrics) state_changes) in
    let h := foldl (λ h k, push_event h Event_RecoveryStarted k.1 k.2
               "endpoint ejection expired and recovery checks may resume") h
               ejection_expirations in
    foldl (λ h k, push_event h Event_WarmupCompleted k.1 k.2
      "endpoint completed warm-up and is fully admitted") h warmup_completions.

(** The loop of [cluster_state]. *)
Fixpoint count_available (name : string) (records : Records) (eps : list UpstreamEndpoint)
    (ready : nat) : Result nat UpstreamHealthError :=
  match eps with
  | [] => Ok ready
  | e :: eps =>
      match records !! (name, e.(ep_id)) with
      | None => Err (InconsistentState name e.(ep_id))
      | Some r =>
          count_available name records eps
            (if EndpointState_is_ready e.(ep_state) && is_available r.(hr_status)
             then S ready else ready)
      end
  end.

Definition UpstreamHealthRegistry_cluster_state (h : UpstreamHealthRegistry) (name : string) :
    Result UpstreamClusterState UpstreamHealthError :=
  match EndpointRegistry_cluster h.(uh_registry) name with
  | None => Err (Registry (ClusterNotFound name))
  | Some c =>
      let total_endpoints := length c.(endpoints) in
      if decide (total_endpoints = 0%nat) then Ok UpstreamClusterState_Empty
      else
        let? ready_endpoints := count_available name h.(uh_records) c.(endpoints) 0 in
        if decide (ready_endpoints = 0%nat)
        then Ok (UpstreamClusterState_Unavailable total_endpoints)
        else Ok (UpstreamClusterState_Ready total_endpoints ready_endpoints)
  end.

Definition UpstreamHealthRegistry_endpoint_health (h : UpstreamHealthRegistry) (name id : string) :
    Result EndpointHealthSnapshot UpstreamHealthError :=
  match EndpointRegistry_cluster h.(uh_registry) name with
  | None => Err (Registry (ClusterNotFound name))
  | Some c =>
      match UpstreamCluster_endpoint c id with
      | None => Err (EndpointNotTracked name id)
      | Some _ =>
          match h.(uh_records) !! (name, id) with
          | None => Err (InconsistentState name id)
          | Some r => Ok (EndpointHealthRecord_snapshot r h.(uh_policy))
          end
      end
  end.

Record EndpointSelectionCandidate := {
  sc_cluster_name : string;
  sc_endpoint_id : string;
  sc_address : SocketAddr;
  sc_metadata : EndpointMetadata;
  sc_health : EndpointHealthSnapshot
}.

Definition selection_allowed (include_unhealthy : bool) (s : EndpointHealthStatus) : bool :=
  is_available s || (include_unhealthy && bool_decide (s = Unhealthy)).

(** The loop of [selection_candidates]. *)
Fixpoint collect_candidates (name : string) (include_unhealthy : bool)
    (policy : EndpointHealthPolicy) (records : Records) (eps : list UpstreamEndpoint) :
    Result (list EndpointSelectionCandidate) UpstreamHealthError :=
  match eps with
  | [] => Ok []
  | e :: eps =>
      if negb (EndpointState_is_ready e.(ep_state))
      then collect_candidates name include_unhealthy policy records eps
      else
        match records !! (name, e.(ep_id)) with
        | None => Err (InconsistentState name e.(ep_id))
        | Some r =>
            let snapshot := EndpointHealthRecord_snapshot r policy in
            let? rest := collect_candidates name include_unhealthy policy records eps in
            Ok (if selection_allowed include_unhealthy snapshot.(hs_status)
                then {| sc_cluster_name := name; sc_endpoint_id := e.(ep_id);
                        sc_address := e.(ep_address); sc_metadata := e.(ep_metadata);
                        sc_health := snapshot |} :: rest
                else rest)
        end
  end.

Definition UpstreamHealthRegistry_selection_candidates (h : UpstreamHealthRegistry)
    (name : string) (include_unhealthy : bool) :
    Result (list EndpointSelectionCandidate) UpstreamHealthError :=
  match EndpointRegistry_cluster h.(uh_registry) name with
  | None => Err (Registry (ClusterNotFound name))
  | Some c =>
      let? candidates := collect_candidates name include_unhealthy h.(uh_policy)
                           h.(uh_records) c.(endpoints) in
      Ok (sort_by sc_endpoint_id String.compare candidates)
  end.

Definition UpstreamHealthRegistry_metrics (h : UpstreamHealthRegistry) : UpstreamHealthMetrics :=
  MetricsState_snapshot h.(uh_metrics) h.(uh_records).

Definition UpstreamHealthRegistry_recent_events (h : UpstreamHealthRegistry) :
    list UpstreamHealthEvent := h.(uh_events).

(** ** Theorems: a single record *)

Lemma as_u16_small n : n ≤ u16_max → as_u16 n = n.
Proof. intros ?. apply N.mod_small. unfold u16_max in *. lia. Qed.

Lemma div_le_of_mul a b c : 0 < c → a ≤ b * c → a / c ≤ b.
Proof. intros Hc H. rewrite <- (N.div_mul b c) by lia. by apply N.Div0.div_le_mono. Qed.

Lemma as_millis_mono a b : a ≤ b → as_millis a ≤ as_millis b.
Proof. apply N.Div0.div_le_mono. Qed.

(** The progressive weight and the floor of slow start. *)
Definition progressive (nominal : N) (t duration : Duration) : N :=
  nominal * as_millis t / N.max (as_millis duration) 1.
Definition slow_start_floor (nominal pct : N) : N := N.max (nominal * N.max pct 1 / 100) 1.

Lemma progressive_le nominal t duration : t ≤ duration → progressive nominal t duration ≤ nominal.
Proof.
  intros Ht. apply div_le_of_mul; [lia|]. apply N.mul_le_mono_l.
  pose proof (as_millis_mono _ _ Ht). lia.
Qed.

Lemma slow_start_floor_le nominal pct :
  1 ≤ nominal → pct ≤ 100 → slow_start_floor nominal pct ≤ nominal.
Proof.
  intros ? ?. unfold slow_start_floor. apply N.max_lub; [|done].
  apply div_le_of_mul; [done|]. apply N.mul_le_mono_l. lia.
Qed.

Lemma warmup_weight_eq nominal t duration pct :
  1 ≤ nominal ≤ u16_max → pct ≤ 100 → t < duration →
  warmup_weight nominal t duration pct =
    N.max (progressive nominal t duration) (slow_start_floor nominal pct).
Proof.
  intros Hn Hp Ht. unfold warmup_weight. rewrite decide_False by lia.
  pose proof (progressive_le nominal t duration ltac:(lia)) as Hprog.
  pose proof (slow_start_floor_le nominal pct ltac:(lia) Hp) as Hfloor.
  unfold progressive in Hprog |- *. unfold slow_start_floor in Hfloor |- *.
  assert (Hsat : saturating_mul u32_max nominal (N.max pct 1) = nominal * N.max pct 1).
  { unfold saturating_mul, u32_max, u16_max in *. apply N.min_r. nia. }
  rewrite Hsat, !as_u16_small by lia. apply N.min_l. lia.
Qed.

(** Slow-start weights: with a percentage of at most 100 and a [u16] nominal
    weight of at least 1, the warm-up weight is at least 1, at most the nominal
    weight, grows with the elapsed time, and is the nominal weight at the end. *)
Theorem warmup_weight_spec (nominal pct : N) (t1 t2 duration : Duration)
  (Hnominal : 1 ≤ nominal ≤ u16_max) (Hpct : pct ≤ 100) (Ht : t1 ≤ t2) :
  let w t := warmup_weight nominal t duration pct in
  1 ≤ w t1 ≤ nominal ∧ w t1 ≤ w t2 ∧ (duration ≤ t1 → w t1 = nominal).
Proof.
  cbv zeta.
  assert (Hend : ∀ t, duration ≤ t → warmup_weight nominal t duration pct = nominal).
  { intros t Hd. unfold warmup_weight. by rewrite decide_True by lia. }
  destruct (decide (duration ≤ t1)) as [Hd|Hd].
  { rewrite !Hend by lia. lia. }
  rewrite (warmup_weight_eq nominal t1) by lia.
  pose proof (progressive_le nominal t1 duration ltac:(lia)).
  pose proof (slow_start_floor_le nominal pct ltac:(lia) Hpct).
  assert (1 ≤ slow_start_floor nominal pct) by (unfold slow_start_floor; lia).
  split_and!; [lia | lia | | lia].
  destruct (decide (duration ≤ t2)) as [Hd2|Hd2]; [rewrite Hend by lia; lia|].
  rewrite warmup_weight_eq by lia. apply N.max_le_compat_r. unfold progressive.
  apply N.Div0.div_le_mono, N.mul_le_mono_l. by apply as_millis_mono.
Qed.

Lemma warmup_weight_spec_witness :
  warmup_weight 100 (from_secs 3) (from_secs 15) 10 = 20 ∧
  warmup_weight 100 (from_secs 3) (from_secs 15) 10 ≤ warmup_weight 100 (from_secs 9) (from_secs 15) 10.
Proof.
  split; [vm_compute; reflexivity|].
  apply (warmup_weight_spec 100 10 (from_secs 3) (from_secs 9) (from_secs 15));
    vm_compute; [split; discriminate | discriminate | discriminate].
Defined.

(** Well-formed health records under a policy. *)
Definition weight_ok (p : EndpointHealthPolicy) (r : EndpointHealthRecord) : Prop :=
  match r.(hr_status) with
  | Healthy | Degraded => r.(hr_effective_weight) = r.(hr_nominal_weight)
  | Unhealthy | Ejected => r.(hr_effective_weight) = 0
  | Warming => r.(hr_effective_weight) ≤ r.(hr_nominal_weight) ∧
               (p.(slow_start_min_weight_percent) ≤ 100 → 1 ≤ r.(hr_effective_weight))
  end.

Definition timers_ok (p : EndpointHealthPolicy) (r : EndpointHealthRecord) : Prop :=
  (if decide (r.(hr_status) = Ejected) then r.(hr_remaining_ejection) ≤ p.(ejection_duration)
   else r.(hr_remaining_ejection) = 0) ∧
  (r.(hr_status) = Warming → r.(hr_warmup_elapsed) < p.(warmup_duration)).

Definition counters_ok (p : EndpointHealthPolicy) (r : EndpointHealthRecord) : Prop :=
  r.(hr_active_failures) ≤ u32_max ∧
  map_Forall (λ _ n, n ≤ u32_max) r.(hr_by_protocol) ∧
  r.(hr_passive_failures) = max_counter r.(hr_by_protocol) ∧
  N.of_nat (length r.(hr_window)) ≤ p.(outlier_window_size).

Definition recovery_ok (p : EndpointHealthPolicy) (r : EndpointHealthRecord) : Prop :=
  (r.(hr_recovery_successes) = 0 ∨ r.(hr_recovery_successes) < p.(recovery_success_threshold)) ∧
  (r.(hr_status) = Ejected → r.(hr_recovery_successes) = 0).

Record record_wf (p : EndpointHealthPolicy) (r : EndpointHealthRecord) : Prop := {
  wf_nominal : 1 ≤ r.(hr_nominal_weight) ≤ u16_max;
  wf_weight : weight_ok p r;
  wf_timers : timers_ok p r;
  wf_counters : counters_ok p r;
  wf_recovery : recovery_ok p r
}.

Lemma max_counter_cleared (m : gmap ProtocolHealthClass N) : max_counter ((λ _, 0) <$> m) = 0.
Proof.
  unfold max_counter. rewrite map_fold_fmap.
  apply (map_fold_weak_ind (λ r _, r = 0)); [done|]. by intros ? ? ? ? _ ->.
Qed.

Section record_invariant.
Variable p : EndpointHealthPolicy.

Lemma EndpointHealthRecord_new_wf e :
  1 ≤ e.(ep_metadata).(weight) ≤ u16_max → record_wf p (EndpointHealthRecord_new e p).
Proof.
  intros Hw. unfold EndpointHealthRecord_new.
  destruct (EndpointState_is_ready _), (bool_decide (p.(warmup_duration) = 0)) eqn:Hd; simpl;
    (split; [done | unfold weight_ok; simpl; lia | unfold timers_ok; simpl | |
             split; simpl; [by left | done]]);
    try (split_and!; simpl; try done; lia).
  split; [done|]. intros _. apply bool_decide_eq_false in Hd. lia.
Qed.

Lemma record_wf_recovery_zero r : record_wf p r → record_wf p (set_recovery_successes r 0).
Proof. intros []. split; try done. split; simpl; [by left|done]. Qed.

Lemma record_wf_failures r active by_protocol :
  record_wf p r → active ≤ u32_max → map_Forall (λ _ n, n ≤ u32_max) by_protocol →
  record_wf p (set_failures r active (max_counter by_protocol) by_protocol).
Proof. intros [? ? ? (? & ? & ? & ?) ?] ? ?. split; try done. Qed.

Lemma record_wf_push r b :
  record_wf p r → record_wf p (push_passive_result r b p.(outlier_window_size)).
Proof.
  intros Hr. unfold push_passive_result. case_decide; [done|].
  destruct Hr as [? ? ? (? & ? & ? & ?) ?]. split; try done. split_and!; try done.
  simpl. rewrite length_drop, length_app. simpl. lia.
Qed.

Lemma transition_on_failures_wf r force :
  record_wf p r → r.(hr_recovery_successes) = 0 → record_wf p (transition_on_failures r p force).
Proof.
  intros Hr Hrec. unfold transition_on_failures. case_decide as Hs; [done|].
  pose proof Hr as [Hn Hw [Hrem Hwarm] Hc Hre]. rewrite decide_False in Hrem by done.
  destruct (force || _); [|case_decide; [|case_decide; [|exact Hr]]];
    (split; [done | done | split; simpl; try done; lia | done | split; simpl; auto]).
Qed.

Lemma transition_on_success_wf r : record_wf p r → record_wf p (transition_on_success r p).
Proof.
  intros Hr. pose proof Hr as [Hn Hw [Hrem Hwarm] Hc [Hre _]].
  assert (Hcleared : counters_ok p (set_recovery_successes
            (clear_protocol_failure_state (set_failures r 0 0 r.(hr_by_protocol))) 0)).
  { destruct Hc as (_ & Hby & _ & Hwin). split_and!; simpl; try done.
    - apply map_Forall_fmap. by apply map_Forall_lookup_2.
    - by rewrite max_counter_cleared. }
  unfold transition_on_success. unfold weight_ok in Hw.
  destruct (r.(hr_status)) eqn:Hs; [| | |done|]; cbv zeta; simpl in Hrem.
  1, 4: split; [done | unfold weight_ok; simpl; by rewrite Hs
               | split; simpl; rewrite Hs; [done|by auto] | done
               | split; simpl; [by left|done]].
  all: case_decide as Ht; [split; try done; [unfold weight_ok; simpl; by rewrite Hs
         | split; simpl; rewrite Hs; done | split; simpl in *; [by right | by rewrite Hs]]|].
  all: case_decide; (split; [done | | split; simpl; try done; lia | done | split; simpl; [by left|done]]).
  all: unfold weight_ok; simpl; lia.
Qed.

Lemma increment_bounded (m : gmap ProtocolHealthClass N) k :
  map_Forall (λ _ n, n ≤ u32_max) m →
  map_Forall (λ _ n, n ≤ u32_max) (<[k := saturating_add u32_max (default 0 (m !! k)) 1]> m).
Proof. intros Hm. apply map_Forall_insert_2; [unfold saturating_add; lia | done]. Qed.

Lemma apply_signal_record_wf r signal :
  record_wf p r → record_wf p (apply_signal_record r p signal).
Proof.
  intros Hr. pose proof (wf_counters _ _ Hr) as (Ha & Hby & Hp & Hwin).
  destruct signal as [| |k|k]; unfold apply_signal_record; cbv zeta.
  - by apply transition_on_success_wf.
  - apply transition_on_failures_wf; [|done]. apply record_wf_recovery_zero. rewrite Hp.
    apply record_wf_failures; [done | unfold saturating_add; lia | done].
  - apply transition_on_success_wf, record_wf_push.
    apply (record_wf_failures r r.(hr_active_failures)); [done..|].
    by apply map_Forall_insert_2.
  - apply transition_on_failures_wf; [|done]. apply record_wf_recovery_zero, record_wf_push.
    apply (record_wf_failures r r.(hr_active_failures)); [done..|]. by apply increment_bounded.
Qed.

Lemma advance_record_wf r elapsed : record_wf p r → record_wf p (advance_record p elapsed r).
Proof.
  intros Hr. pose proof Hr as [Hn Hw [Hrem Hwarm] Hc [Hre Hre']].
  unfold advance_record. unfold weight_ok in Hw.
  destruct (r.(hr_status)) eqn:Hs; [done|done|done| |]; simpl in Hrem.
  - case_decide; (split; [done | unfold weight_ok; simpl; done | split; simpl; try done; lia | done
      | split; simpl; first [done | auto]]).
  - cbv zeta. case_decide as Hd; simpl in Hd.
    + split; [done | by unfold weight_ok | split; simpl; done | done | split; simpl; first [done | auto]].
    + split; [done | | split; simpl; [done|lia] | done | split; simpl; first [done | auto]].
      unfold weight_ok; simpl. split.
      * unfold warmup_weight. case_decide; lia.
      * intros Hpct. rewrite warmup_weight_eq by lia. unfold slow_start_floor. lia.
Qed.

Lemma apply_signal_capped_wf records name id r signal :
  record_wf p r → record_wf p (apply_signal_capped p records name id r signal).
Proof.
  intros Hr. apply (apply_signal_record_wf _ signal) in Hr. unfold apply_signal_capped. cbv zeta.
  destruct (_ && _); [|done]. destruct Hr as [? ? ? ? []].
  split; try done; split; simpl; try done.
Qed.
End record_invariant.

(** ** Theorems: topology and records *)

Inductive HealthOp :=
| HInsertCluster (c : UpstreamCluster)
| HRemoveCluster (name : string)
| HInsertEndpoint (name : string) (e : UpstreamEndpoint)
| HRemoveEndpoint (name id : string)
| HSetState (name id : string) (state : EndpointState)
| HSignal (name id : string) (signal : HealthSignal)
| HAdvance (elapsed : Duration).

Definition health_op (h : UpstreamHealthRegistry) (o : HealthOp) : UpstreamHealthRegistry :=
  match o with
  | HInsertCluster c => (UpstreamHealthRegistry_insert_cluster h c).1
  | HRemoveCluster name => (UpstreamHealthRegistry_remove_cluster h name).1
  | HInsertEndpoint name e => (UpstreamHealthRegistry_insert_endpoint h name e).1
  | HRemoveEndpoint name id => (UpstreamHealthRegistry_remove_endpoint h name id).1
  | HSetState name id s => (UpstreamHealthRegistry_set_endpoint_state h name id s).1
  | HSignal name id signal => (note_signal h name id signal).1
  | HAdvance elapsed => UpstreamHealthRegistry_advance_time h elapsed
  end.

Definition health_run : UpstreamHealthRegistry → list HealthOp → UpstreamHealthRegistry :=
  foldl health_op.

(** The values that occur in a call have the ranges of their Rust types: weights
    are [u16], and clusters can only be built with distinct, valid endpoints. *)
Definition endpoint_typed (e : UpstreamEndpoint) : Prop := e.(ep_metadata).(weight) ≤ u16_max.

Definition health_op_wf (o : HealthOp) : Prop :=
  match o with
  | HInsertCluster c => cluster_wf c ∧ Forall endpoint_typed c.(endpoints)
  | HInsertEndpoint _ e => endpoint_typed e
  | _ => True
  end.

(** The endpoint the registry holds under a key. *)
Definition registered (r : EndpointRegistry) (k : EndpointKey) : option UpstreamEndpoint :=
  directory r !! k.1 ≫= (.!! k.2).

(** A record tracks an endpoint: it is well-formed and has the endpoint's weight. *)
Definition tracks (p : EndpointHealthPolicy) (e : UpstreamEndpoint) (r : EndpointHealthRecord) :
    Prop := record_wf p r ∧ r.(hr_nominal_weight) = e.(ep_metadata).(weight).

Record health_inv (h : UpstreamHealthRegistry) : Prop := {
  inv_registry : registry_wf h.(uh_registry);
  inv_tracked : ∀ k, option_Forall2 (tracks h.(uh_policy)) (registered h.(uh_registry) k)
                                    (h.(uh_records) !! k);
  inv_events : (length h.(uh_events) ≤ MAX_HEALTH_EVENTS)%nat
}.

Lemma push_event_fields h kind c i d :
  let h' := push_event h kind c i d in
  h'.(uh_registry) = h.(uh_registry) ∧ h'.(uh_policy) = h.(uh_policy) ∧
  h'.(uh_records) = h.(uh_records) ∧
  (length h.(uh_events) ≤ MAX_HEALTH_EVENTS → length h'.(uh_events) ≤ MAX_HEALTH_EVENTS)%nat.
Proof.
  split_and!; try done. apply length_push_bounded. unfold MAX_HEALTH_EVENTS. lia.
Qed.

Lemma push_event_inv h kind c i d : health_inv h → health_inv (push_event h kind c i d).
Proof. intros [? ? He]. split; [done..|]. by apply push_event_fields. Qed.

Lemma push_events_inv {A} (f : UpstreamHealthRegistry → A → UpstreamHealthRegistry) l :
  (∀ h x, ∃ kind c i d, f h x = push_event h kind c i d) →
  ∀ h, health_inv h → health_inv (foldl f h l).
Proof.
  intros Hf. induction l as [|x l IH]; intros h Hh; simpl; [done|]. apply IH.
  destruct (Hf h x) as (? & ? & ? & ? & ->). by apply push_event_inv.
Qed.

Lemma set_metrics_inv h m : health_inv h → health_inv (set_metrics h m).
Proof. by intros [? ? ?]. Qed.

(** Replacing a tracked record by a well-formed one of the same weight. *)
Lemma update_record_inv h k r r' :
  health_inv h → h.(uh_records) !! k = Some r → record_wf h.(uh_policy) r' →
  r'.(hr_nominal_weight) = r.(hr_nominal_weight) →
  health_inv (set_records h (<[k := r']> h.(uh_records))).
Proof.
  intros [Hreg Htr Hev] Hk Hwf Hn. split; [done| |done]. intros k'. simpl.
  specialize (Htr k'). destruct (decide (k = k')) as [<-|]; [|by rewrite lookup_insert_ne].
  rewrite lookup_insert_eq. rewrite Hk in Htr. inversion Htr as [e ? [_ He] Hr|]; subst.
  constructor. split; [done|]. congruence.
Qed.

Lemma transition_on_failures_nominal r p f :
  (transition_on_failures r p f).(hr_nominal_weight) = r.(hr_nominal_weight).
Proof. unfold transition_on_failures. by repeat case_match. Qed.

Lemma transition_on_success_nominal r p :
  (transition_on_success r p).(hr_nominal_weight) = r.(hr_nominal_weight).
Proof. unfold transition_on_success. by repeat case_match. Qed.

Lemma push_passive_result_nominal r b n :
  (push_passive_result r b n).(hr_nominal_weight) = r.(hr_nominal_weight).
Proof. unfold push_passive_result. by case_match. Qed.

Lemma apply_signal_capped_nominal p rs n i r s :
  (apply_signal_capped p rs n i r s).(hr_nominal_weight) = r.(hr_nominal_weight).
Proof.
  assert (H : (apply_signal_record r p s).(hr_nominal_weight) = r.(hr_nominal_weight)).
  { destruct s; unfold apply_signal_record; cbv zeta;
      by rewrite ?transition_on_failures_nominal, ?transition_on_success_nominal; simpl;
         rewrite ?push_passive_result_nominal. }
  unfold apply_signal_capped. by case_match.
Qed.

Lemma advance_record_nominal p t r :
  (advance_record p t r).(hr_nominal_weight) = r.(hr_nominal_weight).
Proof. unfold advance_record. by repeat case_match. Qed.

Lemma apply_signal_inv h name id signal :
  health_inv h → health_inv (apply_signal h name id signal).1.
Proof.
  intros Hh. unfold apply_signal. destruct (h.(uh_records) !! (name, id)) as [r|] eqn:Hk; [|done].
  cbv zeta. simpl.
  assert (Hr : record_wf h.(uh_policy) r).
  { pose proof (inv_tracked _ Hh (name, id)) as Htr. rewrite Hk in Htr.
    inversion Htr as [? ? []|]; by subst. }
  assert (Hu : health_inv (set_metrics (set_records h (<[(name, id) := apply_signal_capped
    h.(uh_policy) h.(uh_records) name id r signal]> h.(uh_records)))
    (count_transition h.(uh_metrics) r.(hr_status) (apply_signal_capped h.(uh_policy)
      h.(uh_records) name id r signal).(hr_status)))).
  { apply set_metrics_inv. eapply update_record_inv; [done|done| |].
    - by apply apply_signal_capped_wf.
    - apply apply_signal_capped_nominal. }
  case_decide; [done|]. destruct (event_for_transition _ _). by apply push_event_inv.
Qed.

Lemma advance_time_inv h elapsed :
  health_inv h → health_inv (UpstreamHealthRegistry_advance_time h elapsed).
Proof.
  intros Hh. unfold UpstreamHealthRegistry_advance_time. case_decide; [done|]. cbv zeta.
  assert (Hadv : health_inv (set_records h (advance_record h.(uh_policy) elapsed <$> h.(uh_records)))).
  { destruct Hh as [? Htr ?]. split; [done| |done]. intros k. simpl. specialize (Htr k).
    rewrite lookup_fmap. inversion Htr as [e r [Hwf Hn]|]; simpl; constructor.
    split; [by apply advance_record_wf|]. by rewrite advance_record_nominal. }
  apply push_events_inv; [by intros; eexists _, _, _, _|].
  apply push_events_inv; [by intros; eexists _, _, _, _|].
  case_decide; [done|]. by apply set_metrics_inv.
Qed.

(** *** Topology changes *)

Lemma set_registry_inv h r :
  health_inv h → registry_wf r → directory r = directory h.(uh_registry) →
  health_inv (set_registry h r).
Proof.
  intros [? Htr ?] Hwf Hd. split; [done| |done]. intros k. simpl. unfold registered. rewrite Hd.
  apply Htr.
Qed.

Lemma admit_endpoint_fields name h e :
  let h' := admit_endpoint name h e in
  h'.(uh_registry) = h.(uh_registry) ∧ h'.(uh_policy) = h.(uh_policy) ∧
  h'.(uh_records) = <[(name, e.(ep_id)) := EndpointHealthRecord_new e h.(uh_policy)]> h.(uh_records) ∧
  (length h.(uh_events) ≤ MAX_HEALTH_EVENTS → length h'.(uh_events) ≤ MAX_HEALTH_EVENTS)%nat.
Proof.
  unfold admit_endpoint. cbv zeta.
  destruct (hr_status _); split_and!; try done. apply push_event_fields.
Qed.

Lemma admit_endpoints_fields name eps : ∀ h,
  let h' := foldl (admit_endpoint name) h eps in
  h'.(uh_registry) = h.(uh_registry) ∧ h'.(uh_policy) = h.(uh_policy) ∧
  (length h.(uh_events) ≤ MAX_HEALTH_EVENTS → length h'.(uh_events) ≤ MAX_HEALTH_EVENTS)%nat ∧
  (NoDup (ids eps) → ∀ k, h'.(uh_records) !! k =
     match (if decide (k.1 = name) then find_endpoint k.2 eps else None) with
     | Some e => Some (EndpointHealthRecord_new e h.(uh_policy))
     | None => h.(uh_records) !! k
     end).
Proof.
  induction eps as [|e eps IH]; intros h; simpl.
  { split_and!; try done. intros _ k. by case_decide. }
  destruct (admit_endpoint_fields name h e) as (Hr & Hp & Hrec & Hev).
  destruct (IH (admit_endpoint name h e)) as (Hr' & Hp' & Hev' & Hrec').
  rewrite Hr', Hp', Hr, Hp. split_and!; [done | done | tauto |].
  intros [Hni Hnd]%NoDup_cons [n i]. rewrite Hrec', Hp, Hrec by done. simpl.
  destruct (decide (n = name)) as [->|]; simpl; [|by rewrite lookup_insert_ne by congruence].
  destruct (decide (e.(ep_id) = i)) as [<-|].
  - rewrite (proj2 (find_endpoint_None _ _) Hni). by rewrite lookup_insert_eq.
  - by rewrite lookup_insert_ne by congruence.
Qed.

Lemma typed_tracks p e :
  UpstreamEndpoint_validate e = Ok tt → endpoint_typed e → tracks p e (EndpointHealthRecord_new e p).
Proof.
  intros Hv Ht. split.
  - apply EndpointHealthRecord_new_wf. split; [|done].
    unfold UpstreamEndpoint_validate, EndpointMetadata_validate in Hv.
    repeat case_match; simplify_eq; lia.
  - unfold EndpointHealthRecord_new. by case_match.
Qed.

Lemma registered_None_cluster r name i : directory r !! name = None → registered r (name, i) = None.
Proof. intros H. unfold registered. simpl. by rewrite H. Qed.

Lemma insert_cluster_inv h c :
  health_inv h → cluster_wf c → Forall endpoint_typed c.(endpoints) →
  health_inv (UpstreamHealthRegistry_insert_cluster h c).1.
Proof.
  intros Hh Hc Ht. pose proof Hh as [Hwf Htr Hev].
  destruct (registry_op_refines h.(uh_registry) (RInsertCluster c) Hwf Hc) as (Hwf' & Hd & Hok).
  unfold UpstreamHealthRegistry_insert_cluster. simpl in *.
  destruct (EndpointRegistry_insert_cluster h.(uh_registry) c) as [r res]. simpl in *.
  destruct (directory h.(uh_registry) !! c.(cluster_name)) eqn:Hn; simpl in *;
    (destruct res; [|]); try done; simpl; [by apply set_registry_inv|].
  destruct (admit_endpoints_fields c.(cluster_name) c.(endpoints) (set_registry h r))
    as (Hr & Hp & He & Hrec). destruct Hc as [Hnd Hv].
  split; [by rewrite Hr | | by apply He].
  intros [n i]. rewrite Hr, Hp, Hrec by done. simpl. unfold registered. simpl. rewrite Hd.
  destruct (decide (n = c.(cluster_name))) as [->|].
  - rewrite lookup_insert_eq. simpl. unfold cluster_view. rewrite <- find_endpoint_view.
    destruct (find_endpoint i c.(endpoints)) as [e|] eqn:Hf.
    + apply find_endpoint_Some in Hf as [Hin _]. rewrite Forall_forall in Hv, Ht.
      constructor. apply typed_tracks; auto.
    + specialize (Htr (c.(cluster_name), i)). rewrite registered_None_cluster in Htr by done.
      inversion Htr. constructor.
  - rewrite lookup_insert_ne by done. apply (Htr (n, i)).
Qed.

Lemma remove_cluster_inv h name :
  health_inv h → health_inv (UpstreamHealthRegistry_remove_cluster h name).1.
Proof.
  intros Hh. pose proof Hh as [Hwf Htr Hev].
  destruct (registry_op_refines h.(uh_registry) (RRemoveCluster name) Hwf I) as (Hwf' & Hd & _).
  unfold UpstreamHealthRegistry_remove_cluster. simpl in *. rewrite directory_lookup in Hd.
  destruct (h.(uh_registry).(clusters) !! name) as [c|] eqn:Hn; simpl in *;
    [|by apply set_registry_inv].
  split; [done| |done]. intros [n i]. simpl. unfold registered. simpl. rewrite Hd.
  rewrite map_lookup_filter. specialize (Htr (n, i)). unfold registered in Htr. simpl in Htr.
  destruct (decide (n = name)) as [->|].
  - rewrite lookup_delete_eq. simpl.
    destruct (h.(uh_records) !! (name, i)); simpl; [|constructor].
    rewrite option_guard_False by (simpl; tauto). constructor.
  - rewrite lookup_delete_ne by done.
    destruct (h.(uh_records) !! (n, i)); simpl; [|done]. by rewrite option_guard_True.
Qed.

Lemma insert_endpoint_inv h name e :
  health_inv h → endpoint_typed e → health_inv (UpstreamHealthRegistry_insert_endpoint h name e).1.
Proof.
  intros Hh Ht. pose proof Hh as [Hwf Htr Hev].
  destruct (registry_op_refines h.(uh_registry) (RInsertEndpoint name e) Hwf I) as (Hwf' & Hd & Hok).
  unfold UpstreamHealthRegistry_insert_endpoint. simpl in Hwf', Hd, Hok.
  destruct (EndpointRegistry_insert_endpoint h.(uh_registry) name e) as [r res]. simpl in *.
  destruct (directory h.(uh_registry) !! name) as [v|] eqn:Hn; simpl in *;
    [|by destruct res; [|apply set_registry_inv]].
  case_decide as Hv; simpl in *; (destruct res; [|]); try done; simpl; [|by apply set_registry_inv].
  destruct (admit_endpoint_fields name (set_registry h r) e) as (Hr & Hp & Hrec & He).
  split; [by rewrite Hr | | by apply He].
  intros [n i]. rewrite Hr, Hp, Hrec. simpl. specialize (Htr (n, i)).
  unfold registered in *. simpl in *. rewrite Hd.
  destruct (decide (n = name)) as [->|]; [|by rewrite !lookup_insert_ne by congruence].
  rewrite lookup_insert_eq. simpl. rewrite Hn in Htr. simpl in Htr.
  destruct (decide (e.(ep_id) = i)) as [<-|]; [|by rewrite !lookup_insert_ne by congruence].
  rewrite !lookup_insert_eq. constructor. apply typed_tracks; [apply Hv | done].
Qed.

Lemma remove_endpoint_inv h name id :
  health_inv h → health_inv (UpstreamHealthRegistry_remove_endpoint h name id).1.
Proof.
  intros Hh. pose proof Hh as [Hwf Htr Hev].
  destruct (registry_op_refines h.(uh_registry) (RRemoveEndpoint name id) Hwf I) as (Hwf' & Hd & Hok).
  unfold UpstreamHealthRegistry_remove_endpoint. simpl in Hwf', Hd, Hok.
  destruct (EndpointRegistry_remove_endpoint h.(uh_registry) name id) as [r res]. simpl in *.
  destruct (directory h.(uh_registry) !! name) as [v|] eqn:Hn; simpl in *;
    [|by destruct res; [|apply set_registry_inv]].
  destruct (v !! id) as [e|] eqn:Hid; simpl in *; (destruct res; [|]); try done; simpl;
    [|by apply set_registry_inv].
  split; [done| |done]. intros [n i]. simpl. specialize (Htr (n, i)).
  unfold registered in *. simpl in *. rewrite Hd.
  destruct (decide (n = name)) as [->|];
    [|by rewrite lookup_insert_ne, lookup_delete_ne by congruence].
  rewrite lookup_insert_eq. simpl. rewrite Hn in Htr. simpl in Htr.
  destruct (decide (id = i)) as [<-|]; [rewrite !lookup_delete_eq; constructor|].
  by rewrite !lookup_delete_ne by congruence.
Qed.

Lemma set_endpoint_state_inv h name id s :
  health_inv h → health_inv (UpstreamHealthRegistry_set_endpoint_state h name id s).1.
Proof.
  intros Hh. pose proof Hh as [Hwf Htr Hev].
  destruct (registry_op_refines h.(uh_registry) (RSetState name id s) Hwf I) as (Hwf' & Hd & _).
  unfold UpstreamHealthRegistry_set_endpoint_state. simpl in Hwf', Hd.
  destruct (EndpointRegistry_set_endpoint_state h.(uh_registry) name id s) as [r res]. simpl in *.
  destruct (directory h.(uh_registry) !! name) as [v|] eqn:Hn; simpl in *;
    [|by apply set_registry_inv].
  destruct (v !! id) as [e|] eqn:Hid; simpl in *; [|by apply set_registry_inv].
  case_decide; simpl in *; [by apply set_registry_inv|].
  split; [done| |done]. intros [n i]. simpl. specialize (Htr (n, i)).
  unfold registered in *. simpl in *. rewrite Hd.
  destruct (decide (n = name)) as [->|]; [|by rewrite lookup_insert_ne by congruence].
  rewrite lookup_insert_eq. simpl. rewrite Hn in Htr. simpl in Htr.
  destruct (decide (id = i)) as [<-|]; [|by rewrite lookup_insert_ne by congruence].
  rewrite lookup_insert_eq. rewrite Hid in Htr. by inversion Htr; constructor.
Qed.

#[export] Hint Resolve insert_cluster_inv remove_cluster_inv insert_endpoint_inv remove_endpoint_inv
  set_endpoint_state_inv apply_signal_inv set_metrics_inv advance_time_inv : wb.

Lemma health_op_inv h o : health_inv h → health_op_wf o → health_inv (health_op h o).
Proof. intros Hh Ho. destruct o; simpl in *; unfold note_signal; intuition eauto with wb. Qed.

Lemma health_new_inv p : health_inv (UpstreamHealthRegistry_new p).
Proof.
  split; [apply registry_wf_new | | simpl; lia].
  intros k. unfold registered. simpl. rewrite !lookup_empty. constructor.
Qed.

Lemma health_run_inv ops : ∀ h,
  health_inv h → Forall health_op_wf ops → health_inv (health_run h ops).
Proof.
  induction ops as [|o ops IH]; intros h Hh Hops; [done|].
  apply Forall_cons in Hops as [Ho Hops]. apply IH; [|done]. by apply health_op_inv.
Qed.
#[export] Hint Resolve health_op_inv health_new_inv health_run_inv : wb.

Lemma push_events_policy {A} (f : UpstreamHealthRegistry → A → UpstreamHealthRegistry) l :
  (∀ h x, (f h x).(uh_policy) = h.(uh_policy)) →
  ∀ h, (foldl f h l).(uh_policy) = h.(uh_policy).
Proof. intros Hf. induction l as [|x l IH]; intros h; simpl; [done|]. by rewrite IH. Qed.

Lemma health_op_policy h o : (health_op h o).(uh_policy) = h.(uh_policy).
Proof.
  destruct o; simpl.
  - unfold UpstreamHealthRegistry_insert_cluster.
    destruct (EndpointRegistry_insert_cluster _ _) as [? []]; simpl; [|done].
    by apply (admit_endpoints_fields _ _ (set_registry h _)).
  - unfold UpstreamHealthRegistry_remove_cluster.
    by destruct (EndpointRegistry_remove_cluster _ _) as [? []].
  - unfold UpstreamHealthRegistry_insert_endpoint.
    destruct (EndpointRegistry_insert_endpoint _ _ _) as [? []]; simpl; [|done].
    by apply (admit_endpoint_fields _ (set_registry h _)).
  - unfold UpstreamHealthRegistry_remove_endpoint.
    by destruct (EndpointRegistry_remove_endpoint _ _ _) as [? []].
  - unfold UpstreamHealthRegistry_set_endpoint_state.
    by destruct (EndpointRegistry_set_endpoint_state _ _ _ _) as [? []].
  - unfold note_signal, apply_signal. simpl. case_match; [|done].
    cbv zeta. case_decide; [done|]. by destruct (event_for_transition _ _).
  - unfold UpstreamHealthRegistry_advance_time. case_decide; [done|]. cbv zeta.
    rewrite !push_events_policy by done. by case_decide.
Qed.

Lemma health_run_policy ops : ∀ h, (health_run h ops).(uh_policy) = h.(uh_policy).
Proof.
  induction ops as [|o ops IH]; intros h; simpl; [done|].
  change (health_run h (o :: ops)) with (health_run (health_op h o) ops).
  by rewrite IH, health_op_policy.
Qed.

Section consistent_views.
Variable h : UpstreamHealthRegistry.
Hypothesis Hh : health_inv h.

Lemma cluster_endpoint_tracked name c e :
  EndpointRegistry_cluster h.(uh_registry) name = Some c → e ∈ c.(endpoints) →
  ∃ r, h.(uh_records) !! (name, e.(ep_id)) = Some r ∧ tracks h.(uh_policy) e r.
Proof.
  intros Hc He. pose proof (inv_registry _ Hh name c Hc) as [_ [Hnd _]].
  pose proof (inv_tracked _ Hh (name, e.(ep_id))) as Htr.
  assert (Hreg : registered h.(uh_registry) (name, e.(ep_id)) = Some e).
  { unfold registered. simpl. rewrite directory_lookup.
    unfold EndpointRegistry_cluster in Hc. rewrite Hc. simpl.
    apply elem_of_list_to_map; [by rewrite <- list_fmap_compose|].
    apply list_elem_of_fmap. eauto. }
  rewrite Hreg in Htr. inversion Htr; subst; eauto.
Qed.

Lemma count_available_ok name c eps n :
  EndpointRegistry_cluster h.(uh_registry) name = Some c → eps ⊆ c.(endpoints) →
  is_ok (count_available name h.(uh_records) eps n) = true.
Proof.
  intros Hc. revert n. induction eps as [|e eps IH]; intros n Hsub; simpl; [done|].
  destruct (cluster_endpoint_tracked name c e Hc) as (r & -> & _); [apply Hsub; left|].
  apply IH. intros x Hx. apply Hsub. by right.
Qed.

(** The candidate an endpoint gives, if it is eligible. *)
Definition candidate (name : string) (e : UpstreamEndpoint) (r : EndpointHealthRecord) :
    EndpointSelectionCandidate :=
  {| sc_cluster_name := name; sc_endpoint_id := e.(ep_id); sc_address := e.(ep_address);
     sc_metadata := e.(ep_metadata);
     sc_health := EndpointHealthRecord_snapshot r h.(uh_policy) |}.

Lemma collect_candidates_ok name inc c eps :
  EndpointRegistry_cluster h.(uh_registry) name = Some c → eps ⊆ c.(endpoints) →
  ∃ l, collect_candidates name inc h.(uh_policy) h.(uh_records) eps = Ok l ∧
       (sc_endpoint_id <$> l) `sublist_of` ids eps ∧
       ∀ x, x ∈ l ↔ ∃ e r, e ∈ eps ∧ h.(uh_records) !! (name, e.(ep_id)) = Some r ∧
              EndpointState_is_ready e.(ep_state) = true ∧
              selection_allowed inc r.(hr_status) = true ∧ x = candidate name e r.
Proof.
  intros Hc. induction eps as [|e eps IH]; intros Hsub; simpl.
  { exists []. split_and!; [done..|]. intros x. rewrite elem_of_nil.
    split; [done|]. intros (? & ? & []%elem_of_nil & _). }
  destruct (cluster_endpoint_tracked name c e Hc) as (r & Hr & _); [apply Hsub; left|].
  destruct IH as (l & -> & Hl & Hx); [intros x Hx; apply Hsub; by right|].
  setoid_rewrite elem_of_cons. destruct (EndpointState_is_ready e.(ep_state)) eqn:Hready; simpl.
  - rewrite Hr. destruct (selection_allowed inc r.(hr_status)) eqn:Hall; simpl.
    + eexists. split_and!; [done | by apply sublist_skip |].
      intros x. rewrite elem_of_cons, Hx. split.
      * intros [->|(e' & r' & He' & ?)]; [exists e, r | exists e', r']; naive_solver.
      * intros (e' & r' & [->|He'] & Hr' & ?); [left|right; eauto]. naive_solver.
    + exists l. split_and!; [done | by apply sublist_cons |].
      intros x. rewrite Hx. split; [naive_solver|].
      intros (e' & r' & [->|He'] & Hr' & ?); [|by eauto 10]. destruct_and!; congruence.
  - exists l. split_and!; [done | by apply sublist_cons |].
    intros x. rewrite Hx. split; [naive_solver|].
    intros (e' & r' & [->|He'] & Hr' & ?); [|by eauto 10]. destruct_and!; congruence.
Qed.

Lemma selection_candidates_ok name inc c :
  EndpointRegistry_cluster h.(uh_registry) name = Some c →
  ∃ l, UpstreamHealthRegistry_selection_candidates h name inc = Ok l ∧
       StronglySorted (λ x y, str_lt x.(sc_endpoint_id) y.(sc_endpoint_id)) l ∧
       ∀ x, x ∈ l ↔ ∃ e r, e ∈ c.(endpoints) ∧ h.(uh_records) !! (name, e.(ep_id)) = Some r ∧
              EndpointState_is_ready e.(ep_state) = true ∧
              selection_allowed inc r.(hr_status) = true ∧ x = candidate name e r.
Proof.
  intros Hc. unfold UpstreamHealthRegistry_selection_candidates. rewrite Hc.
  destruct (collect_candidates_ok name inc c c.(endpoints) Hc) as (l & -> & Hsub & Hl); [done|].
  pose proof (inv_registry _ Hh name c Hc) as [_ [Hnd _]].
  eexists. split; [done|]. split; [|intros x; by rewrite elem_of_sort_by].
  apply (sorted_nodup_strict sc_endpoint_id String.compare); [apply sort_by_sorted, _|].
  rewrite (sort_by_perm sc_endpoint_id String.compare l). by eapply sublist_NoDup.
Qed.
End consistent_views.

(** C5: topology and health never diverge: after any sequence of calls on a new
    registry, the tracked keys are exactly the registered endpoints, every record is
    well-formed (weights, timers and counters within the bounds its status
    prescribes), the event log is bounded, and no query returns [InconsistentState]. *)
Theorem health_registry_consistent (p : EndpointHealthPolicy) (ops : list HealthOp)
  (Hops : Forall health_op_wf ops) :
  let h := health_run (UpstreamHealthRegistry_new p) ops in
  (∀ k, is_Some (h.(uh_records) !! k) ↔ is_Some (registered h.(uh_registry) k)) ∧
  map_Forall (λ _ r, record_wf p r) h.(uh_records) ∧
  (length (UpstreamHealthRegistry_recent_events h) ≤ MAX_HEALTH_EVENTS)%nat ∧
  (∀ name id inc c e,
     UpstreamHealthRegistry_cluster_state h name ≠ Err (InconsistentState c e) ∧
     UpstreamHealthRegistry_endpoint_health h name id ≠ Err (InconsistentState c e) ∧
     UpstreamHealthRegistry_selection_candidates h name inc ≠ Err (InconsistentState c e)).
Proof.
  cbv zeta. set (h := health_run (UpstreamHealthRegistry_new p) ops).
  assert (Hh : health_inv h) by (apply health_run_inv; [apply health_new_inv | done]).
  assert (Hp : h.(uh_policy) = p) by apply health_run_policy.
  pose proof Hh as [Hwf Htr Hev]. split_and!; [| |done|].
  - intros k. destruct (Htr k); rewrite <- ?not_eq_None_Some; naive_solver.
  - intros k r Hk. specialize (Htr k). rewrite Hk, Hp in Htr. by inversion_clear Htr as [? ? []|].
  - intros name id inc c0 e0.
    unfold UpstreamHealthRegistry_cluster_state, UpstreamHealthRegistry_endpoint_health.
    destruct (EndpointRegistry_cluster h.(uh_registry) name) as [c|] eqn:Hc.
    2: { unfold UpstreamHealthRegistry_selection_candidates. by rewrite Hc. }
    destruct (selection_candidates_ok h Hh name inc c Hc) as (l & -> & _).
    pose proof (count_available_ok h Hh name c c.(endpoints) 0 Hc ltac:(done)) as Hcount.
    split_and!; [| |done].
    + case_decide; [done|]. destruct (count_available _ _ _ _); [|done]. by case_decide.
    + destruct (UpstreamCluster_endpoint c id) as [e|] eqn:He; [|done].
      apply find_endpoint_Some in He as [Hin <-].
      by destruct (cluster_endpoint_tracked h Hh name c e Hc Hin) as (r & -> & _).
Qed.

Definition example_payments : UpstreamCluster :=
  {| cluster_name := "payments";
     endpoints := [example_endpoint "b" 8081; example_endpoint "a" 8080] |}.

Definition example_ops : list HealthOp :=
  [HInsertCluster example_payments;
   HAdvance (from_secs 20);
   HSignal "payments" "a" ActiveFailure; HSignal "payments" "a" ActiveFailure].

Lemma example_ops_wf : Forall health_op_wf example_ops.
Proof.
  unfold example_ops. repeat (apply Forall_cons; split; [|]); try done.
  split; [split|]; simpl.
  - apply NoDup_cons. split; [|apply NoDup_singleton]. by intros ?%list_elem_of_singleton.
  - by repeat constructor.
  - by repeat constructor.
Qed.

Lemma health_registry_consistent_witness :
  (length (UpstreamHealthRegistry_recent_events
     (health_run (UpstreamHealthRegistry_new EndpointHealthPolicy_default) example_ops))
   ≤ MAX_HEALTH_EVENTS)%nat.
Proof.
  apply (health_registry_consistent EndpointHealthPolicy_default example_ops), example_ops_wf.
Defined.

(** [selection_candidates] returns exactly the eligible endpoints: for a
    registered cluster of any reachable registry it succeeds with a list strictly
    sorted by endpoint id, whose members are the ready endpoints of the cluster that
    are available (or unhealthy, when asked for) with their current health, and never
    an ejected endpoint; an unknown cluster gives [ClusterNotFound]. *)
Theorem selection_candidates_spec (p : EndpointHealthPolicy) (ops : list HealthOp)
  (name : string) (inc : bool) (Hops : Forall health_op_wf ops) :
  let h := health_run (UpstreamHealthRegistry_new p) ops in
  match EndpointRegistry_cluster h.(uh_registry) name with
  | None => UpstreamHealthRegistry_selection_candidates h name inc =
              Err (Registry (ClusterNotFound name))
  | Some c =>
      ∃ l, UpstreamHealthRegistry_selection_candidates h name inc = Ok l ∧
        StronglySorted (λ x y, str_lt x.(sc_endpoint_id) y.(sc_endpoint_id)) l ∧
        (∀ x, x ∈ l ↔ ∃ e r, e ∈ c.(endpoints) ∧ h.(uh_records) !! (name, e.(ep_id)) = Some r ∧
           e.(ep_state) = EndpointState_Ready ∧
           (is_available r.(hr_status) = true ∨ inc = true ∧ r.(hr_status) = Unhealthy) ∧
           x = candidate h name e r) ∧
        (∀ x, x ∈ l → x.(sc_health).(hs_status) ≠ Ejected)
  end.
Proof.
  cbv zeta. set (h := health_run (UpstreamHealthRegistry_new p) ops).
  assert (Hh : health_inv h) by (apply health_run_inv; [apply health_new_inv | done]).
  destruct (EndpointRegistry_cluster h.(uh_registry) name) as [c|] eqn:Hc.
  2: { unfold UpstreamHealthRegistry_selection_candidates. by rewrite Hc. }
  destruct (selection_candidates_ok h Hh name inc c Hc) as (l & Hl & Hsort & Hx).
  exists l. split_and!; [done..| |].
  - intros x. rewrite Hx. unfold selection_allowed.
    setoid_rewrite orb_true_iff. setoid_rewrite andb_true_iff. setoid_rewrite bool_decide_eq_true.
    assert (Hready : ∀ s, EndpointState_is_ready s = true ↔ s = EndpointState_Ready) by (by intros []).
    by setoid_rewrite Hready.
  - intros x (e & r & _ & _ & _ & Hall & ->)%Hx Hs. simpl in Hs. rewrite Hs in Hall.
    unfold selection_allowed in Hall. simpl in Hall. by rewrite andb_false_r in Hall.
Qed.

Lemma selection_candidates_spec_witness :
  let h := health_run (UpstreamHealthRegistry_new EndpointHealthPolicy_default) example_ops in
  ∃ l, UpstreamHealthRegistry_selection_candidates h "payments" false = Ok l ∧
       ∀ x, x ∈ l → x.(sc_health).(hs_status) ≠ Ejected.
Proof.
  pose proof (selection_candidates_spec EndpointHealthPolicy_default example_ops "payments" false
    example_ops_wf) as H.
  cbv zeta in H |- *.
  assert (Hc : EndpointRegistry_cluster (health_run (UpstreamHealthRegistry_new
    EndpointHealthPolicy_default) example_ops).(uh_registry) "payments" = Some example_payments)
    by (vm_compute; reflexivity).
  rewrite Hc in H. destruct H as (l & Hl & _ & _ & He). exists l. split; [exact Hl | exact He].
Defined.

(** ** Theorems: ejection budget *)

Section count_entries.
Context (P : EndpointKey * EndpointHealthRecord → Prop) `{!∀ x, Decision (P x)}.
Local Abbreviation count m := (size (filter P (m : Records))).
Local Abbreviation one kr := (if decide (P kr) then 1%nat else 0%nat).

Lemma count_insert (m : Records) k r :
  count (<[k := r]> m) = (one (k, r) + count (delete k m))%nat.
Proof.
  rewrite map_filter_insert. case_decide; [|done].
  rewrite <- insert_delete_eq, map_size_insert_None, <- map_filter_delete by apply lookup_delete_eq.
  lia.
Qed.

Lemma count_lookup (m : Records) k r :
  m !! k = Some r → count m = (one (k, r) + count (delete k m))%nat.
Proof.
  intros Hk. rewrite <- (insert_delete_id m k r Hk) at 1.
  by rewrite count_insert, delete_delete_eq.
Qed.

Lemma count_absent (m : Records) k : m !! k = None → count m = count (delete k m).
Proof. intros Hk. by rewrite delete_id. Qed.
End count_entries.

Definition in_cluster (name : string) (kr : EndpointKey * EndpointHealthRecord) : Prop :=
  kr.1.1 = name.
#[export] Instance in_cluster_dec name kr : Decision (in_cluster name kr).
Proof. unfold in_cluster. apply _. Defined.

Definition ejected_in (name : string) (kr : EndpointKey * EndpointHealthRecord) : Prop :=
  kr.2.(hr_status) = Ejected ∧ kr.1.1 = name.
#[export] Instance ejected_in_dec name kr : Decision (ejected_in name kr).
Proof. unfold ejected_in. apply _. Defined.

Definition total_count (records : Records) (name : string) : N :=
  N.of_nat (size (filter (in_cluster name) records)).
Definition ejected_count (records : Records) (name : string) : N :=
  N.of_nat (size (filter (ejected_in name) records)).

Lemma ejected_count_eq (records : Records) name :
  count_status (filter (λ kr, kr.1.1 = name) records) Ejected = ejected_count records name.
Proof. unfold count_status, ejected_count. by rewrite map_filter_filter. Qed.

(** At most the rounded-up share of every cluster is ejected. *)
Definition budget_ok (p : EndpointHealthPolicy) (records : Records) : Prop :=
  ∀ name, 100 * ejected_count records name ≤
          total_count records name * p.(cluster_ejection_budget_percent) + 99.

Lemma can_apply_budget p records name id r :
  p.(cluster_ejection_budget_percent) < 100 →
  records !! (name, id) = Some r → r.(hr_status) = Ejected →
  can_apply_ejection_budget records name id p = true →
  100 * ejected_count records name ≤
    total_count records name * p.(cluster_ejection_budget_percent) + 99.
Proof.
  intros Hp Hk Hs. unfold can_apply_ejection_budget. rewrite decide_False by lia. cbv zeta.
  rewrite Hk, Hs, bool_decide_true by done. rewrite ejected_count_eq.
  change (N.of_nat (size (filter _ records))) with (total_count records name).
  case_decide; [done|]. case_decide; [done|]. rewrite bool_decide_eq_true. intros Hle.
  unfold saturating_add, saturating_mul in Hle.
  set (pct := p.(cluster_ejection_budget_percent)) in *.
  assert (Hallowed : N.min u64_max (N.min u64_max (N.min u64_max (total_count records name) * pct)
            + 99) / 100 ≤ (total_count records name * pct + 99) / 100).
  { apply N.Div0.div_le_mono. etransitivity; [apply N.le_min_r|]. apply N.add_le_mono_r.
    etransitivity; [apply N.le_min_r|]. apply N.mul_le_mono_r, N.le_min_r. }
  unfold u64_max in *. lia.
Qed.

Lemma budget_ok_insert_other p records k r :
  r.(hr_status) ≠ Ejected → budget_ok p records → budget_ok p (<[k := r]> records).
Proof.
  intros Hs Hb name. specialize (Hb name). unfold ejected_count, total_count in *.
  rewrite !count_insert. rewrite (decide_False (P := ejected_in name (k, r))) by (intros [? _]; done).
  destruct (records !! k) as [r0|] eqn:Hk.
  - rewrite !(count_lookup _ records k r0 Hk) in Hb.
    unfold in_cluster in *. simpl in *. repeat case_decide; try done; nia.
  - rewrite !(count_absent _ records k Hk) in Hb. repeat case_decide; nia.
Qed.

Lemma budget_ok_insert_ejected p records k r r0 :
  records !! k = Some r0 → r0.(hr_status) = Ejected → budget_ok p records →
  budget_ok p (<[k := r]> records).
Proof.
  intros Hk Hs Hb name. specialize (Hb name). unfold ejected_count, total_count in *.
  rewrite !count_insert. rewrite !(count_lookup _ records k r0 Hk) in Hb.
  unfold in_cluster, ejected_in in *. simpl in *. repeat case_decide; try naive_solver; nia.
Qed.

Lemma budget_ok_insert_checked p records name id r r0 :
  p.(cluster_ejection_budget_percent) < 100 → records !! (name, id) = Some r0 →
  r.(hr_status) = Ejected →
  can_apply_ejection_budget (<[(name, id) := r]> records) name id p = true →
  budget_ok p records → budget_ok p (<[(name, id) := r]> records).
Proof.
  intros Hp Hk Hs Hc Hb name'. destruct (decide (name' = name)) as [->|Hne].
  { eapply can_apply_budget; [done | apply lookup_insert_eq | done | done]. }
  specialize (Hb name'). unfold ejected_count, total_count in *. rewrite !count_insert.
  rewrite !(count_lookup _ records (name, id) r0 Hk) in Hb.
  unfold in_cluster, ejected_in in *. simpl in *. repeat case_decide; naive_solver.
Qed.

Lemma apply_signal_budget p records name id r signal :
  p.(cluster_ejection_budget_percent) < 100 → records !! (name, id) = Some r →
  budget_ok p records →
  budget_ok p (<[(name, id) := apply_signal_capped p records name id r signal]> records).
Proof.
  intros Hp Hk Hb. destruct (decide (r.(hr_status) = Ejected)) as [Hs|Hs].
  { by eapply budget_ok_insert_ejected. }
  unfold apply_signal_capped. cbv zeta. rewrite (bool_decide_false (r.(hr_status) = Ejected)) by done.
  simpl. rewrite andb_true_r. set (r' := apply_signal_record r p signal).
  destruct (decide (r'.(hr_status) = Ejected)) as [Hs'|Hs'].
  - rewrite bool_decide_true by done. simpl.
    destruct (can_apply_ejection_budget _ _ _ _) eqn:Hc; simpl.
    + by eapply budget_ok_insert_checked.
    + by apply budget_ok_insert_other.
  - rewrite bool_decide_false by done. simpl. by apply budget_ok_insert_other.
Qed.

Lemma advance_record_ejected p t r :
  (advance_record p t r).(hr_status) = Ejected → r.(hr_status) = Ejected.
Proof. unfold advance_record. repeat case_match; simpl; congruence. Qed.

Lemma budget_ok_advance p t records :
  budget_ok p records → budget_ok p (advance_record p t <$> records).
Proof.
  intros Hb name. specialize (Hb name). unfold ejected_count, total_count in *.
  rewrite !map_filter_fmap, !map_size_fmap. etransitivity; [|etransitivity; [exact Hb|]].
  - apply N.mul_le_mono_l, N_of_nat_le, map_subseteq_size, map_filter_subseteq_ext.
    intros i x _ [Hs Hn]. split; [by eapply advance_record_ejected | done].
  - apply N.add_le_mono_r, N.mul_le_mono_r, N_of_nat_le, map_subseteq_size.
    by apply map_filter_subseteq_ext.
Qed.

Lemma push_events_records {A} (f : UpstreamHealthRegistry → A → UpstreamHealthRegistry) l :
  (∀ h x, (f h x).(uh_records) = h.(uh_records)) →
  ∀ h, (foldl f h l).(uh_records) = h.(uh_records).
Proof. intros Hf. induction l as [|x l IH]; intros h; simpl; [done|]. by rewrite IH. Qed.

Lemma advance_time_records h t :
  (UpstreamHealthRegistry_advance_time h t).(uh_records) =
    if decide (t = 0) then h.(uh_records) else advance_record h.(uh_policy) t <$> h.(uh_records).
Proof.
  unfold UpstreamHealthRegistry_advance_time. case_decide; [done|]. cbv zeta.
  rewrite !push_events_records by done. by case_decide.
Qed.

Lemma apply_signal_records h name id signal :
  (apply_signal h name id signal).1.(uh_records) =
    match h.(uh_records) !! (name, id) with
    | Some r => <[(name, id) := apply_signal_capped h.(uh_policy) h.(uh_records) name id r signal]>
                  h.(uh_records)
    | None => h.(uh_records)
    end.
Proof.
  unfold apply_signal. destruct (h.(uh_records) !! (name, id)) eqn:E; [|done]. cbv zeta. simpl.
  case_decide; [done|]. by destruct (event_for_transition _ _).
Qed.

Lemma note_signal_records h name id signal :
  (note_signal h name id signal).1.(uh_records) = (apply_signal h name id signal).1.(uh_records).
Proof. unfold note_signal. by rewrite !apply_signal_records. Qed.

Lemma new_record_not_ejected e p : (EndpointHealthRecord_new e p).(hr_status) ≠ Ejected.
Proof. unfold EndpointHealthRecord_new. by case_match. Qed.

Lemma admit_endpoints_budget p name eps : ∀ h,
  budget_ok p h.(uh_records) → budget_ok p (foldl (admit_endpoint name) h eps).(uh_records).
Proof.
  induction eps as [|e eps IH]; intros h Hb; [done|]. simpl. apply IH.
  destruct (admit_endpoint_fields name h e) as (_ & _ & -> & _).
  apply budget_ok_insert_other; [apply new_record_not_ejected | done].
Qed.

Lemma budget_ok_remove_cluster (p : EndpointHealthPolicy) (name : string) (records : Records) :
  budget_ok p records → budget_ok p (filter (λ kr, kr.1.1 ≠ name) records).
Proof.
  intros Hb name'. specialize (Hb name'). unfold ejected_count, total_count in *.
  rewrite !map_filter_filter. destruct (decide (name' = name)) as [->|Hne].
  - rewrite (map_empty_filter_2 _ records), map_size_empty; [lia|].
    intros i x _ H. by destruct H as [[_ ?] ?].
  - etransitivity; [|etransitivity; [exact Hb|]].
    + apply N.mul_le_mono_l, N_of_nat_le, map_subseteq_size, map_filter_subseteq_ext. naive_solver.
    + apply N.add_le_mono_r, N.mul_le_mono_r, N_of_nat_le, map_subseteq_size.
      apply map_filter_subseteq_ext. unfold in_cluster. simpl. intros i x _ <-. done.
Qed.

Definition removes_endpoint (o : HealthOp) : bool :=
  match o with HRemoveEndpoint _ _ => true | _ => false end.

Lemma health_op_budget h o :
  h.(uh_policy).(cluster_ejection_budget_percent) < 100 → removes_endpoint o = false →
  budget_ok h.(uh_policy) h.(uh_records) → budget_ok h.(uh_policy) (health_op h o).(uh_records).
Proof.
  intros Hp Hr Hb. destruct o as [c|name|name e|name id|name id s|name id sg|t]; simpl in *; [| | |done| | |].
  - unfold UpstreamHealthRegistry_insert_cluster.
    destruct (EndpointRegistry_insert_cluster _ _) as [? []]; simpl; [|done].
    by apply admit_endpoints_budget.
  - unfold UpstreamHealthRegistry_remove_cluster.
    destruct (EndpointRegistry_remove_cluster _ _) as [? []]; simpl; [|done].
    by apply budget_ok_remove_cluster.
  - unfold UpstreamHealthRegistry_insert_endpoint.
    destruct (EndpointRegistry_insert_endpoint _ _ _) as [r []]; cbn [fst]; [|done].
    destruct (admit_endpoint_fields name (set_registry h r) e) as (_ & _ & -> & _).
    apply budget_ok_insert_other; [apply new_record_not_ejected | done].
  - unfold UpstreamHealthRegistry_set_endpoint_state.
    by destruct (EndpointRegistry_set_endpoint_state _ _ _ _) as [? []].
  - rewrite note_signal_records, apply_signal_records. case_match; [|done].
    by apply apply_signal_budget.
  - rewrite advance_time_records. case_decide; [done|]. by apply budget_ok_advance.
Qed.

(** C4: the ejection budget: with a budget below 100 percent, whatever sequence of
    signals, time steps and topology changes other than the removal of single
    endpoints a registry goes through, the ejected endpoints of a cluster never exceed
    the rounded-up share [ceil(total * percent / 100)]. *)
Theorem ejection_budget_respected (p : EndpointHealthPolicy) (ops : list HealthOp) (name : string)
  (Hpercent : p.(cluster_ejection_budget_percent) < 100)
  (Hops : Forall (λ o, removes_endpoint o = false) ops) :
  let records := (health_run (UpstreamHealthRegistry_new p) ops).(uh_records) in
  ejected_count records name ≤
    (total_count records name * p.(cluster_ejection_budget_percent) + 99) / 100.
Proof.
  assert (Hrun : ∀ h, h.(uh_policy) = p → budget_ok p h.(uh_records) →
                 budget_ok p (health_run h ops).(uh_records)).
  { induction Hops as [|o ops Ho _ IH]; intros h Hp Hb; [done|].
    apply IH; [by rewrite health_op_policy|]. rewrite <- Hp in *. by apply health_op_budget. }
  cbv zeta. specialize (Hrun (UpstreamHealthRegistry_new p) eq_refl).
  assert (Hb : budget_ok p (health_run (UpstreamHealthRegistry_new p) ops).(uh_records)).
  { apply Hrun. intros n. unfold ejected_count. simpl uh_records. rewrite map_filter_empty, map_size_empty. lia. }
  specialize (Hb name). apply N.div_le_lower_bound; lia.
Qed.

Lemma ejection_budget_respected_witness :
  let records := (health_run (UpstreamHealthRegistry_new EndpointHealthPolicy_default)
    (example_ops ++ [HSignal "payments" "a" ActiveFailure; HSignal "payments" "b" ActiveFailure;
                     HSignal "payments" "b" ActiveFailure; HSignal "payments" "b" ActiveFailure]))
    .(uh_records) in
  ejected_count records "payments" = 1 ∧
  ejected_count records "payments" ≤ (total_count records "payments" * 50 + 99) / 100.
Proof.
  split; [vm_compute; reflexivity|].
  apply (ejection_budget_respected EndpointHealthPolicy_default
    (example_ops ++ [HSignal "payments" "a" ActiveFailure; HSignal "payments" "b" ActiveFailure;
                     HSignal "payments" "b" ActiveFailure; HSignal "payments" "b" ActiveFailure])
    "payments"); [vm_compute; reflexivity | repeat constructor].
Defined.

(** ** Theorems: recovery *)

Definition is_success (s : HealthSignal) : bool :=
  match s with ActiveSuccess | PassiveSuccess _ => true | _ => false end.

(** What a success signal does before [transition_on_success]. *)
Definition before_success (p : EndpointHealthPolicy) (r : EndpointHealthRecord) (s : HealthSignal) :
    EndpointHealthRecord :=
  match s with
  | PassiveSuccess k =>
      push_passive_result (refresh_passive_failure_aggregate (clear_protocol_failure_counter r k))
        true p.(outlier_window_size)
  | _ => r
  end.

Lemma apply_success p r s :
  is_success s = true → apply_signal_record r p s = transition_on_success (before_success p r s) p.
Proof. by destruct s. Qed.

Lemma before_success_fields p r s :
  let r' := before_success p r s in
  r'.(hr_status) = r.(hr_status) ∧ r'.(hr_recovery_successes) = r.(hr_recovery_successes) ∧
  r'.(hr_nominal_weight) = r.(hr_nominal_weight).
Proof. destruct s; simpl; try done. unfold push_passive_result. by case_decide. Qed.

(** The record after a completed recovery. *)
Definition recovered (p : EndpointHealthPolicy) (nominal : N) (r : EndpointHealthRecord) : Prop :=
  r.(hr_status) = (if decide (p.(warmup_duration) = 0) then Healthy else Warming) ∧
  (r.(hr_status) = Warming → r.(hr_warmup_elapsed) = 0) ∧
  (r.(hr_status) = Healthy → r.(hr_effective_weight) = nominal) ∧
  r.(hr_active_failures) = 0 ∧ r.(hr_passive_failures) = 0 ∧ r.(hr_nominal_weight) = nominal.

Lemma success_step p r s :
  is_success s = true → r.(hr_status) = Degraded ∨ r.(hr_status) = Unhealthy →
  r.(hr_recovery_successes) < u32_max →
  let r' := apply_signal_record r p s in
  if decide (r.(hr_recovery_successes) + 1 < p.(recovery_success_threshold))
  then r'.(hr_status) = r.(hr_status) ∧ r'.(hr_nominal_weight) = r.(hr_nominal_weight) ∧
       r'.(hr_recovery_successes) = r.(hr_recovery_successes) + 1
  else recovered p r.(hr_nominal_weight) r'.
Proof.
  intros Hs Hst Hu. cbv zeta. rewrite apply_success by done.
  destruct (before_success_fields p r s) as (E1 & E2 & E3).
  set (b := before_success p r s) in *. clearbody b.
  unfold transition_on_success. rewrite E1.
  assert (Hsat : saturating_add u32_max b.(hr_recovery_successes) 1 = r.(hr_recovery_successes) + 1)
    by (unfold saturating_add; lia).
  destruct Hst as [Hst|Hst]; rewrite Hst; cbv zeta; rewrite Hsat;
    cbn [hr_recovery_successes set_recovery_successes];
    (case_decide; [cbn [hr_status hr_nominal_weight set_recovery_successes]; by rewrite E1, Hst|]);
    unfold recovered; case_decide; cbn; by rewrite E3.
Qed.

Lemma success_steps p sigs : ∀ r,
  Forall (λ s, is_success s = true) sigs →
  r.(hr_status) = Degraded ∨ r.(hr_status) = Unhealthy →
  p.(recovery_success_threshold) ≤ u32_max →
  r.(hr_recovery_successes) < N.max 1 p.(recovery_success_threshold) →
  N.of_nat (length sigs) = N.max 1 p.(recovery_success_threshold) - r.(hr_recovery_successes) →
  recovered p r.(hr_nominal_weight) (foldl (λ r s, apply_signal_record r p s) r sigs).
Proof.
  induction sigs as [|s sigs IH]; intros r Hall Hst Hthr Hrec Hlen; [simpl in Hlen; lia|].
  apply Forall_cons in Hall as [Hs Hall]. simpl in Hlen |- *.
  pose proof (success_step p r s Hs Hst) as Hstep.
  ospecialize (Hstep _); [unfold u32_max in *; lia|]. cbv zeta in Hstep. case_decide.
  - destruct Hstep as (E1 & E2 & E3). rewrite <- E2. apply IH; [done | by rewrite E1 | done | lia | lia].
  - destruct sigs; [done|]. simpl in Hlen. lia.
Qed.

Lemma success_not_ejected p r s :
  is_success s = true → r.(hr_status) ≠ Ejected → (apply_signal_record r p s).(hr_status) ≠ Ejected.
Proof.
  intros Hs Hr. rewrite apply_success by done. destruct (before_success_fields p r s) as (E & _).
  unfold transition_on_success. rewrite E. destruct (r.(hr_status)) eqn:Hst; try done; cbv zeta;
    repeat case_decide; simpl; congruence.
Qed.

Lemma apply_signal_capped_success p rs n i r s :
  is_success s = true → r.(hr_status) ≠ Ejected →
  apply_signal_capped p rs n i r s = apply_signal_record r p s.
Proof.
  intros Hs Hr. unfold apply_signal_capped. cbv zeta.
  by rewrite bool_decide_false by by apply success_not_ejected.
Qed.

Lemma health_run_success name id sigs : ∀ h r,
  Forall (λ s, is_success s = true) sigs → h.(uh_records) !! (name, id) = Some r →
  r.(hr_status) ≠ Ejected →
  (health_run h (HSignal name id <$> sigs)).(uh_records) !! (name, id) =
    Some (foldl (λ r s, apply_signal_record r h.(uh_policy) s) r sigs).
Proof.
  induction sigs as [|s sigs IH]; intros h r Hall Hk Hr; [done|].
  apply Forall_cons in Hall as [Hs Hall]. rewrite fmap_cons.
  change (health_run h (?o :: ?l)) with (health_run (health_op h o) l).
  rewrite (IH _ (apply_signal_record r h.(uh_policy) s)); [|done| |].
  - by rewrite health_op_policy.
  - simpl. rewrite note_signal_records, apply_signal_records, Hk, lookup_insert_eq.
    by rewrite apply_signal_capped_success.
  - by apply success_not_ejected.
Qed.

Lemma endpoint_health_tracked h name id r :
  health_inv h → h.(uh_records) !! (name, id) = Some r →
  UpstreamHealthRegistry_endpoint_health h name id = Ok (EndpointHealthRecord_snapshot r h.(uh_policy)).
Proof.
  intros Hh Hk. pose proof (inv_tracked _ Hh (name, id)) as Htr. rewrite Hk in Htr.
  unfold UpstreamHealthRegistry_endpoint_health, EndpointRegistry_cluster. unfold registered in Htr.
  simpl in Htr. rewrite directory_lookup in Htr.
  destruct (h.(uh_registry).(clusters) !! name) as [c|]; simpl in Htr; [|by inversion Htr].
  unfold UpstreamCluster_endpoint. rewrite find_endpoint_view. fold (cluster_view c).
  destruct (cluster_view c !! id); [|by inversion Htr]. by rewrite Hk.
Qed.

Lemma recovered_advance p r w :
  recovered p r.(hr_nominal_weight) r → p.(warmup_duration) ≤ w → p.(warmup_duration) ≤ Duration_MAX →
  let r' := advance_record p w r in
  r'.(hr_status) = Healthy ∧ r'.(hr_effective_weight) = r.(hr_nominal_weight) ∧
  r'.(hr_active_failures) = 0 ∧ r'.(hr_passive_failures) = 0.
Proof.
  intros (Hst & Hel & Heff & Ha & Hp & _) Hw Hmax. cbv zeta. unfold advance_record.
  case_decide as Hd; rewrite Hst in *; [by split_and!; auto|]. cbn -[decide]. rewrite Hel by done.
  rewrite decide_True by (unfold Duration_saturating_add, saturating_add; lia). done.
Qed.

Lemma health_run_app h ops1 ops2 : health_run h (ops1 ++ ops2) = health_run (health_run h ops1) ops2.
Proof. apply foldl_app. Qed.

(** The recovery of one ejected record. *)
Lemma ejected_record_recovers p r t sigs :
  record_wf p r → r.(hr_status) = Ejected → r.(hr_remaining_ejection) ≤ t →
  Forall (λ s, is_success s = true) sigs →
  N.of_nat (length sigs) = N.max 1 p.(recovery_success_threshold) →
  p.(recovery_success_threshold) ≤ u32_max →
  (advance_record p t r).(hr_status) ≠ Ejected ∧
  recovered p r.(hr_nominal_weight)
    (foldl (λ r s, apply_signal_record r p s) (advance_record p t r) sigs).
Proof.
  intros Hwf Hs Ht Hsigs Hlen Hthr.
  assert (E : advance_record p t r = set_health r Unhealthy 0 r.(hr_effective_weight))
    by (unfold advance_record; by rewrite Hs, decide_True).
  destruct (wf_recovery _ _ Hwf) as [_ Hrec]. rewrite E. split; [done|].
  apply (success_steps p sigs (set_health r Unhealthy 0 r.(hr_effective_weight))); try done;
    simpl; rewrite ?Hrec by done; [by right | lia | lia].
Qed.

(** C6: an ejected endpoint recovers: once its ejection has expired, as many
    success signals (active or passive) as [recovery_success_threshold] make it
    available again, and after [warmup_duration] more it is healthy with its full
    weight and no recorded failures. *)
Theorem ejected_endpoint_recovers (p : EndpointHealthPolicy) (ops : list HealthOp)
  (name id : string) (r : EndpointHealthRecord) (t w : Duration) (sigs : list HealthSignal)
  (Hops : Forall health_op_wf ops)
  (Hr : (health_run (UpstreamHealthRegistry_new p) ops).(uh_records) !! (name, id) = Some r)
  (Hejected : r.(hr_status) = Ejected) (Ht : r.(hr_remaining_ejection) ≤ t) (Hpos : 0 < t)
  (Hsigs : Forall (λ s, is_success s = true) sigs)
  (Hlen : N.of_nat (length sigs) = N.max 1 p.(recovery_success_threshold))
  (Hthr : p.(recovery_success_threshold) ≤ u32_max)
  (Hw : p.(warmup_duration) ≤ w) (Hmax : p.(warmup_duration) ≤ Duration_MAX) :
  let h1 := health_run (UpstreamHealthRegistry_new p)
              (ops ++ [HAdvance t] ++ (HSignal name id <$> sigs)) in
  let h2 := health_op h1 (HAdvance w) in
  (∃ s1, UpstreamHealthRegistry_endpoint_health h1 name id = Ok s1 ∧
         is_available s1.(hs_status) = true) ∧
  (∃ s2, UpstreamHealthRegistry_endpoint_health h2 name id = Ok s2 ∧
         s2.(hs_status) = Healthy ∧ s2.(hs_effective_weight) = r.(hr_nominal_weight) ∧
         s2.(hs_active_failures) = 0 ∧ s2.(hs_passive_failures) = 0).
Proof.
  cbv zeta. set (h0 := health_run (UpstreamHealthRegistry_new p) ops) in *.
  assert (Hi0 : health_inv h0) by (apply health_run_inv; [apply health_new_inv | done]).
  assert (Hp0 : h0.(uh_policy) = p) by apply health_run_policy.
  assert (Hwf : record_wf p r).
  { pose proof (inv_tracked _ Hi0 (name, id)) as Htr. rewrite Hr, Hp0 in Htr.
    by inversion_clear Htr as [? ? []|]. }
  destruct (ejected_record_recovers p r t sigs) as [Hne Hrec]; [done..|].
  rewrite health_run_app. fold h0.
  set (ha := health_op h0 (HAdvance t)).
  change (health_run h0 ([HAdvance t] ++ ?l)) with (health_run ha l).
  assert (Hka : ha.(uh_records) !! (name, id) = Some (advance_record p t r)).
  { unfold ha. simpl. rewrite advance_time_records, decide_False, lookup_fmap, Hr, Hp0 by lia. done. }
  assert (Hpa : ha.(uh_policy) = p) by (unfold ha; by rewrite health_op_policy).
  assert (Hia : health_inv ha) by by apply health_op_inv.
  pose proof (health_run_success name id sigs ha _ Hsigs Hka Hne) as Hk1. rewrite Hpa in Hk1.
  set (h1 := health_run ha (HSignal name id <$> sigs)) in *.
  set (r1 := foldl _ (advance_record p t r) sigs) in *.
  assert (Hi1 : health_inv h1).
  { apply health_run_inv; [done|]. apply Forall_fmap, Forall_true. done. }
  assert (Hp1 : h1.(uh_policy) = p) by (unfold h1; by rewrite health_run_policy).
  assert (Hn1 : r1.(hr_nominal_weight) = r.(hr_nominal_weight)) by apply Hrec.
  split.
  - eexists. split; [by apply endpoint_health_tracked|]. simpl.
    destruct Hrec as (-> & _). by case_decide.
  - rewrite <- Hn1 in Hrec. pose proof (recovered_advance p r1 w Hrec Hw Hmax) as Hadv.
    assert (Hk2 : (health_op h1 (HAdvance w)).(uh_records) !! (name, id) = Some (advance_record p w r1)).
    { simpl. rewrite advance_time_records, Hp1. case_decide as Hw0; [|by rewrite lookup_fmap, Hk1].
      rewrite Hk1. f_equal. destruct Hrec as (Hst & _). unfold advance_record.
      rewrite Hst, decide_True by lia. done. }
    eexists. split; [apply endpoint_health_tracked; [by apply health_op_inv | exact Hk2]|].
    simpl. rewrite <- Hn1. exact Hadv.
Qed.

Lemma example_ejected_ops_wf :
  Forall health_op_wf (example_ops ++ [HSignal "payments" "a" ActiveFailure]).
Proof. apply Forall_app. split; [apply example_ops_wf | by repeat constructor]. Qed.

Lemma ejected_endpoint_recovers_witness :
  let h1 := health_run (UpstreamHealthRegistry_new EndpointHealthPolicy_default)
    ((example_ops ++ [HSignal "payments" "a" ActiveFailure]) ++ [HAdvance (from_secs 30)] ++
     (HSignal "payments" "a" <$> [ActiveSuccess; PassiveSuccess Http1])) in
  ∃ s2, UpstreamHealthRegistry_endpoint_health (health_op h1 (HAdvance (from_secs 15)))
          "payments" "a" = Ok s2 ∧ s2.(hs_status) = Healthy.
Proof.
  assert (Hr : ∃ r, (health_run (UpstreamHealthRegistry_new EndpointHealthPolicy_default)
      (example_ops ++ [HSignal "payments" "a" ActiveFailure])).(uh_records) !! ("payments", "a") = Some r
      ∧ r.(hr_status) = Ejected ∧ r.(hr_remaining_ejection) ≤ from_secs 30).
  { eexists. split; [vm_compute; reflexivity|]. vm_compute. split; [reflexivity | discriminate]. }
  destruct Hr as (r & Hr & Hs & Hrem).
  destruct (ejected_endpoint_recovers EndpointHealthPolicy_default
    (example_ops ++ [HSignal "payments" "a" ActiveFailure]) "payments" "a" r (from_secs 30)
    (from_secs 15) [ActiveSuccess; PassiveSuccess Http1]) as [_ (s2 & H2 & Hh & _)].
  - apply example_ejected_ops_wf.
  - exact Hr.
  - exact Hs.
  - exact Hrem.
  - vm_compute. reflexivity.
  - repeat constructor.
  - vm_compute. reflexivity.
  - vm_compute. discriminate.
  - vm_compute. discriminate.
  - vm_compute. discriminate.
  - exists s2. split; [exact H2 | exact Hh].
Defined.

(** ** Theorems: time

    [warmup_elapsed] is only read while a record is warming.  Records that differ
    in it alone otherwise are equivalent: they have the same snapshots and stay
    equivalent under every operation. *)

#[export] Instance record_equiv : Equiv EndpointHealthRecord := λ r1 r2,
  r1 = set_warmup_elapsed r2 r1.(hr_warmup_elapsed) ∧
  (r2.(hr_status) = Warming → r1.(hr_warmup_elapsed) = r2.(hr_warmup_elapsed)).

#[export] Instance record_equivalence : Equivalence (≡@{EndpointHealthRecord}).
Proof.
  split; unfold equiv, record_equiv.
  - by intros [].
  - intros r1 r2 [E He]. rewrite E. split; [by destruct r2 | by intros ->%He].
  - intros r1 r2 r3 [E1 H1] [E2 H2]. rewrite E1, E2 in *. split; [done|].
    intros Hs. simpl in *. by rewrite H1, H2.
Qed.

Lemma set_warmup_elapsed_equiv r e :
  (r.(hr_status) = Warming → e = r.(hr_warmup_elapsed)) → set_warmup_elapsed r e ≡ r.
Proof. intros H. by split. Qed.

(** Induction principle: equivalent records differ in an unread elapsed time. *)
Lemma record_equiv_inv r1 r2 :
  r1 ≡ r2 → r1 = r2 ∨ ∃ e, r1 = set_warmup_elapsed r2 e ∧ r2.(hr_status) ≠ Warming.
Proof.
  intros [E H]. destruct (decide (r2.(hr_status) = Warming)) as [Hs|Hs]; [left | by eauto].
  rewrite E, H by done. by destruct r2.
Qed.

#[export] Instance snapshot_proper : Proper ((≡) ==> (=) ==> (=)) EndpointHealthRecord_snapshot.
Proof.
  intros r1 r2 [->|(e & -> & Hs)]%record_equiv_inv p _ <-; [done|].
  destruct r2 as [[] ? ? ? ? ? ? ? ? ?]; done.
Qed.

#[export] Instance advance_record_proper p t : Proper ((≡) ==> (≡)) (advance_record p t).
Proof.
  intros r1 r2 [->|(e & -> & Hs)]%record_equiv_inv; [done|].
  destruct r2 as [[] ? ? ? ? ? ? ? ? ?]; unfold advance_record; simpl in *; try done.
  by case_decide.
Qed.

Lemma transition_on_failures_elapsed r e p f :
  r.(hr_status) ≠ Warming →
  transition_on_failures (set_warmup_elapsed r e) p f ≡ transition_on_failures r p f.
Proof.
  intros Hs. unfold transition_on_failures, combined_failures. simpl.
  by repeat case_match.
Qed.

Lemma transition_on_success_elapsed r e p :
  r.(hr_status) ≠ Warming →
  transition_on_success (set_warmup_elapsed r e) p ≡ transition_on_success r p.
Proof.
  intros Hs. unfold transition_on_success. simpl.
  destruct (r.(hr_status)) eqn:E; try done; cbv zeta; cbn -[decide];
    repeat case_decide; split; first [reflexivity | simpl; congruence].
Qed.

#[export] Instance apply_signal_record_proper :
  Proper ((≡) ==> (=) ==> (=) ==> (≡)) apply_signal_record.
Proof.
  intros r1 r2 [->|(e & -> & Hs)]%record_equiv_inv p _ <- s _ <-; [done|].
  destruct s as [| |k|k]; unfold apply_signal_record; cbv zeta.
  - by apply transition_on_success_elapsed.
  - exact (transition_on_failures_elapsed (set_recovery_successes (set_failures r2
      (saturating_add u32_max r2.(hr_active_failures) 1) r2.(hr_passive_failures)
      r2.(hr_by_protocol)) 0) e p false Hs).
  - set (f := refresh_passive_failure_aggregate (clear_protocol_failure_counter r2 k)).
    unfold push_passive_result. case_decide.
    + exact (transition_on_success_elapsed f e p Hs).
    + exact (transition_on_success_elapsed (set_window f _) e p Hs).
  - set (f := refresh_passive_failure_aggregate (increment_protocol_failure_counter r2 k)).
    unfold push_passive_result. case_decide.
    + exact (transition_on_failures_elapsed (set_recovery_successes f 0) e p _ Hs).
    + exact (transition_on_failures_elapsed (set_recovery_successes (set_window f _) 0) e p _ Hs).
Qed.

Lemma Duration_saturating_add_assoc a b c :
  Duration_saturating_add (Duration_saturating_add a b) c = Duration_saturating_add a (b + c).
Proof. unfold Duration_saturating_add, saturating_add. lia. Qed.

Lemma advance_record_additive p a b r :
  advance_record p b (advance_record p a r) ≡ advance_record p (a + b) r.
Proof.
  unfold advance_record at 2 3. destruct (r.(hr_status)) eqn:Hs.
  - unfold advance_record. by rewrite Hs.
  - unfold advance_record. by rewrite Hs.
  - unfold advance_record. by rewrite Hs.
  - case_decide.
    + rewrite (decide_True (P := _ ≤ a + b)) by lia. done.
    + unfold advance_record. simpl. repeat case_decide; try lia; [done|].
      unfold set_health; simpl. rewrite N.sub_add_distr. done.
  - cbv zeta. simpl. case_decide.
    + rewrite decide_True by (unfold Duration_saturating_add, saturating_add in *; lia). done.
    + unfold advance_record. simpl. rewrite Duration_saturating_add_assoc. by case_decide.
Qed.

Lemma push_events_registry {A} (f : UpstreamHealthRegistry → A → UpstreamHealthRegistry) l :
  (∀ h x, (f h x).(uh_registry) = h.(uh_registry)) →
  ∀ h, (foldl f h l).(uh_registry) = h.(uh_registry).
Proof. intros Hf. induction l as [|x l IH]; intros h; simpl; [done|]. by rewrite IH. Qed.

Lemma advance_time_registry h t :
  (UpstreamHealthRegistry_advance_time h t).(uh_registry) = h.(uh_registry).
Proof.
  unfold UpstreamHealthRegistry_advance_time. case_decide; [done|]. cbv zeta.
  rewrite !push_events_registry by done. by case_decide.
Qed.

Lemma advance_time_policy h t :
  (UpstreamHealthRegistry_advance_time h t).(uh_policy) = h.(uh_policy).
Proof. apply (health_op_policy h (HAdvance t)). Qed.

Lemma advance_time_records_additive h a b :
  (UpstreamHealthRegistry_advance_time (UpstreamHealthRegistry_advance_time h a) b).(uh_records)
    ≡ (UpstreamHealthRegistry_advance_time h (a + b)).(uh_records).
Proof.
  rewrite !advance_time_records, advance_time_policy.
  destruct (decide (a = 0)) as [->|]; [by rewrite N.add_0_l|].
  destruct (decide (b = 0)) as [->|]; [by rewrite N.add_0_r, decide_False by done|].
  rewrite decide_False by lia. intros k. rewrite !lookup_fmap.
  destruct (h.(uh_records) !! k) as [r|]; simpl; constructor. apply advance_record_additive.
Qed.

Lemma snapshot_lookup_equiv (m1 m2 : Records) (k : EndpointKey) (p : EndpointHealthPolicy) :
  m1 ≡ m2 → (λ r, EndpointHealthRecord_snapshot r p) <$> m1 !! k =
            (λ r, EndpointHealthRecord_snapshot r p) <$> m2 !! k.
Proof. intros Hm. destruct (Hm k) as [r1 r2 Hr|]; simpl; [by rewrite Hr | done]. Qed.

Lemma collect_candidates_equiv (name : string) (inc : bool) (p : EndpointHealthPolicy)
    (m1 m2 : Records) (eps : list UpstreamEndpoint) :
  m1 ≡ m2 → collect_candidates name inc p m1 eps = collect_candidates name inc p m2 eps.
Proof.
  intros Hm. induction eps as [|e eps IH]; cbn [collect_candidates]; [done|]. rewrite IH.
  pose proof (snapshot_lookup_equiv m1 m2 (name, e.(ep_id)) p Hm) as Hs.
  destruct (m1 !! _) as [r1|], (m2 !! _) as [r2|]; try done. apply Some_inj in Hs. by rewrite Hs.
Qed.

(** Time steps compose: advancing the timers by [a] and then by [b] leaves
    every endpoint in the same observable health as advancing them once by [a + b],
    so the result does not depend on how the ticks of the clock are grouped. *)
Theorem advance_time_additive (h : UpstreamHealthRegistry) (a b : Duration) (name id : string)
  (inc : bool) :
  let h1 := UpstreamHealthRegistry_advance_time (UpstreamHealthRegistry_advance_time h a) b in
  let h2 := UpstreamHealthRegistry_advance_time h (a + b) in
  h1.(uh_records) ≡ h2.(uh_records) ∧
  UpstreamHealthRegistry_endpoint_health h1 name id =
    UpstreamHealthRegistry_endpoint_health h2 name id ∧
  UpstreamHealthRegistry_selection_candidates h1 name inc =
    UpstreamHealthRegistry_selection_candidates h2 name inc.
Proof.
  cbv zeta. pose proof (advance_time_records_additive h a b) as Hrec. split; [done|].
  unfold UpstreamHealthRegistry_endpoint_health, UpstreamHealthRegistry_selection_candidates.
  rewrite !advance_time_registry, !advance_time_policy. destruct (EndpointRegistry_cluster _ _); [|done].
  split; [|by rewrite (collect_candidates_equiv _ _ _ _ _ _ Hrec)].
  destruct (UpstreamCluster_endpoint _ _); [|done].
  pose proof (snapshot_lookup_equiv _ _ (name, id) h.(uh_policy) Hrec) as Hs.
  destruct (uh_records _ !! _) as [r1|], (uh_records _ !! _) as [r2|]; try done.
  apply Some_inj in Hs. by rewrite Hs.
Qed.

(** ** Theorems: failures that raise the availability *)

Lemma max_counter_insert_alone (m : gmap ProtocolHealthClass N) k v :
  (∀ i n, m !! i = Some n → i ≠ k → n = 0) → max_counter (<[k := v]> m) = v.
Proof.
  intros Hm. unfold max_counter. rewrite <- insert_delete_eq.
  rewrite map_fold_insert_L by (apply lookup_delete_eq || (intros; lia)).
  rewrite N.max_l; [done|].
  assert (H : map_fold (λ _ n acc, N.max n acc) 0 (delete k m) = 0); [|lia].
  assert (Hz : map_Forall (λ _ n, n = 0) (delete k m)).
  { intros i n [? Hi]%lookup_delete_Some. by eapply Hm. }
  revert Hz. generalize (delete k m). clear m Hm. intros m.
  apply (map_fold_weak_ind (λ r m, map_Forall (λ _ n, n = 0) m → r = 0)); [done|].
  intros i x m' r Hi IH [-> Hz]%map_Forall_insert; [|done]. by rewrite IH.
Qed.

(** A single failure degrades and does not exclude; one success does not recover. *)
Definition single_failure_degrades (p : EndpointHealthPolicy) : Prop :=
  p.(degraded_failure_threshold) ≤ 1 ∧ 1 < p.(unhealthy_failure_threshold) ∧
  1 < p.(ejection_failure_threshold) ∧ 1 < p.(recovery_success_threshold) ∧
  1 < p.(consecutive_passive_failure_ejection_threshold).

Lemma passive_success_unhealthy p r k :
  r.(hr_status) = Unhealthy → r.(hr_recovery_successes) = 0 → 1 < p.(recovery_success_threshold) →
  ∃ w, apply_signal_record r p (PassiveSuccess k) =
         set_recovery_successes (set_window (set_failures r r.(hr_active_failures)
           (max_counter (<[k := 0]> r.(hr_by_protocol))) (<[k := 0]> r.(hr_by_protocol))) w) 1 ∧
       (length w ≤ length r.(hr_window) + 1)%nat.
Proof.
  intros Hs Hrec Hthr. unfold apply_signal_record. cbv zeta.
  set (f := refresh_passive_failure_aggregate (clear_protocol_failure_counter r k)).
  assert (Hpush : ∃ w, push_passive_result f true p.(outlier_window_size) = set_window f w ∧
                       (length w ≤ length r.(hr_window) + 1)%nat).
  { unfold push_passive_result. case_decide; eexists.
    - split; [|apply Nat.le_add_r]. by destruct r.
    - split; [done|]. rewrite length_drop, length_app. simpl. lia. }
  destruct Hpush as (w & -> & Hw). exists w. split; [|done].
  unfold transition_on_success. cbn -[decide]. rewrite Hs, Hrec.
  change (saturating_add u32_max 0 1) with 1. by rewrite decide_True.
Qed.

Lemma passive_failure_degrades p r k :
  single_failure_degrades p → r.(hr_status) = Unhealthy → r.(hr_active_failures) = 0 →
  (∀ i n, r.(hr_by_protocol) !! i = Some n → i ≠ k → n = 0) →
  r.(hr_by_protocol) !! k = Some 0 →
  N.of_nat (length r.(hr_window)) + 1 < p.(outlier_window_size) →
  let r' := apply_signal_record r p (PassiveFailure k) in
  r'.(hr_status) = Degraded ∧ r'.(hr_effective_weight) = r.(hr_nominal_weight).
Proof.
  intros (Hd & Hu & He & Hr & Hc) Hs Ha Hother Hk Hw. cbv zeta. unfold apply_signal_record. cbv zeta.
  set (f := refresh_passive_failure_aggregate (increment_protocol_failure_counter r k)).
  assert (Hpass : f.(hr_passive_failures) = 1).
  { unfold f. simpl. rewrite Hk. by apply max_counter_insert_alone. }
  assert (Hfs : f.(hr_status) = Unhealthy) by exact Hs.
  assert (Hfa : f.(hr_active_failures) = 0) by exact Ha.
  assert (Hfn : f.(hr_nominal_weight) = r.(hr_nominal_weight)) by reflexivity.
  assert (Hfw : f.(hr_window) = r.(hr_window)) by reflexivity. clearbody f.
  unfold push_passive_result. rewrite decide_False by lia. cbv zeta.
  set (w := drop _ _).
  assert (Hlen : N.of_nat (length w) < p.(outlier_window_size)).
  { unfold w. rewrite length_drop, length_app, Hfw. simpl. lia. }
  clearbody w. assert (Hforce : passive_failure_triggers_ejection
            (set_recovery_successes (set_window f w) 0) p = false).
  { unfold passive_failure_triggers_ejection. cbn -[decide bool_decide]. rewrite Hpass.
    rewrite (bool_decide_false (_ ≤ 1)), andb_false_r by lia. by rewrite decide_True by lia. }
  rewrite Hforce. unfold transition_on_failures, combined_failures. cbv zeta.
  cbn -[decide bool_decide saturating_add]. rewrite Hpass, Hfs, Hfa. change (saturating_add u32_max 0 1) with 1.
  rewrite decide_False, bool_decide_false, decide_False, decide_True by (done || lia). done.
Qed.

(** A failure signal can raise the availability of an endpoint.  Under
    thresholds like the defaults, (1) an unhealthy endpoint whose failures are passive
    ones of a single protocol becomes available again, with its full weight, by one
    passive success and one passive failure of that protocol, without having reached
    [recovery_success_threshold]; (2) one active failure ends the slow start of a
    warming endpoint and gives it its full weight. *)
Theorem failure_can_raise_availability (p : EndpointHealthPolicy) (r : EndpointHealthRecord)
  (k : ProtocolHealthClass)
  (Hp : single_failure_degrades p) (Hactive : r.(hr_active_failures) = 0)
  (Hother : ∀ i n, r.(hr_by_protocol) !! i = Some n → i ≠ k → n = 0)
  (Hwindow : N.of_nat (length r.(hr_window)) + 2 < p.(outlier_window_size))
  (Hrecovery : r.(hr_recovery_successes) = 0) :
  (r.(hr_status) = Unhealthy →
   let r' := apply_signal_record (apply_signal_record r p (PassiveSuccess k)) p (PassiveFailure k) in
   r'.(hr_status) = Degraded ∧ r'.(hr_effective_weight) = r.(hr_nominal_weight)) ∧
  (r.(hr_status) = Warming → r.(hr_passive_failures) = 0 →
   let r' := apply_signal_record r p ActiveFailure in
   r'.(hr_status) = Degraded ∧ r'.(hr_effective_weight) = r.(hr_nominal_weight)).
Proof.
  destruct Hp as (Hd & Hu & He & Hr & Hc). split.
  - intros Hs. cbv zeta. destruct (passive_success_unhealthy p r k) as (w & -> & Hw); try done.
    set (r1 := set_recovery_successes _ 1). apply (passive_failure_degrades p r1 k); try done; simpl.
    + intros i n [[-> <-]|[? ?]]%lookup_insert_Some; [done|]. by eapply Hother.
    + by rewrite lookup_insert_eq.
    + lia.
  - intros Hs Hpass. cbv zeta. unfold apply_signal_record, transition_on_failures. cbv zeta.
    unfold combined_failures. cbn -[decide bool_decide saturating_add]. rewrite Hs, Hactive, Hpass.
    rewrite decide_False by done.
    assert (E : saturating_add u32_max (saturating_add u32_max 0 1) 0 = 1) by done. rewrite E.
    rewrite bool_decide_false, decide_False, decide_True by lia. done.
Qed.

Definition example_unhealthy : EndpointHealthRecord :=
  {| hr_status := Unhealthy; hr_active_failures := 0; hr_passive_failures := 2;
     hr_recovery_successes := 0; hr_effective_weight := 0; hr_remaining_ejection := 0;
     hr_warmup_elapsed := 0; hr_nominal_weight := 7; hr_by_protocol := {[Http1 := 2]};
     hr_window := [false; false] |}.

Lemma failure_can_raise_availability_witness :
  (apply_signal_record (apply_signal_record example_unhealthy EndpointHealthPolicy_default
     (PassiveSuccess Http1)) EndpointHealthPolicy_default (PassiveFailure Http1)).(hr_status) = Degraded.
Proof.
  apply (failure_can_raise_availability EndpointHealthPolicy_default example_unhealthy Http1).
  - unfold single_failure_degrades. simpl. lia.
  - reflexivity.
  - intros i n Hi Hne. simpl in Hi. by rewrite lookup_singleton_ne in Hi.
  - vm_compute. reflexivity.
  - reflexivity.
  - reflexivity.
Defined.
