(* ===== verification/SmoothWrr.v ===== *)
(** * Smooth weighted round-robin

    The algorithm behind [UpstreamBalancer::select_weighted_round_robin] and
    [select_weighted_route_destination_order] of
    [crates/runtime/src/upstream_balancer.rs], stated abstractly: in each round
    every choice [j] gains its weight [w j], a choice with the largest current
    weight is picked, and the total weight is taken from it.  The theory holds for
    every rule that breaks ties, so both implementations are instances of it. *)

From S2P Require Import Prelude.
Local Open Scope Z_scope.

Section smooth_wrr.
Context {A : Type} `{EqDecision A}.
Context (choices : list A) (w : A → Z).

Fixpoint sum_over (l : list A) (f : A → Z) : Z :=
  match l with [] => 0 | x :: l => f x + sum_over l f end.

Definition total : Z := sum_over choices w.

(** One round: from current weights [f], [b] is picked, giving [f']. *)
Definition wrr_step (f : A → Z) (b : A) (f' : A → Z) : Prop :=
  b ∈ choices ∧
  (∀ j, j ∈ choices → f j + w j ≤ f b + w b) ∧
  (∀ j, j ∈ choices → f' j = f j + w j - (if decide (j = b) then total else 0)).

Inductive wrr_run : (A → Z) → list A → (A → Z) → Prop :=
| wrr_run_nil f : wrr_run f [] f
| wrr_run_cons f b f1 picks f2 :
    wrr_step f b f1 → wrr_run f1 picks f2 → wrr_run f (b :: picks) f2.

(** How often [j] was picked. *)
Fixpoint picked (j : A) (picks : list A) : Z :=
  match picks with
  | [] => 0
  | b :: picks => (if decide (j = b) then 1 else 0) + picked j picks
  end.

(** The current weights are balanced and no choice is a full round behind. *)
Definition wrr_ok (f : A → Z) : Prop :=
  sum_over choices f = 0 ∧ ∀ j, j ∈ choices → - total < f j.

Lemma sum_over_ext l f g : (∀ j, j ∈ l → f j = g j) → sum_over l f = sum_over l g.
Proof.
  induction l as [|x l IH]; intros H; simpl; [done|].
  rewrite H by left. rewrite IH; [done|]. intros j Hj. apply H. by right.
Qed.

Lemma sum_over_add l f g : sum_over l (λ j, f j + g j) = sum_over l f + sum_over l g.
Proof. induction l as [|x l IH]; simpl; lia. Qed.

Lemma sum_over_const_mul l f c : sum_over l (λ j, c * f j) = c * sum_over l f.
Proof. induction l as [|x l IH]; simpl; [lia|]. rewrite IH. lia. Qed.

Lemma sum_over_indicator l b c :
  NoDup l → sum_over l (λ j, if decide (j = b) then c else 0) = if decide (b ∈ l) then c else 0.
Proof.
  induction l as [|x l IH]; intros Hnd; [done|]. cbn [sum_over].
  apply NoDup_cons in Hnd as [Hx Hnd]. rewrite IH by done.
  destruct (decide (x = b)) as [->|Hne].
  - rewrite (decide_False (P := b ∈ l)), decide_True by (done || left). lia.
  - destruct (decide (b ∈ l)); [rewrite decide_True by (by right); lia|].
    rewrite decide_False; [lia|]. by intros [->|?]%elem_of_cons.
Qed.

Lemma sum_over_le_max l f c : (∀ j, j ∈ l → f j ≤ c) → sum_over l f ≤ Z.of_nat (length l) * c.
Proof.
  induction l as [|x l IH]; intros H; simpl; [lia|].
  pose proof (H x ltac:(left)). specialize (IH (λ j Hj, H j (list_elem_of_further _ _ _ Hj))). lia.
Qed.

Context (Hnd : NoDup choices) (Hpos : ∀ j, j ∈ choices → 0 < w j).

Lemma total_pos b : b ∈ choices → 0 < total.
Proof.
  unfold total. clear Hnd. revert Hpos. induction choices as [|x l IH]; intros Hpos Hb;
    [by apply elem_of_nil in Hb|]. simpl.
  assert (0 ≤ sum_over l w).
  { clear -Hpos. induction l as [|y l IH]; simpl; [lia|].
    assert (0 < w y) by (apply Hpos; right; left).
    assert (0 ≤ sum_over l w); [|lia]. apply IH. intros j Hj. apply Hpos.
    apply elem_of_cons in Hj as [->|]; [left | by do 2 right]. }
  assert (0 < w x) by (apply Hpos; left). lia.
Qed.

Lemma wrr_step_ok f b f' : wrr_ok f → wrr_step f b f' → wrr_ok f'.
Proof.
  intros [Hsum Hlow] (Hb & Hmax & Hf'). pose proof (total_pos b Hb) as HW.
  assert (Hg : 0 < f b + w b).
  { pose proof (sum_over_le_max choices (λ j, f j + w j) (f b + w b) Hmax) as Hle.
    rewrite sum_over_add, Hsum in Hle. fold total in Hle.
    destruct choices as [|x l]; [by apply elem_of_nil in Hb|]. simpl in Hle. nia. }
  split.
  - rewrite (sum_over_ext _ f' (λ j, (f j + w j) + (if decide (j = b) then - total else 0))).
    + rewrite !sum_over_add, sum_over_indicator, decide_True, Hsum by done. unfold total. lia.
    + intros j Hj. rewrite Hf' by done. case_decide; lia.
  - intros j Hj. rewrite Hf' by done. case_decide as E; [subst; lia|].
    pose proof (Hlow j Hj). pose proof (Hpos j Hj). lia.
Qed.

Lemma wrr_run_ok f picks f' : wrr_ok f → wrr_run f picks f' → wrr_ok f'.
Proof. intros Hf Hr. induction Hr as [|? ? ? ? ? Hs _ IH]; [done|]. by eapply IH, wrr_step_ok. Qed.

(** The current weight of a choice after a run, in closed form. *)
Lemma wrr_run_closed f picks f' :
  wrr_run f picks f' →
  ∀ j, j ∈ choices → f' j = f j + Z.of_nat (length picks) * w j - total * picked j picks.
Proof.
  induction 1 as [f|f b f1 picks f2 (Hb & _ & Hf1) _ IH]; intros j Hj; simpl; [lia|].
  rewrite IH, Hf1 by done. case_decide; lia.
Qed.

Lemma sum_picked picks : Forall (.∈ choices) picks →
  sum_over choices (λ j, picked j picks) = Z.of_nat (length picks).
Proof.
  induction 1 as [|b picks Hb _ IH]; simpl.
  - clear. induction choices; simpl; lia.
  - rewrite sum_over_add, IH, sum_over_indicator, decide_True by done. lia.
Qed.

Lemma wrr_run_picks f picks f' : wrr_run f picks f' → Forall (.∈ choices) picks.
Proof. induction 1 as [|? ? ? ? ? [Hb _]]; by constructor. Qed.

Lemma sum_over_nonneg_zero l f :
  (∀ j, j ∈ l → 0 ≤ f j) → sum_over l f = 0 → ∀ j, j ∈ l → f j = 0.
Proof.
  induction l as [|x l IH]; intros Hn Hs j Hj; [by apply elem_of_nil in Hj|]. simpl in Hs.
  assert (Hl : 0 ≤ sum_over l f).
  { clear -Hn. induction l as [|y l IH]; simpl; [lia|].
    assert (0 ≤ f y) by (apply Hn; right; left).
    assert (0 ≤ sum_over l f); [|lia]. apply IH. intros j Hj. apply Hn.
    apply elem_of_cons in Hj as [->|]; [left | by do 2 right]. }
  pose proof (Hn x ltac:(left)). apply elem_of_cons in Hj as [->|Hj]; [lia|].
  apply IH; [|lia|done]. intros k Hk. apply Hn. by right.
Qed.

Lemma wrr_ok_zero f b : b ∈ choices → (∀ j, j ∈ choices → f j = 0) → wrr_ok f.
Proof.
  intros Hb Hz. split.
  - rewrite (sum_over_ext _ f (λ _, 0)) by done. clear. induction choices; simpl; lia.
  - intros j Hj. rewrite Hz by done. pose proof (total_pos j Hj). lia.
Qed.

(** At any point no choice is ahead of its share by a whole pick. *)
Lemma wrr_share f picks f' j :
  wrr_run f picks f' → (∀ j, j ∈ choices → f j = 0) → j ∈ choices →
  total * picked j picks < Z.of_nat (length picks) * w j + total.
Proof.
  intros Hr Hz Hj. pose proof (wrr_run_closed _ _ _ Hr j Hj) as Hc.
  destruct (wrr_run_ok f picks f') as [_ Hlow]; [by eapply wrr_ok_zero | done |].
  specialize (Hlow j Hj). rewrite (Hz j Hj) in Hc. lia.
Qed.

(** A full round picks every choice exactly as often as its weight and restores
    the initial weights. *)
Lemma wrr_round f picks f' :
  wrr_run f picks f' → (∀ j, j ∈ choices → f j = 0) → Z.of_nat (length picks) = total →
  ∀ j, j ∈ choices → picked j picks = w j ∧ f' j = 0.
Proof.
  intros Hr Hz Hlen.
  assert (Hle : ∀ j, j ∈ choices → 0 ≤ w j - picked j picks).
  { intros j Hj. pose proof (wrr_share f picks f' j Hr Hz Hj) as Hs. rewrite Hlen in Hs.
    pose proof (total_pos j Hj). nia. }
  assert (Hsum : sum_over choices (λ j, w j - picked j picks) = 0).
  { rewrite (sum_over_ext _ _ (λ j, w j + (-1) * picked j picks)) by (intros; lia).
    rewrite sum_over_add, sum_over_const_mul, sum_picked by by eapply wrr_run_picks.
    unfold total in Hlen. lia. }
  intros j Hj. pose proof (sum_over_nonneg_zero _ _ Hle Hsum j Hj) as Hzero. simpl in Hzero.
  split; [lia|]. rewrite (wrr_run_closed _ _ _ Hr j Hj), (Hz j Hj), Hlen. nia.
Qed.

(** Magnitude of the current weights, for the width of the machine integer. *)
Lemma wrr_magnitude f j :
  wrr_ok f → j ∈ choices → - total < f j ≤ Z.of_nat (length choices) * total.
Proof.
  intros [Hsum Hlow] Hj. split; [by apply Hlow|].
  assert (Hle : ∀ l, l ⊆ choices → sum_over l (λ k, - f k) ≤ Z.of_nat (length l) * total).
  { intros l Hl. apply sum_over_le_max. intros k Hk. specialize (Hlow k (Hl k Hk)). lia. }
  apply list_elem_of_split in Hj as (l1 & l2 & E).
  assert (Hs : ∀ l1 l2 g, sum_over (l1 ++ l2) g = sum_over l1 g + sum_over l2 g).
  { clear. induction l1 as [|x l1 IH]; intros; simpl; [done|]. rewrite IH. lia. }
  assert (Hneg : ∀ l g, sum_over l (λ k, - g k) = - sum_over l g).
  { clear. induction l as [|x l IH]; intros; simpl; [done|]. rewrite IH. lia. }
  pose proof (Hle l1) as H1. pose proof (Hle l2) as H2. rewrite !Hneg in *.
  rewrite E, Hs in Hsum. simpl in Hsum.
  ospecialize (H1 _); [rewrite E; intros ?; rewrite elem_of_app; tauto|].
  ospecialize (H2 _); [rewrite E; intros ?; rewrite elem_of_app, elem_of_cons; tauto|].
  assert (HW : 0 < total) by (apply (total_pos j); rewrite E; apply elem_of_app; right; left).
  rewrite E, length_app. simpl. nia.
Qed.
End smooth_wrr.

(** ** Weights by key

    Both implementations keep the current weights in a map from names; the weight
    of a name is that of the first element with it. *)
Section keyed.
Context {X A : Type} `{EqDecision A} (key : X → A) (wt : X → Z).

Fixpoint keyed_weight (l : list X) (k : A) : Z :=
  match l with
  | [] => 0
  | x :: l => if decide (key x = k) then wt x else keyed_weight l k
  end.

Lemma keyed_weight_elem l x : NoDup (key <$> l) → x ∈ l → keyed_weight l (key x) = wt x.
Proof.
  induction l as [|y l IH]; intros Hnd Hx; [by apply elem_of_nil in Hx|].
  apply NoDup_cons in Hnd as [Hy Hnd]. simpl. apply elem_of_cons in Hx as [->|Hx].
  - by rewrite decide_True.
  - rewrite decide_False; [by apply IH|]. intros E. apply Hy. rewrite E. by apply list_elem_of_fmap_2.
Qed.

Lemma keyed_weight_pos l k : (∀ x, x ∈ l → 0 < wt x) → k ∈ key <$> l → 0 < keyed_weight l k.
Proof.
  induction l as [|x l IH]; intros Hpos Hk; [by apply elem_of_nil in Hk|]. simpl.
  case_decide; [apply Hpos; left|]. apply IH; [intros y Hy; apply Hpos; by right|].
  by apply elem_of_cons in Hk as [->|].
Qed.

Lemma total_keyed_weight l :
  NoDup (key <$> l) →
  total (key <$> l) (keyed_weight l) = foldr (λ x acc, wt x + acc) 0 l.
Proof.
  unfold total. induction l as [|x l IH]; intros Hnd; [done|].
  apply NoDup_cons in Hnd as [Hx Hnd]. simpl. rewrite decide_True by done. f_equal.
  rewrite <- IH by done. apply sum_over_ext. intros k Hk. rewrite decide_False; [done|].
  by intros <-.
Qed.
End keyed.
