(* ===== verification/UpstreamBalancer.v ===== *)
(** * Endpoint selection

    Models the [UpstreamBalancer] of [crates/runtime/src/upstream_balancer.rs]:
    locality preference, affinity, round-robin, smooth weighted round-robin and
    power-of-two choices over the candidates a health registry offers.

    The balancer sees the registry through the interface [CandidateSource], whose
    laws the health registry satisfies; the theorems about selection are proved
    against the interface.  A registry is constant during one call.  Indexing a
    slice gives [None] out of range, where the code would panic; the theorems show
    that this does not happen.

    The affinity score hashes with [DefaultHasher], whose algorithm the standard
    library leaves unspecified, and uses floating-point arithmetic: the type of
    scores, [total_cmp] and the score function are parameters. *)

From S2P Require Import Prelude RustStr NetCore EndpointRegistry UpstreamHealth SmoothWrr.
Local Open Scope N_scope.
Local Open Scope rust_scope.

Inductive LoadBalancingAlgorithm := RoundRobin | WeightedRoundRobin | PowerOfTwoChoices.

Inductive LocalityRoutingPolicy :=
| Locality_Disabled | PreferLocality | PreferZone | PreferLocalityThenZone.

Inductive NoHealthyFallback := Fallback_Fail | IncludeUnhealthy.

Inductive AffinityFallbackPolicy := BalanceHealthy.

Inductive AffinityPolicy :=
| HeaderHash (header_name : string) (fallback : AffinityFallbackPolicy)
| CookieHash (cookie_name : string) (fallback : AffinityFallbackPolicy).
#[export] Instance AffinityFallbackPolicy_eq_dec : EqDecision AffinityFallbackPolicy.
Proof. solve_decision. Defined.
#[export] Instance AffinityPolicy_eq_dec : EqDecision AffinityPolicy.
Proof. solve_decision. Defined.

Record UpstreamSelectionPolicy := {
  sp_algorithm : LoadBalancingAlgorithm;
  sp_locality : LocalityRoutingPolicy;
  sp_no_healthy_fallback : NoHealthyFallback;
  sp_affinity : option AffinityPolicy
}.

Definition UpstreamSelectionPolicy_default : UpstreamSelectionPolicy :=
  {| sp_algorithm := RoundRobin; sp_locality := Locality_Disabled;
     sp_no_healthy_fallback := Fallback_Fail; sp_affinity := None |}.

Record SelectionContext := {
  preferred_locality : option string;
  preferred_zone : option string;
  affinity_key : option string;
  request_hash : N
}.

Definition SelectionContext_with_hash (hash : N) : SelectionContext :=
  {| preferred_locality := None; preferred_zone := None; affinity_key := None;
     request_hash := hash |}.

Record SelectedEndpoint := {
  se_cluster_name : string;
  se_endpoint_id : string;
  se_address : SocketAddr;
  se_effective_weight : N;
  se_health_status : EndpointHealthStatus;
  se_locality_matched : bool
}.

Record UpstreamSelectionMetrics := {
  round_robin_selection_count : N;
  weighted_round_robin_selection_count : N;
  weighted_route_selection_count : N;
  power_of_two_selection_count : N;
  locality_preference_hit_count : N;
  no_healthy_endpoint_count : N;
  unhealthy_fallback_selection_count : N;
  affinity_hit_count : N;
  affinity_fallback_count : N;
  route_destination_fallback_count : N;
  route_destination_selection_counts : gmap string N
}.

Inductive UpstreamSelectionError :=
| Health (error : UpstreamHealthError)
| NoEligibleEndpoints (cluster : string).

(** ** The candidate source *)

Class CandidateSource (H : Type) := {
  candidates_of :
    H → string → bool → Result (list EndpointSelectionCandidate) UpstreamHealthError;
  source_ok : H → Prop
}.

(** What the balancer relies on. *)
Class CandidateSourceLaws (H : Type) `{!CandidateSource H} : Prop := {
  candidates_sorted h name inc l :
    source_ok h → candidates_of h name inc = Ok l →
    StronglySorted (λ x y, str_lt x.(sc_endpoint_id) y.(sc_endpoint_id)) l;
  candidates_status h name inc l x :
    source_ok h → candidates_of h name inc = Ok l → x ∈ l →
    x.(sc_cluster_name) = name ∧
    selection_allowed inc x.(sc_health).(hs_status) = true;
  candidates_agree h name :
    source_ok h → is_ok (candidates_of h name false) = is_ok (candidates_of h name true);
  candidates_mono h name l1 l2 :
    source_ok h → candidates_of h name false = Ok l1 → candidates_of h name true = Ok l2 →
    l1 ⊆ l2
}.

#[export] Instance health_candidate_source : CandidateSource UpstreamHealthRegistry :=
  {| candidates_of := UpstreamHealthRegistry_selection_candidates; source_ok := health_inv |}.

(** ** Locality and ranking *)

Definition prefer_by_field (candidates : list EndpointSelectionCandidate)
    (predicate : EndpointSelectionCandidate → bool) :
    list EndpointSelectionCandidate * bool :=
  match filter (λ c, predicate c = true) candidates with
  | [] => (candidates, false)
  | filtered => (filtered, true)
  end.

Definition locality_is (locality0 : string) (c : EndpointSelectionCandidate) : bool :=
  bool_decide (c.(sc_metadata).(locality) = Some locality0).
Definition zone_is (zone0 : string) (c : EndpointSelectionCandidate) : bool :=
  bool_decide (c.(sc_metadata).(zone) = Some zone0).

Definition apply_locality_preference (candidates : list EndpointSelectionCandidate)
    (policy : UpstreamSelectionPolicy) (context : SelectionContext) :
    list EndpointSelectionCandidate * bool :=
  match policy.(sp_locality) with
  | Locality_Disabled => (candidates, false)
  | PreferLocality =>
      match context.(preferred_locality) with
      | Some l => prefer_by_field candidates (locality_is l)
      | None => (candidates, false)
      end
  | PreferZone =>
      match context.(preferred_zone) with
      | Some z => prefer_by_field candidates (zone_is z)
      | None => (candidates, false)
      end
  | PreferLocalityThenZone =>
      let by_zone :=
        match context.(preferred_zone) with
        | Some z => prefer_by_field candidates (zone_is z)
        | None => (candidates, false)
        end in
      match context.(preferred_locality) with
      | Some l =>
          let '(filtered, matched) := prefer_by_field candidates (locality_is l) in
          if matched then (filtered, true) else by_zone
      | None => by_zone
      end
  end.

Definition health_rank (s : EndpointHealthStatus) : N :=
  match s with Healthy => 4 | Warming => 3 | Degraded => 2 | Unhealthy => 1 | Ejected => 0 end.

Definition candidate_score (c : EndpointSelectionCandidate) : N * N * N :=
  (health_rank c.(sc_health).(hs_status), c.(sc_health).(hs_effective_weight),
   c.(sc_metadata).(weight)).

Definition score_cmp (a b : N * N * N) : comparison :=
  then_with (a.1.1 ?= b.1.1) (then_with (a.1.2 ?= b.1.2) (a.2 ?= b.2)).

Definition compare_candidates (left right : EndpointSelectionCandidate) : comparison :=
  then_with (score_cmp (candidate_score left) (candidate_score right))
    (String.compare right.(sc_endpoint_id) left.(sc_endpoint_id)).

(** [value ^ (value >> s)] and the mixing function; [0x9e37_79b9_7f4a_7c15] and
    the two multipliers in decimal. *)
Definition xor_shift (v s : N) : N := N.lxor v (N.shiftr v s).
Definition GOLDEN : N := 11400714819323198485.
Definition MIX_1 : N := 13787848793156543929.
Definition MIX_2 : N := 10723151780598845931.

Definition mix64 (value : N) : N :=
  let value := wrapping_add64 value GOLDEN in
  let value := wrapping_mul64 (xor_shift value 30) MIX_1 in
  let value := wrapping_mul64 (xor_shift value 27) MIX_2 in
  xor_shift value 31.

(** ** Balancer state *)

(** [ClusterCursorKey]: cluster name and whether the unhealthy fallback is used. *)
Abbreviation ClusterCursorKey := (string * bool)%type (only parsing).

Record WeightedState := { ws_total_weight : Z; ws_current_weights : gmap string Z }.
Definition WeightedState_default : WeightedState :=
  {| ws_total_weight := 0; ws_current_weights := ∅ |}.

Record SelectionCounters := {
  c_round_robin : N;
  c_weighted_round_robin : N;
  c_power_of_two : N;
  c_locality_hit : N;
  c_no_healthy : N;
  c_unhealthy_fallback : N;
  c_affinity_hit : N;
  c_affinity_fallback : N
}.

Definition SelectionCounters_default : SelectionCounters :=
  {| c_round_robin := 0; c_weighted_round_robin := 0; c_power_of_two := 0; c_locality_hit := 0;
     c_no_healthy := 0; c_unhealthy_fallback := 0; c_affinity_hit := 0; c_affinity_fallback := 0 |}.

(** [fetch_add(1)] on one of the counters. *)
Inductive Counter :=
| RoundRobinSelection | WeightedRoundRobinSelection | PowerOfTwoSelection | LocalityHit
| NoHealthyEndpoint | UnhealthyFallback | AffinityHit | AffinityFallback.

Definition bump_if (b : bool) (n : N) : N := if b then fetch_add n 1 else n.

Definition bump (c : Counter) (m : SelectionCounters) : SelectionCounters :=
  let on c' n := bump_if (match c, c' with
    | RoundRobinSelection, RoundRobinSelection
    | WeightedRoundRobinSelection, WeightedRoundRobinSelection
    | PowerOfTwoSelection, PowerOfTwoSelection | LocalityHit, LocalityHit
    | NoHealthyEndpoint, NoHealthyEndpoint | UnhealthyFallback, UnhealthyFallback
    | AffinityHit, AffinityHit | AffinityFallback, AffinityFallback => true
    | _, _ => false end) n in
  {| c_round_robin := on RoundRobinSelection m.(c_round_robin);
     c_weighted_round_robin := on WeightedRoundRobinSelection m.(c_weighted_round_robin);
     c_power_of_two := on PowerOfTwoSelection m.(c_power_of_two);
     c_locality_hit := on LocalityHit m.(c_locality_hit);
     c_no_healthy := on NoHealthyEndpoint m.(c_no_healthy);
     c_unhealthy_fallback := on UnhealthyFallback m.(c_unhealthy_fallback);
     c_affinity_hit := on AffinityHit m.(c_affinity_hit);
     c_affinity_fallback := on AffinityFallback m.(c_affinity_fallback) |}.

Definition SelectionCounters_snapshot (m : SelectionCounters) : UpstreamSelectionMetrics :=
  {| round_robin_selection_count := m.(c_round_robin);
     weighted_round_robin_selection_count := m.(c_weighted_round_robin);
     weighted_route_selection_count := 0;
     power_of_two_selection_count := m.(c_power_of_two);
     locality_preference_hit_count := m.(c_locality_hit);
     no_healthy_endpoint_count := m.(c_no_healthy);
     unhealthy_fallback_selection_count := m.(c_unhealthy_fallback);
     affinity_hit_count := m.(c_affinity_hit);
     affinity_fallback_count := m.(c_affinity_fallback);
     route_destination_fallback_count := 0;
     route_destination_selection_counts := ∅ |}.

Record UpstreamBalancer := {
  round_robin_cursors : gmap ClusterCursorKey nat;
  weighted_states : gmap ClusterCursorKey WeightedState;
  ub_metrics : SelectionCounters
}.

Definition UpstreamBalancer_new : UpstreamBalancer :=
  {| round_robin_cursors := ∅; weighted_states := ∅; ub_metrics := SelectionCounters_default |}.

Definition UpstreamBalancer_metrics (b : UpstreamBalancer) : UpstreamSelectionMetrics :=
  SelectionCounters_snapshot b.(ub_metrics).

Definition bump_metric (c : Counter) (b : UpstreamBalancer) : UpstreamBalancer :=
  {| round_robin_cursors := b.(round_robin_cursors); weighted_states := b.(weighted_states);
     ub_metrics := bump c b.(ub_metrics) |}.
Definition set_cursors (b : UpstreamBalancer) (m : gmap ClusterCursorKey nat) : UpstreamBalancer :=
  {| round_robin_cursors := m; weighted_states := b.(weighted_states);
     ub_metrics := b.(ub_metrics) |}.
Definition set_weighted (b : UpstreamBalancer) (m : gmap ClusterCursorKey WeightedState) :
    UpstreamBalancer :=
  {| round_robin_cursors := b.(round_robin_cursors); weighted_states := m;
     ub_metrics := b.(ub_metrics) |}.

(** ** Selection algorithms *)

Definition select_round_robin (b : UpstreamBalancer) (name : string)
    (candidates : list EndpointSelectionCandidate) (fallback_used : bool) :
    UpstreamBalancer * option EndpointSelectionCandidate :=
  let key := (name, fallback_used) in
  let cursor := default 0%nat (b.(round_robin_cursors) !! key) in
  let index := (cursor mod length candidates)%nat in
  let cursor := ((cursor + 1) mod length candidates)%nat in
  (set_cursors b (<[key := cursor]> b.(round_robin_cursors)), candidates !! index).

(** The weight of a candidate, [i64::from(effective_weight.max(1))]. *)
Definition wrr_weight (c : EndpointSelectionCandidate) : Z :=
  Z.of_N (N.max c.(sc_health).(hs_effective_weight) 1).

Definition wrr_total (candidates : list EndpointSelectionCandidate) : Z :=
  foldr (λ c acc, (wrr_weight c + acc)%Z) 0%Z candidates.

(** The loop over the candidates: updated weights and the best so far. *)
Fixpoint wrr_loop (candidates : list EndpointSelectionCandidate) (weights : gmap string Z)
    (best : option (EndpointSelectionCandidate * Z)) :
    gmap string Z * option (EndpointSelectionCandidate * Z) :=
  match candidates with
  | [] => (weights, best)
  | c :: candidates =>
      let current := (default 0 (weights !! c.(sc_endpoint_id)) + wrr_weight c)%Z in
      let weights := <[c.(sc_endpoint_id) := current]> weights in
      let best :=
        match best with
        | None => Some (c, current)
        | Some (best_c, best_weight) =>
            if decide ((best_weight < current)%Z ∨
                       current = best_weight ∧ str_lt c.(sc_endpoint_id) best_c.(sc_endpoint_id))
            then Some (c, current) else best
        end in
      wrr_loop candidates weights best
  end.

Definition select_weighted_round_robin (b : UpstreamBalancer) (name : string)
    (candidates : list EndpointSelectionCandidate) (fallback_used : bool) :
    UpstreamBalancer * option EndpointSelectionCandidate :=
  let key := (name, fallback_used) in
  let state := default WeightedState_default (b.(weighted_states) !! key) in
  let total_weight := wrr_total candidates in
  let weights := filter (λ kw, kw.1 ∈ (sc_endpoint_id <$> candidates)) state.(ws_current_weights) in
  let '(weights, best) := wrr_loop candidates weights None in
  let selected := match best with Some (c, _) => Some c | None => head candidates end in
  let weights :=
    match selected with
    | Some c => alter (λ current, (current - total_weight)%Z) c.(sc_endpoint_id) weights
    | None => weights
    end in
  (set_weighted b (<[key := {| ws_total_weight := total_weight; ws_current_weights := weights |}]>
                     b.(weighted_states)), selected).

Definition select_power_of_two (candidates : list EndpointSelectionCandidate) (hash : N) :
    option EndpointSelectionCandidate :=
  let n := N.of_nat (length candidates) in
  if decide (length candidates = 1%nat) then candidates !! 0%nat
  else
    let first_index := mix64 hash mod n in
    let second_index := mix64 (N.lxor hash GOLDEN) mod n in
    let second_index := if decide (second_index = first_index) then (second_index + 1) mod n
                        else second_index in
    match candidates !! N.to_nat first_index, candidates !! N.to_nat second_index with
    | Some first, Some second =>
        match compare_candidates first second with Lt => Some second | _ => Some first end
    | _, _ => None
    end.

(** ** Affinity *)

(** The floating-point side: [f64], [total_cmp], [f64::NEG_INFINITY], and
    [affinity_score] as a function of the key, the endpoint id and the effective
    weight. *)
Class AffinityScoring := {
  F64 : Type;
  total_cmp : F64 → F64 → comparison;
  NEG_INFINITY : F64;
  score : string → string → N → F64
}.

(** [total_cmp] is a total order, and no score is below negative infinity (only a
    negative NaN would be). *)
Class AffinityScoringLaws `{AffinityScoring} : Prop := {
  total_cmp_lawful :: LawfulCmp total_cmp;
  score_not_below key id w : total_cmp (score key id w) NEG_INFINITY ≠ Lt
}.

Section affinity.
Context `{AffinityScoring}.

Definition affinity_score (key : string) (c : EndpointSelectionCandidate) : F64 :=
  score key c.(sc_endpoint_id) (N.max c.(sc_health).(hs_effective_weight) 1).

Fixpoint affinity_loop (key : string) (best : EndpointSelectionCandidate) (best_score : F64)
    (candidates : list EndpointSelectionCandidate) : EndpointSelectionCandidate :=
  match candidates with
  | [] => best
  | c :: candidates =>
      let s := affinity_score key c in
      let better :=
        match total_cmp s best_score with
        | Gt => true
        | Eq => bool_decide (str_lt c.(sc_endpoint_id) best.(sc_endpoint_id))
        | Lt => false
        end in
      if better then affinity_loop key c s candidates
      else affinity_loop key best best_score candidates
  end.

Definition select_affinity_candidate (candidates : list EndpointSelectionCandidate)
    (key : string) : option EndpointSelectionCandidate :=
  match candidates with
  | [] => None
  | first :: _ => Some (affinity_loop key first NEG_INFINITY candidates)
  end.
End affinity.

(** ** [select_endpoint] *)

Section select_endpoint.
Context {H : Type} `{!CandidateSource H} `{!AffinityScoring}.

(** [Ok None] also when the preferred endpoint is not eligible: the only fallback
    policy is [BalanceHealthy]. *)
Definition try_select_affinity_candidate (b : UpstreamBalancer) (registry : H) (name : string)
    (policy : UpstreamSelectionPolicy) (context : SelectionContext)
    (eligible : list EndpointSelectionCandidate) :
    UpstreamBalancer * Result (option EndpointSelectionCandidate) UpstreamSelectionError :=
  match policy.(sp_affinity), context.(affinity_key) with
  | Some affinity_policy, Some key =>
      match candidates_of registry name true with
      | Err error => (b, Err (Health error))
      | Ok affinity_candidates =>
          let '(affinity_candidates, _) :=
            apply_locality_preference affinity_candidates policy context in
          match select_affinity_candidate affinity_candidates key with
          | None => (b, Ok None)
          | Some preferred =>
              match find (λ c, bool_decide (c.(sc_endpoint_id) = preferred.(sc_endpoint_id)))
                      eligible with
              | Some selected => (bump_metric AffinityHit b, Ok (Some selected))
              | None =>
                  (bump_metric AffinityFallback b,
                   match affinity_policy with
                   | HeaderHash _ BalanceHealthy | CookieHash _ BalanceHealthy => Ok None
                   end)
              end
          end
      end
  | _, _ => (b, Ok None)
  end.

Definition select_by_algorithm (b : UpstreamBalancer) (name : string)
    (policy : UpstreamSelectionPolicy) (context : SelectionContext)
    (candidates : list EndpointSelectionCandidate) (fallback_used : bool) :
    UpstreamBalancer * option EndpointSelectionCandidate :=
  match policy.(sp_algorithm) with
  | RoundRobin =>
      select_round_robin (bump_metric RoundRobinSelection b) name candidates fallback_used
  | WeightedRoundRobin =>
      select_weighted_round_robin (bump_metric WeightedRoundRobinSelection b) name candidates
        fallback_used
  | PowerOfTwoChoices =>
      (bump_metric PowerOfTwoSelection b, select_power_of_two candidates context.(request_hash))
  end.

Definition selected_endpoint (c : EndpointSelectionCandidate) (locality_matched : bool) :
    SelectedEndpoint :=
  {| se_cluster_name := c.(sc_cluster_name); se_endpoint_id := c.(sc_endpoint_id);
     se_address := c.(sc_address); se_effective_weight := c.(sc_health).(hs_effective_weight);
     se_health_status := c.(sc_health).(hs_status); se_locality_matched := locality_matched |}.

(** The candidates to choose from, and whether the unhealthy fallback is used. *)
Definition gather_candidates (b : UpstreamBalancer) (registry : H) (name : string)
    (policy : UpstreamSelectionPolicy) :
    UpstreamBalancer *
    Result (list EndpointSelectionCandidate * bool) UpstreamSelectionError :=
  match candidates_of registry name false with
  | Err error => (b, Err (Health error))
  | Ok [] =>
      let b := bump_metric NoHealthyEndpoint b in
      match policy.(sp_no_healthy_fallback) with
      | IncludeUnhealthy =>
          match candidates_of registry name true with
          | Err error => (b, Err (Health error))
          | Ok candidates => (b, Ok (candidates, true))
          end
      | Fallback_Fail => (b, Ok ([], false))
      end
  | Ok candidates => (b, Ok (candidates, false))
  end.

(** [None] stands for a panic. *)
Definition UpstreamBalancer_select_endpoint (b : UpstreamBalancer) (registry : H)
    (name : string) (policy : UpstreamSelectionPolicy) (context : SelectionContext) :
    UpstreamBalancer * option (Result SelectedEndpoint UpstreamSelectionError) :=
  match gather_candidates b registry name policy with
  | (b, Err error) => (b, Some (Err error))
  | (b, Ok ([], _)) => (b, Some (Err (NoEligibleEndpoints name)))
  | (b, Ok (candidates, fallback_used)) =>
      let '(candidates, locality_matched) :=
        apply_locality_preference candidates policy context in
      let b := if (locality_matched : bool) then bump_metric LocalityHit b else b in
      match try_select_affinity_candidate b registry name policy context candidates with
      | (b, Err error) => (b, Some (Err error))
      | (b, Ok affinity) =>
          let '(b, selected) :=
            match affinity with
            | Some selected => (b, Some selected)
            | None => select_by_algorithm b name policy context candidates fallback_used
            end in
          match selected with
          | None => (b, None)
          | Some c =>
              let b := if (fallback_used : bool) then bump_metric UnhealthyFallback b else b in
              (b, Some (Ok (selected_endpoint c locality_matched)))
          end
      end
  end.
End select_endpoint.

(** ** The health registry is a candidate source *)

#[export] Instance health_candidate_source_laws : CandidateSourceLaws UpstreamHealthRegistry.
Proof.
  assert (Hcases : ∀ h name inc, health_inv h →
    match EndpointRegistry_cluster h.(uh_registry) name with
    | Some c => ∃ l, UpstreamHealthRegistry_selection_candidates h name inc = Ok l ∧
         StronglySorted (λ x y, str_lt x.(sc_endpoint_id) y.(sc_endpoint_id)) l ∧
         ∀ x, x ∈ l ↔ ∃ e r, e ∈ c.(endpoints) ∧ h.(uh_records) !! (name, e.(ep_id)) = Some r ∧
                EndpointState_is_ready e.(ep_state) = true ∧
                selection_allowed inc r.(hr_status) = true ∧ x = candidate h name e r
    | None => UpstreamHealthRegistry_selection_candidates h name inc =
                Err (Registry (ClusterNotFound name))
    end).
  { intros h name inc Hh. destruct (EndpointRegistry_cluster _ _) as [c|] eqn:Hc.
    - by apply selection_candidates_ok.
    - unfold UpstreamHealthRegistry_selection_candidates. by rewrite Hc. }
  split; simpl.
  - intros h name inc l Hh Hl. specialize (Hcases h name inc Hh).
    destruct (EndpointRegistry_cluster _ _); [|congruence].
    destruct Hcases as (l' & Hl' & Hs & _). rewrite Hl in Hl'. by injection Hl' as <-.
  - intros h name inc l x Hh Hl Hx. specialize (Hcases h name inc Hh).
    destruct (EndpointRegistry_cluster _ _); [|congruence].
    destruct Hcases as (l' & Hl' & _ & Hm). rewrite Hl in Hl'. injection Hl' as <-.
    apply Hm in Hx as (e & r & _ & _ & _ & Hall & ->). done.
  - intros h name Hh. pose proof (Hcases h name false Hh) as Hf. specialize (Hcases h name true Hh).
    destruct (EndpointRegistry_cluster _ _).
    + destruct Hf as (? & -> & _), Hcases as (? & -> & _). done.
    + by rewrite Hf, Hcases.
  - intros h name l1 l2 Hh H1 H2 x Hx. pose proof (Hcases h name false Hh) as Hf.
    specialize (Hcases h name true Hh). destruct (EndpointRegistry_cluster _ _); [|congruence].
    destruct Hf as (l1' & Hl1 & _ & Hm1), Hcases as (l2' & Hl2 & _ & Hm2).
    rewrite H1 in Hl1. injection Hl1 as <-. rewrite H2 in Hl2. injection Hl2 as <-.
    apply Hm1 in Hx as (e & r & He & Hr & Hready & Hall & ->). apply Hm2.
    exists e, r. split_and!; try done. unfold selection_allowed in *. simpl in *.
    rewrite orb_false_r in Hall. by rewrite Hall.
Qed.

(** ** Theorems: locality *)

(** A candidate in the locality or zone the caller prefers. *)
Definition preferred (policy : UpstreamSelectionPolicy) (context : SelectionContext)
    (c : EndpointSelectionCandidate) : bool :=
  let in_locality := match context.(preferred_locality) with
                     | Some l => locality_is l c | None => false end in
  let in_zone := match context.(preferred_zone) with
                 | Some z => zone_is z c | None => false end in
  match policy.(sp_locality) with
  | Locality_Disabled => false
  | PreferLocality => in_locality
  | PreferZone => in_zone
  | PreferLocalityThenZone => in_locality || in_zone
  end.

Definition narrows (pred : EndpointSelectionCandidate → bool)
    (l : list EndpointSelectionCandidate) (r : list EndpointSelectionCandidate * bool) : Prop :=
  r.1 `sublist_of` l ∧ (l ≠ [] → r.1 ≠ []) ∧
  (if r.2 then ∀ c, c ∈ r.1 → pred c = true else r.1 = l ∧ ∀ c, c ∈ l → pred c = false).

Lemma sublist_filter_bool (f : EndpointSelectionCandidate → bool) l :
  filter (λ c, f c = true) l `sublist_of` l.
Proof.
  induction l as [|x l IH]; [done|]. rewrite filter_cons.
  case_decide; [by apply sublist_skip | by apply sublist_cons].
Qed.

Lemma prefer_by_field_narrows l f : narrows f l (prefer_by_field l f).
Proof.
  unfold prefer_by_field, narrows. pose proof (sublist_filter_bool f l) as Hsub.
  destruct (filter _ l) as [|x l'] eqn:E; simpl.
  - split_and!; try done. intros c Hc. destruct (f c) eqn:Ef; [|done].
    assert (Hin : c ∈ filter (λ c, f c = true) l) by by apply list_elem_of_filter.
    rewrite E in Hin. by apply elem_of_nil in Hin.
  - split_and!; try done. intros c Hc. rewrite <- E in Hc. apply list_elem_of_filter in Hc as [Hc _]. exact Hc.
Qed.

Lemma narrows_none (l : list EndpointSelectionCandidate) : narrows (λ _, false) l (l, false).
Proof. by split_and!. Qed.

Lemma narrows_ext f g l r : (∀ c, f c = g c) → narrows f l r → narrows g l r.
Proof.
  intros Hfg (? & ? & Hr). split_and!; try done. destruct r.2.
  - intros c Hc. rewrite <- Hfg. auto.
  - destruct Hr as [? Hr]. split; [done|]. intros c Hc. rewrite <- Hfg. auto.
Qed.

Lemma apply_locality_narrows l policy context :
  narrows (preferred policy context) l (apply_locality_preference l policy context).
Proof.
  unfold apply_locality_preference, preferred.
  set (by_zone := match context.(preferred_zone) with
                  | Some z => prefer_by_field l (zone_is z) | None => (l, false) end).
  assert (Hzone : narrows (λ c, match context.(preferred_zone) with
                                | Some z => zone_is z c | None => false end) l by_zone).
  { unfold by_zone. destruct (preferred_zone context);
      [apply prefer_by_field_narrows | apply narrows_none]. }
  destruct policy.(sp_locality); [apply narrows_none| | done |].
  - destruct (preferred_locality context); [apply prefer_by_field_narrows | apply narrows_none].
  - destruct (preferred_locality context) as [loc|]; [|done].
    pose proof (prefer_by_field_narrows l (locality_is loc)) as (Hs & Hn & Hl).
    destruct (prefer_by_field l (locality_is loc)) as [l' []]; simpl in *.
    + split_and!; try done. simpl. intros c Hc. by rewrite Hl.
    + destruct Hl as [_ Hl], Hzone as (Hzs & Hzn & Hz). split_and!; try done. destruct by_zone.2.
      * intros c Hc. rewrite Hz by done. apply orb_true_r.
      * destruct Hz as [? Hz]. split; [done|]. intros c Hc. by rewrite Hl, Hz.
Qed.

(** ** Theorems: the algorithms choose a candidate *)

Lemma mod_lookup {A} (l : list A) (i : nat) : l ≠ [] → ∃ x, l !! (i mod length l)%nat = Some x ∧ x ∈ l.
Proof.
  intros Hl. destruct (lookup_lt_is_Some_2 l (i mod length l)) as [x Hx].
  { apply Nat.mod_upper_bound. by destruct l. }
  exists x. split; [done|]. by eapply list_elem_of_lookup_2.
Qed.

Lemma select_round_robin_some b name l fb :
  l ≠ [] → ∃ c, (select_round_robin b name l fb).2 = Some c ∧ c ∈ l.
Proof. intros Hl. by apply mod_lookup. Qed.

Lemma mod_lookup_N {A} (l : list A) (i : N) :
  l ≠ [] → ∃ x, l !! N.to_nat (i mod N.of_nat (length l)) = Some x ∧ x ∈ l.
Proof.
  intros Hl. destruct (lookup_lt_is_Some_2 l (N.to_nat (i mod N.of_nat (length l)))) as [x Hx].
  { assert (i mod N.of_nat (length l) < N.of_nat (length l)); [|lia].
    apply N.mod_lt. destruct l; simpl; [done|lia]. }
  exists x. split; [done|]. by eapply list_elem_of_lookup_2.
Qed.

(** The two candidates power-of-two compares are at distinct positions. *)
Lemma select_power_of_two_cases l hash :
  (2 ≤ length l)%nat →
  ∃ i j c d, i ≠ j ∧ l !! i = Some c ∧ l !! j = Some d ∧
    select_power_of_two l hash = Some c ∧ compare_candidates c d ≠ Lt ∨
    i ≠ j ∧ l !! i = Some c ∧ l !! j = Some d ∧
    select_power_of_two l hash = Some c ∧ compare_candidates d c = Lt.
Proof.
  intros Hlen. unfold select_power_of_two. cbv zeta. rewrite decide_False by lia.
  set (n := N.of_nat (length l)). assert (Hn : 2 ≤ n) by (unfold n; lia).
  set (i := mix64 hash mod n). set (j0 := mix64 (N.lxor hash GOLDEN) mod n).
  set (j := if decide (j0 = i) then (j0 + 1) mod n else j0).
  assert (Hi : i < n) by (apply N.mod_lt; lia). assert (Hj0 : j0 < n) by (apply N.mod_lt; lia).
  assert (Hj : j < n) by (unfold j; case_decide; [apply N.mod_lt; lia | done]).
  assert (Hij : i ≠ j).
  { unfold j. case_decide as E; [|done]. rewrite E. intros Heq.
    destruct (decide (i + 1 = n)) as [En|]; [rewrite En, N.Div0.mod_same in Heq; lia|].
    rewrite N.mod_small in Heq by lia. lia. }
  destruct (lookup_lt_is_Some_2 l (N.to_nat i)) as [c Hc]; [unfold n in *; lia|].
  destruct (lookup_lt_is_Some_2 l (N.to_nat j)) as [d Hd]; [unfold n in *; lia|].
  rewrite Hc, Hd. destruct (compare_candidates c d) eqn:E.
  - exists (N.to_nat i), (N.to_nat j), c, d. left. split_and!; try done; [lia | by rewrite E].
  - exists (N.to_nat j), (N.to_nat i), d, c. right. split_and!; try done; lia.
  - exists (N.to_nat i), (N.to_nat j), c, d. left. split_and!; try done; [lia | by rewrite E].
Qed.

Lemma select_power_of_two_some l hash :
  l ≠ [] → ∃ c, select_power_of_two l hash = Some c ∧ c ∈ l.
Proof.
  intros Hl. destruct (decide (length l = 1%nat)) as [E|E].
  - unfold select_power_of_two. rewrite decide_True by done.
    destruct l as [|x l]; [done|]. exists x. split; [done|left].
  - destruct (select_power_of_two_cases l hash) as (i & j & c & d & [(_ & Hc & _ & Hs & _)|(_ & Hc & _ & Hs & _)]).
    { destruct l as [|? []]; simpl in *; [done | done | lia]. }
    all: exists c; split; [done|]; by eapply list_elem_of_lookup_2.
Qed.

(** ** Theorems: weighted round-robin *)

Definition cand_ids (l : list EndpointSelectionCandidate) : list string := sc_endpoint_id <$> l.

Lemma length_cand_ids l : length (cand_ids l) = length l.
Proof. apply length_fmap. Qed.

(** The weight of a candidate by its id. *)
Abbreviation weight_of := (keyed_weight sc_endpoint_id wrr_weight).

Lemma wrr_weight_pos c : (0 < wrr_weight c)%Z.
Proof. unfold wrr_weight. lia. Qed.

Lemma weight_of_elem l c :
  NoDup (cand_ids l) → c ∈ l → weight_of l c.(sc_endpoint_id) = wrr_weight c.
Proof. apply keyed_weight_elem. Qed.

Lemma weight_of_pos l id : id ∈ cand_ids l → (0 < weight_of l id)%Z.
Proof. apply keyed_weight_pos. intros; apply wrr_weight_pos. Qed.

Lemma total_weight_of l : NoDup (cand_ids l) → total (cand_ids l) (weight_of l) = wrr_total l.
Proof. apply total_keyed_weight. Qed.

(** The current weights as a function. *)
Definition current (m : gmap string Z) (id : string) : Z := default 0%Z (m !! id).

(** Result of the loop: every weight is raised, and the best candidate is one with
    the largest raised weight. *)
Lemma wrr_loop_spec l : ∀ m best,
  NoDup (cand_ids l) →
  let '(m', best') := wrr_loop l m best in
  (∀ id, m' !! id = if decide (id ∈ cand_ids l) then Some (current m id + weight_of l id)%Z
                    else m !! id) ∧
  match best' with
  | None => best = None ∧ l = []
  | Some (c, cur) =>
      (best' = best ∨ c ∈ l ∧ cur = (current m c.(sc_endpoint_id) + wrr_weight c)%Z) ∧
      (∀ id, id ∈ cand_ids l → (current m id + weight_of l id ≤ cur)%Z) ∧
      (∀ c0 cur0, best = Some (c0, cur0) → (cur0 ≤ cur)%Z)
  end.
Proof.
  induction l as [|c l IH]; intros m best Hnd; cbn [wrr_loop].
  { split; [intros id; rewrite decide_False by apply not_elem_of_nil; done|].
    destruct best as [[c cur]|]; [|done]. split_and!; [by left | | by intros ? ? [= <- <-]].
    intros id Hid. by apply elem_of_nil in Hid. }
  apply NoDup_cons in Hnd as [Hc Hnd].
  set (cur := (default 0 (m !! c.(sc_endpoint_id)) + wrr_weight c)%Z).
  set (best1 := match best with None => _ | Some _ => _ end).
  specialize (IH (<[c.(sc_endpoint_id) := cur]> m) best1 Hnd).
  destruct (wrr_loop l _ best1) as [m' best']. destruct IH as [Hm Hb].
  assert (Hother : ∀ id, id ∈ cand_ids l →
    current (<[c.(sc_endpoint_id) := cur]> m) id = current m id ∧ c.(sc_endpoint_id) ≠ id).
  { intros id Hid. assert (c.(sc_endpoint_id) ≠ id) by by intros <-.
    split; [|done]. unfold current. by rewrite lookup_insert_ne. }
  assert (Hbest1 : ∃ c1 cur1, best1 = Some (c1, cur1) ∧ (cur ≤ cur1)%Z ∧
            (∀ c0 cur0, best = Some (c0, cur0) → (cur0 ≤ cur1)%Z) ∧
            (best1 = best ∨ c1 = c ∧ cur1 = cur)).
  { unfold best1. destruct best as [[c0 cur0]|].
    - case_decide.
      + exists c, cur. split_and!; try done; [| by right]. intros ? ? [= <- <-]. lia.
      + exists c0, cur0. split_and!; try done; [lia | | by left]. by intros ? ? [= <- <-].
    - exists c, cur. split_and!; try done. by right. }
  destruct Hbest1 as (c1 & cur1 & E1 & Hcur & Hbest & Hwho).
  split.
  - intros id. rewrite Hm. cbn [cand_ids fmap list_fmap keyed_weight].
    destruct (decide (id ∈ cand_ids l)) as [Hin|Hin].
    + destruct (Hother id Hin) as [-> Hne]. rewrite decide_True by by right.
      by rewrite decide_False.
    + destruct (decide (c.(sc_endpoint_id) = id)) as [<-|Hne].
      * rewrite decide_True by left. by rewrite lookup_insert_eq.
      * rewrite decide_False by (intros [->|?]%elem_of_cons; done). by rewrite lookup_insert_ne.
  - rewrite E1 in Hb. destruct best' as [[c' cur']|]; [|by destruct Hb].
    destruct Hb as (Hw & Hle & Hge). specialize (Hge c1 cur1 eq_refl). split_and!.
    + destruct Hw as [[= <- <-]|[Hin ->]].
      * rewrite <- E1. destruct Hwho as [->|[-> ->]]; [by left|]. right. split; [left|done].
      * right. split; [by right|]. f_equal. apply Hother. by apply list_elem_of_fmap_2.
    + intros id Hid. cbn [keyed_weight]. apply elem_of_cons in Hid as [->|Hid].
      * rewrite decide_True by done. unfold current. fold cur. lia.
      * destruct (Hother id Hid) as [E Hne]. rewrite decide_False by done. rewrite <- E.
        by apply Hle.
    + intros c0 cur0 E. specialize (Hbest c0 cur0 E). lia.
Qed.

Definition wrr_current (b : UpstreamBalancer) (key : ClusterCursorKey) (id : string) : Z :=
  current (default WeightedState_default (b.(weighted_states) !! key)).(ws_current_weights) id.

(** One selection is a round of smooth weighted round-robin. *)
Lemma select_weighted_round_robin_step b name l fb :
  l ≠ [] → NoDup (cand_ids l) →
  let '(b', selected) := select_weighted_round_robin b name l fb in
  ∃ c, selected = Some c ∧ c ∈ l ∧
       wrr_step (cand_ids l) (weight_of l) (wrr_current b (name, fb)) c.(sc_endpoint_id)
         (wrr_current b' (name, fb)).
Proof.
  intros Hl Hnd. unfold select_weighted_round_robin.
  set (st := default WeightedState_default (b.(weighted_states) !! (name, fb))).
  set (m := filter _ st.(ws_current_weights)).
  assert (Hcur : ∀ id, id ∈ cand_ids l → current m id = wrr_current b (name, fb) id).
  { intros id Hid. unfold wrr_current, current, m. fold st. rewrite map_lookup_filter.
    destruct (st.(ws_current_weights) !! id); simpl; [|done]. by rewrite option_guard_True. }
  pose proof (wrr_loop_spec l m None Hnd) as Hspec.
  destruct (wrr_loop l m None) as [m' best]. destruct Hspec as [Hm Hb].
  destruct best as [[c cur]|]; [|by destruct Hb].
  destruct Hb as ([?|[Hc ->]] & Hle & _); [done|].
  exists c. split_and!; [done..|].
  assert (Hcid : c.(sc_endpoint_id) ∈ cand_ids l) by by apply list_elem_of_fmap_2.
  split_and!; [done| |].
  - intros j Hj. rewrite <- (Hcur j Hj), <- (Hcur _ Hcid), (weight_of_elem l c) by done. by apply Hle.
  - intros j Hj. unfold wrr_current at 1. simpl. rewrite lookup_insert_eq. simpl.
    rewrite <- (Hcur j Hj), total_weight_of by done. unfold current.
    assert (Hmj : m' !! j = Some (current m j + weight_of l j)%Z) by by rewrite Hm, decide_True.
    destruct (decide (j = c.(sc_endpoint_id))) as [->|Hne].
    + by rewrite lookup_alter_eq, Hmj.
    + rewrite lookup_alter_ne, Hmj by done. unfold current. simpl. lia.
Qed.

(** [n] consecutive selections over the same candidates. *)
Fixpoint wrr_select_n (n : nat) (b : UpstreamBalancer) (name : string)
    (l : list EndpointSelectionCandidate) (fb : bool) :
    UpstreamBalancer * list EndpointSelectionCandidate :=
  match n with
  | O => (b, [])
  | S n =>
      let '(b, selected) := select_weighted_round_robin b name l fb in
      let '(b, rest) := wrr_select_n n b name l fb in
      (b, match selected with Some c => c :: rest | None => rest end)
  end.

Lemma wrr_select_n_run n l name fb : l ≠ [] → NoDup (cand_ids l) → ∀ b,
  let '(b', picks) := wrr_select_n n b name l fb in
  length picks = n ∧ picks ⊆ l ∧
  wrr_run (cand_ids l) (weight_of l) (wrr_current b (name, fb)) (cand_ids picks)
    (wrr_current b' (name, fb)).
Proof.
  intros Hl Hnd. induction n as [|n IH]; intros b; cbn [wrr_select_n].
  { split_and!; [done | by intros x ?%elem_of_nil | constructor]. }
  pose proof (select_weighted_round_robin_step b name l fb Hl Hnd) as Hstep.
  destruct (select_weighted_round_robin b name l fb) as [b1 selected].
  destruct Hstep as (c & -> & Hc & Hstep). specialize (IH b1).
  destruct (wrr_select_n n b1 name l fb) as [b2 picks]. destruct IH as (Hlen & Hsub & Hrun).
  split_and!.
  - simpl. by rewrite Hlen.
  - intros x [->|Hx]%elem_of_cons; [done | by apply Hsub].
  - simpl. by econstructor.
Qed.

(** How often an endpoint was selected. *)
Definition times (id : string) (picks : list EndpointSelectionCandidate) : Z :=
  picked id (cand_ids picks).

(** The effective weights are [u16] values, and there are at most 2^23 candidates. *)
Definition candidates_typed (l : list EndpointSelectionCandidate) : Prop :=
  Forall (λ c, c.(sc_health).(hs_effective_weight) ≤ u16_max) l ∧ (Z.of_nat (length l) ≤ 2 ^ 23)%Z.

Lemma wrr_total_bound l :
  Forall (λ c, c.(sc_health).(hs_effective_weight) ≤ u16_max) l →
  (0 ≤ wrr_total l ≤ Z.of_nat (length l) * 65535)%Z.
Proof.
  induction 1 as [|c l Hc _ IH]; [done|]. cbn [wrr_total foldr length].
  fold (wrr_total l). unfold wrr_weight, u16_max in *. lia.
Qed.

(** C2: weighted round-robin is exact.  Over unchanged candidates with distinct ids,
    from a fresh cursor: (1) after any number [n] of selections no endpoint has had a
    whole selection more than its share [n * weight / total], and no current weight
    leaves the range of [i64], also after the next increment; (2) a full round of
    [total] selections picks every endpoint exactly as often as its effective weight
    (at least once), and the current weights are then all zero again. *)
Theorem weighted_round_robin_exact (b : UpstreamBalancer) (name : string) (fb : bool)
  (l : list EndpointSelectionCandidate)
  (Hl : l ≠ []) (Hnd : NoDup (cand_ids l)) (Htyped : candidates_typed l)
  (Hfresh : b.(weighted_states) !! (name, fb) = None) :
  (∀ n c, c ∈ l →
     let '(b', picks) := wrr_select_n n b name l fb in
     (wrr_total l * times c.(sc_endpoint_id) picks < Z.of_nat n * wrr_weight c + wrr_total l)%Z ∧
     (- 2 ^ 63 ≤ wrr_current b' (name, fb) c.(sc_endpoint_id) < 2 ^ 63 - wrr_weight c)%Z) ∧
  (∀ c, c ∈ l →
     let '(b', picks) := wrr_select_n (Z.to_nat (wrr_total l)) b name l fb in
     times c.(sc_endpoint_id) picks = wrr_weight c ∧
     wrr_current b' (name, fb) c.(sc_endpoint_id) = 0%Z).
Proof.
  assert (Hz : ∀ j, j ∈ cand_ids l → wrr_current b (name, fb) j = 0%Z).
  { intros j _. unfold wrr_current. rewrite Hfresh. done. }
  assert (Hpos : ∀ j, j ∈ cand_ids l → (0 < weight_of l j)%Z) by (intros; by apply weight_of_pos).
  split; intros; [rename H into Hc|rename H into Hc];
    assert (Hcid : c.(sc_endpoint_id) ∈ cand_ids l) by by apply list_elem_of_fmap_2.
  - pose proof (wrr_select_n_run n l name fb Hl Hnd b) as Hrun.
    destruct (wrr_select_n n b name l fb) as [b' picks]. destruct Hrun as (Hlen & _ & Hrun).
    pose proof (wrr_share _ _ Hnd Hpos _ _ _ _ Hrun Hz Hcid) as Hs.
    pose proof (wrr_run_ok _ _ Hnd Hpos _ _ _ (wrr_ok_zero _ _ Hpos _ _ Hcid Hz) Hrun) as Hok.
    pose proof (wrr_magnitude _ _ Hpos _ _ Hok Hcid) as Hm. rewrite length_cand_ids in Hs, Hm.
    rewrite total_weight_of, weight_of_elem in Hs by done. rewrite total_weight_of in Hm by done.
    split; [by rewrite Hlen in Hs|]. destruct Htyped as [Hw Hn].
    pose proof (wrr_total_bound l Hw). rewrite Forall_forall in Hw. specialize (Hw c Hc).
    unfold wrr_weight, u16_max in *. nia.
  - pose proof (wrr_select_n_run (Z.to_nat (wrr_total l)) l name fb Hl Hnd b) as Hrun.
    destruct (wrr_select_n _ b name l fb) as [b' picks]. destruct Hrun as (Hlen & _ & Hrun).
    destruct (wrr_round _ _ Hnd Hpos _ _ _ Hrun Hz) with (j := c.(sc_endpoint_id)) as [H1 H2]; [|done|].
    + rewrite length_cand_ids, Hlen, total_weight_of by done.
      pose proof (total_pos _ _ Hpos _ Hcid) as Ht. rewrite total_weight_of in Ht by done. lia.
    + by rewrite weight_of_elem in H1.
Qed.

Definition example_candidate (id : string) (w : N) : EndpointSelectionCandidate :=
  {| sc_cluster_name := "payments"; sc_endpoint_id := id;
     sc_address := {| sa_ip := IpAddr_V4 LOCALHOST; sa_port := 8080 |};
     sc_metadata := {| zone := Some "z1"; locality := None; weight := w |};
     sc_health := {| hs_status := Healthy; hs_active_failures := 0; hs_passive_failures := 0;
       hs_recovery_successes := 0; hs_effective_weight := w; hs_remaining_ejection := None;
       hs_remaining_warmup := None; hs_passive_failures_by_protocol := ∅ |} |}.

Definition example_candidates : list EndpointSelectionCandidate :=
  [example_candidate "a" 5; example_candidate "b" 1; example_candidate "c" 2].

Lemma weighted_round_robin_exact_witness :
  let '(b', picks) := wrr_select_n (Z.to_nat (wrr_total example_candidates)) UpstreamBalancer_new
                        "payments" example_candidates false in
  times "a" picks = wrr_weight (example_candidate "a" 5) ∧
  wrr_current b' ("payments", false) "a" = 0%Z.
Proof.
  apply (weighted_round_robin_exact UpstreamBalancer_new "payments" false example_candidates)
    with (c := example_candidate "a" 5).
  - discriminate.
  - apply (bool_decide_unpack _). vm_compute. exact I.
  - split; [by repeat constructor | vm_compute; discriminate].
  - reflexivity.
  - left.
Defined.

(** ** Theorems: round-robin *)

Fixpoint rr_select_n (n : nat) (b : UpstreamBalancer) (name : string)
    (l : list EndpointSelectionCandidate) (fb : bool) :
    UpstreamBalancer * list (option EndpointSelectionCandidate) :=
  match n with
  | O => (b, [])
  | S n =>
      let '(b, selected) := select_round_robin b name l fb in
      let '(b, rest) := rr_select_n n b name l fb in
      (b, selected :: rest)
  end.

Definition rr_cursor (b : UpstreamBalancer) (name : string) (fb : bool) : nat :=
  default 0%nat (b.(round_robin_cursors) !! (name, fb)).

Lemma select_round_robin_cursor b name l fb :
  rr_cursor (select_round_robin b name l fb).1 name fb =
    ((rr_cursor b name fb + 1) mod length l)%nat.
Proof. unfold rr_cursor, select_round_robin. simpl. by rewrite lookup_insert_eq. Qed.

(** The picks of [n] rounds are consecutive positions. *)
Lemma rr_select_n_lookup n l name fb : l ≠ [] → ∀ b,
  (rr_select_n n b name l fb).2 =
    (λ i, l !! ((rr_cursor b name fb + i) mod length l)%nat) <$> seq 0 n.
Proof.
  intros Hl. assert (Hlen : length l ≠ 0%nat) by by destruct l.
  induction n as [|n IH]; intros b; [done|]. cbn [rr_select_n].
  pose proof (select_round_robin_cursor b name l fb) as Hcur.
  assert (Hsel : (select_round_robin b name l fb).2 =
                 l !! (rr_cursor b name fb mod length l)%nat) by done.
  destruct (select_round_robin b name l fb) as [b1 sel]. simpl in Hcur, Hsel.
  specialize (IH b1). destruct (rr_select_n n b1 name l fb) as [b2 rest]. simpl in IH |- *.
  rewrite Nat.add_0_r, Hsel, IH. f_equal. rewrite <- fmap_S_seq, <- list_fmap_compose.
  apply list_fmap_ext. intros _ i _. simpl. f_equal.
  rewrite Hcur, Nat.Div0.add_mod_idemp_l. f_equal. lia.
Qed.

Lemma rotation_perm {A} (l : list A) k :
  l ≠ [] → (λ i, l !! ((k + i) mod length l)%nat) <$> seq 0 (length l) ≡ₚ Some <$> l.
Proof.
  intros Hl. assert (Hlen : length l ≠ 0%nat) by by destruct l.
  assert (E : (λ i, l !! ((k + i) mod length l)%nat) <$> seq 0 (length l) = Some <$> rotate k l).
  { apply (list_eq_same_length _ _ (length l));
      [by rewrite length_fmap, length_rotate | by rewrite length_fmap, length_seq |].
    intros i x y Hi. rewrite !list_lookup_fmap, lookup_seq_lt, lookup_rotate_r by done. simpl.
    intros [= <-]. destruct (l !! _) eqn:El; simpl; [|done]. intros [= <-]. rewrite <- El. f_equal.
    unfold rotate_nat_add. by rewrite <- Nat2Z.inj_add, <- Nat2Z.inj_mod, Nat2Z.id. }
  rewrite E. unfold rotate. apply fmap_Permutation.
  rewrite Permutation_app_comm. by rewrite take_drop.
Qed.

(** Round-robin is fair: over unchanged candidates, wherever the cursor stands
    (also when it was left by a longer candidate list), every run of as many
    selections as there are candidates selects each candidate exactly once. *)
Theorem round_robin_fair (b : UpstreamBalancer) (name : string) (fb : bool)
  (l : list EndpointSelectionCandidate) (Hl : l ≠ []) :
  (rr_select_n (length l) b name l fb).2 ≡ₚ Some <$> l.
Proof. rewrite rr_select_n_lookup by done. by apply rotation_perm. Qed.

Lemma round_robin_fair_witness :
  (rr_select_n 3 (set_cursors UpstreamBalancer_new {[("payments", false) := 7%nat]})
     "payments" example_candidates false).2 ≡ₚ Some <$> example_candidates.
Proof.
  apply (round_robin_fair (set_cursors UpstreamBalancer_new {[("payments", false) := 7%nat]})
    "payments" false example_candidates). discriminate.
Defined.

(** ** Theorems: power of two choices *)

#[export] Instance score_cmp_lawful : LawfulCmp score_cmp.
Proof.
  pose proof (lex_cmp_lawful (lex_cmp N.compare N.compare) N.compare) as HL.
  assert (E : ∀ a b : N * N * N, score_cmp a b =
    then_with (then_with (a.1.1 ?= b.1.1) (a.1.2 ?= b.1.2)) (a.2 ?= b.2)).
  { intros a b. unfold score_cmp. by destruct (a.1.1 ?= b.1.1). }
  split.
  - intros a. rewrite E. apply (cmp_refl (LawfulCmp := HL)).
  - intros a b. rewrite E. apply (cmp_eq (LawfulCmp := HL)).
  - intros a b. rewrite !E. apply (cmp_antisym (LawfulCmp := HL)).
  - intros a b c. rewrite !E. apply (cmp_lt_trans (LawfulCmp := HL)).
Qed.

Lemma compare_candidates_antisym c d :
  compare_candidates d c = CompOpp (compare_candidates c d).
Proof.
  unfold compare_candidates. rewrite (cmp_antisym (candidate_score c) (candidate_score d)).
  rewrite (cmp_antisym d.(sc_endpoint_id) c.(sc_endpoint_id)).
  by destruct (score_cmp _ _).
Qed.

(** With two or more candidates of distinct ids, power-of-two selection returns
    the better of two different candidates, by health status, then effective weight,
    then nominal weight, then the smaller id; hence it never returns a candidate that ranks below all the
    others, whatever the request hash. *)
Theorem power_of_two_avoids_worst (l : list EndpointSelectionCandidate) (hash : N)
  (Hlen : (2 ≤ length l)%nat) (Hnd : NoDup (cand_ids l)) :
  ∃ c d, c ∈ l ∧ d ∈ l ∧ c.(sc_endpoint_id) ≠ d.(sc_endpoint_id) ∧
    select_power_of_two l hash = Some c ∧ compare_candidates c d ≠ Lt ∧
    (∀ x, (∀ y, y ∈ l → y.(sc_endpoint_id) ≠ x.(sc_endpoint_id) → compare_candidates x y = Lt) →
          c ≠ x).
Proof.
  destruct (select_power_of_two_cases l hash Hlen) as (i & j & c & d & Hcases).
  assert (H : i ≠ j ∧ l !! i = Some c ∧ l !! j = Some d ∧
              select_power_of_two l hash = Some c ∧ compare_candidates c d ≠ Lt).
  { destruct Hcases as [?|(? & ? & ? & ? & Hlt)]; [done|]. split_and!; try done.
    rewrite compare_candidates_antisym, Hlt. done. }
  destruct H as (Hij & Hc & Hd & Hs & Hcmp). exists c, d.
  assert (Hdc : c.(sc_endpoint_id) ≠ d.(sc_endpoint_id)).
  { intros E. apply Hij. eapply (NoDup_lookup (cand_ids l)); [done| |];
      unfold cand_ids; rewrite list_lookup_fmap, ?Hc, ?Hd; simpl; by rewrite ?E. }
  split_and!; try done; try by eapply list_elem_of_lookup_2.
  intros x Hx ->. apply Hcmp, Hx; [by eapply list_elem_of_lookup_2 | done].
Qed.

Lemma power_of_two_avoids_worst_witness :
  ∃ c d, c ∈ example_candidates ∧ d ∈ example_candidates ∧ c.(sc_endpoint_id) ≠ d.(sc_endpoint_id) ∧
    select_power_of_two example_candidates 42 = Some c ∧ compare_candidates c d ≠ Lt.
Proof.
  destruct (power_of_two_avoids_worst example_candidates 42) as (c & d & H1 & H2 & H3 & H4 & H5 & _).
  - vm_compute. repeat constructor.
  - apply (bool_decide_unpack _). vm_compute. exact I.
  - exists c, d. split_and!; assumption.
Defined.

(** ** Theorems: hash mixing *)

(** The inverse of [value ^ (value >> s)] for [s >= 22]. *)
Definition unxor_shift (v s : N) : N := N.lxor (xor_shift v s) (N.shiftr v (2 * s)).

Lemma unxor_shift_spec v s : v < 2 ^ 64 → 22 ≤ s → unxor_shift (xor_shift v s) s = v.
Proof.
  intros Hv Hs. unfold unxor_shift, xor_shift. apply N.bits_inj. intros n.
  rewrite !N.lxor_spec, !N.shiftr_spec', !N.lxor_spec, !N.shiftr_spec'.
  assert (Hhigh : N.testbit v (n + 2 * s + s) = false).
  { destruct (decide (v = 0)) as [->|]; [apply N.bits_0|]. apply N.bits_above_log2.
    assert (N.log2 v < 64) by (apply N.log2_lt_pow2; lia). lia. }
  replace (n + s + s) with (n + 2 * s) by lia. rewrite Hhigh.
  destruct (N.testbit v n), (N.testbit v (n + s)), (N.testbit v (n + 2 * s)); done.
Qed.

Lemma xor_shift_bound v s : v < 2 ^ 64 → xor_shift v s < 2 ^ 64.
Proof.
  intros Hv. unfold xor_shift.
  destruct (decide (N.lxor v (N.shiftr v s) = 0)) as [->|Hne]; [done|].
  apply N.log2_lt_pow2; [lia|]. eapply N.le_lt_trans; [apply N.log2_lxor|].
  destruct (decide (v = 0)) as [->|]; [rewrite N.shiftr_0_l; done|].
  assert (N.log2 v < 64) by (apply N.log2_lt_pow2; lia).
  rewrite N.log2_shiftr. lia.
Qed.

Lemma wrapping_mul_inverse v a b :
  v < 2 ^ 64 → (a * b) mod 2 ^ 64 = 1 → wrapping_mul64 (wrapping_mul64 v a) b = v.
Proof.
  intros Hv Hab. unfold wrapping_mul64. change (u64_max + 1) with (2 ^ 64).
  rewrite N.Div0.mul_mod_idemp_l, <- N.mul_assoc, <- N.Div0.mul_mod_idemp_r, Hab, N.mul_1_r.
  by apply N.mod_small.
Qed.

Definition unmix64 (v : N) : N :=
  let v := unxor_shift v 31 in
  let v := unxor_shift (wrapping_mul64 v 3573116690164977347) 27 in
  let v := unxor_shift (wrapping_mul64 v 10871156337175269513) 30 in
  wrapping_add64 v (2 ^ 64 - GOLDEN).

Lemma unmix64_mix64 v : v < 2 ^ 64 → unmix64 (mix64 v) = v.
Proof.
  intros Hv. unfold unmix64, mix64. cbv zeta.
  assert (Hmul : ∀ x a, wrapping_mul64 x a < 2 ^ 64) by (intros; by apply N.mod_lt).
  assert (Hadd : ∀ x a, wrapping_add64 x a < 2 ^ 64) by (intros; by apply N.mod_lt).
  rewrite unxor_shift_spec by (done || apply Hmul).
  rewrite wrapping_mul_inverse by (apply xor_shift_bound, Hmul || (vm_compute; reflexivity)).
  rewrite unxor_shift_spec by (done || apply Hmul).
  rewrite wrapping_mul_inverse by (apply xor_shift_bound, Hadd || (vm_compute; reflexivity)).
  rewrite unxor_shift_spec by (done || apply Hadd).
  unfold wrapping_add64. change (u64_max + 1) with (2 ^ 64).
  rewrite N.Div0.add_mod_idemp_l. replace (v + GOLDEN + (2 ^ 64 - GOLDEN)) with (v + 1 * 2 ^ 64)
    by (unfold GOLDEN; lia).
  rewrite N.Div0.mod_add. by apply N.mod_small.
Qed.

(** The hash mixer is a permutation of the 64-bit integers: it has [unmix64] as
    its inverse, so distinct request hashes stay distinct before they are reduced to
    candidate indices. *)
Theorem mix64_injective (a b : N) (Ha : a ≤ u64_max) (Hb : b ≤ u64_max) (Hab : mix64 a = mix64 b) :
  a = b ∧ unmix64 (mix64 a) = a.
Proof.
  assert (Hlt : ∀ x, x ≤ u64_max → x < 2 ^ 64) by (unfold u64_max; lia).
  split; [|auto using unmix64_mix64].
  rewrite <- (unmix64_mix64 a), <- (unmix64_mix64 b) by auto. by rewrite Hab.
Qed.

Lemma mix64_injective_witness : unmix64 (mix64 123456789) = 123456789.
Proof.
  apply (mix64_injective 123456789 123456789); [vm_compute; discriminate.. | reflexivity].
Defined.

(** ** Theorems: affinity *)

Section affinity_theorems.
Context `{AffinityScoringLaws}.

(** Larger score first, then smaller endpoint id. *)
Definition affinity_cmp (key : string) (c d : EndpointSelectionCandidate) : comparison :=
  then_with (total_cmp (affinity_score key c) (affinity_score key d))
    (String.compare d.(sc_endpoint_id) c.(sc_endpoint_id)).

Lemma affinity_cmp_antisym key c d : affinity_cmp key d c = CompOpp (affinity_cmp key c d).
Proof.
  unfold affinity_cmp.
  rewrite (cmp_antisym (cmp := total_cmp) (affinity_score key c) (affinity_score key d)).
  rewrite (cmp_antisym d.(sc_endpoint_id) c.(sc_endpoint_id)). by destruct (total_cmp _ _).
Qed.

Lemma affinity_cmp_refl key c : affinity_cmp key c c = Eq.
Proof.
  unfold affinity_cmp. rewrite (cmp_refl (cmp := total_cmp)). simpl.
  apply (cmp_refl (cmp := String.compare)).
Qed.

Lemma affinity_cmp_eq key c d : affinity_cmp key c d = Eq → c.(sc_endpoint_id) = d.(sc_endpoint_id).
Proof. unfold affinity_cmp. by destruct (total_cmp _ _); simpl; [intros ->%cmp_eq|..]. Qed.

Lemma affinity_cmp_le_trans key c d e :
  affinity_cmp key c d ≠ Gt → affinity_cmp key d e ≠ Gt → affinity_cmp key c e ≠ Gt.
Proof.
  set (k c := (affinity_score key c, c.(sc_endpoint_id))).
  assert (E : ∀ c d, affinity_cmp key c d =
    lex_cmp total_cmp (λ x y, String.compare y x) (k c) (k d)) by done.
  assert (LawfulCmp (λ x y, String.compare y x)).
  { split.
    - intros. apply cmp_refl.
    - intros a b Hab%cmp_eq. done.
    - intros a b. apply cmp_antisym.
    - intros a b x Hab Hbx. by eapply cmp_lt_trans. }
  rewrite !E. apply cmp_le_trans. apply _.
Qed.

Lemma affinity_loop_spec key l : ∀ best,
  let r := affinity_loop key best (affinity_score key best) l in
  r ∈ best :: l ∧ ∀ x, x ∈ best :: l → affinity_cmp key x r ≠ Gt.
Proof.
  induction l as [|c l IH]; intros best; cbn [affinity_loop].
  { split; [left|]. intros x ->%list_elem_of_singleton. by rewrite affinity_cmp_refl. }
  set (better := match total_cmp _ _ with Gt => _ | _ => _ end).
  assert (Hb : if better then affinity_cmp key best c ≠ Gt else affinity_cmp key c best ≠ Gt).
  { unfold better, affinity_cmp.
    rewrite (cmp_antisym (cmp := total_cmp) (affinity_score key c) (affinity_score key best)).
    destruct (total_cmp (affinity_score key c) (affinity_score key best)) eqn:E; simpl; try done.
    case_bool_decide as Hlt; simpl; [unfold str_lt in Hlt; by rewrite Hlt|].
    intros Hgt. apply Hlt. unfold str_lt. by apply (cmp_gt_lt String.compare). }
  destruct better.
  - destruct (IH c) as [Hin Hle]. split; [by right|].
    intros x [->|Hx]%elem_of_cons; [|by apply Hle].
    eapply affinity_cmp_le_trans; [exact Hb | apply Hle; left].
  - destruct (IH best) as [Hin Hle]. split.
    + apply elem_of_cons in Hin as [->|Hin]; [left | by do 2 right].
    + intros x [->|[->|Hx]%elem_of_cons]%elem_of_cons; [apply Hle; left| |apply Hle; by right].
      eapply affinity_cmp_le_trans; [exact Hb | apply Hle; left].
Qed.

Lemma affinity_loop_start key first l :
  affinity_loop key first NEG_INFINITY (first :: l) =
    affinity_loop key first (affinity_score key first) l.
Proof.
  cbn [affinity_loop]. pose proof (score_not_below key first.(sc_endpoint_id)
    (N.max first.(sc_health).(hs_effective_weight) 1)) as Hn. fold (affinity_score key first) in Hn.
  destruct (total_cmp (affinity_score key first) NEG_INFINITY) eqn:E; [|done|done].
  rewrite bool_decide_false by (unfold str_lt; by rewrite (cmp_refl (cmp := String.compare))).
  apply cmp_eq in E. by rewrite E.
Qed.

Lemma select_affinity_best key l c :
  select_affinity_candidate l key = Some c ↔
  ∃ first rest, l = first :: rest ∧ c = affinity_loop key first (affinity_score key first) rest.
Proof.
  destruct l as [|first rest]; simpl.
  - split; [done|]. by intros (? & ? & ? & _).
  - pose proof (affinity_loop_start key first rest) as E. cbn [affinity_loop] in E. rewrite E.
    naive_solver.
Qed.

Lemma select_affinity_max key l c :
  select_affinity_candidate l key = Some c → c ∈ l ∧ ∀ x, x ∈ l → affinity_cmp key x c ≠ Gt.
Proof. intros (first & rest & -> & ->)%select_affinity_best. apply affinity_loop_spec. Qed.

Lemma select_affinity_some key l : l ≠ [] → ∃ c, select_affinity_candidate l key = Some c.
Proof. destruct l; [done|]. simpl. eauto. Qed.

Lemma same_id_same_candidate l c d :
  NoDup (cand_ids l) → c ∈ l → d ∈ l → c.(sc_endpoint_id) = d.(sc_endpoint_id) → c = d.
Proof.
  intros Hnd [i Hi]%list_elem_of_lookup [j Hj]%list_elem_of_lookup E.
  assert (i = j); [|by simplify_eq].
  eapply (NoDup_lookup (cand_ids l)); [done| |];
    unfold cand_ids; rewrite list_lookup_fmap, ?Hi, ?Hj; simpl; by rewrite ?E.
Qed.

(** C8: affinity is rendezvous hashing with minimal disruption: the endpoint chosen
    for a key is the one of highest score, ties going to the smaller id; when other
    endpoints leave the candidate list, the key stays on its endpoint. *)
Theorem affinity_minimal_disruption (key : string) (l l' : list EndpointSelectionCandidate)
  (c : EndpointSelectionCandidate)
  (Hnd : NoDup (cand_ids l)) (Hsub : l' ⊆ l) (Hc : select_affinity_candidate l key = Some c)
  (Hstays : c ∈ l') :
  (∀ x, x ∈ l → x ≠ c → affinity_cmp key x c = Lt) ∧
  select_affinity_candidate l' key = Some c.
Proof.
  destruct (select_affinity_max key l c Hc) as [Hin Hmax]. split.
  - intros x Hx Hne. pose proof (Hmax x Hx) as Hle.
    destruct (affinity_cmp key x c) eqn:E; [|done|done].
    apply affinity_cmp_eq in E. by destruct (Hne (same_id_same_candidate l x c Hnd Hx Hin E)).
  - destruct (select_affinity_some key l') as [d Hd]; [by intros ->; apply elem_of_nil in Hstays|].
    destruct (select_affinity_max key l' d Hd) as [Hind Hmaxd].
    pose proof (Hmax d (Hsub d Hind)) as H1. pose proof (Hmaxd c Hstays) as H2.
    rewrite affinity_cmp_antisym in H2.
    assert (E : affinity_cmp key d c = Eq) by by destruct (affinity_cmp key d c).
    apply affinity_cmp_eq in E.
    by rewrite Hd, (same_id_same_candidate l d c Hnd (Hsub d Hind) Hin E).
Qed.
End affinity_theorems.

(** A concrete scoring over natural numbers. *)
#[local] Instance example_scoring : AffinityScoring :=
  {| F64 := N; total_cmp := N.compare; NEG_INFINITY := 0;
     score key id w := w * N.of_nat (length (bytes (key +:+ id))) |}.
#[local] Instance example_scoring_laws : AffinityScoringLaws.
Proof. split; [apply _|]. intros key id w. simpl. rewrite N.compare_lt_iff. lia. Qed.

Lemma affinity_minimal_disruption_witness :
  select_affinity_candidate [example_candidate "a" 5; example_candidate "c" 2] "session" =
    Some (example_candidate "a" 5).
Proof.
  apply (affinity_minimal_disruption "session" example_candidates).
  - apply (bool_decide_unpack _). vm_compute. exact I.
  - intros x. rewrite !elem_of_cons. intros [->|[->|[]%elem_of_nil]]; [left | do 2 right; left].
  - vm_compute. reflexivity.
  - left.
Defined.

(** ** Theorems: selection of an endpoint *)

Lemma sublist_cand_ids l l' : l' `sublist_of` l → cand_ids l' `sublist_of` cand_ids l.
Proof. induction 1; simpl; by constructor. Qed.

Lemma select_weighted_round_robin_some b name l fb :
  l ≠ [] → NoDup (cand_ids l) →
  ∃ c, (select_weighted_round_robin b name l fb).2 = Some c ∧ c ∈ l.
Proof.
  intros Hl Hnd. pose proof (select_weighted_round_robin_step b name l fb Hl Hnd) as Hs.
  destruct (select_weighted_round_robin b name l fb) as [b' sel]. destruct Hs as (c & -> & Hc & _).
  by exists c.
Qed.

Lemma select_by_algorithm_some b name policy context l fb :
  l ≠ [] → NoDup (cand_ids l) →
  ∃ c, (select_by_algorithm b name policy context l fb).2 = Some c ∧ c ∈ l.
Proof.
  intros Hl Hnd. unfold select_by_algorithm. destruct policy.(sp_algorithm).
  - by apply select_round_robin_some.
  - by apply select_weighted_round_robin_some.
  - by apply select_power_of_two_some.
Qed.

Lemma sorted_cand_ids l :
  StronglySorted (λ x y, str_lt x.(sc_endpoint_id) y.(sc_endpoint_id)) l → NoDup (cand_ids l).
Proof.
  induction l as [|c l IH]; intros Hs; [constructor|]. apply StronglySorted_cons in Hs as [Hc Hs].
  apply NoDup_cons. split; [|by apply IH]. intros (d & E & Hd)%list_elem_of_fmap.
  rewrite Forall_forall in Hc. specialize (Hc d Hd). rewrite E in Hc. unfold str_lt in Hc.
  by rewrite (cmp_refl (cmp := String.compare)) in Hc.
Qed.

Section selection_theorems.
Context {H : Type} `{!CandidateSource H, !CandidateSourceLaws H} `{!AffinityScoring}.

(** The candidates a selection may choose from: the available ones, or, when there
    are none and the policy allows it, also the unhealthy ones. *)
Definition eligible_candidates (registry : H) (name : string) (policy : UpstreamSelectionPolicy) :
    Result (list EndpointSelectionCandidate) UpstreamHealthError :=
  match candidates_of registry name false with
  | Ok [] => match policy.(sp_no_healthy_fallback) with
             | IncludeUnhealthy => candidates_of registry name true
             | Fallback_Fail => Ok []
             end
  | r => r
  end.

Variables (registry : H) (name : string) (policy : UpstreamSelectionPolicy)
  (context : SelectionContext).
Hypothesis Hok : source_ok registry.

Lemma gather_candidates_eligible b :
  match eligible_candidates registry name policy with
  | Err e => (gather_candidates b registry name policy).2 = Err (Health e)
  | Ok l => ∃ fb, (gather_candidates b registry name policy).2 = Ok (l, fb)
  end.
Proof.
  unfold eligible_candidates, gather_candidates.
  destruct (candidates_of registry name false) as [[|c l]|e]; simpl; [|by eauto|done].
  destruct policy.(sp_no_healthy_fallback); simpl; [by eauto|].
  destruct (candidates_of registry name true); simpl; by eauto.
Qed.

Lemma eligible_sorted l :
  eligible_candidates registry name policy = Ok l → NoDup (cand_ids l).
Proof.
  unfold eligible_candidates. intros E.
  destruct (candidates_of registry name false) as [[|c l']|e] eqn:E0; [| |done].
  - destruct policy.(sp_no_healthy_fallback); [injection E as <-; constructor|].
    by eapply sorted_cand_ids, candidates_sorted.
  - injection E as <-. by eapply sorted_cand_ids, candidates_sorted.
Qed.

(** Health of the eligible candidates. *)
Lemma eligible_status l c :
  eligible_candidates registry name policy = Ok l → c ∈ l →
  c.(sc_cluster_name) = name ∧ c.(sc_health).(hs_status) ≠ Ejected ∧
  (c.(sc_health).(hs_status) = Unhealthy →
   candidates_of registry name false = Ok [] ∧ policy.(sp_no_healthy_fallback) = IncludeUnhealthy).
Proof.
  assert (Hall : ∀ inc s, selection_allowed inc s = true →
            s ≠ Ejected ∧ (s = Unhealthy → inc = true)).
  { intros inc s. unfold selection_allowed. by destruct s, inc. }
  unfold eligible_candidates. intros E Hc.
  destruct (candidates_of registry name false) as [[|c' l']|e] eqn:E0; [| |done].
  - destruct policy.(sp_no_healthy_fallback); [injection E as <-; by apply elem_of_nil in Hc|].
    destruct (candidates_status _ _ _ _ _ Hok E Hc) as [Hn Hs].
    apply Hall in Hs as [? _]. by split_and!.
  - injection E as <-. destruct (candidates_status _ _ _ _ _ Hok E0 Hc) as [Hn Hs].
    apply Hall in Hs as [? Hu]. split_and!; [done..|]. by intros ?%Hu.
Qed.

Lemma try_affinity_cases b l :
  is_ok (candidates_of registry name true) = true →
  ∃ b' r, try_select_affinity_candidate b registry name policy context l = (b', Ok r) ∧
          ∀ c, r = Some c → c ∈ l.
Proof.
  intros Ht. unfold try_select_affinity_candidate.
  destruct policy.(sp_affinity) as [ap|]; [|by eexists _, None].
  destruct context.(affinity_key) as [key|]; [|by eexists _, None].
  destruct (candidates_of registry name true) as [al|]; [|done].
  destruct (apply_locality_preference al policy context) as [al' ?].
  destruct (select_affinity_candidate al' key) as [p|]; [|by eexists _, None].
  destruct (find _ l) as [c|] eqn:Ef.
  - eexists _, (Some c). split; [done|]. intros ? [= <-]. apply find_some in Ef as [Hin _].
    by apply list_elem_of_In.
  - eexists _, None. split; [|done]. by destruct ap as [? []|? []].
Qed.

Lemma eligible_all_ok l :
  eligible_candidates registry name policy = Ok l →
  is_ok (candidates_of registry name true) = true.
Proof.
  unfold eligible_candidates. rewrite <- (candidates_agree registry name Hok).
  by destruct (candidates_of registry name false).
Qed.

(** The outcome of a selection, by the eligible candidates. *)
Lemma select_endpoint_result (b : UpstreamBalancer) :
  let result := (UpstreamBalancer_select_endpoint b registry name policy context).2 in
  match eligible_candidates registry name policy with
  | Err e => result = Some (Err (Health e))
  | Ok [] => result = Some (Err (NoEligibleEndpoints name))
  | Ok l => ∃ c, let r := apply_locality_preference l policy context in
      result = Some (Ok (selected_endpoint c r.2)) ∧ c ∈ r.1 ∧ c ∈ l
  end.
Proof.
  cbv zeta. unfold UpstreamBalancer_select_endpoint.
  pose proof (gather_candidates_eligible b) as Hg.
  destruct (eligible_candidates registry name policy) as [l|e] eqn:El.
  2: { destruct (gather_candidates b registry name policy) as [b1 r]. simpl in Hg. by subst. }
  destruct Hg as [fb Hg]. destruct (gather_candidates b registry name policy) as [b1 r].
  simpl in Hg. subst r. destruct l as [|c0 l0]; [done|]. remember (c0 :: l0) as l eqn:Hl.
  assert (Hne : l ≠ []) by by subst. clear Hl.
  pose proof (apply_locality_narrows l policy context) as (Hsub & Hnn & _).
  destruct (apply_locality_preference l policy context) as [l' matched]. simpl in *.
  set (b2 := if matched then _ else _).
  destruct (try_affinity_cases b2 l' (eligible_all_ok l El)) as (b3 & r & -> & Hr).
  assert (Hsel : ∃ b4 c, (match r with
      | Some selected => (b3, Some selected)
      | None => select_by_algorithm b3 name policy context l' fb end) = (b4, Some c) ∧ c ∈ l').
  { destruct r as [c|]; [eexists b3, c; by auto|].
    destruct (select_by_algorithm_some b3 name policy context l' fb) as (c & Hc & Hin); [auto| |].
    - eapply sublist_NoDup; [by apply eligible_sorted|]. by apply sublist_cand_ids.
    - destruct (select_by_algorithm _ _ _ _ _ _) as [b4 sel]. simpl in Hc. subst. by eexists b4, c. }
  destruct Hsel as (b4 & c & -> & Hc). exists c. split_and!; [done..|]. by eapply elem_of_sublist.
Qed.

(** C1: selection is safe and never panics.  With a well-behaved candidate source,
    [select_endpoint] fails with the source's error, fails with
    [NoEligibleEndpoints] exactly when no candidate is eligible, and otherwise
    returns one of the eligible candidates of the cluster: never an ejected endpoint,
    an unhealthy one only when nothing is available and the policy includes it, and
    one in the preferred locality or zone whenever an eligible candidate is there. *)
Theorem select_endpoint_safe (b : UpstreamBalancer) :
  let result := (UpstreamBalancer_select_endpoint b registry name policy context).2 in
  match eligible_candidates registry name policy with
  | Err e => result = Some (Err (Health e))
  | Ok [] => result = Some (Err (NoEligibleEndpoints name))
  | Ok l => ∃ c matched,
      result = Some (Ok (selected_endpoint c matched)) ∧ c ∈ l ∧
      c.(sc_cluster_name) = name ∧ c.(sc_health).(hs_status) ≠ Ejected ∧
      (c.(sc_health).(hs_status) = Unhealthy →
       candidates_of registry name false = Ok [] ∧
       policy.(sp_no_healthy_fallback) = IncludeUnhealthy) ∧
      preferred policy context c = matched ∧
      (matched = true ↔ ∃ d, d ∈ l ∧ preferred policy context d = true)
  end.
Proof.
  cbv zeta. pose proof (select_endpoint_result b) as Hres. cbv zeta in Hres.
  destruct (eligible_candidates registry name policy) as [[|c0 l0]|e] eqn:El; [done| |done].
  remember (c0 :: l0) as l eqn:Hl. clear Hl. destruct Hres as (c & Hr & Hc & Hcl).
  pose proof (apply_locality_narrows l policy context) as (_ & _ & Hpref).
  destruct (apply_locality_preference l policy context) as [l' matched]. simpl in *.
  destruct (eligible_status l c El Hcl) as (Hn & Hej & Hun).
  exists c, matched. split_and!; try done.
  - destruct matched; [by apply Hpref|]. destruct Hpref as [_ Hpref]. by apply Hpref.
  - destruct matched; [|destruct Hpref as [_ Hpref]].
    + split; [|done]. intros _. exists c. split; [done|]. by apply Hpref.
    + split; [done|]. intros (d & Hd & Hp). by rewrite Hpref in Hp.
Qed.
End selection_theorems.

Lemma select_endpoint_safe_witness :
  let registry := health_run (UpstreamHealthRegistry_new EndpointHealthPolicy_default) example_ops in
  match eligible_candidates registry "payments" UpstreamSelectionPolicy_default with
  | Err e => False
  | Ok [] => False
  | Ok l => ∃ c matched,
      (UpstreamBalancer_select_endpoint UpstreamBalancer_new registry "payments"
         UpstreamSelectionPolicy_default (SelectionContext_with_hash 7)).2 =
        Some (Ok (selected_endpoint c matched)) ∧ c ∈ l
  end.
Proof.
  pose proof (select_endpoint_safe
    (health_run (UpstreamHealthRegistry_new EndpointHealthPolicy_default) example_ops) "payments"
    UpstreamSelectionPolicy_default (SelectionContext_with_hash 7)
    (health_run_inv _ _ (health_new_inv _) example_ops_wf) UpstreamBalancer_new) as Hsafe.
  cbv zeta in Hsafe |- *.
  assert (Hlen : match eligible_candidates (health_run (UpstreamHealthRegistry_new
    EndpointHealthPolicy_default) example_ops) "payments" UpstreamSelectionPolicy_default with
    Ok (_ :: _) => true | _ => false end = true) by (vm_compute; reflexivity).
  destruct (eligible_candidates _ _ _) as [[|c0 l0]|e]; [discriminate Hlen | | discriminate Hlen].
  destruct Hsafe as (c & matched & Hr & Hc & _). exists c, matched. split; [exact Hr | exact Hc].
Defined.
