(* ===== verification/RouteBackendPool.v ===== *)
(** * Route backend pools

    Models the [RouteBackendPool] of [crates/runtime/src/upstream_balancer.rs]: a
    single-cluster pool owns a health registry and a balancer; a weighted pool
    splits the traffic of a route over single-cluster pools by smooth weighted
    round-robin and falls back to the other destinations in order.

    Pools are shared through [Arc] and cloned into requests, so they live in a
    store: a [RouteBackendPool] value is a reference, and several destinations may
    refer to the same pool.  A reference that is not in the store, and an index out
    of range, give [None]. *)

From S2P Require Import Prelude RustStr NetCore EndpointRegistry UpstreamHealth.
From S2P Require Import SmoothWrr UpstreamBalancer.
Local Open Scope N_scope.
Local Open Scope rust_scope.

(** [RouteBackendPoolInner::Single]. *)
Record SinglePool := {
  pool_cluster_name : string;
  pool_registry : UpstreamHealthRegistry;
  pool_balancer : UpstreamBalancer;
  pool_selection_policy : UpstreamSelectionPolicy
}.

Record RouteDestinationWeightedState := {
  rd_total_weight : Z;
  rd_current_weights : gmap string Z;
  rd_weighted_route_selection_count : N;
  rd_route_destination_fallback_count : N;
  rd_route_destination_selection_counts : gmap string N
}.

Definition RouteDestinationWeightedState_default : RouteDestinationWeightedState :=
  {| rd_total_weight := 0; rd_current_weights := ∅; rd_weighted_route_selection_count := 0;
     rd_route_destination_fallback_count := 0; rd_route_destination_selection_counts := ∅ |}.

(** A shared reference to a pool of the store. *)
Inductive RouteBackendPool := PoolSingle (i : nat) | PoolWeighted (i : nat).

Record WeightedRouteDestination := { wd_weight : N; wd_pool : RouteBackendPool }.

(** A destination of a built weighted pool: its weight, and the single-cluster pool
    it refers to, with that pool's (immutable) cluster name. *)
Record Destination := { d_weight : N; d_pool : nat; d_cluster : string }.

(** [RouteBackendPoolInner::Weighted]. *)
Record WeightedPool := {
  destinations : list Destination;
  wp_state : RouteDestinationWeightedState
}.

Record Store := { singles : gmap nat SinglePool; weighteds : gmap nat WeightedPool }.

Record SelectedRouteBackend := {
  sb_pool : RouteBackendPool;
  sb_endpoint_id : string;
  sb_upstream : UpstreamTarget
}.

Record ActiveProbeTarget := {
  pt_endpoint_id : string;
  pt_address : SocketAddr;
  pt_health : EndpointHealthSnapshot
}.

Inductive RouteBackendPoolBuildError :=
| EmptyDestinations
| ZeroWeightDestination (cluster : string)
| NestedWeightedDestination.

Definition set_single (s : Store) (i : nat) (p : SinglePool) : Store :=
  {| singles := <[i := p]> s.(singles); weighteds := s.(weighteds) |}.
Definition set_weighted_pool (s : Store) (i : nat) (p : WeightedPool) : Store :=
  {| singles := s.(singles); weighteds := <[i := p]> s.(weighteds) |}.

(** ** Construction *)

Definition RouteBackendPool_from_cluster (s : Store) (c : UpstreamCluster)
    (health_policy : EndpointHealthPolicy) (selection_policy : UpstreamSelectionPolicy) :
    Store * Result RouteBackendPool UpstreamHealthError :=
  let '(registry, r) :=
    UpstreamHealthRegistry_insert_cluster (UpstreamHealthRegistry_new health_policy) c in
  match r with
  | Err error => (s, Err error)
  | Ok _ =>
      let i := fresh (dom s.(singles)) in
      (set_single s i {| pool_cluster_name := c.(cluster_name); pool_registry := registry;
                         pool_balancer := UpstreamBalancer_new;
                         pool_selection_policy := selection_policy |},
       Ok (PoolSingle i))
  end.

Definition RouteBackendPool_cluster_name (s : Store) (p : RouteBackendPool) : option string :=
  match p with
  | PoolSingle i => pool_cluster_name <$> s.(singles) !! i
  | PoolWeighted i => w ← s.(weighteds) !! i; d_cluster <$> head w.(destinations)
  end.

(** The validation loop; it also resolves the references of the destinations. *)
Fixpoint check_destinations (s : Store) (l : list WeightedRouteDestination) :
    option (Result (list Destination) RouteBackendPoolBuildError) :=
  match l with
  | [] => Some (Ok [])
  | d :: l =>
      name ← RouteBackendPool_cluster_name s d.(wd_pool);
      if decide (d.(wd_weight) = 0) then Some (Err (ZeroWeightDestination name))
      else match d.(wd_pool) with
      | PoolWeighted _ => Some (Err NestedWeightedDestination)
      | PoolSingle i =>
          rest ← check_destinations s l;
          Some (let? rest := rest in
                Ok ({| d_weight := d.(wd_weight); d_pool := i; d_cluster := name |} :: rest))
      end
  end.

Definition RouteBackendPool_from_weighted_destinations (s : Store)
    (l : list WeightedRouteDestination) :
    option (Store * Result RouteBackendPool RouteBackendPoolBuildError) :=
  match l with
  | [] => Some (s, Err EmptyDestinations)
  | _ =>
      checked ← check_destinations s l;
      match checked with
      | Err error => Some (s, Err error)
      | Ok ds =>
          let i := fresh (dom s.(weighteds)) in
          Some (set_weighted_pool s i
                  {| destinations := sort_by d_cluster String.compare ds;
                     wp_state := RouteDestinationWeightedState_default |},
                Ok (PoolWeighted i))
      end
  end.

(** ** The order in which the destinations are tried *)

Definition destination_weight (d : Destination) : Z := Z.of_N d.(d_weight).

Definition weight_at (weights : gmap string Z) (d : Destination) : Z :=
  default 0%Z (weights !! d.(d_cluster)).

(** The loop keeps the index of the best destination, the destination at that index
    and its weight. *)
Fixpoint best_destination_loop (weights : gmap string Z) (index : nat) (ds : list Destination)
    (best : option (nat * Destination * Z)) : option (nat * Destination * Z) :=
  match ds with
  | [] => best
  | d :: ds =>
      let current := weight_at weights d in
      let best :=
        match best with
        | None => Some (index, d, current)
        | Some (_, best_d, best_weight) =>
            if decide ((best_weight < current)%Z ∨
                       current = best_weight ∧ str_lt d.(d_cluster) best_d.(d_cluster))
            then Some (index, d, current) else best
        end in
      best_destination_loop weights (S index) ds best
  end.

Definition best_weighted_route_destination_index (ds : list Destination)
    (weights : gmap string Z) : option nat :=
  match best_destination_loop weights 0 ds None with
  | Some (index, _, _) => Some index
  | None => None
  end.

Definition enumerate {A} (l : list A) : list (nat * A) := imap (λ i x, (i, x)) l.

(** The comparison of [max_by] for the fallback order. *)
Definition fallback_cmp (weights : gmap string Z) (left right : nat * Destination) : comparison :=
  then_with (weight_at weights left.2 ?= weight_at weights right.2)%Z
    (then_with (String.compare right.2.(d_cluster) left.2.(d_cluster))
               (Nat.compare right.1 left.1)).

Definition subtract_weight (weights : gmap string Z) (name : string) (total : Z) : gmap string Z :=
  alter (λ current, (current - total)%Z) name weights.

(** The [while] loop; each iteration adds an index, so [length ds] iterations are
    enough. *)
Fixpoint fallback_loop (fuel : nat) (ds : list Destination) (total : Z)
    (weights : gmap string Z) (order : list nat) : list nat :=
  match fuel with
  | O => order
  | S fuel =>
      if decide (length order < length ds)%nat then
        match max_by (fallback_cmp weights)
                (filter (λ p, p.1 ∉ order) (enumerate ds)) with
        | None => order
        | Some (next_index, d) =>
            fallback_loop fuel ds total (subtract_weight weights d.(d_cluster) total)
              (order ++ [next_index])
        end
      else order
  end.

Definition add_weights (ds : list Destination) (weights : gmap string Z) : gmap string Z :=
  foldl (λ w d, <[d.(d_cluster) := (weight_at w d + destination_weight d)%Z]> w) weights ds.

Definition select_weighted_route_destination_order (ds : list Destination)
    (st : RouteDestinationWeightedState) : RouteDestinationWeightedState * list nat :=
  let retained := filter (λ kw, kw.1 ∈ (d_cluster <$> ds)) st.(rd_current_weights) in
  let total := foldr (λ d acc, (destination_weight d + acc)%Z) 0%Z ds in
  let weights := add_weights ds retained in
  let with_weights w :=
    {| rd_total_weight := total; rd_current_weights := w;
       rd_weighted_route_selection_count := st.(rd_weighted_route_selection_count);
       rd_route_destination_fallback_count := st.(rd_route_destination_fallback_count);
       rd_route_destination_selection_counts := st.(rd_route_destination_selection_counts) |} in
  match best_weighted_route_destination_index ds weights with
  | None => (with_weights weights, [])
  | Some best_index =>
      let weights := match ds !! best_index with
                     | Some d => subtract_weight weights d.(d_cluster) total
                     | None => weights
                     end in
      (with_weights weights, fallback_loop (length ds) ds total weights [best_index])
  end.

(** ** Selection *)

Section pool_selection.
Context `{!AffinityScoring}.

Definition select_single (s : Store) (i : nat) (context : SelectionContext) :
    option (Store * Result SelectedRouteBackend UpstreamSelectionError) :=
  p ← s.(singles) !! i;
  let '(balancer, result) :=
    UpstreamBalancer_select_endpoint p.(pool_balancer) p.(pool_registry) p.(pool_cluster_name)
      p.(pool_selection_policy) context in
  let s := set_single s i
    {| pool_cluster_name := p.(pool_cluster_name); pool_registry := p.(pool_registry);
       pool_balancer := balancer; pool_selection_policy := p.(pool_selection_policy) |} in
  selected ← result;
  Some (s, let? selected := selected in
           Ok {| sb_pool := PoolSingle i; sb_endpoint_id := selected.(se_endpoint_id);
                 sb_upstream := UpstreamTarget_new
                   (p.(pool_cluster_name) +:+ ":" +:+ selected.(se_endpoint_id))
                   selected.(se_address) |}).

(** The counters of a successful weighted selection. *)
Definition record_selection (st : RouteDestinationWeightedState) (rank : nat) (name : string) :
    RouteDestinationWeightedState :=
  {| rd_total_weight := st.(rd_total_weight); rd_current_weights := st.(rd_current_weights);
     rd_weighted_route_selection_count :=
       saturating_add u64_max st.(rd_weighted_route_selection_count) 1;
     rd_route_destination_fallback_count :=
       if decide (0 < rank)%nat
       then saturating_add u64_max st.(rd_route_destination_fallback_count) 1
       else st.(rd_route_destination_fallback_count);
     rd_route_destination_selection_counts :=
       <[name := saturating_add u64_max
                   (default 0 (st.(rd_route_destination_selection_counts) !! name)) 1]>
         st.(rd_route_destination_selection_counts) |}.

Definition update_state (s : Store) (i : nat)
    (f : RouteDestinationWeightedState → RouteDestinationWeightedState) : Store :=
  {| singles := s.(singles);
     weighteds := alter (λ w, {| destinations := w.(destinations);
                                 wp_state := f w.(wp_state) |}) i s.(weighteds) |}.

(** The loop over the selection order. *)
Fixpoint try_destinations (s : Store) (i : nat) (ds : list Destination)
    (context : SelectionContext) (rank : nat) (order : list nat)
    (last_error : option UpstreamSelectionError) :
    option (Store * Result SelectedRouteBackend (option UpstreamSelectionError)) :=
  match order with
  | [] => Some (s, Err last_error)
  | index :: order =>
      d ← ds !! index;
      '(s, result) ← select_single s d.(d_pool) context;
      match result with
      | Ok selected =>
          Some (update_state s i (λ st, record_selection st rank d.(d_cluster)), Ok selected)
      | Err (NoEligibleEndpoints _) =>
          try_destinations s i ds context (S rank) order (Some (NoEligibleEndpoints d.(d_cluster)))
      | Err error => try_destinations s i ds context (S rank) order (Some error)
      end
  end.

Definition RouteBackendPool_select_backend_with_context (s : Store) (p : RouteBackendPool)
    (context : SelectionContext) :
    option (Store * Result SelectedRouteBackend UpstreamSelectionError) :=
  match p with
  | PoolSingle i => select_single s i context
  | PoolWeighted i =>
      w ← s.(weighteds) !! i;
      let '(st, order) := select_weighted_route_destination_order w.(destinations) w.(wp_state) in
      let s := update_state s i (λ _, st) in
      '(s, result) ← try_destinations s i w.(destinations) context 0 order None;
      match result with
      | Ok selected => Some (s, Ok selected)
      | Err (Some error) => Some (s, Err error)
      | Err None =>
          name ← RouteBackendPool_cluster_name s p;
          Some (s, Err (NoEligibleEndpoints name))
      end
  end.

Definition RouteBackendPool_select_backend (s : Store) (p : RouteBackendPool) (hash : N) :=
  RouteBackendPool_select_backend_with_context s p (SelectionContext_with_hash hash).

Definition RouteBackendPool_select_upstream_with_context (s : Store) (p : RouteBackendPool)
    (context : SelectionContext) : option (Store * Result UpstreamTarget UpstreamSelectionError) :=
  '(s, r) ← RouteBackendPool_select_backend_with_context s p context;
  Some (s, let? selected := r in Ok selected.(sb_upstream)).

Definition RouteBackendPool_select_upstream (s : Store) (p : RouteBackendPool) (hash : N) :=
  RouteBackendPool_select_upstream_with_context s p (SelectionContext_with_hash hash).

Definition RouteBackendPool_select_upstream_with_context_and_transport (s : Store)
    (p : RouteBackendPool) (context : SelectionContext) (transport : UpstreamTransport) :
    option (Store * Result UpstreamTarget UpstreamSelectionError) :=
  '(s, r) ← RouteBackendPool_select_upstream_with_context s p context;
  Some (s, let? u := r in
           Ok {| ut_name := u.(ut_name); ut_address := u.(ut_address); ut_transport := transport |}).

Definition RouteBackendPool_select_upstream_with_transport (s : Store) (p : RouteBackendPool)
    (hash : N) (transport : UpstreamTransport) :=
  RouteBackendPool_select_upstream_with_context_and_transport s p
    (SelectionContext_with_hash hash) transport.
End pool_selection.

(** ** Feedback, probing and time *)

(** A call on the health registry of a single-cluster pool. *)
Definition with_registry (s : Store) (i : nat)
    (f : UpstreamHealthRegistry → string →
         UpstreamHealthRegistry * Result EndpointHealthSnapshot UpstreamHealthError) :
    option (Store * Result EndpointHealthSnapshot UpstreamHealthError) :=
  p ← s.(singles) !! i;
  let '(registry, r) := f p.(pool_registry) p.(pool_cluster_name) in
  Some (set_single s i
          {| pool_cluster_name := p.(pool_cluster_name); pool_registry := registry;
             pool_balancer := p.(pool_balancer);
             pool_selection_policy := p.(pool_selection_policy) |}, r).

Definition probe_targets_single (s : Store) (i : nat) :
    option (Result (list ActiveProbeTarget) UpstreamHealthError) :=
  p ← s.(singles) !! i;
  Some (let? candidates := UpstreamHealthRegistry_selection_candidates p.(pool_registry)
                             p.(pool_cluster_name) true in
        Ok ((λ c, {| pt_endpoint_id := c.(sc_endpoint_id); pt_address := c.(sc_address);
                     pt_health := c.(sc_health) |}) <$> candidates)).

Fixpoint probe_targets_all (s : Store) (ds : list Destination) :
    option (Result (list ActiveProbeTarget) UpstreamHealthError) :=
  match ds with
  | [] => Some (Ok [])
  | d :: ds =>
      targets ← probe_targets_single s d.(d_pool);
      match targets with
      | Err error => Some (Err error)
      | Ok targets =>
          rest ← probe_targets_all s ds;
          Some (let? rest := rest in Ok (targets ++ rest))
      end
  end.

Definition RouteBackendPool_active_probe_targets (s : Store) (p : RouteBackendPool) :
    option (Result (list ActiveProbeTarget) UpstreamHealthError) :=
  match p with
  | PoolSingle i => probe_targets_single s i
  | PoolWeighted i => w ← s.(weighteds) !! i; probe_targets_all s w.(destinations)
  end.

(** The first destination that offers the endpoint as a probe target gets the
    call. *)
Fixpoint note_loop (s : Store) (ds : list Destination) (id : string)
    (note : Store → nat → option (Store * Result EndpointHealthSnapshot UpstreamHealthError))
    (missing : string) : option (Store * Result EndpointHealthSnapshot UpstreamHealthError) :=
  match ds with
  | [] => Some (s, Err (EndpointNotTracked missing id))
  | d :: ds =>
      targets ← probe_targets_single s d.(d_pool);
      match targets with
      | Err error => Some (s, Err error)
      | Ok targets =>
          if existsb (λ t, bool_decide (t.(pt_endpoint_id) = id)) targets
          then note s d.(d_pool)
          else note_loop s ds id note missing
      end
  end.

Definition note_endpoint_across_weighted_destinations (s : Store) (ds : list Destination)
    (id : string)
    (note : Store → nat → option (Store * Result EndpointHealthSnapshot UpstreamHealthError)) :
    option (Store * Result EndpointHealthSnapshot UpstreamHealthError) :=
  note_loop s ds id note
    (match ds with d :: _ => d.(d_cluster) | [] => "weighted-destinations" end).

Definition note_pool (s : Store) (p : RouteBackendPool) (id : string)
    (f : UpstreamHealthRegistry → string → string →
         UpstreamHealthRegistry * Result EndpointHealthSnapshot UpstreamHealthError) :
    option (Store * Result EndpointHealthSnapshot UpstreamHealthError) :=
  let note s i := with_registry s i (λ h name, f h name id) in
  match p with
  | PoolSingle i => note s i
  | PoolWeighted i =>
      w ← s.(weighteds) !! i;
      note_endpoint_across_weighted_destinations s w.(destinations) id note
  end.

Definition RouteBackendPool_note_passive_success (s : Store) (p : RouteBackendPool) (id : string) :=
  note_pool s p id UpstreamHealthRegistry_note_passive_success.
Definition RouteBackendPool_note_passive_failure (s : Store) (p : RouteBackendPool) (id : string) :=
  note_pool s p id UpstreamHealthRegistry_note_passive_failure.
Definition RouteBackendPool_note_active_success (s : Store) (p : RouteBackendPool) (id : string) :=
  note_pool s p id UpstreamHealthRegistry_note_active_success.
Definition RouteBackendPool_note_active_failure (s : Store) (p : RouteBackendPool) (id : string) :=
  note_pool s p id UpstreamHealthRegistry_note_active_failure.
Definition RouteBackendPool_endpoint_health (s : Store) (p : RouteBackendPool) (id : string) :=
  note_pool s p id (λ h name id, (h, UpstreamHealthRegistry_endpoint_health h name id)).

Definition SelectedRouteBackend_note_passive_success (s : Store) (b : SelectedRouteBackend) :=
  RouteBackendPool_note_passive_success s b.(sb_pool) b.(sb_endpoint_id).
Definition SelectedRouteBackend_note_passive_failure (s : Store) (b : SelectedRouteBackend) :=
  RouteBackendPool_note_passive_failure s b.(sb_pool) b.(sb_endpoint_id).
Definition SelectedRouteBackend_health_snapshot (s : Store) (b : SelectedRouteBackend) :=
  RouteBackendPool_endpoint_health s b.(sb_pool) b.(sb_endpoint_id).

Definition advance_single (elapsed : Duration) (s : Store) (i : nat) : option Store :=
  p ← s.(singles) !! i;
  Some (set_single s i
    {| pool_cluster_name := p.(pool_cluster_name);
       pool_registry := UpstreamHealthRegistry_advance_time p.(pool_registry) elapsed;
       pool_balancer := p.(pool_balancer);
       pool_selection_policy := p.(pool_selection_policy) |}).

Fixpoint advance_all (elapsed : Duration) (s : Store) (ds : list Destination) : option Store :=
  match ds with
  | [] => Some s
  | d :: ds => s ← advance_single elapsed s d.(d_pool); advance_all elapsed s ds
  end.

Definition RouteBackendPool_advance_time (s : Store) (p : RouteBackendPool) (elapsed : Duration) :
    option Store :=
  match p with
  | PoolSingle i => advance_single elapsed s i
  | PoolWeighted i => w ← s.(weighteds) !! i; advance_all elapsed s w.(destinations)
  end.

Definition RouteBackendPool_cluster_names (s : Store) (p : RouteBackendPool) :
    option (list string) :=
  match p with
  | PoolSingle i => p ← s.(singles) !! i; Some [p.(pool_cluster_name)]
  | PoolWeighted i => w ← s.(weighteds) !! i; Some (d_cluster <$> w.(destinations))
  end.

Definition affinity_policy_single (s : Store) (i : nat) : option AffinityPolicy :=
  p ← s.(singles) !! i; p.(pool_selection_policy).(sp_affinity).

Definition RouteBackendPool_affinity_policy (s : Store) (p : RouteBackendPool) :
    option AffinityPolicy :=
  match p with
  | PoolSingle i => affinity_policy_single s i
  | PoolWeighted i =>
      w ← s.(weighteds) !! i;
      first ← head w.(destinations);
      policy ← affinity_policy_single s first.(d_pool);
      if forallb (λ d, bool_decide (affinity_policy_single s d.(d_pool) = Some policy))
           (tail w.(destinations))
      then Some policy else None
  end.

(** ** Metrics *)

Definition UpstreamSelectionMetrics_default : UpstreamSelectionMetrics :=
  {| round_robin_selection_count := 0; weighted_round_robin_selection_count := 0;
     weighted_route_selection_count := 0; power_of_two_selection_count := 0;
     locality_preference_hit_count := 0; no_healthy_endpoint_count := 0;
     unhealthy_fallback_selection_count := 0; affinity_hit_count := 0;
     affinity_fallback_count := 0; route_destination_fallback_count := 0;
     route_destination_selection_counts := ∅ |}.

(** [*counts.entry(name).or_default() += count] for every entry of [more]. *)
Definition add_counts (counts more : gmap string N) : gmap string N :=
  foldl (λ m kv, <[kv.1 := wrapping_add64 (default 0 (m !! kv.1)) kv.2]> m) counts (btree_iter more).

(** The step of the aggregation; [+=] wraps, as in a release build. *)
Definition add_metrics (a m : UpstreamSelectionMetrics) : UpstreamSelectionMetrics :=
  {| round_robin_selection_count :=
       wrapping_add64 a.(round_robin_selection_count) m.(round_robin_selection_count);
     weighted_round_robin_selection_count :=
       wrapping_add64 a.(weighted_round_robin_selection_count)
         m.(weighted_round_robin_selection_count);
     weighted_route_selection_count :=
       wrapping_add64 a.(weighted_route_selection_count) m.(weighted_route_selection_count);
     power_of_two_selection_count :=
       wrapping_add64 a.(power_of_two_selection_count) m.(power_of_two_selection_count);
     locality_preference_hit_count :=
       wrapping_add64 a.(locality_preference_hit_count) m.(locality_preference_hit_count);
     no_healthy_endpoint_count :=
       wrapping_add64 a.(no_healthy_endpoint_count) m.(no_healthy_endpoint_count);
     unhealthy_fallback_selection_count :=
       wrapping_add64 a.(unhealthy_fallback_selection_count) m.(unhealthy_fallback_selection_count);
     affinity_hit_count := wrapping_add64 a.(affinity_hit_count) m.(affinity_hit_count);
     affinity_fallback_count :=
       wrapping_add64 a.(affinity_fallback_count) m.(affinity_fallback_count);
     route_destination_fallback_count :=
       wrapping_add64 a.(route_destination_fallback_count) m.(route_destination_fallback_count);
     route_destination_selection_counts :=
       add_counts a.(route_destination_selection_counts) m.(route_destination_selection_counts) |}.

Fixpoint aggregate_metrics (s : Store) (aggregate : UpstreamSelectionMetrics)
    (ds : list Destination) : option UpstreamSelectionMetrics :=
  match ds with
  | [] => Some aggregate
  | d :: ds =>
      p ← s.(singles) !! d.(d_pool);
      aggregate_metrics s (add_metrics aggregate (UpstreamBalancer_metrics p.(pool_balancer))) ds
  end.

(** The counters the weighted state adds, as a metrics value. *)
Definition state_metrics (st : RouteDestinationWeightedState) : UpstreamSelectionMetrics :=
  {| round_robin_selection_count := 0; weighted_round_robin_selection_count := 0;
     weighted_route_selection_count := st.(rd_weighted_route_selection_count);
     power_of_two_selection_count := 0;
     locality_preference_hit_count := 0; no_healthy_endpoint_count := 0;
     unhealthy_fallback_selection_count := 0; affinity_hit_count := 0;
     affinity_fallback_count := 0;
     route_destination_fallback_count := st.(rd_route_destination_fallback_count);
     route_destination_selection_counts := st.(rd_route_destination_selection_counts) |}.

Definition RouteBackendPool_selection_metrics (s : Store) (p : RouteBackendPool) :
    option UpstreamSelectionMetrics :=
  match p with
  | PoolSingle i => p ← s.(singles) !! i; Some (UpstreamBalancer_metrics p.(pool_balancer))
  | PoolWeighted i =>
      w ← s.(weighteds) !! i;
      aggregate ← aggregate_metrics s UpstreamSelectionMetrics_default w.(destinations);
      Some (add_metrics aggregate (state_metrics w.(wp_state)))
  end.

(** ** Theorems: the order of the destinations *)

Definition names (ds : list Destination) : list string := d_cluster <$> ds.
Abbreviation weight_by_name := (keyed_weight d_cluster destination_weight).

Lemma best_destination_loop_spec weights ds : ∀ k best,
  match best_destination_loop weights k ds best with
  | None => best = None ∧ ds = []
  | Some (i, d, cur) =>
      (best = Some (i, d, cur) ∨
       ∃ j, i = (k + j)%nat ∧ ds !! j = Some d ∧ cur = weight_at weights d) ∧
      (∀ d', d' ∈ ds → (weight_at weights d' ≤ cur)%Z) ∧
      (∀ b, best = Some b → (b.2 ≤ cur)%Z)
  end.
Proof.
  induction ds as [|d ds IH]; intros k best; cbn [best_destination_loop].
  { destruct best as [[[i d] cur]|]; [|done]. split_and!; [by left | | by intros ? [= <-]].
    by intros d' ?%elem_of_nil. }
  set (best1 := match best with None => _ | Some _ => _ end). specialize (IH (S k) best1).
  assert (Hb1 : ∃ b1, best1 = Some b1 ∧ (weight_at weights d ≤ b1.2)%Z ∧
            (∀ b, best = Some b → (b.2 ≤ b1.2)%Z) ∧ (best1 = best ∨ b1 = (k, d, weight_at weights d))).
  { unfold best1. destruct best as [[[i0 d0] cur0]|]; [case_decide|]; eexists; split_and!; try done;
      simpl; try lia; try (by left); try (by right); intros ? [= <-]; simpl; lia. }
  destruct Hb1 as (b1 & E1 & Hd & Hbest & Hwho). rewrite E1 in IH |- *.
  destruct (best_destination_loop weights (S k) ds (Some b1)) as [[[i d1] cur]|]; [|by destruct IH].
  destruct IH as (Hw & Hle & Hge). specialize (Hge b1 eq_refl). split_and!.
  - destruct Hw as [[= ->]|(j & -> & Hj & ->)].
    + destruct Hwho as [Eb|[= -> -> ->]]; [left; by rewrite <- Eb|]. right. exists 0%nat. by rewrite Nat.add_0_r.
    + right. exists (S j). by split_and!; [lia|..].
  - intros d' [->|Hd']%elem_of_cons; [lia | by apply Hle].
  - intros b Hb. specialize (Hbest b Hb). lia.
Qed.

Lemma best_index_spec ds weights :
  match best_weighted_route_destination_index ds weights with
  | None => ds = []
  | Some i => ∃ d, ds !! i = Some d ∧
                ∀ d', d' ∈ ds → (weight_at weights d' ≤ weight_at weights d)%Z
  end.
Proof.
  unfold best_weighted_route_destination_index.
  pose proof (best_destination_loop_spec weights ds 0 None) as Hs.
  destruct (best_destination_loop weights 0 ds None) as [[[i d] cur]|]; [|by destruct Hs].
  destruct Hs as ([?|(j & -> & Hj & ->)] & Hle & _); [done|]. by exists d.
Qed.

Lemma elem_of_enumerate {A} (l : list A) i x : (i, x) ∈ enumerate l ↔ l !! i = Some x.
Proof.
  unfold enumerate. rewrite elem_of_lookup_imap. split.
  - by intros (j & y & [= -> ->] & ?).
  - intros ?. by exists i, x.
Qed.

(** A list of distinct indices that is shorter than the range misses one of them. *)
Lemma index_missing n order :
  (length order < n)%nat → ∃ i, (i < n)%nat ∧ i ∉ order.
Proof.
  intros Hlt. destruct (decide (Exists (.∉ order) (seq 0 n))) as [He|He].
  - apply Exists_exists in He as (i & Hi & ?). exists i. split; [|done].
    apply elem_of_seq in Hi. lia.
  - exfalso. apply not_Exists_Forall in He; [|apply _].
    assert (seq 0 n ⊆+ order) as Hs%submseteq_length.
    { apply NoDup_submseteq; [apply NoDup_seq|]. intros i Hi. rewrite Forall_forall in He.
      specialize (He i Hi). by apply dec_stable in He. }
    rewrite length_seq in Hs. lia.
Qed.

Definition order_ok (n : nat) (order : list nat) : Prop :=
  NoDup order ∧ Forall (λ i, i < n)%nat order.

Lemma order_ok_length n order : order_ok n order → (length order ≤ n)%nat.
Proof.
  intros [Hnd Hlt]. rewrite <- (length_seq n 0). apply submseteq_length, NoDup_submseteq; [done|].
  intros i Hi. rewrite Forall_forall in Hlt. apply elem_of_seq. specialize (Hlt i Hi). lia.
Qed.

Lemma order_ok_full n order : order_ok n order → length order = n → order ≡ₚ seq 0 n.
Proof.
  intros [Hnd Hlt] Hlen. apply submseteq_length_Permutation; [|by rewrite length_seq, Hlen].
  apply NoDup_submseteq; [done|].
  intros i Hi. rewrite Forall_forall in Hlt. apply elem_of_seq. specialize (Hlt i Hi). lia.
Qed.

Lemma fallback_loop_spec ds total0 fuel : ∀ weights order,
  order_ok (length ds) order → (length ds ≤ fuel + length order)%nat →
  fallback_loop fuel ds total0 weights order ≡ₚ seq 0 (length ds) ∧
  order `prefix_of` fallback_loop fuel ds total0 weights order.
Proof.
  induction fuel as [|fuel IH]; intros weights order Hok Hf; cbn [fallback_loop].
  { split; [|done]. apply order_ok_full; [done|]. pose proof (order_ok_length _ _ Hok). lia. }
  case_decide as Hlt.
  2: { split; [|done]. apply order_ok_full; [done|]. pose proof (order_ok_length _ _ Hok). lia. }
  destruct (max_by _ _) as [[i d]|] eqn:Em.
  - apply max_by_elem, list_elem_of_filter in Em as [Hni Hi%elem_of_enumerate]. simpl in Hni.
    destruct (IH (subtract_weight weights d.(d_cluster) total0) (order ++ [i])) as [Hp Hpre].
    + destruct Hok as [Hnd Hall]. split.
      * apply NoDup_app. split_and!; [done| |apply NoDup_singleton].
        by intros j Hj ->%list_elem_of_singleton.
      * apply Forall_app. split; [done|]. constructor; [|done]. by eapply lookup_lt_Some.
    + rewrite length_app. simpl. lia.
    + split; [done|]. etransitivity; [|exact Hpre]. by apply prefix_app_r.
  - exfalso. apply max_by_None in Em.
    destruct (index_missing (length ds) order Hlt) as (i & Hi & Hni).
    apply lookup_lt_is_Some in Hi as [d Hd].
    assert (Hin : (i, d) ∈ filter (λ p, p.1 ∉ order) (enumerate ds))
      by by apply list_elem_of_filter; split; [|apply elem_of_enumerate].
    rewrite Em in Hin. by apply elem_of_nil in Hin.
Qed.

Lemma fallback_cmp_weight weights (a b : nat * Destination) :
  match fallback_cmp weights a b with
  | Gt => weight_at weights b.2 ≤ weight_at weights a.2
  | _ => weight_at weights a.2 ≤ weight_at weights b.2
  end%Z.
Proof.
  unfold fallback_cmp, then_with. destruct (Z.compare_spec (weight_at weights a.2) (weight_at weights b.2));
    repeat case_match; lia.
Qed.

(** Destination [i] has at least the weight of destination [j]. *)
Definition heavier (ds : list Destination) (weights : gmap string Z) (i j : nat) : Prop :=
  ∀ d d', ds !! i = Some d → ds !! j = Some d' → (weight_at weights d' ≤ weight_at weights d)%Z.

Lemma weight_at_subtract weights name total0 d :
  d.(d_cluster) ≠ name → weight_at (subtract_weight weights name total0) d = weight_at weights d.
Proof. intros Hne. unfold weight_at, subtract_weight. by rewrite lookup_alter_ne. Qed.

Lemma names_inj ds i j d d' :
  NoDup (names ds) → ds !! i = Some d → ds !! j = Some d' → d.(d_cluster) = d'.(d_cluster) → i = j.
Proof.
  intros Hnd Hi Hj E. eapply NoDup_lookup; [exact Hnd | |].
  - unfold names. by rewrite list_lookup_fmap, Hi.
  - unfold names. rewrite list_lookup_fmap, Hj. simpl. by rewrite E.
Qed.

(** With distinct names, the fallbacks come by decreasing weight. *)
Lemma fallback_loop_sorted ds total0 w0 fuel : NoDup (names ds) → ∀ weights order,
  (∀ i d, ds !! i = Some d → i ∉ order → weight_at weights d = weight_at w0 d) →
  ∃ rest, fallback_loop fuel ds total0 weights order = order ++ rest ∧
          StronglySorted (heavier ds w0) rest ∧ Forall (.∉ order) rest.
Proof.
  intros Hnd. induction fuel as [|fuel IH]; intros weights order Hw; cbn [fallback_loop].
  { exists []. rewrite app_nil_r. by split_and!; [|constructor..]. }
  case_decide; [|exists []; rewrite app_nil_r; by split_and!; [|constructor..]].
  destruct (max_by _ _) as [[i d]|] eqn:Em; [|exists []; rewrite app_nil_r; by split_and!; [|constructor..]].
  pose proof (max_by_measure _ (λ p, weight_at weights p.2) _ _ (fallback_cmp_weight weights) Em) as Hmax.
  apply max_by_elem, list_elem_of_filter in Em as [Hni Hi%elem_of_enumerate]. simpl in Hni, Hmax.
  destruct (IH (subtract_weight weights d.(d_cluster) total0) (order ++ [i])) as (rest & E & Hs & Hout).
  { intros j d' Hj Hnj. rewrite elem_of_app, list_elem_of_singleton in Hnj.
    rewrite weight_at_subtract; [apply (Hw j); tauto|]. intros Ed. apply Hnj. right.
    by eapply names_inj. }
  exists (i :: rest). rewrite E, <- app_assoc. split_and!; [done| |].
  - apply StronglySorted_cons. split; [|done]. eapply Forall_impl; [exact Hout|].
    intros j Hj d1 d2 H1 H2. rewrite Hi in H1. injection H1 as <-.
    apply not_elem_of_app in Hj as [Hj _]. rewrite <- (Hw i d Hi Hni), <- (Hw j d2 H2 Hj).
    apply (Hmax (j, d2)), list_elem_of_filter. split; [done | by apply elem_of_enumerate].
  - constructor; [done|]. eapply Forall_impl; [exact Hout|]. by intros j [? _]%not_elem_of_app.
Qed.

(** The state after the order is computed, and the order itself. *)
Lemma destination_order_cases ds st :
  let r := select_weighted_route_destination_order ds st in
  let raised := add_weights ds (filter (λ kw, kw.1 ∈ names ds) st.(rd_current_weights)) in
  let total0 := foldr (λ d acc, (destination_weight d + acc)%Z) 0%Z ds in
  ds = [] ∧ r.2 = [] ∨
  ∃ i d, ds !! i = Some d ∧ (∀ d', d' ∈ ds → (weight_at raised d' ≤ weight_at raised d)%Z) ∧
    r.1.(rd_current_weights) = subtract_weight raised d.(d_cluster) total0 ∧
    r.2 = fallback_loop (length ds) ds total0 r.1.(rd_current_weights) [i].
Proof.
  cbv zeta. unfold select_weighted_route_destination_order.
  set (raised := add_weights ds _). pose proof (best_index_spec ds raised) as Hb.
  destruct (best_weighted_route_destination_index ds raised) as [i|]; [|by left].
  destruct Hb as (d & Hd & Hmax). right. exists i, d. by rewrite Hd.
Qed.

Lemma order_permutation ds st :
  (select_weighted_route_destination_order ds st).2 ≡ₚ seq 0 (length ds).
Proof.
  pose proof (destination_order_cases ds st) as Hc. cbv zeta in Hc.
  destruct (select_weighted_route_destination_order ds st) as [st' order]. simpl in *.
  destruct Hc as [[-> ->]|(i & d & Hd & _ & _ & ->)]; [done|].
  apply fallback_loop_spec; [|simpl; lia]. split; [apply NoDup_singleton|].
  constructor; [by eapply lookup_lt_Some | done].
Qed.

(** The order in which a weighted pool tries its destinations is complete.  It
    lists every destination exactly once, whatever the state of the weights; and
    when the cluster names are distinct, the fallbacks after the first come by
    decreasing current weight. *)
Theorem destination_order_complete (ds : list Destination) (st : RouteDestinationWeightedState) :
  let '(st', order) := select_weighted_route_destination_order ds st in
  order ≡ₚ seq 0 (length ds) ∧
  (NoDup (names ds) → StronglySorted (heavier ds st'.(rd_current_weights)) (tail order)).
Proof.
  pose proof (order_permutation ds st) as Hp. pose proof (destination_order_cases ds st) as Hc.
  cbv zeta in Hc. destruct (select_weighted_route_destination_order ds st) as [st' order].
  simpl in *. split; [done|]. intros Hnd.
  destruct Hc as [[-> ->]|(i & d & Hd & _ & _ & ->)]; [constructor|]. set (total0 := foldr _ _ _).
  destruct (fallback_loop_sorted ds total0 st'.(rd_current_weights) (length ds) Hnd
              st'.(rd_current_weights) [i]) as (rest & -> & Hs & _); done.
Qed.

Definition example_destinations : list Destination :=
  [{| d_weight := 10; d_pool := 1; d_cluster := "canary" |};
   {| d_weight := 90; d_pool := 0; d_cluster := "stable" |};
   {| d_weight := 20; d_pool := 2; d_cluster := "beta" |}].

Lemma destination_order_complete_witness :
  let '(st', order) := select_weighted_route_destination_order example_destinations
                         RouteDestinationWeightedState_default in
  order = [1; 2; 0]%nat ∧ StronglySorted (heavier example_destinations st'.(rd_current_weights)) [2; 0]%nat.
Proof.
  pose proof (destination_order_complete example_destinations
    RouteDestinationWeightedState_default) as H.
  assert (E : (select_weighted_route_destination_order example_destinations
    RouteDestinationWeightedState_default).2 = [1; 2; 0]%nat) by (vm_compute; reflexivity).
  destruct (select_weighted_route_destination_order _ _) as [st' order]. cbn [snd] in E. subst order.
  split; [reflexivity|]. apply H. apply (bool_decide_unpack _). vm_compute. exact I.
Defined.

(** ** Theorems: the split of the traffic *)

Lemma add_weights_lookup ds : ∀ m name, NoDup (names ds) →
  add_weights ds m !! name =
    if decide (name ∈ names ds) then Some (current m name + weight_by_name ds name)%Z
    else m !! name.
Proof.
  induction ds as [|d ds IH]; intros m name Hnd; [by rewrite decide_False by apply not_elem_of_nil|].
  apply NoDup_cons in Hnd as [Hd Hnd]. unfold add_weights. cbn [foldl].
  fold (add_weights ds (<[d.(d_cluster) := (weight_at m d + destination_weight d)%Z]> m)).
  rewrite IH by done. cbn [names fmap list_fmap keyed_weight]. fold (names ds).
  destruct (decide (d.(d_cluster) = name)) as [<-|Hne].
  - rewrite decide_False, decide_True by (done || left). by rewrite lookup_insert_eq.
  - unfold current. rewrite lookup_insert_ne by done.
    destruct (decide (name ∈ names ds)).
    + by rewrite decide_True by by right.
    + rewrite decide_False; [done|]. by intros [->|?]%elem_of_cons.
Qed.

Definition state_current (st : RouteDestinationWeightedState) : string → Z :=
  current st.(rd_current_weights).

Lemma weight_at_current weights d : weight_at weights d = current weights d.(d_cluster).
Proof. done. Qed.

(** One computation of the order is a round of smooth weighted round-robin, in which
    the first destination is picked. *)
Lemma destination_order_step ds st :
  ds ≠ [] → NoDup (names ds) →
  let '(st', order) := select_weighted_route_destination_order ds st in
  ∃ i d, head order = Some i ∧ ds !! i = Some d ∧
    wrr_step (names ds) (weight_by_name ds) (state_current st) d.(d_cluster) (state_current st').
Proof.
  intros Hne Hnd. pose proof (destination_order_cases ds st) as Hc. cbv zeta in Hc.
  destruct (select_weighted_route_destination_order ds st) as [st' order]. cbn [fst snd] in Hc.
  destruct Hc as [[? _]|(i & d & Hd & Hmax & Hst & ->)]; [done|]. exists i, d.
  set (total0 := foldr _ _ ds) in *.
  destruct (fallback_loop_spec ds total0 (length ds) st'.(rd_current_weights) [i]) as [_ [rest ->]].
  { split; [apply NoDup_singleton|]. constructor; [by eapply lookup_lt_Some | done]. }
  { simpl. lia. }
  set (m := filter _ st.(rd_current_weights)) in *.
  assert (Hcur : ∀ n, n ∈ names ds → current m n = state_current st n).
  { intros n Hn. unfold state_current, current, m. rewrite map_lookup_filter.
    destruct (st.(rd_current_weights) !! n); simpl; [|done]. by rewrite option_guard_True. }
  assert (Hraised : ∀ n, n ∈ names ds →
    add_weights ds m !! n = Some (state_current st n + weight_by_name ds n)%Z).
  { intros n Hn. rewrite add_weights_lookup, decide_True by done. by rewrite Hcur. }
  assert (Hdn : d.(d_cluster) ∈ names ds) by by eapply list_elem_of_fmap_2, list_elem_of_lookup_2.
  split_and!; [done..|]. split_and!; [done| |].
  - intros n Hn. pose proof Hn as (d' & -> & Hd')%list_elem_of_fmap. specialize (Hmax d' Hd').
    rewrite !weight_at_current in Hmax. unfold current at 1 2 in Hmax.
    by rewrite !Hraised in Hmax.
  - intros n Hn. unfold state_current at 1, current. rewrite Hst. unfold subtract_weight.
    change (total (names ds) (weight_by_name ds)) with (total (d_cluster <$> ds) (weight_by_name ds)).
    rewrite total_keyed_weight by done. fold total0. case_decide as E.
    + subst n. by rewrite lookup_alter_eq, Hraised.
    + rewrite lookup_alter_ne, Hraised by done. simpl. lia.
Qed.

(** [n] requests: the destination tried first by each. *)
Fixpoint first_choices (n : nat) (ds : list Destination) (st : RouteDestinationWeightedState) :
    RouteDestinationWeightedState * list string :=
  match n with
  | O => (st, [])
  | S n =>
      let '(st, order) := select_weighted_route_destination_order ds st in
      let '(st, rest) := first_choices n ds st in
      (st, match head order ≫= (ds !!.) with Some d => d.(d_cluster) :: rest | None => rest end)
  end.

Lemma first_choices_run n ds : ds ≠ [] → NoDup (names ds) → ∀ st,
  let '(st', picks) := first_choices n ds st in
  length picks = n ∧
  wrr_run (names ds) (weight_by_name ds) (state_current st) picks (state_current st').
Proof.
  intros Hne Hnd. induction n as [|n IH]; intros st; cbn [first_choices]; [by split; [|constructor]|].
  pose proof (destination_order_step ds st Hne Hnd) as Hstep.
  destruct (select_weighted_route_destination_order ds st) as [st1 order].
  destruct Hstep as (i & d & -> & Hd & Hstep). specialize (IH st1).
  destruct (first_choices n ds st1) as [st2 picks]. destruct IH as [Hlen Hrun].
  simpl. rewrite Hd. simpl. split; [by rewrite Hlen | by econstructor].
Qed.

Definition total_of (ds : list Destination) : Z :=
  foldr (λ d acc, (destination_weight d + acc)%Z) 0%Z ds.

(** The weights are the non-zero [u16] values [from_weighted_destinations] accepts. *)
Definition weight_valid (d : Destination) : Prop := 0 < d.(d_weight) ≤ u16_max.

Lemma total_of_bound ds :
  Forall weight_valid ds → (0 ≤ total_of ds ≤ Z.of_nat (length ds) * 65535)%Z.
Proof.
  induction 1 as [|d ds Hd _ IH]; [done|]. cbn [total_of foldr length]. fold (total_of ds).
  unfold weight_valid, u16_max, destination_weight in *. lia.
Qed.

(** The traffic split of a weighted pool is exact.  For destinations with distinct
    cluster names and accepted weights, from a fresh state: (1) after any number [n] of
    requests no destination has been the first choice a whole time more than its share
    [n * weight / total], and no current weight leaves the range of [i64] (with at most
    2^23 destinations), also after the next increment; (2) a full round of [total]
    requests makes each destination the first choice exactly [weight] times and restores
    the weights. *)
Theorem weighted_split_exact (ds : list Destination)
  (Hnd : NoDup (names ds)) (Hw : Forall weight_valid ds) (Hn : (Z.of_nat (length ds) ≤ 2 ^ 23)%Z) :
  (∀ n d, d ∈ ds →
     let '(st', picks) := first_choices n ds RouteDestinationWeightedState_default in
     (total_of ds * picked d.(d_cluster) picks
        < Z.of_nat n * destination_weight d + total_of ds)%Z ∧
     (- 2 ^ 63 ≤ state_current st' d.(d_cluster) < 2 ^ 63 - destination_weight d)%Z) ∧
  (∀ d, d ∈ ds →
     let '(st', picks) := first_choices (Z.to_nat (total_of ds)) ds
                            RouteDestinationWeightedState_default in
     picked d.(d_cluster) picks = destination_weight d ∧
     state_current st' d.(d_cluster) = 0%Z).
Proof.
  set (st0 := RouteDestinationWeightedState_default).
  assert (Hz : ∀ j, j ∈ names ds → state_current st0 j = 0%Z) by done.
  assert (Hpos : ∀ j, j ∈ names ds → (0 < weight_by_name ds j)%Z).
  { intros j. apply keyed_weight_pos. intros d Hd. rewrite Forall_forall in Hw.
    specialize (Hw d Hd). unfold weight_valid, destination_weight in *. lia. }
  assert (Htot : total (names ds) (weight_by_name ds) = total_of ds) by by apply total_keyed_weight.
  split; [intros n d Hd | intros d Hd];
    (assert (Hdn : d.(d_cluster) ∈ names ds) by by apply list_elem_of_fmap_2);
    (assert (Hne : ds ≠ []) by by intros ->; apply elem_of_nil in Hd);
    pose proof (keyed_weight_elem _ destination_weight ds d Hnd Hd) as Hwd.
  - pose proof (first_choices_run n ds Hne Hnd st0) as Hrun.
    destruct (first_choices n ds st0) as [st' picks]. destruct Hrun as [Hlen Hrun].
    pose proof (wrr_share _ _ Hnd Hpos _ _ _ _ Hrun Hz Hdn) as Hs.
    pose proof (wrr_run_ok _ _ Hnd Hpos _ _ _ (wrr_ok_zero _ _ Hpos _ _ Hdn Hz) Hrun) as Hok.
    pose proof (wrr_magnitude _ _ Hpos _ _ Hok Hdn) as Hm.
    rewrite Htot, Hwd, Hlen in Hs. split; [done|]. unfold names in Hm. rewrite length_fmap in Hm.
    fold (names ds) in Hm. rewrite Htot in Hm. pose proof (total_of_bound ds Hw).
    rewrite Forall_forall in Hw. specialize (Hw d Hd).
    unfold weight_valid, destination_weight, u16_max in *. nia.
  - pose proof (first_choices_run (Z.to_nat (total_of ds)) ds Hne Hnd st0) as Hrun.
    destruct (first_choices _ ds st0) as [st' picks]. destruct Hrun as [Hlen Hrun].
    rewrite <- Hwd. apply (wrr_round _ _ Hnd Hpos _ _ _ Hrun Hz); [|done].
    pose proof (total_of_bound ds Hw). rewrite Hlen, Htot. lia.
Qed.

Lemma weighted_split_exact_witness :
  let '(st', picks) := first_choices 120 example_destinations
                         RouteDestinationWeightedState_default in
  picked "beta" picks = 20%Z ∧ state_current st' "beta" = 0%Z.
Proof.
  pose proof (weighted_split_exact example_destinations) as H.
  apply (H ltac:(apply (bool_decide_unpack _); vm_compute; exact I)
           ltac:(repeat constructor; vm_compute; discriminate)
           ltac:(vm_compute; discriminate))
    with (d := {| d_weight := 20; d_pool := 2; d_cluster := "beta" |}).
  do 2 right. left.
Defined.

(** ** The invariant of the store *)

Lemma note_signal_registry h (name id : string) signal :
  (note_signal h name id signal).1.(uh_registry) = h.(uh_registry).
Proof.
  unfold note_signal, apply_signal. simpl. case_match; [|done]. cbv zeta. simpl.
  case_decide; [done|]. destruct (event_for_transition _ _).
  by edestruct push_event_fields as (-> & _).
Qed.

Definition single_ok (p : SinglePool) : Prop :=
  health_inv p.(pool_registry) ∧
  is_Some (EndpointRegistry_cluster p.(pool_registry).(uh_registry) p.(pool_cluster_name)).

Definition destination_ok (s : Store) (d : Destination) : Prop :=
  weight_valid d ∧
  ∃ p, s.(singles) !! d.(d_pool) = Some p ∧ p.(pool_cluster_name) = d.(d_cluster).

(** Every single pool has a consistent registry that knows its cluster; every
    weighted pool has destinations, sorted by name, with accepted weights, that refer
    to single pools of the store. *)
Record store_ok (s : Store) : Prop := {
  ok_singles : ∀ i p, s.(singles) !! i = Some p → single_ok p;
  ok_weighteds : ∀ i w, s.(weighteds) !! i = Some w →
    w.(destinations) ≠ [] ∧ Forall (destination_ok s) w.(destinations) ∧
    StronglySorted (key_le d_cluster String.compare) w.(destinations)
}.

(** [s'] has the pools of [s], with the same configuration. *)
Definition extends (s s' : Store) : Prop :=
  (∀ i p, s.(singles) !! i = Some p →
     ∃ p', s'.(singles) !! i = Some p' ∧ p'.(pool_cluster_name) = p.(pool_cluster_name) ∧
           p'.(pool_selection_policy) = p.(pool_selection_policy)) ∧
  (∀ i w, s.(weighteds) !! i = Some w →
     ∃ w', s'.(weighteds) !! i = Some w' ∧ w'.(destinations) = w.(destinations)).

#[export] Instance extends_preorder : PreOrder extends.
Proof.
  split.
  - intros s. split; intros; eauto.
  - intros s1 s2 s3 [H1 H2] [H3 H4]. split.
    + intros i p (p' & Hp' & E1 & E2)%H1. apply H3 in Hp' as (p'' & ? & ? & ?).
      exists p''. split_and!; congruence.
    + intros i w (w' & Hw' & E)%H2. apply H4 in Hw' as (w'' & ? & ?).
      exists w''. split; congruence.
Qed.

Lemma destination_ok_extends s s' d : extends s s' → destination_ok s d → destination_ok s' d.
Proof.
  intros [He _] [Hw (p & Hp & E)]. split; [done|]. apply He in Hp as (p' & ? & ? & _).
  exists p'. split; congruence.
Qed.

#[export] Hint Resolve destination_ok_extends : wb.

Definition same_config (p p' : SinglePool) : Prop :=
  p'.(pool_cluster_name) = p.(pool_cluster_name) ∧
  p'.(pool_selection_policy) = p.(pool_selection_policy).

(** Replacing or adding a single pool. *)
Lemma set_single_ok s i p' :
  store_ok s → single_ok p' → (∀ p, s.(singles) !! i = Some p → same_config p p') →
  store_ok (set_single s i p') ∧ extends s (set_single s i p').
Proof.
  intros [Hs Hw] Hp' Hsame.
  assert (He : extends s (set_single s i p')).
  { split; [|intros; eauto]. intros j p Hj. simpl. case_key i j.
    - exists p'. by apply Hsame in Hj as [? ?].
    - by eauto. }
  split; [|done]. split.
  - intros j p. simpl. case_key i j; [by intros [= <-] | apply Hs].
  - intros j w Hj. destruct (Hw j w Hj) as (? & Hd & ?). split_and!; [done| |done].
    by_weakening Hd.
Qed.

(** Updating the state of a weighted pool. *)
Lemma update_state_ok s i f : store_ok s → store_ok (update_state s i f) ∧ extends s (update_state s i f).
Proof.
  intros [Hs Hw].
  assert (He : extends s (update_state s i f)).
  { split; [intros; eauto|]. intros j w Hj. simpl.
    case_key i j; [rewrite Hj; simpl|]; by eauto. }
  split; [|done]. split; [done|].
  assert (Hold : ∀ j w, (update_state s i f).(weighteds) !! j = Some w →
            ∃ w0, s.(weighteds) !! j = Some w0 ∧ w.(destinations) = w0.(destinations)).
  { intros j w. simpl. case_key i j; [|by eauto].
    destruct (s.(weighteds) !! i) as [w0|] eqn:E; [|done].
    simpl. intros [= <-]. by exists w0. }
  intros j w (w0 & Hj & ->)%Hold. destruct (Hw j w0 Hj) as (? & Hd & ?). split_and!; [done| |done].
  by_weakening Hd.
Qed.

(** An operation that does not panic and keeps the invariant and the pools. *)
Definition keeps {R} (s : Store) (r : option (Store * R)) : Prop :=
  ∃ s' x, r = Some (s', x) ∧ store_ok s' ∧ extends s s'.

(** ** Selection keeps the invariant and falls back in order *)

Section selection_proofs.
Context `{!AffinityScoring}.

(** The candidates pool [i] may select from. *)
Definition eligible_of (s : Store) (i : nat) : option (list EndpointSelectionCandidate) :=
  p ← s.(singles) !! i;
  match eligible_candidates p.(pool_registry) p.(pool_cluster_name) p.(pool_selection_policy) with
  | Ok l => Some l
  | Err _ => None
  end.

(** The destination has a candidate to offer. *)
Definition serves (s : Store) (d : Destination) : Prop :=
  ∃ l, eligible_of s d.(d_pool) = Some l ∧ l ≠ [].

(** The backend for candidate [c] of cluster [name], served by pool [i]. *)
Definition backend_of (name : string) (i : nat) (c : EndpointSelectionCandidate) :
    SelectedRouteBackend :=
  {| sb_pool := PoolSingle i; sb_endpoint_id := c.(sc_endpoint_id);
     sb_upstream := UpstreamTarget_new (name +:+ ":" +:+ c.(sc_endpoint_id)) c.(sc_address) |}.

Lemma single_eligible p :
  single_ok p → ∃ l, eligible_candidates p.(pool_registry) p.(pool_cluster_name)
                       p.(pool_selection_policy) = Ok l.
Proof.
  intros [Hh [c Hc]]. unfold eligible_candidates. simpl.
  destruct (selection_candidates_ok _ Hh _ false c Hc) as (l1 & -> & _).
  destruct (selection_candidates_ok _ Hh _ true c Hc) as (l2 & -> & _).
  destruct l1; [destruct p.(pool_selection_policy).(sp_no_healthy_fallback)|]; by eauto.
Qed.

Lemma select_single_spec s i p context :
  store_ok s → s.(singles) !! i = Some p →
  ∃ s' r l, select_single s i context = Some (s', r) ∧ store_ok s' ∧ extends s s' ∧
    s'.(weighteds) = s.(weighteds) ∧ (∀ j, eligible_of s' j = eligible_of s j) ∧
    eligible_of s i = Some l ∧
    match l with
    | [] => r = Err (NoEligibleEndpoints p.(pool_cluster_name))
    | _ => ∃ c, c ∈ l ∧ r = Ok (backend_of p.(pool_cluster_name) i c)
    end.
Proof.
  intros Hs Hp. pose proof (ok_singles _ Hs _ _ Hp) as Hok.
  destruct (single_eligible p Hok) as [l Hl].
  pose proof (select_endpoint_result p.(pool_registry) p.(pool_cluster_name)
    p.(pool_selection_policy) context (proj1 Hok) p.(pool_balancer)) as Hres.
  cbv zeta in Hres. rewrite Hl in Hres. unfold select_single. rewrite Hp. simpl.
  destruct (UpstreamBalancer_select_endpoint _ _ _ _ _) as [b result]. cbn [snd] in Hres.
  set (p' := {| pool_cluster_name := _ |}).
  destruct (set_single_ok s i p') as [Hs' He]; [done | exact Hok | by rewrite Hp; intros ? [= <-] |].
  assert (Hel : ∀ j, eligible_of (set_single s i p') j = eligible_of s j).
  { intros j. unfold eligible_of. simpl. case_key i j; by rewrite ?Hp. }
  assert (Hei : eligible_of s i = Some l) by (unfold eligible_of; rewrite Hp; simpl; by rewrite Hl).
  destruct l as [|c0 l0]; [subst result; by eexists _, _, []|].
  destruct Hres as (c & -> & _ & Hc). eexists _, _, (c0 :: l0). split_and!; [done..|]. by exists c.
Qed.

(** The loop over the destinations that are tried. *)
Lemma try_destinations_spec i ds context order : ∀ s w rank last_error,
  store_ok s → s.(weighteds) !! i = Some w → Forall (destination_ok s) ds →
  Forall (λ j, j < length ds)%nat order →
  let tried := omap (ds !!.) order in
  ∃ s' r, try_destinations s i ds context rank order last_error = Some (s', r) ∧
    store_ok s' ∧ extends s s' ∧
    ((∃ k d l c, tried !! k = Some d ∧ Forall (λ d', ¬ serves s d') (take k tried) ∧
        eligible_of s d.(d_pool) = Some l ∧ c ∈ l ∧
        r = Ok (backend_of d.(d_cluster) d.(d_pool) c) ∧
        s'.(weighteds) !! i = Some {| destinations := w.(destinations);
          wp_state := record_selection w.(wp_state) (rank + k) d.(d_cluster) |}) ∨
     (Forall (λ d, ¬ serves s d) tried ∧ s'.(weighteds) !! i = Some w ∧
      r = Err (match last tried with
               | Some d => Some (NoEligibleEndpoints d.(d_cluster))
               | None => last_error
               end))).
Proof.
  induction order as [|j order IH]; intros s w rank last_error Hs Hw Hds Hlt; cbv zeta;
    cbn [try_destinations].
  { eexists s, _. split_and!; [done..|]. right. by split_and!; [constructor|..]. }
  apply Forall_cons in Hlt as [Hj Hlt]. apply lookup_lt_is_Some in Hj as [d Hd]. simpl. rewrite Hd.
  simpl. pose proof (Forall_lookup_1 _ _ _ _ Hds Hd) as [_ (p & Hp & Hn)].
  destruct (select_single_spec s d.(d_pool) p context Hs Hp)
    as (s1 & r1 & l & -> & Hs1 & He1 & Hws & Hel & Hl & Hr1). simpl.
  destruct l as [|c0 l0].
  - subst r1. cbv zeta in IH.
    destruct (IH s1 w (S rank) (Some (NoEligibleEndpoints d.(d_cluster)))) as
      (s2 & r & Hrun & Hs2 & He2 & Hcase); [done | by rewrite Hws | | done |].
    { by_weakening Hds. }
    assert (Hno : ¬ serves s d) by (intros (l & Hl' & Hne); congruence).
    assert (Hsv : ∀ d', ¬ serves s1 d' → ¬ serves s d').
    { intros d' Hn' (l & Hl' & Hne). apply Hn'. exists l. by rewrite Hel. }
    exists s2, r. split_and!; [done..|by etransitivity|].
    destruct Hcase as [(k & d' & l & c & Ht & Hall & Hl' & Hc & Hr & Hst)|(Hall & Hst & Hr)].
    + left. exists (S k), d', l, c. rewrite Hel in Hl'. simpl. split_and!; [done| |done..|].
      * constructor; [done|]. eapply Forall_impl; [exact Hall|]. apply Hsv.
      * rewrite Hst. by rewrite <- plus_n_Sm.
    + right. split_and!; [|done|].
      * constructor; [done|]. eapply Forall_impl; [exact Hall|]. apply Hsv.
      * rewrite Hr, last_cons. by destruct (last _).
  - destruct Hr1 as (c & Hc & ->). rewrite Hn.
    set (f := λ st, record_selection st rank d.(d_cluster)).
    destruct (update_state_ok s1 i f Hs1) as [Hs2 He2].
    eexists _, _. split_and!; [done..|by etransitivity|]. left.
    exists 0%nat, d, (c0 :: l0), c. split_and!; [done|constructor|done..|].
    simpl. rewrite lookup_alter_eq, Hws, Hw. simpl. by rewrite Nat.add_0_r.
Qed.

(** The destinations in the order they are tried are the destinations of the pool. *)
Lemma tried_perm (ds : list Destination) (order : list nat) : order ≡ₚ seq 0 (length ds) → omap (ds !!.) order ≡ₚ ds.
Proof.
  intros ->. apply reflexive_eq.
  assert (Hgen : ∀ pre l : list Destination, omap ((pre ++ l) !!.) (seq (length pre) (length l)) = l).
  { intros pre l. revert pre. induction l as [|x l IH]; intros pre; [done|]. simpl.
    rewrite lookup_app_r, Nat.sub_diag by done. simpl. f_equal.
    specialize (IH (pre ++ [x])). rewrite length_app, <- app_assoc in IH. simpl in IH.
    by rewrite Nat.add_1_r in IH. }
  apply (Hgen []).
Qed.

Lemma select_weighted_spec s i w context :
  store_ok s → s.(weighteds) !! i = Some w →
  let '(st, order) := select_weighted_route_destination_order w.(destinations) w.(wp_state) in
  let tried := omap (w.(destinations) !!.) order in
  ∃ s' r, RouteBackendPool_select_backend_with_context s (PoolWeighted i) context = Some (s', r) ∧
    store_ok s' ∧ extends s s' ∧
    ((∃ k d l c, tried !! k = Some d ∧ Forall (λ d', ¬ serves s d') (take k tried) ∧
        eligible_of s d.(d_pool) = Some l ∧ c ∈ l ∧
        r = Ok (backend_of d.(d_cluster) d.(d_pool) c) ∧
        s'.(weighteds) !! i = Some {| destinations := w.(destinations);
          wp_state := record_selection st k d.(d_cluster) |}) ∨
     (Forall (λ d, ¬ serves s d) w.(destinations) ∧
      s'.(weighteds) !! i = Some {| destinations := w.(destinations); wp_state := st |} ∧
      ∃ d, last tried = Some d ∧ r = Err (NoEligibleEndpoints d.(d_cluster)))).
Proof.
  intros Hs Hw. pose proof (order_permutation w.(destinations) w.(wp_state)) as Hperm.
  cbn [RouteBackendPool_select_backend_with_context]. rewrite Hw. simpl.
  destruct (select_weighted_route_destination_order _ _) as [st order]. cbn [snd] in Hperm. cbv zeta.
  destruct (ok_weighteds _ Hs i w Hw) as (Hne & Hds & _).
  destruct (update_state_ok s i (λ _, st) Hs) as [Hs1 He1].
  set (s1 := update_state s i _) in *. set (w1 := {| destinations := w.(destinations); wp_state := st |}).
  assert (Hw1 : s1.(weighteds) !! i = Some w1) by (simpl; by rewrite lookup_alter_eq, Hw).
  destruct (try_destinations_spec i w.(destinations) context order s1 w1 0 None)
    as (s2 & r & -> & Hs2 & He2 & Hcase); [done..| | |].
  { by_weakening Hds. }
  { rewrite Hperm. apply Forall_forall. intros j ?%elem_of_seq. lia. }
  { pose proof (tried_perm _ _ Hperm) as Htp. simpl.
    destruct Hcase as [(k & d & l & c & Ht & Hall & Hl & Hc & -> & Hst)|(Hall & Hst & ->)].
    - eexists _, _. split_and!; [done..|by etransitivity|]. left. by exists k, d, l, c.
    - set (tried := omap _ order) in *. destruct (last tried) as [d|] eqn:El.
      + eexists _, _. split_and!; [done..|by etransitivity|]. right. rewrite Htp in Hall.
        split_and!; [done..|]. by exists d.
      + apply last_None in El. rewrite El in Htp. by apply Permutation_nil_l in Htp. }
Qed.
End selection_proofs.

(** ** Reachable stores *)

(** Feedback about an endpoint. *)
Inductive Feedback := PassiveOk | PassiveFail | ActiveOk | ActiveFail.

Definition feedback_signal (f : Feedback) : HealthSignal :=
  match f with
  | PassiveOk => PassiveSuccess Generic
  | PassiveFail => PassiveFailure Generic
  | ActiveOk => ActiveSuccess
  | ActiveFail => ActiveFailure
  end.

Definition note_feedback (s : Store) (p : RouteBackendPool) (id : string) (f : Feedback) :=
  match f with
  | PassiveOk => RouteBackendPool_note_passive_success s p id
  | PassiveFail => RouteBackendPool_note_passive_failure s p id
  | ActiveOk => RouteBackendPool_note_active_success s p id
  | ActiveFail => RouteBackendPool_note_active_failure s p id
  end.

Inductive PoolOp :=
| OFromCluster (c : UpstreamCluster) (hp : EndpointHealthPolicy) (sp : UpstreamSelectionPolicy)
| OFromWeighted (l : list WeightedRouteDestination)
| OSelect (p : RouteBackendPool) (context : SelectionContext)
| ONote (p : RouteBackendPool) (id : string) (f : Feedback)
| OAdvance (p : RouteBackendPool) (elapsed : Duration).

Definition valid_ref (s : Store) (p : RouteBackendPool) : Prop :=
  match p with
  | PoolSingle i => is_Some (s.(singles) !! i)
  | PoolWeighted i => is_Some (s.(weighteds) !! i)
  end.

(** The arguments are values the code can have: validated clusters, references to
    pools that were built, [u16] weights. *)
Definition pool_op_valid (s : Store) (o : PoolOp) : Prop :=
  match o with
  | OFromCluster c _ _ => cluster_wf c ∧ Forall endpoint_typed c.(endpoints)
  | OFromWeighted l => Forall (λ d, valid_ref s d.(wd_pool) ∧ d.(wd_weight) ≤ u16_max) l
  | OSelect p _ | ONote p _ _ | OAdvance p _ => valid_ref s p
  end.

Section pool_ops.
Context `{!AffinityScoring}.

Definition pool_op (s : Store) (o : PoolOp) : option Store :=
  match o with
  | OFromCluster c hp sp => Some (RouteBackendPool_from_cluster s c hp sp).1
  | OFromWeighted l => fst <$> RouteBackendPool_from_weighted_destinations s l
  | OSelect p context => fst <$> RouteBackendPool_select_backend_with_context s p context
  | ONote p id f => fst <$> note_feedback s p id f
  | OAdvance p elapsed => RouteBackendPool_advance_time s p elapsed
  end.

Inductive reachable : Store → Prop :=
| reachable_empty : reachable {| singles := ∅; weighteds := ∅ |}
| reachable_op s o s' :
    reachable s → pool_op_valid s o → pool_op s o = Some s' → reachable s'.

Definition keeps_store (s : Store) (r : option Store) : Prop :=
  ∃ s', r = Some s' ∧ store_ok s' ∧ extends s s'.

Lemma keeps_fst {R} s (r : option (Store * R)) : keeps s r → keeps_store s (fst <$> r).
Proof. intros (s' & x & -> & ? & ?). by exists s'. Qed.

Lemma from_cluster_keeps s c hp sp :
  store_ok s → cluster_wf c → Forall endpoint_typed c.(endpoints) →
  keeps s (Some (RouteBackendPool_from_cluster s c hp sp)).
Proof.
  intros Hs Hc Ht. unfold RouteBackendPool_from_cluster.
  pose proof (insert_cluster_inv _ c (health_new_inv hp) Hc Ht) as Hh.
  unfold UpstreamHealthRegistry_insert_cluster in *.
  destruct (EndpointRegistry_insert_cluster _ c) as [r res] eqn:Ei. simpl in Hh.
  destruct res; [|done]. simpl in *.
  set (h := foldl _ _ _) in *. set (i := fresh _). set (p := {| pool_cluster_name := _ |}).
  destruct (set_single_ok s i p Hs) as [? ?]; [| |by eexists _, _].
  - split; [done|]. simpl. unfold h.
    destruct (admit_endpoints_fields c.(cluster_name) c.(endpoints)
      (set_registry (UpstreamHealthRegistry_new hp) r)) as (-> & _).
    clear -Ei. unfold EndpointRegistry_insert_cluster, EndpointRegistry_cluster in *.
    simpl in Ei |- *. rewrite lookup_empty in Ei. injection Ei as <-. simpl.
    by rewrite lookup_insert_eq.
  - intros p0 Hp0. destruct (is_fresh (dom s.(singles))). by apply elem_of_dom_2 in Hp0.
Qed.

Lemma check_destinations_spec s l :
  store_ok s → Forall (λ d, valid_ref s d.(wd_pool) ∧ d.(wd_weight) ≤ u16_max) l →
  ∃ r, check_destinations s l = Some r ∧
    ∀ ds, r = Ok ds → Forall (destination_ok s) ds ∧ length ds = length l.
Proof.
  intros Hs. induction 1 as [|d l [Hv Hw] _ IH]; cbn [check_destinations].
  { eexists. split; [done|]. intros ds [= <-]. by split; [constructor|]. }
  assert (Hname : ∃ n, RouteBackendPool_cluster_name s d.(wd_pool) = Some n).
  { destruct d.(wd_pool) as [i|i]; destruct Hv as [x Hx]; simpl; rewrite Hx; simpl; [by eauto|].
    destruct (ok_weighteds _ Hs i x Hx) as (Hne & _). destruct x.(destinations); simpl; by eauto. }
  destruct Hname as [n Hn]. rewrite Hn. simpl. case_decide as Hz; [by eexists; split; [done|]|].
  destruct d.(wd_pool) as [i|i]; [|by eexists; split; [done|]]. destruct IH as (r & -> & Hr). simpl.
  destruct r as [rest|e]; [|by eexists; split; [done|]]. eexists. split; [done|]. intros ds [= <-].
  destruct (Hr rest eq_refl) as [Hall Hlen]. split; [|by simpl; rewrite Hlen].
  constructor; [|done]. destruct Hv as [p Hp]. split; [unfold weight_valid; simpl; lia|].
  exists p. simpl in Hn |- *. rewrite Hp in Hn. by injection Hn.
Qed.

Lemma set_weighted_ok s i w :
  store_ok s → s.(weighteds) !! i = None → w.(destinations) ≠ [] →
  Forall (destination_ok s) w.(destinations) →
  StronglySorted (key_le d_cluster String.compare) w.(destinations) →
  store_ok (set_weighted_pool s i w) ∧ extends s (set_weighted_pool s i w).
Proof.
  intros [Hs Hw] Hi Hne Hds Hsort. split.
  - split; [done|]. intros j w'. simpl. case_key i j; [by intros [= <-] | apply Hw].
  - split; [intros; eauto|]. intros j w' Hj. simpl. rewrite lookup_insert_ne by congruence. eauto.
Qed.

Lemma from_weighted_keeps s l :
  store_ok s → Forall (λ d, valid_ref s d.(wd_pool) ∧ d.(wd_weight) ≤ u16_max) l →
  keeps s (RouteBackendPool_from_weighted_destinations s l).
Proof.
  intros Hs Hl. destruct (check_destinations_spec s l Hs Hl) as (r & Hr & Hds).
  unfold RouteBackendPool_from_weighted_destinations.
  destruct l as [|d0 l0]; [by eexists _, _|]. rewrite Hr. simpl.
  destruct r as [ds|e]; [|by eexists _, _]. destruct (Hds ds eq_refl) as [Hall Hlen].
  set (i := fresh _). set (w := {| destinations := _ |}).
  destruct (set_weighted_ok s i w Hs) as [? ?]; [| | | |by eexists _, _].
  - apply not_elem_of_dom, is_fresh.
  - simpl. intros E. apply (f_equal length) in E. rewrite length_sort_by, Hlen in E. done.
  - simpl. by rewrite sort_by_perm.
  - apply sort_by_sorted, _.
Qed.

Lemma select_keeps s p context :
  store_ok s → valid_ref s p → keeps s (RouteBackendPool_select_backend_with_context s p context).
Proof.
  intros Hs Hv. destruct p as [i|i]; destruct Hv as [x Hx].
  - destruct (select_single_spec s i x context Hs Hx) as (s' & r1 & l & ? & ? & ? & _). by exists s', r1.
  - pose proof (select_weighted_spec s i x context Hs Hx) as Hsel.
    destruct (select_weighted_route_destination_order _ _) as [st order]. cbv zeta in Hsel.
    destruct Hsel as (s' & r & ? & ? & ? & _). by exists s', r.
Qed.

Lemma single_note_keeps s i id sig :
  store_ok s → is_Some (s.(singles) !! i) →
  keeps s (with_registry s i (λ h name, note_signal h name id sig)).
Proof.
  intros Hs [p Hp]. destruct (ok_singles _ Hs _ _ Hp) as [Hh Hc]. unfold with_registry. rewrite Hp.
  simpl. pose proof (health_op_inv _ (HSignal p.(pool_cluster_name) id sig) Hh I) as Hh'.
  pose proof (note_signal_registry p.(pool_registry) p.(pool_cluster_name) id sig) as Hr.
  simpl in Hh'. destruct (note_signal _ _ _ _) as [h r]. simpl in Hh', Hr.
  edestruct (set_single_ok s i) as [H1 H2]; [done| | |eexists _, _; split_and!; [done|exact H1|exact H2]].
  - split; [done|]. simpl. by rewrite Hr.
  - rewrite Hp. by intros ? [= <-].
Qed.

Lemma probe_targets_ok s d :
  store_ok s → destination_ok s d → ∃ l, probe_targets_single s d.(d_pool) = Some (Ok l).
Proof.
  intros Hs [_ (p & Hp & _)]. destruct (ok_singles _ Hs _ _ Hp) as [Hh [c Hc]].
  unfold probe_targets_single. rewrite Hp. simpl.
  destruct (selection_candidates_ok _ Hh _ true c Hc) as (l & -> & _). by eauto.
Qed.

Lemma note_loop_keeps s ds id missing note :
  store_ok s → Forall (destination_ok s) ds →
  (∀ d, destination_ok s d → keeps s (note s d.(d_pool))) → keeps s (note_loop s ds id note missing).
Proof.
  intros Hs Hds Hnote. induction Hds as [|d ds Hd _ IH]; cbn [note_loop]; [by eexists _, _|].
  destruct (probe_targets_ok s d Hs Hd) as [l ->]. simpl. destruct (existsb _ l); [|done].
  by apply Hnote.
Qed.

Lemma note_keeps s p id f :
  store_ok s → valid_ref s p → keeps s (note_feedback s p id f).
Proof.
  intros Hs Hv.
  assert (E : note_feedback s p id f =
    note_pool s p id (λ h name id, note_signal h name id (feedback_signal f))) by by destruct f.
  rewrite E. destruct p as [i|i]; simpl; [by apply single_note_keeps|].
  destruct Hv as [w Hw]. rewrite Hw. simpl. destruct (ok_weighteds _ Hs i w Hw) as (_ & Hds & _).
  apply note_loop_keeps; [done..|]. intros d [_ (p & Hp & _)]. apply single_note_keeps; eauto.
Qed.

Lemma advance_single_keeps s i elapsed :
  store_ok s → is_Some (s.(singles) !! i) → keeps_store s (advance_single elapsed s i).
Proof.
  intros Hs [p Hp]. destruct (ok_singles _ Hs _ _ Hp) as [Hh Hc]. unfold advance_single. rewrite Hp.
  simpl. edestruct (set_single_ok s i) as [H1 H2];
    [done| | |eexists; split_and!; [done|exact H1|exact H2]].
  - split; [by apply advance_time_inv|]. simpl. by rewrite advance_time_registry.
  - rewrite Hp. by intros ? [= <-].
Qed.

Lemma advance_all_keeps elapsed ds : ∀ s,
  store_ok s → Forall (destination_ok s) ds → keeps_store s (advance_all elapsed s ds).
Proof.
  induction ds as [|d ds IH]; intros s Hs Hds; cbn [advance_all]; [by exists s|].
  apply Forall_cons in Hds as [[_ (p & Hp & _)] Hds].
  destruct (advance_single_keeps s d.(d_pool) elapsed Hs) as (s1 & -> & Hs1 & He1); [by eauto|].
  simpl. destruct (IH s1 Hs1) as (s2 & -> & Hs2 & He2).
  { by_weakening Hds. }
  exists s2. split_and!; [done..|by etransitivity].
Qed.

#[local] Hint Resolve keeps_fst from_weighted_keeps select_keeps note_keeps advance_single_keeps
  advance_all_keeps : wb.

Lemma pool_op_keeps s o : store_ok s → pool_op_valid s o → keeps_store s (pool_op s o).
Proof.
  intros Hs Ho. destruct o as [c hp sp|l|p context|p id f|[i|i] elapsed]; simpl in *; eauto with wb.
  - destruct Ho. apply (keeps_fst s (Some _)). by apply from_cluster_keeps.
  - destruct Ho as [w Hw]. rewrite Hw. simpl.
    destruct (ok_weighteds _ Hs i w Hw) as (_ & Hds & _). eauto with wb.
Qed.

Lemma reachable_ok s : reachable s → store_ok s.
Proof.
  induction 1 as [|s o s' _ IH Hv Hop]; [by split; intros ? ?; simpl; rewrite lookup_empty|].
  destruct (pool_op_keeps s o IH Hv) as (? & E & ? & _). rewrite Hop in E. by injection E as <-.
Qed.

(** C7: pools never panic and stay consistent.  In every store reachable by building
    pools, selecting, reporting feedback and advancing time, each single pool has a
    consistent health registry that knows its cluster and each weighted pool has
    sorted, non-zero-weight destinations that are single pools of the store with the
    names recorded; and every further operation on pools of the store completes and
    keeps all existing pools and their configuration. *)
Theorem pool_store_safe (s : Store) (Hr : reachable s) :
  store_ok s ∧
  ∀ o, pool_op_valid s o → ∃ s', pool_op s o = Some s' ∧ store_ok s' ∧ extends s s'.
Proof. split; [by apply reachable_ok|]. intros o Ho. apply pool_op_keeps; [by apply reachable_ok | done]. Qed.

(** C3: a weighted pool serves from the first destination, in its order, that has an
    eligible endpoint, and never from one that has none.  In every reachable store a
    selection on a weighted pool completes.  If some destination has an eligible
    candidate, the result is one of the candidates (never ejected) of the first such
    destination tried, reported under that destination's cluster and pool, and the
    counters record it, as a fallback exactly when it was not tried first.  Otherwise
    the result is [NoEligibleEndpoints] for the destination tried last, and no counter
    changes. *)
Theorem weighted_selection_falls_back (s : Store) (i : nat) (w : WeightedPool)
  (context : SelectionContext) (Hr : reachable s) (Hw : s.(weighteds) !! i = Some w) :
  let '(st, order) := select_weighted_route_destination_order w.(destinations) w.(wp_state) in
  let tried := omap (w.(destinations) !!.) order in
  tried ≡ₚ w.(destinations) ∧
  ∃ s' r, RouteBackendPool_select_backend_with_context s (PoolWeighted i) context = Some (s', r) ∧
    ((∃ k d l c, tried !! k = Some d ∧ Forall (λ d', ¬ serves s d') (take k tried) ∧
        eligible_of s d.(d_pool) = Some l ∧ c ∈ l ∧ c.(sc_health).(hs_status) ≠ Ejected ∧
        r = Ok (backend_of d.(d_cluster) d.(d_pool) c) ∧
        s'.(weighteds) !! i = Some {| destinations := w.(destinations);
          wp_state := record_selection st k d.(d_cluster) |}) ∨
     (Forall (λ d, ¬ serves s d) w.(destinations) ∧
      s'.(weighteds) !! i = Some {| destinations := w.(destinations); wp_state := st |} ∧
      ∃ d, last tried = Some d ∧ r = Err (NoEligibleEndpoints d.(d_cluster)))).
Proof.
  pose proof (reachable_ok s Hr) as Hs. pose proof (select_weighted_spec s i w context Hs Hw) as Hsel.
  pose proof (order_permutation w.(destinations) w.(wp_state)) as Hp.
  destruct (select_weighted_route_destination_order _ _) as [st order]. cbv zeta in *.
  split; [by apply tried_perm|]. destruct Hsel as (s' & r & Hrun & _ & _ & Hcase).
  exists s', r. split; [done|].
  destruct Hcase as [(k & d & l & c & Ht & Hall & Hl & Hc & Hrest)|?]; [left|by right].
  exists k, d, l, c. split_and!; try done; try apply Hrest. unfold eligible_of in Hl.
  destruct (s.(singles) !! d.(d_pool)) as [p|] eqn:Hpool; [|done]. simpl in Hl.
  destruct (eligible_candidates _ _ _) as [l'|] eqn:El; [|done]. injection Hl as ->.
  assert (Hh : source_ok p.(pool_registry)) by apply (ok_singles _ Hs _ _ Hpool).
  by destruct (eligible_status p.(pool_registry) p.(pool_cluster_name) p.(pool_selection_policy)
    Hh l c El Hc) as (_ & ? & _).
Qed.
End pool_ops.

(** ** A concrete store: two clusters behind a weighted pool *)

#[local] Existing Instance example_scoring.

Definition example_cluster (name id : string) : UpstreamCluster :=
  {| cluster_name := name; endpoints := [example_endpoint id 8080] |}.

Definition example_build : list PoolOp :=
  [OFromCluster (example_cluster "stable" "a") EndpointHealthPolicy_default
     UpstreamSelectionPolicy_default;
   OFromCluster (example_cluster "canary" "b") EndpointHealthPolicy_default
     UpstreamSelectionPolicy_default;
   OFromWeighted [{| wd_weight := 90; wd_pool := PoolSingle 0 |};
                  {| wd_weight := 10; wd_pool := PoolSingle 1 |}]].

Fixpoint pool_run (s : Store) (ops : list PoolOp) : option Store :=
  match ops with
  | [] => Some s
  | o :: ops => s ← pool_op s o; pool_run s ops
  end.

Definition example_store (n : nat) : Store :=
  default {| singles := ∅; weighteds := ∅ |}
    (pool_run {| singles := ∅; weighteds := ∅ |} (take n example_build)).

Lemma example_cluster_wf name id : cluster_wf (example_cluster name id).
Proof. split; [apply NoDup_singleton | by repeat constructor]. Qed.

Lemma example_store_reachable : reachable (example_store 3).
Proof.
  apply (reachable_op (example_store 2) (OFromWeighted [{| wd_weight := 90; wd_pool := PoolSingle 0 |};
    {| wd_weight := 10; wd_pool := PoolSingle 1 |}])).
  - apply (reachable_op (example_store 1) (OFromCluster (example_cluster "canary" "b")
      EndpointHealthPolicy_default UpstreamSelectionPolicy_default)).
    + apply (reachable_op (example_store 0) (OFromCluster (example_cluster "stable" "a")
        EndpointHealthPolicy_default UpstreamSelectionPolicy_default)).
      * apply reachable_empty.
      * split; [apply example_cluster_wf | by repeat constructor].
      * vm_compute. reflexivity.
    + split; [apply example_cluster_wf | by repeat constructor].
    + vm_compute. reflexivity.
  - repeat constructor; simpl; [eexists; vm_compute; reflexivity | vm_compute; discriminate
      | eexists; vm_compute; reflexivity | vm_compute; discriminate].
  - vm_compute. reflexivity.
Qed.

Lemma pool_store_safe_witness :
  ∃ s', pool_op (example_store 3) (OAdvance (PoolWeighted 0) (from_secs 5)) = Some s' ∧ store_ok s'.
Proof.
  destruct (proj2 (pool_store_safe (example_store 3) example_store_reachable)
              (OAdvance (PoolWeighted 0) (from_secs 5))) as (s' & H1 & H2 & _).
  - eexists. vm_compute. reflexivity.
  - exists s'. split; [exact H1 | exact H2].
Defined.

Lemma weighted_selection_falls_back_witness :
  ∃ w s' r, (example_store 3).(weighteds) !! 0%nat = Some w ∧
    RouteBackendPool_select_backend_with_context (example_store 3) (PoolWeighted 0)
      (SelectionContext_with_hash 7) = Some (s', r) ∧
    is_ok r = true.
Proof.
  destruct ((example_store 3).(weighteds) !! 0%nat) as [w|] eqn:Hw; [|discriminate Hw].
  pose proof (weighted_selection_falls_back (example_store 3) 0 w (SelectionContext_with_hash 7)
    example_store_reachable Hw) as H.
  destruct (select_weighted_route_destination_order _ _) as [st order]. cbv zeta in H.
  destruct H as (_ & s' & r & Hrun & [(k & d & l & c & _ & _ & _ & _ & _ & Hr & _)|(Hno & _)]).
  - exists w, s', r. split; [reflexivity|]. split; [exact Hrun|]. rewrite Hr. reflexivity.
  - exfalso. injection Hw as <-. apply (Forall_inv Hno). eexists. split; [vm_compute; reflexivity|].
    discriminate.
Defined.
