(* ===== verification/RustText.v ===== *)
(** * Text operations of Rust

    The [str] methods the HTTP code uses: searching, splitting, prefixes, ASCII
    classes and number parsing.  They are defined on the bytes of a string; the
    separators of the sources are ASCII, so bytes and characters agree. *)

From S2P Require Import Prelude RustStr.
Local Open Scope N_scope.

(** ** Byte lists *)

(** [slice.split(c)]: always at least one part. *)
Fixpoint split_on (c : N) (l : list N) : list (list N) :=
  match l with
  | [] => [[]]
  | x :: l =>
      if decide (x = c) then [] :: split_on c l
      else match split_on c l with
           | [] => [[x]]
           | part :: parts => (x :: part) :: parts
           end
  end.

(** [parts.join(sep)]. *)
Fixpoint join_bytes (sep : list N) (parts : list (list N)) : list N :=
  match parts with
  | [] => []
  | [part] => part
  | part :: parts => part ++ sep ++ join_bytes sep parts
  end.

(** The longest prefix without an element of [f], and the rest. *)
Fixpoint span_until (f : N → bool) (l : list N) : list N * list N :=
  match l with
  | [] => ([], [])
  | x :: l' => if f x then ([], l) else let '(a, b) := span_until f l' in (x :: a, b)
  end.

(** [split_once(c)]: around the first separator. *)
Fixpoint split_once_on (c : N) (l : list N) : option (list N * list N) :=
  match l with
  | [] => None
  | x :: l =>
      if decide (x = c) then Some ([], l)
      else match split_once_on c l with
           | Some (a, b) => Some (x :: a, b)
           | None => None
           end
  end.

(** [rsplit_once(c)]: around the last separator. *)
Definition rsplit_once_on (c : N) (l : list N) : option (list N * list N) :=
  match split_once_on c (reverse l) with
  | Some (a, b) => Some (reverse b, reverse a)
  | None => None
  end.

(** [windows(pat.len()).position(|w| w == pat)] and [find(pat)]. *)
Fixpoint find_sub (pat l : list N) : option nat :=
  if decide (pat `prefix_of` l) then Some 0%nat
  else match l with
       | [] => None
       | _ :: l => S <$> find_sub pat l
       end.

Lemma split_on_nonempty c l : split_on c l ≠ [].
Proof. destruct l as [|x l]; simpl; [done|]. case_decide; [done|]. by destruct (split_on c l). Qed.

Lemma join_split c l : join_bytes [c] (split_on c l) = l.
Proof.
  induction l as [|x l IH]; [done|]. simpl.
  pose proof (split_on_nonempty c l) as Hne. destruct (split_on c l) as [|p ps] eqn:E; [done|].
  case_decide as Ex; [subst x|].
  - destruct ps; simpl in *; by rewrite IH.
  - destruct ps; simpl in *; by rewrite IH.
Qed.

Lemma split_on_none c l : c ∉ l → split_on c l = [l].
Proof.
  induction l as [|x l IH]; intros Hc; [done|]. apply not_elem_of_cons in Hc as [Hx Hc].
  simpl. rewrite decide_False by done. by rewrite IH.
Qed.

Lemma split_on_app c p l : c ∉ p → split_on c (p ++ c :: l) = p :: split_on c l.
Proof.
  induction p as [|x p IH]; intros Hc; simpl; [by rewrite decide_True|].
  apply not_elem_of_cons in Hc as [Hx Hc]. rewrite decide_False by done. by rewrite IH.
Qed.

Lemma split_join c parts :
  parts ≠ [] → Forall (λ p, c ∉ p) parts → split_on c (join_bytes [c] parts) = parts.
Proof.
  intros Hne Hall. induction Hall as [|p parts Hp Hall IH]; [done|].
  destruct parts as [|q parts]; [by apply split_on_none|].
  change (split_on c (p ++ c :: join_bytes [c] (q :: parts)) = p :: q :: parts).
  rewrite split_on_app by done. by rewrite IH.
Qed.

Lemma split_on_parts c l : Forall (λ p, c ∉ p) (split_on c l).
Proof.
  induction l as [|x l IH]; simpl; [by repeat constructor; apply not_elem_of_nil|].
  case_decide as E; [constructor; [apply not_elem_of_nil | done]|].
  destruct (split_on c l) as [|p ps]; [by repeat constructor; apply not_elem_of_cons; split; [|apply not_elem_of_nil]|].
  apply Forall_cons in IH as [Hp Hps]. constructor; [|done]. by apply not_elem_of_cons.
Qed.

Lemma elem_of_join_bytes c sep parts :
  c ∈ join_bytes sep parts → c ∈ sep ∨ ∃ l, l ∈ parts ∧ c ∈ l.
Proof.
  induction parts as [|p [|q parts] IH]; [by intros ?%elem_of_nil | |].
  - intros Hc. right. exists p. by split; [left|].
  - intros Hc. change (c ∈ p ++ sep ++ join_bytes sep (q :: parts)) in Hc.
    rewrite !elem_of_app in Hc. destruct Hc as [?|[?|Hc]]; [right; exists p; by split; [left|] | by left|].
    destruct (IH Hc) as [?|(l & Hl & ?)]; [by left|]. right. exists l. by split; [right|].
Qed.

(** Parts consist of bytes of the whole. *)
Lemma split_on_Forall (P : N → Prop) c l : Forall P l → Forall (Forall P) (split_on c l).
Proof.
  induction 1 as [|x l Hx Hl IH]; simpl; [by repeat constructor|].
  case_decide; [by constructor|]. destruct (split_on c l); [by repeat constructor|].
  apply Forall_cons in IH as [? ?]. by repeat constructor.
Qed.

Lemma split_once_Some c l a b : split_once_on c l = Some (a, b) ↔ l = a ++ c :: b ∧ c ∉ a.
Proof.
  revert a b. induction l as [|x l IH]; intros a b; simpl.
  - split; [done|]. by intros [[]%app_cons_not_nil _].
  - case_decide as E.
    + subst. split.
      * intros [= <- <-]. split; [done | apply not_elem_of_nil].
      * intros [H Ha]. destruct a as [|y a]; simpl in H; [by injection H as ->|].
        injection H as -> ->. by apply not_elem_of_cons in Ha as [? _].
    + destruct (split_once_on c l) as [[a' b']|] eqn:Es.
      * destruct (proj1 (IH a' b') eq_refl) as [-> Ha'].
        split.
        -- intros [= <- <-]. split; [done|]. by apply not_elem_of_cons.
        -- intros [H Ha]. destruct a as [|y a]; simpl in H; [by injection H as ->|].
           injection H as -> H. apply not_elem_of_cons in Ha as [_ Ha].
           assert (Hs : Some (a', b') = Some (a, b)) by by apply IH. by injection Hs as -> ->.
      * split; [done|]. intros [H Ha]. destruct a as [|y a]; simpl in H; [by injection H as ->|].
        injection H as -> ->. apply not_elem_of_cons in Ha as [_ Ha].
        assert (Hs : None = Some (a, b)) by by apply IH. done.
Qed.

Lemma split_once_None c l : split_once_on c l = None ↔ c ∉ l.
Proof.
  induction l as [|x l IH]; simpl; [by split; [intros _; apply not_elem_of_nil|]|].
  case_decide as E; [subst; split; [done|]; intros H; destruct H; left|].
  rewrite not_elem_of_cons, <- IH. destruct (split_once_on c l) as [[? ?]|]; naive_solver.
Qed.

Lemma span_until_app f l : let '(a, b) := span_until f l in l = a ++ b ∧ Forall (λ x, f x = false) a.
Proof.
  induction l as [|x l IH]; simpl; [done|]. destruct (f x) eqn:E; [by split; [|constructor]|].
  destruct (span_until f l) as [a b]. destruct IH as [-> Ha]. by split; [|constructor].
Qed.

Lemma span_until_head f l : match (span_until f l).2 with [] => True | x :: _ => f x = true end.
Proof.
  induction l as [|x l IH]; simpl; [done|]. destruct (f x) eqn:E; [done|].
  by destruct (span_until f l).
Qed.

Lemma find_sub_spec pat l i :
  find_sub pat l = Some i ↔
  pat `prefix_of` drop i l ∧ ∀ j, (j < i)%nat → ¬ pat `prefix_of` drop j l.
Proof.
  revert i. induction l as [|x l IH]; intros i; simpl.
  - case_decide as Hp.
    + split; [intros [= <-]; split; [done|lia]|]. intros [_ Hmin].
      destruct i as [|i]; [done|]. destruct (Hmin 0%nat); [lia|done].
    + split; [done|]. intros [Hd _]. by rewrite drop_nil in Hd.
  - case_decide as Hp.
    + split; [intros [= <-]; split; [done|lia]|]. intros [_ Hmin].
      destruct i as [|i]; [done|]. destruct (Hmin 0%nat); [lia|done].
    + rewrite fmap_Some. split.
      * intros (j & Hj & ->). apply IH in Hj as [Hd Hmin]. split; [done|].
        intros [|k] Hk; [done|]. apply Hmin. lia.
      * intros [Hd Hmin]. destruct i as [|i]; [done|]. exists i. split; [|done]. apply IH.
        split; [done|]. intros j Hj. apply (Hmin (S j)). lia.
Qed.

(** ** ASCII classes *)

Definition is_ascii_digit (c : N) : bool := bool_decide (48 ≤ c ≤ 57).
Definition is_ascii_alphabetic (c : N) : bool := bool_decide (65 ≤ c ≤ 90 ∨ 97 ≤ c ≤ 122).
Definition is_ascii_hexdigit (c : N) : bool :=
  bool_decide (48 ≤ c ≤ 57 ∨ 65 ≤ c ≤ 70 ∨ 97 ≤ c ≤ 102).
(** Space, tab, line feed, form feed and carriage return. *)
Definition is_ascii_whitespace (c : N) : bool := bool_decide (c = 32 ∨ c = 9 ∨ c = 10 ∨ c = 12 ∨ c = 13).

Definition ascii_upper (c : N) : N := if decide (97 ≤ c ≤ 122) then c - 32 else c.

(** ** Strings *)

Definition to_ascii_uppercase (s : string) : string := of_bytes (ascii_upper <$> bytes s).

Definition split (c : N) (s : string) : list string := of_bytes <$> split_on c (bytes s).
Definition split_once (c : N) (s : string) : option (string * string) :=
  match split_once_on c (bytes s) with Some (a, b) => Some (of_bytes a, of_bytes b) | None => None end.
Definition rsplit_once (c : N) (s : string) : option (string * string) :=
  match rsplit_once_on c (bytes s) with Some (a, b) => Some (of_bytes a, of_bytes b) | None => None end.
Definition contains (c : N) (s : string) : bool := bool_decide (c ∈ bytes s).
Definition starts_with (prefix s : string) : bool := bool_decide (bytes prefix `prefix_of` bytes s).
Definition strip_prefix (c : N) (s : string) : option string :=
  match bytes s with x :: l => if decide (x = c) then Some (of_bytes l) else None | [] => None end.
Definition strip_suffix (c : N) (s : string) : option string :=
  match reverse (bytes s) with
  | x :: l => if decide (x = c) then Some (of_bytes (reverse l)) else None
  | [] => None
  end.
Definition str_len (s : string) : nat := length (bytes s).
Definition is_empty (s : string) : bool := bool_decide (s = EmptyString).

(** [s.chars().all(f)] and [s.chars().any(f)] for a predicate that holds of ASCII
    characters only: every byte of a non-ASCII character is above 127, where [f] is
    false, so the test on the bytes is the test on the characters. *)
Definition all_chars (f : N → bool) (s : string) : bool := forallb f (bytes s).
Definition any_char (f : N → bool) (s : string) : bool := existsb f (bytes s).

(** [str::parse::<u64>] of a string of digits. *)
Definition parse_digits (base : N) (digits : list N) : N :=
  foldl (λ acc d, acc * base + d) 0 digits.
Definition digit_value (c : N) : N :=
  if decide (48 ≤ c ≤ 57) then c - 48 else if decide (97 ≤ c) then c - 87 else c - 55.

Definition parse_u64_digits (base : N) (l : list N) : option N :=
  let v := parse_digits base (digit_value <$> l) in
  if decide (v ≤ u64_max) then Some v else None.

(** ** Bytes of composed strings *)

Lemma bytes_app a b : bytes (a +:+ b) = bytes a ++ bytes b.
Proof.
  unfold bytes. rewrite <- fmap_app. f_equal. induction a as [|x a IH]; [done|].
  simpl. by rewrite <- IH.
Qed.

#[export] Instance bytes_inj : Inj (=) (=) bytes.
Proof. intros a b H. by rewrite <- (of_bytes_bytes a), H, of_bytes_bytes. Qed.

Lemma bytes_empty s : bytes s = [] ↔ s = EmptyString.
Proof. split; [|by intros ->]. by destruct s. Qed.

Lemma bytes_join sep l : bytes (join sep l) = join_bytes (bytes sep) (bytes <$> l).
Proof.
  induction l as [|x [|y l] IH]; [done..|]. change (join sep (x :: y :: l)) with
    (x +:+ sep +:+ join sep (y :: l)). by rewrite !bytes_app, IH.
Qed.

Lemma bytes_of_bytes_sub l s : (∀ x, x ∈ l → x ∈ bytes s) → bytes (of_bytes l) = l.
Proof.
  intros H. apply bytes_of_bytes, Forall_forall. intros x Hx.
  pose proof (bytes_lt_256 s) as Hs. rewrite Forall_forall in Hs. auto.
Qed.

(** The parts of a split string have the bytes of the parts. *)
Lemma bytes_split c s : bytes <$> split c s = split_on c (bytes s).
Proof.
  unfold split. rewrite <- list_fmap_compose. rewrite <- (list_fmap_id (split_on c (bytes s))) at 2.
  apply Forall_fmap_ext_1. pose proof (split_on_Forall _ c _ (bytes_lt_256 s)) as Hall.
  eapply Forall_impl; [exact Hall|]. intros l Hl. by apply bytes_of_bytes.
Qed.

Lemma split_once_bytes c s a b :
  split_once c s = Some (a, b) ↔ bytes s = bytes a ++ c :: bytes b ∧ c ∉ bytes a.
Proof.
  unfold split_once. split.
  - destruct (split_once_on c (bytes s)) as [[l1 l2]|] eqn:E; [|done]. intros [= <- <-].
    apply split_once_Some in E as [E Hc]. pose proof (bytes_lt_256 s) as Hs. rewrite E in Hs.
    apply Forall_app in Hs as [H1 H2%Forall_cons]. destruct H2 as [_ H2].
    by rewrite !bytes_of_bytes.
  - intros H. apply split_once_Some in H as ->. by rewrite !of_bytes_bytes.
Qed.

Lemma split_once_none c s : split_once c s = None ↔ c ∉ bytes s.
Proof.
  unfold split_once. rewrite <- split_once_None. by destruct (split_once_on c (bytes s)) as [[? ?]|].
Qed.

(** ** ASCII text *)

Definition ascii (s : string) : Prop := is_ascii_text (bytes s).

Lemma chars_ascii s : ascii s → chars s = bytes s.
Proof. apply decode_ascii. Qed.

Lemma of_chars_ascii l : is_ascii_text l → of_chars l = of_bytes l.
Proof. intros H. unfold of_chars. by rewrite encode_ascii. Qed.

Lemma is_ascii_text_lt l : is_ascii_text l → Forall (λ b, b < 256) l.
Proof. intros H. eapply Forall_impl; [exact H|]. simpl. intros. lia. Qed.

Lemma bytes_of_ascii l : is_ascii_text l → bytes (of_bytes l) = l.
Proof. intros H. by apply bytes_of_bytes, is_ascii_text_lt. Qed.

(** Visible characters: no white space, no control characters. *)
Definition visible (s : string) : Prop := Forall (λ c, 33 ≤ c ≤ 126) (bytes s).

Lemma visible_ascii s : visible s → ascii s.
Proof. intros H. eapply Forall_impl; [exact H|]. simpl. intros. lia. Qed.

Lemma is_whitespace_visible c : 33 ≤ c ≤ 126 → is_whitespace c = false.
Proof. intros H. apply bool_decide_eq_false. lia. Qed.

Lemma trim_visible s : visible s → trim s = s.
Proof.
  intros H. unfold trim. rewrite chars_ascii by by apply visible_ascii.
  rewrite trim_chars_none; [|eapply Forall_impl; [exact H|]; apply is_whitespace_visible].
  rewrite of_chars_ascii by by apply visible_ascii. apply of_bytes_bytes.
Qed.

#[export] Hint Resolve visible_ascii is_ascii_text_lt : wb.

(** ** [trim] twice is [trim] *)

(** The code points of a Rust string are below the end of Unicode. *)
Definition unicode (s : string) : Prop := Forall (λ c, c < 1114112) (chars s).

Lemma encode_utf8_lt_256 l : Forall (λ c, c < 1114112) l → Forall (λ b, b < 256) (encode_utf8 l).
Proof.
  induction 1 as [|c l Hc _ IH]; [constructor|]. simpl. apply Forall_app. split; [|done].
  unfold encode_char. repeat case_decide; repeat constructor; lia.
Qed.

Lemma chars_of_chars l : Forall (λ c, c < 1114112) l → chars (of_chars l) = l.
Proof.
  intros Hl. unfold chars, of_chars. rewrite bytes_of_bytes by by apply encode_utf8_lt_256.
  by apply decode_encode_utf8.
Qed.

Lemma drop_while_suffix {A} (f : A → bool) l : ∃ l', l = l' ++ drop_while f l.
Proof.
  induction l as [|x l [l' IH]]; simpl; [by exists []|]. destruct (f x); [|by exists []].
  exists (x :: l'). simpl. by f_equal.
Qed.

Lemma drop_while_head {A} (f : A → bool) l x l' : drop_while f l = x :: l' → f x = false.
Proof. induction l as [|y l IH]; simpl; [done|]. destruct (f y) eqn:E; [done|]. by intros [= <- _]. Qed.

Lemma drop_while_id {A} (f : A → bool) l : (∀ x l', l = x :: l' → f x = false) → drop_while f l = l.
Proof. destruct l as [|x l]; [done|]. intros H. simpl. by rewrite (H x l). Qed.

Lemma trim_chars_idemp l : trim_chars (trim_chars l) = trim_chars l.
Proof.
  unfold trim_chars. set (m := drop_while is_whitespace l).
  destruct (drop_while_suffix is_whitespace (reverse m)) as [w Hw].
  set (d := drop_while is_whitespace (reverse m)) in *.
  assert (Hm : m = reverse d ++ reverse w).
  { rewrite <- (reverse_involutive m), Hw. apply reverse_app. }
  rewrite (drop_while_id _ (reverse d)), reverse_involutive.
  - rewrite (drop_while_id _ d); [done|]. intros x l'. apply drop_while_head.
  - intros x l' E. rewrite E in Hm. by apply drop_while_head in Hm.
Qed.

Lemma drop_while_Forall {A} (P : A → Prop) f l : Forall P l → Forall P (drop_while f l).
Proof. destruct (drop_while_suffix f l) as [l' E]. rewrite E at 1. by intros [_ ?]%Forall_app. Qed.

Lemma trim_chars_Forall (P : N → Prop) l : Forall P l → Forall P (trim_chars l).
Proof. intros H. unfold trim_chars. by apply Forall_reverse, drop_while_Forall, Forall_reverse, drop_while_Forall. Qed.

Lemma trim_idemp s : unicode s → trim (trim s) = trim s.
Proof.
  intros H. unfold trim. rewrite chars_of_chars by by apply trim_chars_Forall. by rewrite trim_chars_idemp.
Qed.

(** ** Splitting and mapping UTF-8 text *)

Lemma encode_utf8_app l1 l2 : encode_utf8 (l1 ++ l2) = encode_utf8 l1 ++ encode_utf8 l2.
Proof. apply flat_map_app. Qed.

(** The bytes of a character are the character itself, or all outside ASCII. *)
Lemma encode_char_bytes c : encode_char c = [c] ∧ c < 128 ∨ Forall (λ b, 128 ≤ b) (encode_char c) ∧ 128 ≤ c.
Proof. unfold encode_char. case_decide; [by left|right]. repeat case_decide; split; try lia; repeat constructor; lia. Qed.

Lemma encode_utf8_elem b l : b < 128 → b ∈ encode_utf8 l → b ∈ l.
Proof.
  intros Hb. induction l as [|c l IH]; [done|]. simpl. rewrite elem_of_app, elem_of_cons. intros [H|H]; [|auto].
  destruct (encode_char_bytes c) as [[E _]|[E _]].
  - rewrite E in H. apply list_elem_of_singleton in H. auto.
  - rewrite Forall_forall in E. apply E in H. lia.
Qed.

(** Splitting at an ASCII character splits the text. *)
Lemma split_on_encode c l : c < 128 → split_on c (encode_utf8 l) = encode_utf8 <$> split_on c l.
Proof.
  intros Hc. assert (Hno : ∀ p m, c ∉ p →
    split_on c (p ++ m) = match split_on c m with [] => [p] | q :: ps => (p ++ q) :: ps end).
  { induction p as [|x p IH]; intros m Hp; simpl.
    { pose proof (split_on_nonempty c m). by destruct (split_on c m). }
    apply not_elem_of_cons in Hp as [Hx Hp]. rewrite (decide_False (P := x = c)) by done. rewrite IH by done.
    by destruct (split_on c m). }
  induction l as [|d l IH]; [done|]. simpl. case_decide as E.
  - subst d. assert (encode_char c = [c]) as -> by (unfold encode_char; by rewrite decide_True).
    simpl. rewrite decide_True by done. by rewrite IH.
  - rewrite Hno, IH.
    + pose proof (split_on_nonempty c l). by destruct (split_on c l).
    + destruct (encode_char_bytes d) as [[-> _]|[H _]]; [by intros ->%list_elem_of_singleton|].
      rewrite Forall_forall in H. intros Hin%H. lia.
Qed.

(** A map that keeps ASCII and is the identity elsewhere works character by character. *)
Lemma map_encode (f : N → N) l :
  (∀ c, c < 128 → f c < 128) → (∀ c, 128 ≤ c → f c = c) → f <$> encode_utf8 l = encode_utf8 (f <$> l).
Proof.
  intros Hlow Hhigh. induction l as [|c l IH]; [done|]. cbn [encode_utf8 flat_map fmap list_fmap].
  rewrite fmap_app. f_equal; [|exact IH]. destruct (encode_char_bytes c) as [[-> Hc]|[H Hc]].
  - specialize (Hlow c Hc). simpl. unfold encode_char. by rewrite decide_True.
  - rewrite (Hhigh c Hc). rewrite <- (list_fmap_id (encode_char c)) at 2. apply list_fmap_ext.
    intros i x Hx%list_elem_of_lookup_2. rewrite Forall_forall in H. apply Hhigh, H, Hx.
Qed.
