(* ===== verification/RequestTarget.v ===== *)
(** * Request targets

    Models the canonicalisation of hosts and request targets of
    [crates/proto-http/src/lib.rs]: the canonical path and the sorted canonical query
    pairs are the material of route matching and of cache keys. *)

From S2P Require Import Prelude RustStr RustText.
Local Open Scope N_scope.
Local Open Scope rust_scope.

Inductive RequestTargetError :=
| UnsupportedForm | EmptyAuthority | FragmentNotAllowed | InvalidPercentEncoding | InvalidQuery
| InvalidAuthority.

Record CanonicalRequestTarget := {
  ct_authority : option string;
  ct_path : string;
  ct_query_pairs : list (string * string)
}.

#[export] Instance RequestTargetError_eq_dec : EqDecision RequestTargetError.
Proof. solve_decision. Defined.
#[export] Instance CanonicalRequestTarget_eq_dec : EqDecision CanonicalRequestTarget.
Proof. solve_decision. Defined.

(** ** Percent-encoding *)

(** The loop over the bytes; the result is the list of characters pushed. *)
Fixpoint canonicalize_percent_loop (l : list N) : option (list N) :=
  match l with
  | [] => Some []
  | x :: l1 =>
      if decide (x = 37) then
        match l1 with
        | h1 :: h2 :: l3 =>
            if is_ascii_hexdigit h1 && is_ascii_hexdigit h2 then
              rest ← canonicalize_percent_loop l3;
              Some (37 :: ascii_upper h1 :: ascii_upper h2 :: rest)
            else None
        | _ => None
        end
      else
        rest ← canonicalize_percent_loop l1; Some (x :: rest)
  end.

(** [bytes[index] as char] is the character with the code of the byte, which
    [String::push] encodes again. *)
Definition canonicalize_percent_encoded (value : string) : Result string RequestTargetError :=
  match canonicalize_percent_loop (bytes value) with
  | Some normalized => Ok (of_chars normalized)
  | None => Err InvalidPercentEncoding
  end.

(** ** Queries *)

Definition pair_cmp : string * string → string * string → comparison :=
  lex_cmp String.compare String.compare.

Fixpoint query_pair_loop (raw_pairs : list string) :
    Result (list (string * string)) RequestTargetError :=
  match raw_pairs with
  | [] => Ok []
  | raw_pair :: raw_pairs =>
      if is_empty raw_pair then Err InvalidQuery
      else
        let '(name, value) := default (raw_pair, EmptyString) (split_once 61 raw_pair) in
        let? name := canonicalize_percent_encoded name in
        let? value := canonicalize_percent_encoded value in
        let? rest := query_pair_loop raw_pairs in
        Ok ((name, value) :: rest)
  end.

Definition canonicalize_query_pairs (query : string) :
    Result (list (string * string)) RequestTargetError :=
  if is_empty query then Ok []
  else let? pairs := query_pair_loop (split 38 query) in
       Ok (sort_by id pair_cmp pairs).

Definition query_pair_text (p : string * string) : string :=
  if is_empty p.2 then p.1 else p.1 +:+ "=" +:+ p.2.

Definition CanonicalRequestTarget_canonical_query (t : CanonicalRequestTarget) : string :=
  join "&" (query_pair_text <$> t.(ct_query_pairs)).

Definition canonicalize_query_match_name (value : string) : Result string RequestTargetError :=
  let? normalized := canonicalize_percent_encoded value in
  if is_empty normalized || contains 38 normalized || contains 61 normalized
  then Err InvalidQuery else Ok normalized.

Definition canonicalize_query_match_value (value : string) : Result string RequestTargetError :=
  if contains 38 value then Err InvalidQuery else canonicalize_percent_encoded value.

(** ** Hosts and targets *)

Definition canonicalize_host (value : string) : Result string RequestTargetError :=
  let normalized := to_ascii_lowercase (trim value) in
  if is_empty normalized || contains 47 normalized || contains 64 normalized ||
     contains 44 normalized || any_char is_ascii_whitespace normalized
  then Err InvalidAuthority
  else
    let normalized := default normalized (strip_suffix 46 normalized) in
    if is_empty normalized then Err InvalidAuthority else Ok normalized.

Definition split_path_and_query (path_and_query : string) : string * string :=
  if is_empty path_and_query then ("/", EmptyString)
  else match split_once 63 path_and_query with
       | Some (path, query) => (if is_empty path then "/" else path, query)
       | None => (path_and_query, EmptyString)
       end.

(** [find("://")]: scheme and remainder. *)
Definition split_scheme (target : string) : option (string * string) :=
  let l := bytes target in
  match find_sub (bytes "://") l with
  | Some i => Some (of_bytes (take i l), of_bytes (drop (i + 3) l))
  | None => None
  end.

(** Authority and tail: split at the first slash or question mark. *)
Definition split_authority (remainder : string) : string * string :=
  let '(a, b) := span_until (λ c, bool_decide (c = 47 ∨ c = 63)) (bytes remainder) in
  (of_bytes a, of_bytes b).

Definition http_scheme (scheme : string) : bool :=
  eq_ignore_ascii_case scheme "http" || eq_ignore_ascii_case scheme "https".

Definition target_parts (target : string) : Result (option string * string) RequestTargetError :=
  match (if starts_with "/" target then None else split_scheme target) with
  | Some (scheme, remainder) =>
      if negb (http_scheme scheme) then Err UnsupportedForm
      else
        let '(authority, tail) := split_authority remainder in
        if is_blank authority then Err EmptyAuthority
        else
          let? host := canonicalize_host authority in
          Ok (Some host, if is_empty tail then "/" else if starts_with "?" tail then EmptyString
                         else tail)
  | None => if starts_with "/" target then Ok (None, target) else Err UnsupportedForm
  end.

Definition canonicalize_request_target (target : string) :
    Result CanonicalRequestTarget RequestTargetError :=
  let target := trim target in
  if is_empty target || bool_decide (target = "*") then Err UnsupportedForm
  else if contains 35 target then Err FragmentNotAllowed
  else
    let? parts := target_parts target in
    let '(authority, path_and_query) := parts in
    let '(path, query) := split_path_and_query path_and_query in
    let? path := canonicalize_percent_encoded path in
    let? pairs := canonicalize_query_pairs query in
    Ok {| ct_authority := authority; ct_path := path; ct_query_pairs := pairs |}.

Example canonical_query_sorted :
  match canonicalize_request_target "/items?b=%2f&a=2&a=1" with
  | Ok t => (t.(ct_path), CanonicalRequestTarget_canonical_query t) = ("/items", "a=1&a=2&b=%2F")
  | Err _ => False
  end.
Proof. vm_compute. reflexivity. Qed.

Example canonical_absolute :
  canonicalize_request_target "http://Example.TEST/api?q=1" =
    Ok {| ct_authority := Some "example.test"; ct_path := "/api"; ct_query_pairs := [("q", "1")] |}.
Proof. vm_compute. reflexivity. Qed.

Example canonical_rejects :
  canonicalize_request_target "/items?x=1&&y=2" = Err InvalidQuery ∧
  canonicalize_request_target "/items?x=%zz" = Err InvalidPercentEncoding ∧
  canonicalize_host "bad/host" = Err InvalidAuthority ∧
  canonicalize_host "bad host" = Err InvalidAuthority.
Proof. vm_compute. auto. Qed.

(** ** Percent-encoding is normalised *)

(** The digits of a canonical escape. *)
Definition upper_hex (c : N) : Prop := 48 ≤ c ≤ 57 ∨ 65 ≤ c ≤ 70.

Lemma hexdigit_upper c : is_ascii_hexdigit c = true → upper_hex (ascii_upper c).
Proof.
  unfold is_ascii_hexdigit, upper_hex, ascii_upper. rewrite bool_decide_eq_true.
  intros H. case_decide; lia.
Qed.

Lemma upper_hex_fixed c : upper_hex c → is_ascii_hexdigit c = true ∧ ascii_upper c = c.
Proof.
  unfold is_ascii_hexdigit, upper_hex, ascii_upper. intros H.
  rewrite bool_decide_eq_true. case_decide; lia.
Qed.

(** Canonical text is a fixed point, and its bytes are those of the input or the
    digits of an escape. *)
Lemma percent_loop_fixed l r :
  canonicalize_percent_loop l = Some r →
  canonicalize_percent_loop r = Some r ∧ ∀ x, x ∈ r → x ∈ l ∨ upper_hex x.
Proof.
  remember (length l) as n eqn:Hn. revert l r Hn. induction (lt_wf n) as [n _ IH].
  intros [|x l1] r Hn H; simpl in H.
  { injection H as <-. split; [done|]. by intros x ?%elem_of_nil. }
  case_decide as Ex.
  - destruct l1 as [|h1 [|h2 l3]]; [done..|].
    destruct (is_ascii_hexdigit h1 && is_ascii_hexdigit h2) eqn:Eh; [|done].
    apply andb_true_iff in Eh as [H1%hexdigit_upper H2%hexdigit_upper].
    destruct (canonicalize_percent_loop l3) as [r3|] eqn:E3; [|done]. injection H as <-.
    destruct (IH (length l3) ltac:(simpl in Hn; lia) l3 r3 eq_refl E3) as [Hf Hb].
    destruct (upper_hex_fixed _ H1) as [E1 E1'], (upper_hex_fixed _ H2) as [E2 E2'].
    split; [simpl; by rewrite E1, E2, Hf, E1', E2'|].
    intros y. rewrite !elem_of_cons. intros [->|[->|[->|Hy]]]; [by left; left | by right..|].
    destruct (Hb y Hy); tauto.
  - destruct (canonicalize_percent_loop l1) as [r1|] eqn:E1; [|done]. injection H as <-.
    destruct (IH (length l1) ltac:(simpl in Hn; lia) l1 r1 eq_refl E1) as [Hf Hb].
    split; [simpl; by rewrite decide_False, Hf|].
    intros y. rewrite !elem_of_cons. intros [->|Hy]; [tauto|]. destruct (Hb y Hy); tauto.
Qed.

Lemma percent_encoded_fixed v r :
  visible v → canonicalize_percent_encoded v = Ok r →
  canonicalize_percent_encoded r = Ok r ∧ visible r ∧
  (∀ x, x ∈ bytes r → x ∈ bytes v ∨ upper_hex x) ∧ (bytes v = [] → bytes r = []) ∧
  (∀ l, bytes v = 47 :: l → ∃ l', bytes r = 47 :: l').
Proof.
  intros Hv H. unfold canonicalize_percent_encoded in H.
  destruct (canonicalize_percent_loop (bytes v)) as [l|] eqn:E; [|done]. injection H as <-.
  destruct (percent_loop_fixed _ _ E) as [Hf Hb].
  assert (Hvis : Forall (λ c, 33 ≤ c ≤ 126) l).
  { apply Forall_forall. intros x Hx. unfold visible in Hv. rewrite Forall_forall in Hv.
    destruct (Hb x Hx) as [?|Hu]; [by apply Hv|]. unfold upper_hex in Hu. lia. }
  assert (Ha : is_ascii_text l) by (eapply Forall_impl; [exact Hvis|]; simpl; intros; lia).
  rewrite of_chars_ascii by done. unfold canonicalize_percent_encoded, visible.
  rewrite bytes_of_ascii by done. rewrite Hf, of_chars_ascii by done. split_and!; try done.
  - intros Hnil. rewrite Hnil in E. by injection E as <-.
  - intros l0 H0. rewrite H0 in E. simpl in E.
    destruct (canonicalize_percent_loop l0); [|done]. injection E as <-. by eexists.
Qed.

(** ** Round trip of canonical targets *)

(** A canonical query component: visible, a fixed point, without the separators of
    queries and targets. *)
Definition component_ok (s : string) : Prop :=
  visible s ∧ canonicalize_percent_encoded s = Ok s ∧ 38 ∉ bytes s ∧ 35 ∉ bytes s.

Definition pair_ok (p : string * string) : Prop :=
  component_ok p.1 ∧ 61 ∉ bytes p.1 ∧ component_ok p.2.

Lemma component_canonical v r :
  visible v → 38 ∉ bytes v → 35 ∉ bytes v → canonicalize_percent_encoded v = Ok r →
  component_ok r ∧ ∀ c, ¬ upper_hex c → c ∉ bytes v → c ∉ bytes r.
Proof.
  intros Hv Ha Hh H. destruct (percent_encoded_fixed v r Hv H) as (Hf & Hvr & Hb & _).
  assert (Hno : ∀ c, ¬ upper_hex c → c ∉ bytes v → c ∉ bytes r)
    by (intros c Hu Hc Hin; destruct (Hb c Hin); done).
  split; [|done]. split_and!; try done; apply Hno; try done; unfold upper_hex; lia.
Qed.

Lemma is_empty_true s : is_empty s = true ↔ s = EmptyString.
Proof. apply bool_decide_eq_true. Qed.
Lemma is_empty_false s : is_empty s = false ↔ s ≠ EmptyString.
Proof. apply bool_decide_eq_false. Qed.

Lemma visible_app a b : visible (a +:+ b) ↔ visible a ∧ visible b.
Proof. unfold visible. by rewrite bytes_app, Forall_app. Qed.

(** The text of a canonical pair is parsed back to the pair. *)
Lemma query_pair_text_ok p :
  pair_ok p → p ≠ (EmptyString, EmptyString) →
  query_pair_text p ≠ EmptyString ∧ 38 ∉ bytes (query_pair_text p) ∧
  35 ∉ bytes (query_pair_text p) ∧ visible (query_pair_text p) ∧
  default (query_pair_text p, EmptyString) (split_once 61 (query_pair_text p)) = p.
Proof.
  destruct p as [n v]. intros ((Hvn & _ & Hn38 & Hn35) & Hn61 & (Hvv & _ & Hv38 & Hv35)) Hne.
  simpl in *. unfold query_pair_text. simpl. destruct (is_empty v) eqn:Ev.
  - apply is_empty_true in Ev as ->. split_and!; try done; [by intros ->|].
    by rewrite (proj2 (split_once_none 61 n) Hn61).
  - apply is_empty_false in Ev. split_and!.
    + intros E%(f_equal bytes). rewrite !bytes_app in E. by destruct (bytes n).
    + rewrite !bytes_app, !elem_of_app. intros [?|[H|?]]; try done.
      by apply list_elem_of_singleton in H.
    + rewrite !bytes_app, !elem_of_app. intros [?|[H|?]]; try done.
      by apply list_elem_of_singleton in H.
    + rewrite !visible_app. split_and!; [done| |done]. by repeat constructor.
    + replace (split_once 61 (n +:+ "=" +:+ v)) with (Some (n, v)); [done|].
      symmetry. apply split_once_bytes. by rewrite !bytes_app.
Qed.

Lemma query_pair_loop_texts pairs :
  Forall pair_ok pairs → (EmptyString, EmptyString) ∉ pairs →
  query_pair_loop (query_pair_text <$> pairs) = Ok pairs.
Proof.
  induction 1 as [|p pairs Hp Hps IH]; intros Hne; [done|].
  apply not_elem_of_cons in Hne as [Hp0 Hne]. cbn [fmap list_fmap query_pair_loop].
  destruct (query_pair_text_ok p Hp) as (Ht & _ & _ & _ & Hd); [by intros ->|].
  rewrite (proj2 (is_empty_false _) Ht), Hd. destruct p as [n v], Hp as ((_ & Hn & _) & _ & (_ & Hv & _)).
  simpl in Hn, Hv. by rewrite Hn, Hv, IH.
Qed.

Lemma query_pair_loop_ok raw : ∀ pairs,
  Forall visible raw → Forall (λ s, 38 ∉ bytes s) raw → Forall (λ s, 35 ∉ bytes s) raw →
  query_pair_loop raw = Ok pairs → Forall pair_ok pairs.
Proof.
  induction raw as [|s raw IH]; intros pairs Hv H38 H35 H; cbn [query_pair_loop] in H.
  { injection H as <-. constructor. }
  apply Forall_cons in Hv as [Hv Hvs], H38 as [H38 H38s], H35 as [H35 H35s].
  destruct (is_empty s); [done|].
  destruct (default (s, EmptyString) (split_once 61 s)) as [n v] eqn:Ed.
  assert (Hnv : visible n ∧ visible v ∧ 61 ∉ bytes n ∧ (∀ c, c ∈ bytes n ∨ c ∈ bytes v → c ∈ bytes s)).
  { destruct (split_once 61 s) as [[a b]|] eqn:Es; simpl in Ed; injection Ed as <- <-.
    - apply split_once_bytes in Es as [Es Ha]. unfold visible in *. rewrite Es in Hv |- *.
      apply Forall_app in Hv as [? [_ ?]%Forall_cons]. split_and!; try done.
      intros c. rewrite elem_of_app, elem_of_cons. tauto.
    - apply split_once_none in Es. split_and!; try done; [constructor|].
      intros c [?|Hc]; [done|]. by apply elem_of_nil in Hc. }
  destruct Hnv as (Hvn & Hvv & H61 & Hsub).
  destruct (canonicalize_percent_encoded n) as [n'|] eqn:En; [|done].
  destruct (canonicalize_percent_encoded v) as [v'|] eqn:Ev; [|done].
  destruct (query_pair_loop raw) as [rest|]; [|done]. injection H as <-.
  constructor; [|by apply IH].
  destruct (component_canonical n n' Hvn) as [Hn' Hno]; [eauto..|].
  destruct (component_canonical v v' Hvv) as [Hv' _]; [eauto..|].
  split_and!; try done. simpl. apply Hno; [unfold upper_hex; lia | done].
Qed.

Lemma canonicalize_query_ok query pairs :
  visible query → 35 ∉ bytes query → canonicalize_query_pairs query = Ok pairs →
  Forall pair_ok pairs ∧ StronglySorted (key_le id pair_cmp) pairs.
Proof.
  intros Hv H35 H. unfold canonicalize_query_pairs in H.
  destruct (is_empty query); [injection H as <-; split; constructor|].
  destruct (query_pair_loop (split 38 query)) as [raw|] eqn:E; [|done]. injection H as <-.
  pose proof (bytes_split 38 query) as Hb.
  assert (Hparts : ∀ P : list N → Prop, Forall P (split_on 38 (bytes query)) →
            Forall (λ s, P (bytes s)) (split 38 query))
    by (intros P HP; by rewrite <- Hb, Forall_fmap in HP).
  assert (Hall : Forall pair_ok raw).
  { eapply query_pair_loop_ok; [..|exact E].
    - by apply (Hparts (Forall _)), split_on_Forall.
    - apply (Hparts (λ l, 38 ∉ l)), split_on_parts.
    - apply (Hparts (λ l, 35 ∉ l)). apply (Forall_impl (Forall (λ c, c ≠ 35))).
      + apply split_on_Forall, Forall_forall. by intros c Hc ->.
      + intros l Hl Hin. rewrite Forall_forall in Hl. by apply (Hl 35). }
  split; [by rewrite sort_by_perm | apply sort_by_sorted, _].
Qed.

(** The canonical query text determines the pairs. *)
Lemma canonical_query_parses pairs :
  Forall pair_ok pairs → StronglySorted (key_le id pair_cmp) pairs →
  (EmptyString, EmptyString) ∉ pairs →
  canonicalize_query_pairs (join "&" (query_pair_text <$> pairs)) = Ok pairs.
Proof.
  intros Hok Hs Hne. unfold canonicalize_query_pairs.
  destruct pairs as [|p pairs]; [done|]. set (texts := query_pair_text <$> p :: pairs).
  assert (Htexts : Forall (λ t, 38 ∉ bytes t) texts).
  { unfold texts. apply Forall_fmap, Forall_forall. intros q Hq. rewrite Forall_forall in Hok.
    apply query_pair_text_ok; [by apply Hok|]. by intros ->. }
  assert (Hsplit : split 38 (join "&" texts) = texts).
  { apply (inj (fmap (M := list) bytes)). rewrite bytes_split, bytes_join. apply split_join; [done|].
    by rewrite Forall_fmap. }
  assert (Hnonempty : is_empty (join "&" texts) = false).
  { apply is_empty_false. intros E. rewrite E in Hsplit. unfold texts in Hsplit.
    apply (f_equal head) in Hsplit. simpl in Hsplit. injection Hsplit as Hp.
    apply Forall_cons in Hok as [Hok _]. apply not_elem_of_cons in Hne as [Hne _].
    destruct (query_pair_text_ok p Hok) as [Ht _]; [by intros ->|]. by rewrite <- Hp in Ht. }
  rewrite Hnonempty, Hsplit. unfold texts. rewrite query_pair_loop_texts by done.
  by rewrite (sort_by_sorted_id id pair_cmp).
Qed.

(** The text of a canonical target, used by the specification only: canonical path and query
    text, after the scheme and the authority when there is one. *)
Definition origin_form (t : CanonicalRequestTarget) : string :=
  t.(ct_path) +:+ match t.(ct_query_pairs) with
                  | [] => EmptyString
                  | _ => "?" +:+ CanonicalRequestTarget_canonical_query t
                  end.

Definition target_text (t : CanonicalRequestTarget) : string :=
  match t.(ct_authority) with Some authority => "http://" +:+ authority | None => EmptyString end +:+ origin_form t.

Lemma visible_sub (P : N → Prop) (s t : string) :
  Forall P (bytes t) → (∀ c, c ∈ bytes s → c ∈ bytes t) → Forall P (bytes s).
Proof. rewrite !Forall_forall. auto. Qed.

Lemma starts_with_slash s : starts_with "/" s = true ↔ ∃ l, bytes s = 47 :: l.
Proof.
  unfold starts_with. rewrite bool_decide_eq_true. change (bytes "/") with [47]. split.
  - intros [l ->]. by exists l.
  - intros [l ->]. by exists l.
Qed.

(** The path and query of an absolute-form target come from the remainder after the
    scheme. *)
Lemma split_authority_tail rem authority tail :
  split_authority rem = (authority, tail) →
  (∀ c, c ∈ bytes tail → c ∈ bytes rem) ∧
  (is_empty tail = false → starts_with "?" tail = false → ∃ l, bytes tail = 47 :: l).
Proof.
  unfold split_authority. set (f := λ c, bool_decide (c = 47 ∨ c = 63)). intros H.
  pose proof (span_until_app f (bytes rem)) as Happ. pose proof (span_until_head f (bytes rem)) as Hhd.
  destruct (span_until f (bytes rem)) as [a b]. injection H as _ <-. destruct Happ as [Hrem _].
  assert (Hb : bytes (of_bytes b) = b).
  { apply (bytes_of_bytes_sub _ rem). intros c Hc. rewrite Hrem. apply elem_of_app. by right. }
  rewrite Hb. split; [intros c Hc; rewrite Hrem; apply elem_of_app; by right|].
  intros He Hq. simpl in Hhd. destruct b as [|x b]; [by apply is_empty_false in He|].
  apply bool_decide_eq_true in Hhd as [->| ->]; [by eexists|].
  unfold starts_with in Hq. rewrite Hb in Hq. apply bool_decide_eq_false in Hq. destruct Hq. by exists b.
Qed.

Lemma split_scheme_sub target scheme rem c :
  split_scheme target = Some (scheme, rem) → c ∈ bytes rem → c ∈ bytes target.
Proof.
  unfold split_scheme. destruct (find_sub _ _) as [i|]; [|done]. intros [= _ <-].
  rewrite (bytes_of_bytes_sub _ target); intros; by eapply elem_of_drop_list.
Qed.

(** What is split into path and query: empty, or text of the target that begins with
    a slash (a slash alone may be supplied). *)
Lemma target_parts_path target authority pq :
  target_parts target = Ok (authority, pq) →
  pq = EmptyString ∨ pq = "/" ∨
  (∃ l, bytes pq = 47 :: l) ∧ ∀ c, c ∈ bytes pq → c ∈ bytes target.
Proof.
  unfold target_parts. destruct (starts_with "/" target) eqn:Hst.
  { intros [= <- <-]. apply starts_with_slash in Hst. auto. }
  destruct (split_scheme target) as [[scheme rem]|] eqn:Es; [|done].
  destruct (negb (http_scheme scheme)); [done|].
  destruct (split_authority rem) as [a tail] eqn:Ea. destruct (is_blank a); [done|].
  destruct (canonicalize_host a); [|done]. intros [= _ <-].
  destruct (split_authority_tail _ _ _ Ea) as [Hsub Hslash].
  destruct (is_empty tail) eqn:Ee; [by auto|]. destruct (starts_with "?" tail) eqn:Eq; [by auto|].
  right. right. split; [auto|]. intros c Hc. by eapply split_scheme_sub, Hsub.
Qed.

(** Path and query consist of characters of the target, and the path begins with a
    slash and has no question mark. *)
Lemma target_parts_split target authority pq path query :
  target_parts target = Ok (authority, pq) → split_path_and_query pq = (path, query) →
  (∀ c, c ∈ bytes path → c ∈ bytes target ∨ c = 47) ∧ (∀ c, c ∈ bytes query → c ∈ bytes target) ∧
  (∃ l, bytes path = 47 :: l) ∧ 63 ∉ bytes path.
Proof.
  intros H Hs. assert (Hroot : (∀ c, c ∈ bytes "/" → c ∈ bytes target ∨ c = 47) ∧
    (∀ c, c ∈ bytes EmptyString → c ∈ bytes target) ∧ (∃ l, bytes "/" = 47 :: l) ∧ 63 ∉ bytes "/").
  { split_and!; [| | by exists [] |].
    - intros c Hc%list_elem_of_singleton. by right.
    - by intros c Hc%elem_of_nil.
    - by intros Hc%list_elem_of_singleton. }
  destruct (target_parts_path _ _ _ H) as [->|[->|[[l Hl] Hsub]]];
    [by injection Hs as <- <- | by injection Hs as <- <- |].
  unfold split_path_and_query in Hs. destruct (is_empty pq); [by injection Hs as <- <-|].
  destruct (split_once 63 pq) as [[p q]|] eqn:Es.
  - apply split_once_bytes in Es as [Es Hp]. rewrite Es in Hsub, Hl.
    assert (Hpe : is_empty p = false) by by apply is_empty_false; intros ->.
    rewrite Hpe in Hs. injection Hs as <- <-. split_and!; [| | |done].
    + intros c Hc. left. apply Hsub, elem_of_app. by left.
    + intros c Hc. apply Hsub, elem_of_app. right. by right.
    + destruct (bytes p) as [|x b] eqn:E0; [by apply bytes_empty in E0; subst|].
      injection Hl as -> _. by exists b.
  - injection Hs as <- <-. apply split_once_none in Es.
    split_and!; [auto | by intros c Hc%elem_of_nil | by exists l | done].
Qed.

(** What canonicalisation of a visible target guarantees. *)
Lemma canonical_target_ok target t :
  visible target → canonicalize_request_target target = Ok t →
  visible t.(ct_path) ∧ canonicalize_percent_encoded t.(ct_path) = Ok t.(ct_path) ∧
  (∃ l, bytes t.(ct_path) = 47 :: l) ∧ 63 ∉ bytes t.(ct_path) ∧ 35 ∉ bytes t.(ct_path) ∧
  Forall pair_ok t.(ct_query_pairs) ∧ StronglySorted (key_le id pair_cmp) t.(ct_query_pairs).
Proof.
  intros Hv H. unfold canonicalize_request_target in H. rewrite trim_visible in H by done.
  destruct (is_empty target || bool_decide (target = "*")); [done|].
  destruct (contains 35 target) eqn:E35; [done|]. apply bool_decide_eq_false in E35.
  destruct (target_parts target) as [[authority pq]|] eqn:Ep; [|done].
  destruct (split_path_and_query pq) as [path query] eqn:Es.
  destruct (target_parts_split _ _ _ _ _ Ep Es) as (Hps & Hqs & Hslash & H63).
  destruct (canonicalize_percent_encoded path) as [path'|] eqn:Epath; [|done].
  destruct (canonicalize_query_pairs query) as [pairs|] eqn:Eq; [|done]. injection H as <-.
  assert (Hvp : visible path).
  { unfold visible in *. rewrite Forall_forall in Hv |- *. intros c [?| ->]%Hps; [auto|lia]. }
  destruct (percent_encoded_fixed _ _ Hvp Epath) as (Hf & Hvp' & Hb & _ & Hs').
  destruct (canonicalize_query_ok query pairs) as [? ?]; [exact (visible_sub _ _ target Hv Hqs) | auto | done |].
  assert (Hno : ∀ c, ¬ upper_hex c → c ∉ bytes path → c ∉ bytes path')
    by (intros c Hu Hc Hin; destruct (Hb c Hin); done).
  destruct Hslash as [l Hl]. split_and!; try done; simpl.
  - by apply (Hs' l).
  - apply Hno; [unfold upper_hex; lia | done].
  - apply Hno; [unfold upper_hex; lia|]. by intros [?| ?]%Hps.
Qed.

Lemma origin_form_text t :
  visible t.(ct_path) → 35 ∉ bytes t.(ct_path) → Forall pair_ok t.(ct_query_pairs) →
  (EmptyString, EmptyString) ∉ t.(ct_query_pairs) →
  visible (origin_form t) ∧ 35 ∉ bytes (origin_form t).
Proof.
  intros Hv H35 Hok Hne.
  assert (Hq : ∀ c, c ∈ bytes (CanonicalRequestTarget_canonical_query t) → 33 ≤ c ≤ 126 ∧ c ≠ 35).
  { unfold CanonicalRequestTarget_canonical_query. rewrite bytes_join. change (bytes "&") with [38].
    intros c Hc. apply elem_of_join_bytes in Hc as [Hc%list_elem_of_singleton|(l & Hl & Hc)]; [subst; lia|].
    apply list_elem_of_fmap in Hl as (s & -> & (p & -> & Hp)%list_elem_of_fmap).
    rewrite Forall_forall in Hok.
    destruct (query_pair_text_ok p (Hok p Hp)) as (_ & _ & Hh & Hvis & _); [by intros ->|].
    unfold visible in Hvis. rewrite Forall_forall in Hvis. split; [by apply Hvis | by intros ->]. }
  unfold origin_form. rewrite visible_app, bytes_app, elem_of_app.
  destruct t.(ct_query_pairs); [by split; [split; [|constructor]|intros [?|?%elem_of_nil]]|].
  unfold visible. rewrite bytes_app. change (bytes "?") with [63]. split.
  - split; [done|]. apply Forall_forall. intros c [->|Hc]%elem_of_cons; [lia|]. by apply Hq.
  - intros [?|[?|Hc]%elem_of_cons]; [done..|]. by apply Hq in Hc as [_ ?].
Qed.

Lemma origin_form_split t :
  (∃ l, bytes t.(ct_path) = 47 :: l) → 63 ∉ bytes t.(ct_path) →
  split_path_and_query (origin_form t) =
    (t.(ct_path), join "&" (query_pair_text <$> t.(ct_query_pairs))).
Proof.
  intros [l Hl] H63. unfold split_path_and_query.
  assert (Hp : is_empty t.(ct_path) = false) by (apply is_empty_false; intros E; by rewrite E in Hl).
  assert (is_empty (origin_form t) = false) as ->.
  { apply is_empty_false. intros E%(f_equal bytes). unfold origin_form in E.
    by rewrite bytes_app, Hl in E. }
  unfold origin_form, CanonicalRequestTarget_canonical_query.
  destruct t.(ct_query_pairs) as [|p pairs].
  - replace (t.(ct_path) +:+ EmptyString) with t.(ct_path)
      by (apply (inj bytes); by rewrite bytes_app, app_nil_r).
    by rewrite (proj2 (split_once_none 63 _) H63).
  - set (q := join "&" _). replace (split_once 63 _) with (Some (t.(ct_path), q)); [by rewrite Hp|].
    symmetry. apply split_once_bytes. by rewrite !bytes_app.
Qed.

(** ** Canonical hosts *)

(** A canonical host: visible lower-case text without the characters that end or refuse it. *)
Definition host_ok (host : string) : Prop :=
  visible host ∧ host ≠ EmptyString ∧ Forall (λ c, ascii_lower c = c ∧ c ∉ [47; 64; 44]) (bytes host).

Lemma ascii_lower_idemp c : ascii_lower (ascii_lower c) = ascii_lower c.
Proof. unfold ascii_lower. repeat case_decide; lia. Qed.

Lemma bytes_lower s : visible s → bytes (to_ascii_lowercase s) = ascii_lower <$> bytes s.
Proof.
  intros H. apply bytes_of_bytes, Forall_fmap. eapply Forall_impl; [exact H|]. intros c Hc.
  unfold compose, ascii_lower. simpl in Hc. case_decide; lia.
Qed.

Lemma strip_suffix_sub c s c' : c' ∈ bytes (default s (strip_suffix c s)) → c' ∈ bytes s.
Proof.
  unfold strip_suffix. destruct (reverse (bytes s)) as [|x l] eqn:E; [done|]. case_decide; [|done]. simpl.
  assert (Hs : ∀ y, y ∈ reverse l → y ∈ bytes s).
  { intros y Hy. rewrite elem_of_reverse in Hy. rewrite <- elem_of_reverse, E. by right. }
  rewrite (bytes_of_bytes_sub _ s Hs). apply Hs.
Qed.

Lemma canonicalize_host_ok v host :
  visible v → canonicalize_host v = Ok host →
  host_ok host ∧ ∀ c, c ∈ bytes host → ∃ c', c' ∈ bytes v ∧ c = ascii_lower c'.
Proof.
  intros Hv H. unfold canonicalize_host in H. rewrite trim_visible in H by done.
  set (n := to_ascii_lowercase v) in *.
  destruct (is_empty n || contains 47 n || contains 64 n || contains 44 n || _) eqn:E; [done|].
  destruct (is_empty (default n _)) eqn:Ee; [done|]. apply is_empty_false in Ee. injection H as <-.
  rewrite !orb_false_iff in E. destruct E as ((((_ & E47) & E64) & E44) & _).
  apply bool_decide_eq_false in E47, E64, E44.
  assert (Hfrom : ∀ c, c ∈ bytes n → ∃ c', c' ∈ bytes v ∧ c = ascii_lower c').
  { intros c Hc. unfold n in Hc. rewrite bytes_lower in Hc by done.
    apply list_elem_of_fmap in Hc as (c' & -> & Hc'). by exists c'. }
  split; [|intros c Hc; apply Hfrom; by eapply strip_suffix_sub].
  assert (Hn : Forall (λ c, 33 ≤ c ≤ 126 ∧ ascii_lower c = c ∧ c ∉ [47; 64; 44]) (bytes n)).
  { apply Forall_forall. intros c Hc. destruct (Hfrom c Hc) as (c' & Hc' & ->). unfold visible in Hv.
    rewrite Forall_forall in Hv. specialize (Hv c' Hc'). simpl in Hv. rewrite ascii_lower_idemp.
    split; [unfold ascii_lower; case_decide; lia|]. split; [done|]. rewrite !not_elem_of_cons.
    split_and!; [intros E; by rewrite E in Hc..|apply not_elem_of_nil]. }
  assert (Hs : Forall (λ c, 33 ≤ c ≤ 126 ∧ ascii_lower c = c ∧ c ∉ [47; 64; 44]) (bytes (default n (strip_suffix 46 n)))).
  { rewrite Forall_forall in Hn |- *. intros c Hc. apply Hn. by eapply strip_suffix_sub. }
  split_and!; [|done|]; (eapply Forall_impl; [exact Hs|]); by intros c (? & ? & ?).
Qed.

(** A canonical host without a dot at its end is a fixed point. *)
Lemma canonicalize_host_fixed host :
  host_ok host → strip_suffix 46 host = None → canonicalize_host host = Ok host.
Proof.
  intros (Hv & Hne & Hc) Hdot. unfold canonicalize_host. rewrite trim_visible by done.
  assert (to_ascii_lowercase host = host) as ->.
  { apply (inj bytes). rewrite bytes_lower by done. rewrite <- (list_fmap_id (bytes host)) at 2.
    apply list_fmap_ext. intros i c Hi%list_elem_of_lookup_2. rewrite Forall_forall in Hc. by apply Hc. }
  assert (Hno : ∀ c, c ∈ [47; 64; 44] → contains c host = false).
  { intros c Hin. apply bool_decide_eq_false. intros Hb. rewrite Forall_forall in Hc. by apply Hc in Hb as [_ ?]. }
  rewrite (proj2 (is_empty_false host) Hne), !Hno by (repeat constructor).
  assert (any_char is_ascii_whitespace host = false) as ->.
  { unfold any_char. apply not_true_iff_false. rewrite existsb_exists. intros (c & Hin%list_elem_of_In & Hw).
    unfold visible in Hv. rewrite Forall_forall in Hv. specialize (Hv c Hin). simpl in Hv.
    unfold is_ascii_whitespace in Hw. apply bool_decide_eq_true in Hw. lia. }
  simpl. rewrite Hdot. simpl. by rewrite (proj2 (is_empty_false host) Hne).
Qed.

(** The authority of an accepted target is a canonical host without question mark and hash. *)
Lemma canonical_target_host target t host :
  visible target → canonicalize_request_target target = Ok t → t.(ct_authority) = Some host →
  host_ok host ∧ 63 ∉ bytes host ∧ 35 ∉ bytes host.
Proof.
  intros Hv H Hhost. unfold canonicalize_request_target in H. rewrite trim_visible in H by done.
  destruct (is_empty target || bool_decide (target = "*")); [done|].
  destruct (contains 35 target) eqn:E35; [done|]. apply bool_decide_eq_false in E35.
  destruct (target_parts target) as [[authority pq]|] eqn:Ep; [|done].
  destruct (split_path_and_query pq) as [path query].
  destruct (canonicalize_percent_encoded path); [|done]. destruct (canonicalize_query_pairs query); [|done].
  injection H as <-. simpl in Hhost. subst authority. unfold target_parts in Ep.
  destruct (starts_with "/" target); [done|].
  destruct (split_scheme target) as [[scheme rem]|] eqn:Es; [|done].
  destruct (negb (http_scheme scheme)); [done|]. destruct (split_authority rem) as [a tail] eqn:Ea.
  destruct (is_blank a); [done|]. destruct (canonicalize_host a) as [h|] eqn:Eh; [|done]. injection Ep as -> _.
  assert (Ha : (∀ c, c ∈ bytes a → c ∈ bytes rem) ∧ 63 ∉ bytes a).
  { unfold split_authority in Ea. set (f := λ c, bool_decide (c = 47 ∨ c = 63)) in Ea.
    pose proof (span_until_app f (bytes rem)) as Happ. destruct (span_until f (bytes rem)) as [x y].
    injection Ea as <- _. destruct Happ as [Hrem Hx].
    assert (Hsub : ∀ c, c ∈ x → c ∈ bytes rem) by (intros c Hc; rewrite Hrem; apply elem_of_app; by left).
    rewrite (bytes_of_bytes_sub _ rem Hsub). split; [done|]. rewrite Forall_forall in Hx. by intros ?%Hx. }
  destruct Ha as [Hsub H63].
  assert (Hat : ∀ c, c ∈ bytes a → c ∈ bytes target) by (intros c Hc; by eapply split_scheme_sub, Hsub).
  destruct (canonicalize_host_ok a host) as [Hok Hfrom]; [exact (visible_sub _ _ target Hv Hat)|done|].
  assert (Hno : ∀ c, c = 63 ∨ c = 35 → c ∉ bytes a → c ∉ bytes host).
  { intros c Hc Hna (c' & Hc' & E)%Hfrom. unfold ascii_lower in E. case_decide; [lia|]. by subst. }
  split_and!; [done|apply Hno; auto|apply Hno; auto].
Qed.

Lemma split_authority_app host rest :
  47 ∉ bytes host → 63 ∉ bytes host → (∃ l, bytes rest = 47 :: l) →
  split_authority (host +:+ rest) = (host, rest).
Proof.
  intros H47 H63 [l Hl]. unfold split_authority. rewrite bytes_app, Hl.
  assert (Hspan : span_until (λ c, bool_decide (c = 47 ∨ c = 63)) (bytes host ++ 47 :: l) = (bytes host, 47 :: l)).
  { induction (bytes host) as [|x h IH]; [done|]. apply not_elem_of_cons in H47 as [? H47], H63 as [? H63].
    simpl. rewrite bool_decide_eq_false_2 by (intros [?|?]; congruence). by rewrite IH. }
  rewrite Hspan, <- Hl. by rewrite !of_bytes_bytes.
Qed.

(** The parts of the text of a canonical target. *)
Lemma target_text_parts t :
  (∃ l, bytes (origin_form t) = 47 :: l) →
  (∀ host, t.(ct_authority) = Some host → host_ok host ∧ 63 ∉ bytes host ∧ strip_suffix 46 host = None) →
  target_parts (target_text t) = Ok (t.(ct_authority), origin_form t).
Proof.
  intros Hslash Hhost. unfold target_parts, target_text. destruct t.(ct_authority) as [host|].
  2: { by rewrite (proj2 (starts_with_slash (EmptyString +:+ origin_form t)) Hslash). }
  destruct (Hhost host eq_refl) as (Hok & H63 & Hdot). pose proof Hok as (Hv & Hne & Hc).
  assert (Hb : bytes (("http://" +:+ host) +:+ origin_form t) = bytes "http://" ++ bytes (host +:+ origin_form t)).
  { by rewrite !bytes_app, app_assoc. }
  assert (Hst : starts_with "/" (("http://" +:+ host) +:+ origin_form t) = false).
  { apply not_true_iff_false. rewrite starts_with_slash, Hb. by intros [l ?]. }
  assert (Hs : split_scheme (("http://" +:+ host) +:+ origin_form t) = Some ("http", host +:+ origin_form t)).
  { unfold split_scheme. rewrite Hb. simpl. f_equal. f_equal. apply of_bytes_bytes. }
  rewrite Hst, Hs. change (negb (http_scheme "http")) with false. cbv iota.
  rewrite split_authority_app; [| |done|done].
  2: { intros Hin. rewrite Forall_forall in Hc. apply Hc in Hin as [_ Hin]. apply Hin. by left. }
  unfold is_blank. rewrite trim_visible by done. rewrite bool_decide_eq_false_2 by done.
  rewrite canonicalize_host_fixed by done. destruct Hslash as [l Hl].
  rewrite (proj2 (is_empty_false (origin_form t))) by (intros E; by rewrite E in Hl).
  assert (starts_with "?" (origin_form t) = false) as ->; [|done].
  unfold starts_with. rewrite bool_decide_eq_false, Hl. change (bytes "?") with [63]. by intros [k ?].
Qed.

(** C36: canonical targets are a normal form.  Take an accepted target (origin-form or
    absolute-form) of visible ASCII characters whose canonical query has no empty pair (a lone
    equals sign) and whose canonical host, if there is one, does not end in a dot.  The text of its
    canonical form - scheme and canonical host for absolute-form, canonical path, and the canonical
    query text that enters cache keys - canonicalises to exactly the same target: authority, path
    and query pairs.  The examples below show that none of the three conditions can be dropped. *)
Theorem canonical_target_roundtrip (target : string) (t : CanonicalRequestTarget)
  (Hv : visible target) (Hc : canonicalize_request_target target = Ok t)
  (Hne : (EmptyString, EmptyString) ∉ t.(ct_query_pairs))
  (Hdot : ∀ host, t.(ct_authority) = Some host → strip_suffix 46 host = None) :
  canonicalize_request_target (target_text t) = Ok t.
Proof.
  destruct (canonical_target_ok target t Hv Hc) as (Hvp & Hfp & [l Hl] & H63 & H35 & Hok & Hs).
  destruct (origin_form_text t Hvp H35 Hok Hne) as [Hvr H35r].
  pose proof (canonical_query_parses _ Hok Hs Hne) as Hq.
  pose proof (λ host, canonical_target_host target t host Hv Hc) as Hhost.
  assert (Hslash : ∃ l', bytes (origin_form t) = 47 :: l').
  { unfold origin_form. rewrite bytes_app, Hl. by eexists. }
  assert (Htext : visible (target_text t) ∧ 35 ∉ bytes (target_text t)).
  { unfold target_text. destruct t.(ct_authority) as [host|]; [|done].
    destruct (Hhost host eq_refl) as ((Hvh & _) & _ & H35h). rewrite !visible_app, !bytes_app, !elem_of_app.
    split; [split_and!; try done; by repeat constructor|]. intros [[H|?]|?]; try done.
    revert H. apply (bool_decide_unpack _). vm_compute. exact I. }
  destruct Htext as [Hvt H35t]. unfold canonicalize_request_target. rewrite trim_visible by done.
  assert (is_empty (target_text t) || bool_decide (target_text t = "*") = false) as ->.
  { destruct Hslash as [l' Hl']. apply orb_false_iff. rewrite is_empty_false, bool_decide_eq_false.
    unfold target_text. destruct t.(ct_authority); [done|].
    split; intros E%(f_equal bytes); rewrite bytes_app, Hl' in E; done. }
  unfold contains. rewrite bool_decide_eq_false_2 by done.
  rewrite target_text_parts; [|done|intros host E; destruct (Hhost host E) as (? & ? & _); auto].
  rewrite origin_form_split by (done || by eexists). rewrite Hfp, Hq. by destruct t.
Qed.

Lemma canonical_target_roundtrip_witness :
  canonicalize_request_target "http://h/items?a=1&b=%2F" =
    Ok {| ct_authority := Some "h"; ct_path := "/items"; ct_query_pairs := [("a", "1"); ("b", "%2F")] |}.
Proof.
  apply (canonical_target_roundtrip "https://H./items?b=%2f&a=1"
    {| ct_authority := Some "h"; ct_path := "/items"; ct_query_pairs := [("a", "1"); ("b", "%2F")] |}).
  - apply (bool_decide_unpack _). vm_compute. exact I.
  - vm_compute. reflexivity.
  - apply (bool_decide_unpack _). vm_compute. exact I.
  - intros host [= <-]. reflexivity.
Defined.

(** The empty pair has no text: a lone equals sign and no query at all are told apart by the
    pairs and not by the canonical query text. *)
Example empty_pair_has_no_text :
  canonicalize_request_target "/x?=" =
    Ok {| ct_authority := None; ct_path := "/x"; ct_query_pairs := [(EmptyString, EmptyString)] |} ∧
  CanonicalRequestTarget_canonical_query
    {| ct_authority := None; ct_path := "/x"; ct_query_pairs := [(EmptyString, EmptyString)] |} = EmptyString.
Proof. vm_compute. auto. Qed.

(** One dot is taken from the end of a host each time, and a character outside ASCII is encoded
    again each time. *)
Example canonicalisation_repeats :
  canonicalize_host "a.." = Ok "a." ∧ canonicalize_host "a." = Ok "a" ∧
  canonicalize_percent_encoded "é" = Ok "Ã©" ∧ canonicalize_percent_encoded "Ã©" ≠ Ok "Ã©".
Proof. vm_compute. split_and!; done. Qed.

(** The query of an absolute-form target without a path is lost: whatever the query,
    [http://example.test?query] canonicalises to the root path without query pairs, so
    targets that differ only in such a query have the same canonical form. *)
Theorem absolute_target_query_dropped (query : string)
  (Hv : visible query) (H35 : 35 ∉ bytes query) :
  canonicalize_request_target ("http://example.test?" +:+ query) =
    Ok {| ct_authority := Some "example.test"; ct_path := "/"; ct_query_pairs := [] |}.
Proof.
  set (target := "http://example.test?" +:+ query).
  assert (Hb : bytes target = bytes "http://example.test?" ++ bytes query) by apply bytes_app.
  assert (Hvt : visible target).
  { apply visible_app. split; [|done]. apply (bool_decide_unpack _). vm_compute. exact I. }
  unfold canonicalize_request_target. rewrite trim_visible by done.
  assert (is_empty target || bool_decide (target = "*") = false) as -> by done.
  unfold contains. rewrite bool_decide_eq_false_2.
  2: { rewrite Hb, elem_of_app. intros [H|?]; [|done]. revert H. apply (bool_decide_unpack _).
       vm_compute. exact I. }
  assert (Hparts : target_parts target = Ok (Some "example.test", EmptyString)); [|by rewrite Hparts].
  assert (Hs : split_scheme target = Some ("http", "example.test?" +:+ query)).
  { unfold split_scheme. rewrite Hb. simpl. f_equal. f_equal.
    apply (of_bytes_bytes ("example.test?" +:+ query)). }
  assert (Ha : split_authority ("example.test?" +:+ query) = ("example.test", "?" +:+ query)).
  { unfold split_authority. rewrite bytes_app. simpl. f_equal.
    apply (of_bytes_bytes ("?" +:+ query)). }
  unfold target_parts. change (starts_with "/" target) with false. cbv iota. rewrite Hs.
  change (negb (http_scheme "http")) with false. cbv iota. rewrite Ha.
  change (is_blank "example.test") with false. cbv iota.
  change (canonicalize_host "example.test") with (@Ok string RequestTargetError "example.test").
  cbv iota. change (is_empty ("?" +:+ query)) with false. cbv iota.
  unfold starts_with. rewrite bool_decide_eq_true_2; [done|].
  rewrite bytes_app. by apply prefix_app_r.
Qed.

Lemma absolute_target_query_dropped_witness :
  canonicalize_request_target "http://example.test?user=alice" =
  canonicalize_request_target "http://example.test?user=bob".
Proof.
  transitivity (@Ok _ RequestTargetError
    {| ct_authority := Some "example.test"; ct_path := "/"; ct_query_pairs := [] |}).
  - apply (absolute_target_query_dropped "user=alice"); apply (bool_decide_unpack _); vm_compute; exact I.
  - symmetry.
    apply (absolute_target_query_dropped "user=bob"); apply (bool_decide_unpack _); vm_compute; exact I.
Defined.
