(* ===== verification/RouteMatching.v ===== *)
(** * Route matching

    Models the route rules and the matcher of [crates/proto-http/src/lib.rs]: the
    normalisation of methods, header names, content types and gRPC names, and the
    choice of the most specific rule that matches a request.

    Networks come from a third-party library ([ipnet]); the type of networks and the
    containment test are parameters. *)

From S2P Require Import Prelude RustStr RustText NetCore RequestTarget.
Local Open Scope N_scope.
Local Open Scope rust_scope.

Class IpNetwork := { IpNet : Type; cidr_contains : IpNet → IpAddr → bool }.

Inductive SupportedHttpVersion := Version_Http1 | Version_Http2.
#[export] Instance SupportedHttpVersion_eq_dec : EqDecision SupportedHttpVersion.
Proof. solve_decision. Defined.

Record HttpHeader := { h_name : string; h_value : string }.
#[export] Instance HttpHeader_eq_dec : EqDecision HttpHeader.
Proof. solve_decision. Defined.

(** [headers.iter().any(|h| h.name.eq_ignore_ascii_case(name))]. *)
Definition named (name : string) (h : HttpHeader) : bool := eq_ignore_ascii_case h.(h_name) name.
Definition has_header (name : string) (headers : list HttpHeader) : bool := existsb (named name) headers.

Inductive RouteHeaderMatch :=
| HeaderExact (name value : string) | HeaderPresent (name : string) | HeaderAbsent (name : string).
Inductive RouteQueryMatch :=
| QueryExact (name value : string) | QueryPresent (name : string) | QueryAbsent (name : string).

(** ** Normalisation *)

Definition is_http_token_char (c : N) : bool :=
  bool_decide (c ∈ bytes "!#$%&'*+-.^_`|~") || is_ascii_alphanumeric c.

Definition normalize_http_method (value : string) : option string :=
  let normalized := trim value in
  if is_empty normalized || negb (all_chars is_http_token_char normalized) then None
  else Some (to_ascii_uppercase normalized).

Definition normalize_http_header_name (value : string) : option string :=
  let normalized := trim value in
  if is_empty normalized || negb (all_chars is_http_token_char normalized) then None
  else Some (to_ascii_lowercase normalized).

Definition is_valid_grpc_identifier (value : string) : bool :=
  match bytes value with
  | [] => false
  | first :: characters =>
      (is_ascii_alphabetic first || bool_decide (first = 95)) &&
      forallb (λ c, is_ascii_alphanumeric c || bool_decide (c = 95)) characters
  end.

Definition normalize_grpc_service_match (value : string) : option string :=
  let normalized := trim value in
  if is_empty normalized || contains 47 normalized || any_char is_ascii_whitespace normalized
  then None
  else if forallb is_valid_grpc_identifier (split 46 normalized) then Some normalized else None.

Definition normalize_grpc_method_match (value : string) : option string :=
  let normalized := trim value in
  if is_valid_grpc_identifier normalized then Some normalized else None.

Definition normalize_content_type_match (value : string) : option string :=
  first ← head (split 59 value);
  let media_type := to_ascii_lowercase (trim first) in
  '(type_name, subtype_name) ← split_once 47 media_type;
  if is_empty type_name || is_empty subtype_name ||
     negb (all_chars is_http_token_char type_name) || negb (all_chars is_http_token_char subtype_name)
  then None else Some media_type.

Definition is_grpc_content_type (value : string) : bool :=
  let normalized := to_ascii_lowercase (trim value) in
  bool_decide (normalized = "application/grpc") || starts_with "application/grpc+" normalized ||
  starts_with "application/grpc;" normalized.

Definition is_grpc_request (method : string) (version : SupportedHttpVersion)
    (headers : list HttpHeader) : bool :=
  bool_decide (version = Version_Http2) && eq_ignore_ascii_case method "POST" &&
  existsb (λ h, named "content-type" h && is_grpc_content_type h.(h_value)) headers.

Definition extract_grpc_path_components (path : string) : option (string * string) :=
  trimmed ← strip_prefix 47 path;
  '(service, method) ← split_once 47 trimmed;
  if contains 47 method then None
  else
    service ← normalize_grpc_service_match service;
    method ← normalize_grpc_method_match method;
    Some (service, method).

Definition extract_content_type_match (headers : list HttpHeader) : option string :=
  h ← find (named "content-type") headers;
  normalize_content_type_match h.(h_value).

Definition extract_host_header (headers : list HttpHeader) : option string :=
  h_value <$> find (named "host") headers.

(** ** Rules *)

Section routing.
Context {Net : IpNetwork}.

Record RoutePrefixRule := {
  r_label : string;
  r_prefix : string;
  r_hostnames : list string;
  r_methods : list string;
  r_header_matches : list RouteHeaderMatch;
  r_query_matches : list RouteQueryMatch;
  r_content_types : list string;
  r_grpc_services : list string;
  r_grpc_methods : list string;
  r_source_cidrs : list IpNet
}.

Definition RoutePrefixRule_new (label prefix : string) : RoutePrefixRule :=
  {| r_label := label; r_prefix := prefix; r_hostnames := []; r_methods := [];
     r_header_matches := []; r_query_matches := []; r_content_types := []; r_grpc_services := [];
     r_grpc_methods := []; r_source_cidrs := [] |}.

Definition RoutePrefixRule_with_hostnames (r : RoutePrefixRule) (hostnames : list string) :
    RoutePrefixRule :=
  {| r_label := r.(r_label); r_prefix := r.(r_prefix); r_hostnames := hostnames;
     r_methods := r.(r_methods); r_header_matches := r.(r_header_matches);
     r_query_matches := r.(r_query_matches); r_content_types := r.(r_content_types);
     r_grpc_services := r.(r_grpc_services); r_grpc_methods := r.(r_grpc_methods);
     r_source_cidrs := r.(r_source_cidrs) |}.

Definition RoutePrefixRule_with_methods (r : RoutePrefixRule) (methods : list string) :
    RoutePrefixRule :=
  {| r_label := r.(r_label); r_prefix := r.(r_prefix); r_hostnames := r.(r_hostnames);
     r_methods := (λ method, to_ascii_uppercase (trim method)) <$> methods;
     r_header_matches := r.(r_header_matches); r_query_matches := r.(r_query_matches);
     r_content_types := r.(r_content_types); r_grpc_services := r.(r_grpc_services);
     r_grpc_methods := r.(r_grpc_methods); r_source_cidrs := r.(r_source_cidrs) |}.

Definition RoutePrefixRule_with_header_matches (r : RoutePrefixRule) (header_matches : list RouteHeaderMatch) :
    RoutePrefixRule :=
  {| r_label := r.(r_label); r_prefix := r.(r_prefix); r_hostnames := r.(r_hostnames);
     r_methods := r.(r_methods); r_header_matches := header_matches;
     r_query_matches := r.(r_query_matches); r_content_types := r.(r_content_types);
     r_grpc_services := r.(r_grpc_services); r_grpc_methods := r.(r_grpc_methods);
     r_source_cidrs := r.(r_source_cidrs) |}.

Definition RoutePrefixRule_with_query_matches (r : RoutePrefixRule) (query_matches : list RouteQueryMatch) :
    RoutePrefixRule :=
  {| r_label := r.(r_label); r_prefix := r.(r_prefix); r_hostnames := r.(r_hostnames);
     r_methods := r.(r_methods); r_header_matches := r.(r_header_matches);
     r_query_matches := query_matches; r_content_types := r.(r_content_types);
     r_grpc_services := r.(r_grpc_services); r_grpc_methods := r.(r_grpc_methods);
     r_source_cidrs := r.(r_source_cidrs) |}.

Definition RoutePrefixRule_with_content_types (r : RoutePrefixRule) (content_types : list string) :
    RoutePrefixRule :=
  {| r_label := r.(r_label); r_prefix := r.(r_prefix); r_hostnames := r.(r_hostnames);
     r_methods := r.(r_methods); r_header_matches := r.(r_header_matches);
     r_query_matches := r.(r_query_matches); r_content_types := content_types;
     r_grpc_services := r.(r_grpc_services); r_grpc_methods := r.(r_grpc_methods);
     r_source_cidrs := r.(r_source_cidrs) |}.

Definition RoutePrefixRule_with_grpc_services (r : RoutePrefixRule) (grpc_services : list string) :
    RoutePrefixRule :=
  {| r_label := r.(r_label); r_prefix := r.(r_prefix); r_hostnames := r.(r_hostnames);
     r_methods := r.(r_methods); r_header_matches := r.(r_header_matches);
     r_query_matches := r.(r_query_matches); r_content_types := r.(r_content_types);
     r_grpc_services := grpc_services; r_grpc_methods := r.(r_grpc_methods);
     r_source_cidrs := r.(r_source_cidrs) |}.

Definition RoutePrefixRule_with_grpc_methods (r : RoutePrefixRule) (grpc_methods : list string) :
    RoutePrefixRule :=
  {| r_label := r.(r_label); r_prefix := r.(r_prefix); r_hostnames := r.(r_hostnames);
     r_methods := r.(r_methods); r_header_matches := r.(r_header_matches);
     r_query_matches := r.(r_query_matches); r_content_types := r.(r_content_types);
     r_grpc_services := r.(r_grpc_services); r_grpc_methods := grpc_methods;
     r_source_cidrs := r.(r_source_cidrs) |}.

Definition RoutePrefixRule_with_source_cidrs (r : RoutePrefixRule) (source_cidrs : list IpNet) :
    RoutePrefixRule :=
  {| r_label := r.(r_label); r_prefix := r.(r_prefix); r_hostnames := r.(r_hostnames);
     r_methods := r.(r_methods); r_header_matches := r.(r_header_matches);
     r_query_matches := r.(r_query_matches); r_content_types := r.(r_content_types);
     r_grpc_services := r.(r_grpc_services); r_grpc_methods := r.(r_grpc_methods);
     r_source_cidrs := source_cidrs |}.

Definition nonempty {A} (l : list A) : N := match l with [] => 0 | _ => 1 end.

(** The key is compared as a tuple; flags count as 0 and 1. *)
Definition RoutePrefixRule_specificity_key (r : RoutePrefixRule) :
    N * (N * (N * (N * (N * (N * (N * (N * N))))))) :=
  (N.of_nat (str_len r.(r_prefix)), (nonempty r.(r_hostnames), (nonempty r.(r_methods),
  (N.of_nat (length r.(r_header_matches)), (N.of_nat (length r.(r_query_matches)),
  (nonempty r.(r_content_types), (N.of_nat (length r.(r_grpc_services)),
  (N.of_nat (length r.(r_grpc_methods)), nonempty r.(r_source_cidrs))))))))).

Definition key_cmp : N * (N * (N * (N * (N * (N * (N * (N * N))))))) → _ → comparison :=
  let n := N.compare in
  lex_cmp n (lex_cmp n (lex_cmp n (lex_cmp n (lex_cmp n (lex_cmp n (lex_cmp n (lex_cmp n n))))))).

#[export] Instance key_cmp_lawful : LawfulCmp key_cmp.
Proof. unfold key_cmp. apply _. Qed.

(** [left.specificity_key().cmp(&right.specificity_key())]. *)
Definition rule_cmp (left right : RoutePrefixRule) : comparison :=
  key_cmp (RoutePrefixRule_specificity_key left) (RoutePrefixRule_specificity_key right).

Record RouteMatchInput := {
  mi_target : string;
  mi_host : option string;
  mi_method : option string;
  mi_headers : list HttpHeader;
  mi_source_ip : option IpAddr
}.

Record CanonicalRouteMatchInput := {
  ci_path : string;
  ci_authority : option string;
  ci_method : option string;
  ci_headers : list HttpHeader;
  ci_query_pairs : list (string * string);
  ci_content_type : option string;
  ci_grpc_service : option string;
  ci_grpc_method : option string;
  ci_source_ip : option IpAddr
}.

Record RouteMatch := { m_label : string; m_prefix : string }.

Definition ok {T E} (r : Result T E) : option T := match r with Ok x => Some x | Err _ => None end.

Definition canonicalize_route_match_input (input : RouteMatchInput) :
    Result CanonicalRouteMatchInput RequestTargetError :=
  let? canonical_target := canonicalize_request_target input.(mi_target) in
  let grpc_path := extract_grpc_path_components canonical_target.(ct_path) in
  Ok {| ci_path := canonical_target.(ct_path);
        ci_authority :=
          match input.(mi_host) ≫= (λ value, ok (canonicalize_host value)) with
          | Some host => Some host
          | None => canonical_target.(ct_authority)
          end;
        ci_method := input.(mi_method) ≫= normalize_http_method;
        ci_headers := input.(mi_headers);
        ci_query_pairs := canonical_target.(ct_query_pairs);
        ci_content_type := extract_content_type_match input.(mi_headers);
        ci_grpc_service := fst <$> grpc_path;
        ci_grpc_method := snd <$> grpc_path;
        ci_source_ip := input.(mi_source_ip) |}.

(** ** Matching *)

Definition header_match_satisfied (matcher : RouteHeaderMatch) (headers : list HttpHeader) : bool :=
  match matcher with
  | HeaderExact name value =>
      existsb (λ h, named name h && bool_decide (trim h.(h_value) = value)) headers
  | HeaderPresent name => has_header name headers
  | HeaderAbsent name => negb (has_header name headers)
  end.

Definition query_match_satisfied (matcher : RouteQueryMatch) (pairs : list (string * string)) : bool :=
  match matcher with
  | QueryExact name value => existsb (λ p, bool_decide (p.1 = name) && bool_decide (p.2 = value)) pairs
  | QueryPresent name => existsb (λ p, bool_decide (p.1 = name)) pairs
  | QueryAbsent name => negb (existsb (λ p, bool_decide (p.1 = name)) pairs)
  end.

(** An empty list is no constraint; otherwise the value must be present and allowed. *)
Definition allowed_by {A B} (constraint : list A) (value : option B) (f : A → B → bool) : bool :=
  match constraint with
  | [] => true
  | _ => match value with Some v => existsb (λ a, f a v) constraint | None => false end
  end.

Definition same (a b : string) : bool := bool_decide (a = b).

Definition route_rule_matches (rule : RoutePrefixRule) (input : CanonicalRouteMatchInput) : bool :=
  starts_with rule.(r_prefix) input.(ci_path) &&
  allowed_by rule.(r_hostnames) input.(ci_authority) same &&
  allowed_by rule.(r_methods) input.(ci_method) same &&
  forallb (λ m, header_match_satisfied m input.(ci_headers)) rule.(r_header_matches) &&
  forallb (λ m, query_match_satisfied m input.(ci_query_pairs)) rule.(r_query_matches) &&
  allowed_by rule.(r_content_types) input.(ci_content_type)
    (λ t v, same t v || (same t "application/grpc" && is_grpc_content_type v)) &&
  allowed_by rule.(r_grpc_services) input.(ci_grpc_service) same &&
  allowed_by rule.(r_grpc_methods) input.(ci_grpc_method) same &&
  allowed_by rule.(r_source_cidrs) (canonicalize_ip <$> input.(ci_source_ip)) cidr_contains.

(** The loop over the matching rules; the first of equally specific rules stays. *)
Fixpoint best_rule_loop (best_match : option RoutePrefixRule) (rules : list RoutePrefixRule) :
    option RoutePrefixRule :=
  match rules with
  | [] => best_match
  | rule :: rules =>
      let should_replace :=
        match best_match with
        | Some matched =>
            bool_decide (rule_cmp rule matched = Gt)
        | None => true
        end in
      best_rule_loop (if should_replace then Some rule else best_match) rules
  end.

Definition match_canonical_route (input : CanonicalRouteMatchInput) (rules : list RoutePrefixRule) :
    option RouteMatch :=
  (λ rule, {| m_label := rule.(r_label); m_prefix := rule.(r_prefix) |}) <$>
    best_rule_loop None (List.filter (λ rule, route_rule_matches rule input) rules).

Definition match_route_request_with_context (input : RouteMatchInput) (rules : list RoutePrefixRule) :
    option RouteMatch :=
  canonical_input ← ok (canonicalize_route_match_input input);
  match_canonical_route canonical_input rules.

Definition match_route (target : string) (host method : option string)
    (rules : list RoutePrefixRule) : option RouteMatch :=
  match_route_request_with_context
    {| mi_target := target; mi_host := host; mi_method := method; mi_headers := [];
       mi_source_ip := None |} rules.

Definition match_route_prefix (target : string) := match_route target None None.
Definition match_route_request (target : string) (host : option string) := match_route target host None.
Definition match_route_request_with_method (target : string) (host method : option string) :=
  match_route target host method.

(** ** The most specific rule is chosen *)

Definition is_best (best : RoutePrefixRule) (before after : list RoutePrefixRule) : Prop :=
  Forall (λ r, rule_cmp r best = Lt) before ∧ Forall (λ r, rule_cmp r best ≠ Gt) after.

Lemma rule_cmp_refl r : rule_cmp r r = Eq.
Proof. apply (cmp_refl (cmp := key_cmp)). Qed.

Lemma rule_cmp_gt_lt a b : rule_cmp a b = Gt ↔ rule_cmp b a = Lt.
Proof. apply (cmp_gt_lt key_cmp). Qed.

Lemma rule_cmp_le_lt a b c : rule_cmp a b ≠ Gt → rule_cmp b c = Lt → rule_cmp a c = Lt.
Proof.
  unfold rule_cmp. intros Hab Hbc. destruct (key_cmp _ _) eqn:E in Hab; [| |done].
  - apply cmp_eq in E. by rewrite E.
  - by eapply cmp_lt_trans.
Qed.

Lemma best_rule_loop_Some rules : ∀ matched before after,
  is_best matched before after →
  ∃ best before' after', best_rule_loop (Some matched) rules = Some best ∧
    before ++ matched :: after ++ rules = before' ++ best :: after' ∧ is_best best before' after'.
Proof.
  induction rules as [|r rules IH]; intros matched before after [Hb Ha]; simpl.
  { exists matched, before, after. by rewrite app_nil_r. }
  case_bool_decide as Hgt.
  - apply rule_cmp_gt_lt in Hgt.
    destruct (IH r (before ++ matched :: after) []) as (best & b' & a' & Hl & Heq & Hbest).
    { split; [|constructor]. rewrite Forall_app, Forall_cons. split_and!; [|done|].
      - eapply Forall_impl; [exact Hb|]. intros x Hx. simpl in Hx.
        eapply rule_cmp_le_lt; [|exact Hgt]. by rewrite Hx.
      - eapply Forall_impl; [exact Ha|]. intros x Hx.
        exact (rule_cmp_le_lt _ _ _ Hx Hgt). }
    exists best, b', a'. split; [done|]. split; [|done]. rewrite <- Heq, <- app_assoc. done.
  - destruct (IH matched before (after ++ [r])) as (best & b' & a' & Hl & Heq & Hbest).
    { split; [done|]. by rewrite Forall_app, Forall_singleton. }
    exists best, b', a'. split; [done|]. split; [|done]. rewrite <- Heq. by rewrite <- app_assoc.
Qed.

Lemma filter_split {A} (f : A → bool) l x before after :
  List.filter f l = before ++ x :: after →
  ∃ l1 l2, l = l1 ++ x :: l2 ∧ List.filter f l1 = before ∧ List.filter f l2 = after ∧ f x = true.
Proof.
  revert before. induction l as [|y l IH]; intros before; simpl; [by destruct before|].
  destruct (f y) eqn:E.
  - destruct before as [|b before]; simpl; intros [= <- Hl].
    + by exists [], l.
    + destruct (IH _ Hl) as (l1 & l2 & -> & <- & <- & ?). exists (y :: l1), l2. simpl. by rewrite E.
  - intros Hl. destruct (IH _ Hl) as (l1 & l2 & -> & <- & <- & ?). exists (y :: l1), l2. simpl.
    by rewrite E.
Qed.

Lemma Forall_List_filter {A} (f : A → bool) (P : A → Prop) l :
  Forall P (List.filter f l) ↔ Forall (λ x, f x = true → P x) l.
Proof.
  induction l as [|x l IH]; simpl; [by rewrite !Forall_nil|].
  destruct (f x) eqn:E; rewrite !Forall_cons, IH, ?E; naive_solver.
Qed.

(** C35: the route of a request is the first of the most specific rules that match it: every
    earlier matching rule is strictly less specific and no later one is more specific; there
    is no route exactly when no rule matches. *)
Theorem match_canonical_route_spec (input : CanonicalRouteMatchInput) (rules : list RoutePrefixRule) :
  match match_canonical_route input rules with
  | None => Forall (λ r, route_rule_matches r input = false) rules
  | Some m =>
      ∃ before rule after,
        rules = before ++ rule :: after ∧ route_rule_matches rule input = true ∧
        m = {| m_label := rule.(r_label); m_prefix := rule.(r_prefix) |} ∧
        Forall (λ r, route_rule_matches r input = true → rule_cmp r rule = Lt) before ∧
        Forall (λ r, route_rule_matches r input = true → rule_cmp r rule ≠ Gt) after
  end.
Proof.
  unfold match_canonical_route. set (f := λ rule, route_rule_matches rule input).
  destruct (List.filter f rules) as [|r l] eqn:Hf; simpl.
  - assert (H : Forall (λ _, False) (List.filter f rules)) by (rewrite Hf; constructor).
    apply Forall_List_filter in H. eapply Forall_impl; [exact H|]. intros x Hx. simpl in Hx.
    destruct (route_rule_matches x input) eqn:E; [by destruct (Hx E)|done].
  - destruct (best_rule_loop_Some l r [] []) as (best & b & a & -> & Heq & Hb & Ha).
    { by split; constructor. }
    simpl in *. rewrite Heq in Hf. apply filter_split in Hf as (l1 & l2 & -> & <- & <- & Hm).
    exists l1, best, l2. by rewrite !Forall_List_filter in Hb, Ha.
Qed.
End routing.
