(* ===== verification/HttpMessage.v ===== *)
(** * HTTP/1.1 message heads

    Models the reading, checking, normalising and writing of message heads of
    [crates/proto-http/src/lib.rs].

    A reader is the list of results its reads deliver; after the list every read reports
    the end of the stream.  The head parser is a third-party library ([httparse]) and is a
    parameter. *)

From stdpp Require Import pretty.
From S2P Require Import Prelude RustStr RustText NetCore RequestTarget RouteMatching.
Local Open Scope N_scope.
Local Open Scope rust_scope.

(** ** Data *)

Record Http1Limits := { max_head_bytes : nat; max_header_count : nat; max_body_bytes : N }.
Definition Http1Limits_default : Http1Limits :=
  {| max_head_bytes := N.to_nat (16 * 1024); max_header_count := 64;
     max_body_bytes := 8 * 1024 * 1024 |}.

Record Http2Limits := { max_concurrent_streams : nat; h2_max_body_bytes : N }.
Definition Http2Limits_default : Http2Limits :=
  {| max_concurrent_streams := 128; h2_max_body_bytes := 8 * 1024 * 1024 |}.

Inductive BodyKind := Body_None | ContentLength (length : N) | Chunked | CloseDelimited.
#[export] Instance BodyKind_eq_dec : EqDecision BodyKind.
Proof. solve_decision. Defined.

Record Http1RequestHead := {
  rq_method : string; rq_target : string; rq_version : SupportedHttpVersion;
  rq_headers : list HttpHeader; rq_body_kind : BodyKind; rq_keep_alive : bool;
  rq_route : option RouteMatch; rq_http10 : bool
}.

Record Http1ResponseHead := {
  rs_version : SupportedHttpVersion; rs_status : N; rs_reason : string;
  rs_headers : list HttpHeader; rs_body_kind : BodyKind; rs_keep_alive : bool
}.

(** An I/O error, by its message. *)
Definition IoError := string.

Inductive Http1ParseError :=
| Io (source : IoError) | IncompleteHead | HeadTooLarge | TooManyHeaders | Invalid (message : string).
#[export] Instance Http1ParseError_eq_dec : EqDecision Http1ParseError.
Proof. solve_decision. Defined.

Inductive ProtocolHardeningError :=
| AmbiguousMessageLength | UnsupportedTransferEncoding | MissingHost | MultipleHostHeaders.
#[export] Instance ProtocolHardeningError_eq_dec : EqDecision ProtocolHardeningError.
Proof. solve_decision. Defined.

Definition ProtocolHardeningError_fmt (e : ProtocolHardeningError) : string :=
  match e with
  | AmbiguousMessageLength => "ambiguous content-length and transfer-encoding"
  | UnsupportedTransferEncoding => "unsupported transfer-encoding chain"
  | MissingHost => "missing required host header"
  | MultipleHostHeaders => "multiple host headers are not allowed"
  end.

Definition hardening_message (e : ProtocolHardeningError) : string :=
  match e with
  | AmbiguousMessageLength => "ambiguous content-length and transfer-encoding"
  | UnsupportedTransferEncoding => "unsupported transfer-encoding chain"
  | MissingHost => "missing required host header"
  | MultipleHostHeaders => "multiple host headers are not allowed"
  end.

Definition RequestTargetError_fmt (e : RequestTargetError) : string :=
  match e with
  | UnsupportedForm => "unsupported HTTP request-target form"
  | EmptyAuthority => "absolute-form request-target must include authority"
  | FragmentNotAllowed => "request-target fragments are not allowed"
  | InvalidPercentEncoding => "request-target contains invalid percent-encoding"
  | InvalidQuery => "request-target contains an invalid query shape"
  | InvalidAuthority => "request-target authority is invalid"
  end.

Definition Http1ParseError_fmt (e : Http1ParseError) : string :=
  match e with
  | Io source => "HTTP/1.1 I/O failure: " +:+ source
  | IncompleteHead => "incomplete HTTP/1.1 head"
  | HeadTooLarge => "HTTP/1.1 head exceeded configured limit"
  | TooManyHeaders => "HTTP/1.1 message exceeded header count limit"
  | Invalid message => "invalid HTTP/1.1 message: " +:+ message
  end.

(** ** Tokens of list-valued headers *)

(** The values of the headers with a name, split at commas and trimmed. *)
Definition header_items (name : string) (headers : list HttpHeader) : list string :=
  flat_map (λ h, trim <$> split 44 h.(h_value)) (List.filter (named name) headers).

Definition transfer_coding_tokens (headers : list HttpHeader) : list string :=
  List.filter (λ token, negb (is_empty token)) (header_items "transfer-encoding" headers).

Definition connection_tokens (headers : list HttpHeader) : list string :=
  to_ascii_lowercase <$> List.filter (λ token, negb (is_empty token)) (header_items "connection" headers).

Definition header_value_contains_token (headers : list HttpHeader) (header_name token : string) : bool :=
  existsb (λ candidate, eq_ignore_ascii_case candidate token) (header_items header_name headers).

Definition is_chunked (token : string) : bool := eq_ignore_ascii_case token "chunked".

Definition has_non_chunked_transfer_coding (headers : list HttpHeader) : bool :=
  existsb (λ token, negb (is_chunked token)) (transfer_coding_tokens headers).

Definition response_has_conflicting_framing (headers : list HttpHeader) : bool :=
  has_header "transfer-encoding" headers && has_header "content-length" headers.

(** ** Framing *)

Definition content_length_values (headers : list HttpHeader) : list string :=
  h_value <$> List.filter (named "content-length") headers.

Definition detect_body_kind (headers : list HttpHeader) : Result BodyKind Http1ParseError :=
  if header_value_contains_token headers "transfer-encoding" "chunked" then Ok Chunked
  else
    match content_length_values headers with
    | [] => Ok Body_None
    | value :: candidates =>
        let first := trim value in
        if existsb (λ candidate, negb (bool_decide (trim candidate = first))) candidates
        then Err (Invalid "conflicting content-length headers")
        else if is_empty first || negb (forallb is_ascii_digit (bytes first))
        then Err (Invalid "invalid content-length header")
        else
          match parse_u64_digits 10 (bytes first) with
          | None => Err (Invalid "invalid content-length header")
          | Some content_length =>
              if decide (content_length = 0) then Ok Body_None else Ok (ContentLength content_length)
          end
    end.

Definition detect_request_body_kind (headers : list HttpHeader) : Result BodyKind Http1ParseError :=
  detect_body_kind headers.

Definition bodiless_status (status : N) : bool :=
  bool_decide (100 ≤ status ≤ 199 ∨ status = 204 ∨ status = 304).

Definition detect_response_body_kind (headers : list HttpHeader) (status : N)
    (request_method : string) : Result BodyKind Http1ParseError :=
  if eq_ignore_ascii_case request_method "HEAD" || bodiless_status status then Ok Body_None
  else
    match last (transfer_coding_tokens headers) with
    | Some token => Ok (if is_chunked token then Chunked else CloseDelimited)
    | None =>
        let? kind := detect_body_kind headers in
        match kind with
        | Body_None => if negb (has_header "content-length" headers) then Ok CloseDelimited else Ok Body_None
        | other => Ok other
        end
    end.

Definition detect_keep_alive (headers : list HttpHeader) (version : SupportedHttpVersion) : bool :=
  match version with
  | Version_Http1 => negb (header_value_contains_token headers "connection" "close")
  | Version_Http2 => true
  end.

Definition validate_http1_request_hardening (headers : list HttpHeader) :
    Result unit ProtocolHardeningError :=
  let host_count := length (List.filter (named "host") headers) in
  if decide (host_count = 0%nat) then Err MissingHost
  else if decide (1 < host_count)%nat then Err MultipleHostHeaders
  else if has_header "content-length" headers && has_header "transfer-encoding" headers
  then Err AmbiguousMessageLength
  else
    let transfer_encoding_tokens := transfer_coding_tokens headers in
    if negb (bool_decide (transfer_encoding_tokens = [])) &&
       existsb (λ token, negb (is_chunked token)) transfer_encoding_tokens
    then Err UnsupportedTransferEncoding
    else Ok tt.

(** ** Normalisation for forwarding *)

Definition hop_by_hop : list string :=
  ["connection"; "proxy-connection"; "keep-alive"; "upgrade"; "proxy-authenticate";
   "proxy-authorization"; "te"; "trailer"; "x-forwarded-for"; "x-forwarded-proto"].

Definition keeps_header (tokens : list string) (body_kind : BodyKind) (is_response : bool)
    (h : HttpHeader) : bool :=
  if existsb (λ name, named name h) hop_by_hop ||
     existsb (λ token, eq_ignore_ascii_case token h.(h_name)) tokens then false
  else if named "transfer-encoding" h then
    match body_kind with Chunked => true | _ => false end
  else if named "content-length" h then
    match body_kind with ContentLength _ => true | _ => false end
  else if is_response && named "server" h then true
  else true.

Definition filter_headers (headers : list HttpHeader) (body_kind : BodyKind) (is_response : bool) :
    list HttpHeader :=
  List.filter (keeps_header (connection_tokens headers) body_kind is_response) headers.

Definition connection_close (keep_alive : bool) : list HttpHeader :=
  if keep_alive then [] else [{| h_name := "connection"; h_value := "close" |}].

Definition normalize_request_headers (headers : list HttpHeader) (client_ip : IpAddr)
    (keep_alive : bool) (body_kind : BodyKind) : list HttpHeader :=
  filter_headers headers body_kind false ++
  [{| h_name := "x-forwarded-for"; h_value := ip_to_string client_ip |}] ++
  connection_close keep_alive.

Definition reframed_codings (headers : list HttpHeader) : list string :=
  List.filter (λ token, negb (is_chunked token)) (transfer_coding_tokens headers) ++ ["chunked"].

Definition normalize_response_headers (headers : list HttpHeader) (keep_alive : bool)
    (body_kind : BodyKind) : list HttpHeader :=
  filter_headers headers body_kind true ++
  match body_kind with
  | CloseDelimited =>
      [{| h_name := "transfer-encoding"; h_value := join ", " (reframed_codings headers) |}]
  | _ => []
  end ++
  connection_close keep_alive.

(** ** Writing heads *)

Definition CRLF : list N := [13; 10].

Definition version_text (version : SupportedHttpVersion) : string :=
  match version with Version_Http1 => "HTTP/1.1" | Version_Http2 => "HTTP/2" end.

Definition default_reason (status : N) : string :=
  match status with
  | 200 => "OK" | 201 => "Created" | 202 => "Accepted" | 204 => "No Content"
  | 400 => "Bad Request" | 403 => "Forbidden" | 404 => "Not Found" | 413 => "Payload Too Large"
  | 500 => "Internal Server Error" | 502 => "Bad Gateway" | 504 => "Gateway Timeout"
  | _ => EmptyString
  end.

Fixpoint append_headers (buffer : list N) (headers : list HttpHeader) : list N :=
  match headers with
  | [] => buffer ++ CRLF
  | header :: headers =>
      append_headers
        (buffer ++ bytes header.(h_name) ++ bytes ": " ++ bytes header.(h_value) ++ CRLF) headers
  end.

Definition encode_request_head (method target : string) (version : SupportedHttpVersion)
    (headers : list HttpHeader) : list N :=
  append_headers (bytes (method +:+ " " +:+ target +:+ " " +:+ version_text version) ++ CRLF) headers.

Definition encode_response_head (version : SupportedHttpVersion) (status : N) (reason : string)
    (headers : list HttpHeader) : list N :=
  let reason := if is_empty reason then default_reason status else reason in
  append_headers
    (bytes (version_text version +:+ " " +:+ pretty status +:+ " " +:+ reason) ++ CRLF) headers.

(** ** Reading heads *)

Inductive ReadEvent := Data (l : list N) | ReadFails (e : IoError).
Definition Reader := list ReadEvent.

(** [reader.read(&mut chunk)] with a chunk of [n] bytes. *)
Definition read (n : nat) (reader : Reader) : Result (list N) IoError * Reader :=
  match reader with
  | [] => (Ok [], [])
  | ReadFails e :: reader => (Err e, reader)
  | Data l :: reader =>
      (Ok (take n l), match drop n l with [] => reader | rest => Data rest :: reader end)
  end.

Definition find_head_end (buffer : list N) : option nat :=
  (λ index, index + 4)%nat <$> find_sub [13; 10; 13; 10] buffer.

(** One more unit of fuel than the bytes that still fit suffices: every round but the
    last adds at least one byte ([fill_total]). *)
Fixpoint fill_loop (fuel : nat) (reader : Reader) (buffer : list N) (limits : Http1Limits) :
    option (Result (option nat) Http1ParseError * list N * Reader) :=
  match fuel with
  | O => None
  | S fuel =>
      match find_head_end buffer with
      | Some position => Some (Ok (Some position), buffer, reader)
      | None =>
          if decide (limits.(max_head_bytes) ≤ length buffer)%nat
          then Some (Err HeadTooLarge, buffer, reader)
          else
            let read_limit := ((limits.(max_head_bytes) - length buffer) `min` 1024)%nat in
            match read read_limit reader with
            | (Err e, reader) => Some (Err (Io e), buffer, reader)
            | (Ok [], reader) =>
                Some (if bool_decide (buffer = []) then Ok None else Err IncompleteHead, buffer, reader)
            | (Ok chunk, reader) => fill_loop fuel reader (buffer ++ chunk) limits
            end
      end
  end.

Definition fill_until_head_end (reader : Reader) (buffer : list N) (limits : Http1Limits) :=
  fill_loop (S (limits.(max_head_bytes) - length buffer)) reader buffer limits.

(** [std::str::from_utf8]. *)
Definition continuation (b : N) : bool := bool_decide (128 ≤ b ≤ 191).
Fixpoint utf8_valid (l : list N) : bool :=
  match l with
  | [] => true
  | b0 :: l1 =>
      if decide (b0 < 128) then utf8_valid l1
      else match l1 with
      | [] => false
      | b1 :: l2 =>
          if decide (194 ≤ b0 ≤ 223) then continuation b1 && utf8_valid l2
          else match l2 with
          | [] => false
          | b2 :: l3 =>
              if decide (224 ≤ b0 ≤ 239) then
                continuation b1 && bool_decide (b0 = 224 → 160 ≤ b1) &&
                bool_decide (b0 = 237 → b1 ≤ 159) && continuation b2 && utf8_valid l3
              else match l3 with
              | [] => false
              | b3 :: l4 =>
                  bool_decide (240 ≤ b0 ≤ 244) && continuation b1 &&
                  bool_decide (b0 = 240 → 144 ≤ b1) && bool_decide (b0 = 244 → b1 ≤ 143) &&
                  continuation b2 && continuation b3 && utf8_valid l4
              end
          end
      end
  end.
Definition from_utf8 (l : list N) : option string := if utf8_valid l then Some (of_bytes l) else None.

(** A header as [httparse] delivers it. *)
Record RawHeader := { raw_name : string; raw_value : list N }.

Fixpoint owned_headers (headers : list RawHeader) : Result (list HttpHeader) Http1ParseError :=
  match headers with
  | [] => Ok []
  | header :: headers =>
      match from_utf8 header.(raw_value) with
      | None => Err (Invalid "header value is not valid ASCII/UTF-8")
      | Some value =>
          let? rest := owned_headers headers in
          Ok ({| h_name := to_ascii_lowercase header.(raw_name); h_value := trim value |} :: rest)
      end
  end.

Definition parse_version (version : option N) : Result SupportedHttpVersion Http1ParseError :=
  match version with
  | Some 1 => Ok Version_Http1
  | Some _ => Err (Invalid "unsupported HTTP version")
  | None => Err (Invalid "missing HTTP version")
  end.

Definition absolute_form_authority (target : string) : Result (option string) Http1ParseError :=
  if starts_with "/" target then Ok None
  else match split_scheme target with
       | None => Ok None
       | Some (scheme, remainder) =>
           if negb (http_scheme scheme) then Err (Invalid "unsupported absolute-form request target")
           else
             let authority := (split_authority remainder).1 in
             if is_ok (canonicalize_host authority) then Ok (Some authority)
             else Err (Invalid "invalid absolute-form request authority")
       end.

Definition set_host (authority : string) (h : HttpHeader) : HttpHeader :=
  if decide (h.(h_name) = "host") then {| h_name := h.(h_name); h_value := authority |} else h.

Inductive HttparseError :=
| Httparse_TooManyHeaders | Httparse_Version | Httparse_Status | Httparse_Token | Httparse_NewLine
| Httparse_HeaderName | Httparse_HeaderValue.
Inductive HttparseStatus := Complete (consumed : nat) | Partial.

Definition map_httparse_error (e : HttparseError) : Http1ParseError :=
  match e with
  | Httparse_TooManyHeaders => TooManyHeaders
  | _ => Invalid "malformed HTTP/1.1 head"
  end.

Record RawRequest := {
  raw_method : option string; raw_path : option string; raw_version : option N;
  raw_headers : list RawHeader
}.
Record RawResponse := {
  rawr_version : option N; rawr_code : option N; rawr_reason : option string;
  rawr_headers : list RawHeader
}.

(** The parser: the number of header slots and the input give the status and the fields.
    A complete parse consumes at most the input and fills at most the slots. *)
Class Httparse := {
  parse_request : nat → list N → Result (HttparseStatus * RawRequest) HttparseError;
  parse_response : nat → list N → Result (HttparseStatus * RawResponse) HttparseError;
  parse_request_bounds slots l n r :
    parse_request slots l = Ok (Complete n, r) → (n ≤ length l ∧ length r.(raw_headers) ≤ slots)%nat;
  parse_response_bounds slots l n r :
    parse_response slots l = Ok (Complete n, r) → (n ≤ length l ∧ length r.(rawr_headers) ≤ slots)%nat
}.

Definition ok_or {A} (message : string) (x : option A) : Result A Http1ParseError :=
  match x with Some x => Ok x | None => Err (Invalid message) end.

Section heads.
Context {Net : IpNetwork} {Parser : Httparse}.

(** What [read_request_head] does with the bytes up to the end of the head: the request
    and the number of bytes consumed. *)
Definition request_of_head (head : list N) (limits : Http1Limits) (routes : list RoutePrefixRule) :
    Result (Http1RequestHead * nat) Http1ParseError :=
  match parse_request limits.(max_header_count) head with
  | Err e => Err (map_httparse_error e)
  | Ok (Partial, _) => Err IncompleteHead
  | Ok (Complete consumed, request) =>
      let? method := ok_or "missing request method" request.(raw_method) in
      let? target := ok_or "missing request target" request.(raw_path) in
      let http10 := bool_decide (request.(raw_version) = Some 0) in
      let? version := if http10 then Ok Version_Http1 else parse_version request.(raw_version) in
      let? headers := owned_headers request.(raw_headers) in
      match validate_http1_request_hardening headers with
      | Err e => Err (Invalid (hardening_message e))
      | Ok _ =>
          let? absolute := absolute_form_authority target in
          let headers :=
            match absolute with Some authority => set_host authority <$> headers | None => headers end in
          let? body_kind := detect_request_body_kind headers in
          Ok ({| rq_method := method; rq_target := target; rq_version := version;
                 rq_headers := headers; rq_body_kind := body_kind;
                 rq_keep_alive := negb http10 && detect_keep_alive headers version;
                 rq_route := match_route target (extract_host_header headers) (Some method) routes;
                 rq_http10 := http10 |}, consumed)
      end
  end.

Definition read_request_head (reader : Reader) (buffer : list N) (limits : Http1Limits)
    (routes : list RoutePrefixRule) :
    option (Result (option Http1RequestHead) Http1ParseError * list N * Reader) :=
  '(filled, buffer, reader) ← fill_until_head_end reader buffer limits;
  Some match filled with
       | Err e => (Err e, buffer, reader)
       | Ok None => (Ok None, buffer, reader)
       | Ok (Some head_end) =>
           match request_of_head (take head_end buffer) limits routes with
           | Err e => (Err e, buffer, reader)
           | Ok (head, consumed) => (Ok (Some head), drop consumed buffer, reader)
           end
       end.

Definition response_of_head (head : list N) (limits : Http1Limits) (request_method : string) :
    Result (Http1ResponseHead * nat) Http1ParseError :=
  match parse_response limits.(max_header_count) head with
  | Err e => Err (map_httparse_error e)
  | Ok (Partial, _) => Err IncompleteHead
  | Ok (Complete consumed, response) =>
      let is_http10 := bool_decide (response.(rawr_version) = Some 0) in
      let? version := if is_http10 then Ok Version_Http1 else parse_version response.(rawr_version) in
      let? status := ok_or "missing status code" response.(rawr_code) in
      let? headers := owned_headers response.(rawr_headers) in
      let? body_kind := detect_response_body_kind headers status request_method in
      let keep_alive :=
        (if is_http10 then header_value_contains_token headers "connection" "keep-alive" &&
                           negb (header_value_contains_token headers "connection" "close")
         else detect_keep_alive headers version) &&
        negb (bool_decide (body_kind = CloseDelimited)) &&
        negb (response_has_conflicting_framing headers) in
      Ok ({| rs_version := version; rs_status := status;
             rs_reason := default EmptyString response.(rawr_reason);
             rs_headers := headers; rs_body_kind := body_kind; rs_keep_alive := keep_alive |}, consumed)
  end.

Definition read_response_head (reader : Reader) (buffer : list N) (limits : Http1Limits)
    (request_method : string) :
    option (Result Http1ResponseHead Http1ParseError * list N * Reader) :=
  '(filled, buffer, reader) ← fill_until_head_end reader buffer limits;
  Some match filled with
       | Err e => (Err e, buffer, reader)
       | Ok None => (Err IncompleteHead, buffer, reader)
       | Ok (Some head_end) =>
           match response_of_head (take head_end buffer) limits request_method with
           | Err e => (Err e, buffer, reader)
           | Ok (head, consumed) => (Ok head, drop consumed buffer, reader)
           end
       end.
End heads.

(** ** Filling the buffer *)

(** The bytes a reader still delivers. *)
Definition pending (reader : Reader) : list N :=
  flat_map (λ e, match e with Data l => l | ReadFails _ => [] end) reader.

(** A reader that delivers data until its end. *)
Definition is_data (e : ReadEvent) : bool :=
  match e with Data (_ :: _) => true | _ => false end.
Definition healthy (reader : Reader) : Prop := Forall (λ e, is_data e = true) reader.

Lemma read_Ok n reader chunk reader' :
  read n reader = (Ok chunk, reader') →
  pending reader = chunk ++ pending reader' ∧ (length chunk ≤ n)%nat ∧
  (healthy reader → healthy reader' ∧ ((0 < n)%nat → chunk = [] → pending reader' = [])).
Proof.
  destruct reader as [|[l|e] reader]; simpl; intros [= <- <-].
  - simpl. split_and!; [done|lia|done].
  - split_and!.
    + destruct (drop n l) as [|x r] eqn:E; simpl.
      * by rewrite <- (take_drop n l) at 1; rewrite E, app_nil_r.
      * rewrite <- (take_drop n l) at 1. by rewrite E, <- app_assoc.
    + rewrite length_take. lia.
    + intros [Hl Hr]%Forall_cons. split; [by destruct (drop n l); [|constructor]|].
      intros Hn Ht. destruct l as [|x l]; [done|]. by destruct n; [lia|].
Qed.

Lemma read_Err n reader e reader' :
  read n reader = (Err e, reader') → pending reader = pending reader' ∧ ¬ healthy reader.
Proof.
  destruct reader as [|[l|e'] reader]; simpl; intros [= <- <-]. split; [done|].
  by intros [? _]%Forall_cons.
Qed.

Lemma prefix_drop_app (pat b c : list N) j :
  (j + length pat ≤ length b)%nat → pat `prefix_of` drop j (b ++ c) ↔ pat `prefix_of` drop j b.
Proof.
  intros Hj. rewrite drop_app_le by lia. split; [|apply prefix_app_r].
  intros [k Hk]. exists (take (length (drop j b) - length pat) k).
  apply (f_equal (take (length (drop j b)))) in Hk. rewrite take_app_length in Hk.
  rewrite take_app_ge in Hk by (rewrite length_drop; lia). exact Hk.
Qed.

Lemma find_sub_app pat b c i :
  (i + length pat ≤ length b)%nat → find_sub pat (b ++ c) = Some i ↔ find_sub pat b = Some i.
Proof.
  intros Hi. rewrite !find_sub_spec, prefix_drop_app by done.
  apply and_iff_compat_l. split; intros H j Hj; specialize (H j Hj);
    [rewrite prefix_drop_app in H by lia | rewrite prefix_drop_app by lia]; done.
Qed.

Lemma find_head_end_bound b p : find_head_end b = Some p → (4 ≤ p ≤ length b)%nat.
Proof.
  unfold find_head_end. rewrite fmap_Some. intros (i & Hi & ->).
  apply find_sub_spec in Hi as [Hp _]. apply prefix_length in Hp. rewrite length_drop in Hp.
  simpl in Hp. lia.
Qed.

Lemma find_head_end_app b c p :
  (p ≤ length b)%nat → find_head_end (b ++ c) = Some p ↔ find_head_end b = Some p.
Proof.
  intros Hp. unfold find_head_end. rewrite !fmap_Some.
  split; intros (i & Hi & ->); exists i; (split; [|done]); by apply (find_sub_app _ b c i).
Qed.

(** What the loop leaves behind, by its result. *)
Definition fill_result (limits : Http1Limits) (reader : Reader) (res : Result (option nat) Http1ParseError)
    (buffer' : list N) (reader' : Reader) : Prop :=
  match res with
  | Ok (Some p) => find_head_end buffer' = Some p
  | Ok None => buffer' = [] ∧ (healthy reader → pending reader' = [])
  | Err HeadTooLarge => find_head_end buffer' = None ∧ (limits.(max_head_bytes) ≤ length buffer')%nat
  | Err IncompleteHead =>
      find_head_end buffer' = None ∧ buffer' ≠ [] ∧ (healthy reader → pending reader' = [])
  | Err (Io _) => find_head_end buffer' = None ∧ ¬ healthy reader
  | Err _ => False
  end.

Lemma fill_result_weaken limits reader reader1 res b r :
  (healthy reader → healthy reader1) → fill_result limits reader1 res b r → fill_result limits reader res b r.
Proof. intros H. destruct res as [[p|]|[]]; simpl; naive_solver. Qed.

Lemma fill_loop_spec limits fuel : ∀ reader buffer,
  (limits.(max_head_bytes) - length buffer < fuel)%nat →
  ∃ res buffer' reader', fill_loop fuel reader buffer limits = Some (res, buffer', reader') ∧
    buffer `prefix_of` buffer' ∧ buffer' ++ pending reader' = buffer ++ pending reader ∧
    (length buffer' ≤ length buffer `max` limits.(max_head_bytes))%nat ∧
    fill_result limits reader res buffer' reader'.
Proof.
  induction fuel as [|fuel IH]; intros reader buffer Hfuel; [lia|]. simpl.
  destruct (find_head_end buffer) as [p|] eqn:Hp.
  { exists (Ok (Some p)), buffer, reader. split_and!; [done..|lia|done]. }
  case_decide as Hmax.
  { exists (Err HeadTooLarge), buffer, reader. split_and!; [done..|lia|done]. }
  set (n := (_ `min` 1024)%nat). destruct (read n reader) as [[chunk|e] reader1] eqn:Hr.
  - apply read_Ok in Hr as (Hpend & Hlen & Hh). destruct chunk as [|x chunk].
    + eexists _, buffer, reader1. split_and!; [done|done|by rewrite Hpend|lia|].
      case_bool_decide; simpl; (split_and!; [done..|]); intros Hhl;
        (apply Hh; [done|lia|done]).
    + destruct (IH reader1 (buffer ++ x :: chunk)) as (res & b & r & -> & Hpre & Hcons & Hb & Hres).
      { rewrite length_app. simpl. lia. }
      exists res, b, r. split_and!; [done| | | |].
      * by eapply prefix_app_l.
      * by rewrite Hcons, Hpend, <- app_assoc.
      * rewrite length_app in Hb. lia.
      * eapply fill_result_weaken; [|exact Hres]. intros Hhl. by apply Hh.
  - apply read_Err in Hr as [Hpend Hh]. exists (Err (Io e)), buffer, reader1.
    split_and!; [done|done|by rewrite Hpend|lia|done..].
Qed.

(** Reading a head always ends, with the loop's fuel never exhausted: no byte is lost or
    reordered, the buffer never outgrows the head limit, and the result is the end of the
    first complete head, the clean end of an empty stream, or the error that fits. *)
Theorem fill_until_head_end_total (reader : Reader) (buffer : list N) (limits : Http1Limits) :
  ∃ res buffer' reader',
    fill_until_head_end reader buffer limits = Some (res, buffer', reader') ∧
    buffer `prefix_of` buffer' ∧ buffer' ++ pending reader' = buffer ++ pending reader ∧
    (length buffer' ≤ length buffer `max` limits.(max_head_bytes))%nat ∧
    fill_result limits reader res buffer' reader'.
Proof. apply fill_loop_spec. lia. Qed.

Lemma fill_finds_head reader buffer limits p :
  healthy reader → find_head_end (buffer ++ pending reader) = Some p →
  (p ≤ limits.(max_head_bytes))%nat →
  ∃ buffer' reader',
    fill_until_head_end reader buffer limits = Some (Ok (Some p), buffer', reader') ∧
    buffer' ++ pending reader' = buffer ++ pending reader.
Proof.
  intros Hh Hp Hmax.
  destruct (fill_loop_spec limits (S (limits.(max_head_bytes) - length buffer)) reader buffer)
    as (res & b & r & Hfill & _ & Hcons & _ & Hres); [lia|].
  exists b, r. split; [|done]. unfold fill_until_head_end. rewrite Hfill.
  rewrite <- Hcons in Hp.
  assert (Hnone : find_head_end b = None → (length b < p)%nat).
  { intros Hb. destruct (decide (p ≤ length b)%nat) as [Hle|]; [|lia].
    apply find_head_end_app in Hp; [|done]. congruence. }
  assert (Hend : pending r = [] → find_head_end b = Some p) by (intros E; by rewrite E, app_nil_r in Hp).
  destruct res as [[q|]|[]]; simpl in Hres; try done.
  - pose proof (find_head_end_bound _ _ Hres) as Hq.
    apply (find_head_end_app b (pending r)) in Hres; [|lia]. congruence.
  - destruct Hres as [-> Hr]. by specialize (Hend (Hr Hh)).
  - by destruct Hres.
  - destruct Hres as (Hb & _ & Hr). specialize (Hend (Hr Hh)). congruence.
  - destruct Hres as [Hb Hlen]. specialize (Hnone Hb). lia.
Qed.

(** The head found does not depend on how the network cuts the stream into segments: if
    the bytes of a stream hold a complete head within the limit, its end is found. *)
Theorem head_end_independent_of_segmentation (reader : Reader) (buffer : list N)
  (limits : Http1Limits) (p : nat)
  (Hh : healthy reader) (Hp : find_head_end (buffer ++ pending reader) = Some p)
  (Hmax : (p ≤ limits.(max_head_bytes))%nat) :
  ∃ buffer' reader',
    fill_until_head_end reader buffer limits = Some (Ok (Some p), buffer', reader') ∧
    buffer' ++ pending reader' = buffer ++ pending reader.
Proof. by apply fill_finds_head. Qed.

Lemma head_end_independent_of_segmentation_witness :
  ∃ buffer' reader',
    fill_until_head_end [Data [72; 13]; Data [10; 13]; Data [10; 66]; Data [67]] [71] Http1Limits_default =
      Some (Ok (Some 6%nat), buffer', reader') ∧
    buffer' ++ pending reader' = [71; 72; 13; 10; 13; 10; 66; 67].
Proof.
  apply (head_end_independent_of_segmentation
    [Data [72; 13]; Data [10; 13]; Data [10; 66]; Data [67]] [71] Http1Limits_default 6).
  - repeat constructor.
  - vm_compute. reflexivity.
  - apply (bool_decide_unpack _). vm_compute. exact I.
Defined.

(** ** Headers by name *)

Lemma eq_ignore_ascii_case_iff a b :
  eq_ignore_ascii_case a b = true ↔ to_ascii_lowercase a = to_ascii_lowercase b.
Proof. apply bool_decide_eq_true. Qed.

Lemma keeps_header_named name h tokens kind is_response :
  named name h = true →
  keeps_header tokens kind is_response h =
  keeps_header tokens kind is_response {| h_name := name; h_value := EmptyString |}.
Proof.
  intros Hn%eq_ignore_ascii_case_iff.
  assert (Hl : ∀ x, named x h = named x {| h_name := name; h_value := EmptyString |}).
  { intros x. unfold named, eq_ignore_ascii_case. simpl. by rewrite Hn. }
  assert (Hr : ∀ x, eq_ignore_ascii_case x h.(h_name) = eq_ignore_ascii_case x name).
  { intros x. unfold eq_ignore_ascii_case. by rewrite Hn. }
  unfold keeps_header, hop_by_hop. cbn [existsb h_name]. rewrite !Hl.
  assert (existsb (λ token, eq_ignore_ascii_case token (h_name h)) tokens =
          existsb (λ token, eq_ignore_ascii_case token name) tokens) as ->; [|done].
  induction tokens as [|t tokens IH]; simpl; [done|]. by rewrite Hr, IH.
Qed.

Lemma filter_filter_const {A} (f g : A → bool) b l :
  (∀ x, f x = true → g x = b) →
  List.filter f (List.filter g l) = if b then List.filter f l else [].
Proof.
  intros H. induction l as [|x l IH]; simpl; [by destruct b|].
  destruct (f x) eqn:Ef, (g x) eqn:Eg; simpl; rewrite ?Ef, IH; try done;
    specialize (H x Ef); rewrite Eg in H; by subst b.
Qed.

(** The headers with a name survive the filter together or not at all. *)
Lemma filter_headers_named name headers kind is_response :
  List.filter (named name) (filter_headers headers kind is_response) =
  if keeps_header (connection_tokens headers) kind is_response {| h_name := name; h_value := EmptyString |}
  then List.filter (named name) headers else [].
Proof. apply filter_filter_const. intros h Hh. by apply keeps_header_named. Qed.

(** A header name is nominated by a connection header. *)
Definition nominated (name : string) (headers : list HttpHeader) : bool :=
  existsb (λ token, eq_ignore_ascii_case token name) (connection_tokens headers).

Lemma keeps_content_length headers kind is_response :
  keeps_header (connection_tokens headers) kind is_response {| h_name := "content-length"; h_value := EmptyString |} =
  negb (nominated "content-length" headers) && match kind with ContentLength _ => true | _ => false end.
Proof. unfold keeps_header. simpl. fold (nominated "content-length" headers). by destruct (nominated _ _). Qed.

Lemma keeps_transfer_encoding headers kind is_response :
  keeps_header (connection_tokens headers) kind is_response {| h_name := "transfer-encoding"; h_value := EmptyString |} =
  negb (nominated "transfer-encoding" headers) && match kind with Chunked => true | _ => false end.
Proof. unfold keeps_header. simpl. fold (nominated "transfer-encoding" headers). by destruct (nominated _ _). Qed.

Lemma keeps_host headers kind is_response :
  keeps_header (connection_tokens headers) kind is_response {| h_name := "host"; h_value := EmptyString |} =
  negb (nominated "host" headers).
Proof.
  unfold keeps_header. simpl. fold (nominated "host" headers).
  by destruct (nominated _ _), is_response.
Qed.

Lemma keeps_hop_by_hop name headers kind is_response :
  name ∈ hop_by_hop →
  keeps_header (connection_tokens headers) kind is_response {| h_name := name; h_value := EmptyString |} = false.
Proof.
  intros H. unfold keeps_header.
  assert (existsb (λ x, named x {| h_name := name; h_value := EmptyString |}) hop_by_hop = true) as ->; [|done].
  apply existsb_exists. exists name. split; [by apply list_elem_of_In|].
  by apply eq_ignore_ascii_case_iff.
Qed.

Lemma has_header_filter name headers :
  has_header name headers = negb (bool_decide (List.filter (named name) headers = [])).
Proof.
  unfold has_header. induction headers as [|h hs IH]; simpl; [done|].
  destruct (named name h); [done|exact IH].
Qed.

(** Framing depends on the framing headers only. *)
Lemma header_items_ext name hs hs' :
  List.filter (named name) hs = List.filter (named name) hs' → header_items name hs = header_items name hs'.
Proof. unfold header_items. by intros ->. Qed.

Lemma detect_body_kind_ext hs hs' :
  List.filter (named "transfer-encoding") hs = List.filter (named "transfer-encoding") hs' →
  List.filter (named "content-length") hs = List.filter (named "content-length") hs' →
  detect_body_kind hs = detect_body_kind hs'.
Proof.
  intros Ht Hc. unfold detect_body_kind, header_value_contains_token, content_length_values.
  by rewrite (header_items_ext _ _ _ Ht), Hc.
Qed.

Lemma normalize_request_filter name headers ip keep_alive kind :
  named name {| h_name := "x-forwarded-for"; h_value := ip_to_string ip |} = false →
  named name {| h_name := "connection"; h_value := "close" |} = false →
  List.filter (named name) (normalize_request_headers headers ip keep_alive kind) =
  List.filter (named name) (filter_headers headers kind false).
Proof.
  intros Hx Hc. unfold normalize_request_headers. rewrite !List.filter_app. simpl. rewrite Hx. simpl.
  destruct keep_alive; simpl; rewrite ?Hc; by rewrite app_nil_r.
Qed.

(** ** Requests are framed unambiguously *)

(** The content lengths agree on one number. *)
Definition lengths_are (n : N) (headers : list HttpHeader) : Prop :=
  ∃ digits, Forall (λ v, trim v = digits) (content_length_values headers) ∧
    digits ≠ EmptyString ∧ Forall (λ c, 48 ≤ c ≤ 57) (bytes digits) ∧
    parse_digits 10 (digit_value <$> bytes digits) = n ∧ n ≤ u64_max.

(** The framing a body kind stands for. *)
Definition framed_as (kind : BodyKind) (headers : list HttpHeader) : Prop :=
  match kind with
  | Chunked =>
      has_header "content-length" headers = false ∧ transfer_coding_tokens headers ≠ [] ∧
      Forall (λ token, is_chunked token = true) (transfer_coding_tokens headers)
  | ContentLength n =>
      has_header "transfer-encoding" headers = false ∧ has_header "content-length" headers = true ∧
      0 < n ∧ lengths_are n headers
  | Body_None =>
      transfer_coding_tokens headers = [] ∧
      (has_header "content-length" headers = true → lengths_are 0 headers)
  | CloseDelimited => False
  end.

Lemma validate_spec headers :
  validate_http1_request_hardening headers = Ok tt ↔
  length (List.filter (named "host") headers) = 1%nat ∧
  has_header "content-length" headers && has_header "transfer-encoding" headers = false ∧
  Forall (λ token, is_chunked token = true) (transfer_coding_tokens headers).
Proof.
  unfold validate_http1_request_hardening.
  assert (He : existsb (λ token, negb (is_chunked token)) (transfer_coding_tokens headers) = false ↔
               Forall (λ token, is_chunked token = true) (transfer_coding_tokens headers)).
  { induction (transfer_coding_tokens headers) as [|t l IH]; simpl; [by rewrite Forall_nil|].
    rewrite Forall_cons, <- IH, orb_false_iff, negb_false_iff. done. }
  repeat case_decide; [naive_solver lia..|].
  destruct (_ && has_header _ _); [naive_solver|].
  destruct (existsb _ _) eqn:E.
  - destruct (bool_decide _) eqn:B.
    { apply bool_decide_eq_true in B. by rewrite B in E. }
    split; [done|]. intros (_ & _ & Hall). by apply He in Hall.
  - rewrite andb_false_r. split; [|done]. intros _. split_and!; [lia|done|by apply He].
Qed.

Lemma content_length_values_nil headers :
  content_length_values headers = [] ↔ has_header "content-length" headers = false.
Proof.
  unfold content_length_values. rewrite has_header_filter, negb_false_iff, bool_decide_eq_true.
  by destruct (List.filter _ _).
Qed.

Lemma existsb_negb_Forall (v : string) l :
  existsb (λ candidate, negb (bool_decide (trim candidate = v))) l = false → Forall (λ c, trim c = v) l.
Proof.
  induction l as [|x l IH]; simpl; [done|]. rewrite orb_false_iff, negb_false_iff, bool_decide_eq_true.
  intros [??]. constructor; auto.
Qed.

(** The value of the content lengths, when they are read at all. *)
Lemma detect_body_kind_lengths headers k :
  header_value_contains_token headers "transfer-encoding" "chunked" = false →
  detect_body_kind headers = Ok k → has_header "content-length" headers = true →
  ∃ n, lengths_are n headers ∧ k = (if decide (n = 0) then Body_None else ContentLength n).
Proof.
  unfold detect_body_kind. intros -> Hk Hcl.
  destruct (content_length_values headers) as [|v l] eqn:Hv.
  { apply content_length_values_nil in Hv. congruence. }
  destruct (existsb _ l) eqn:He; [done|]. apply existsb_negb_Forall in He.
  destruct (is_empty (trim v) || _) eqn:Hd; [done|].
  apply orb_false_iff in Hd as [Hempty Hdig]. apply negb_false_iff in Hdig.
  unfold parse_u64_digits in Hk. case_decide as Hmax; [|done].
  exists (parse_digits 10 (digit_value <$> bytes (trim v))).
  split; [|by case_decide; injection Hk as <-].
  exists (trim v). split_and!; [|by apply bool_decide_eq_false in Hempty| |done|done].
  - rewrite Hv. by constructor.
  - apply Forall_forall. intros c Hc. rewrite forallb_forall in Hdig.
    by apply list_elem_of_In, Hdig, bool_decide_eq_true in Hc.
Qed.

Lemma contains_chunked headers :
  Forall (λ token, is_chunked token = true) (transfer_coding_tokens headers) →
  header_value_contains_token headers "transfer-encoding" "chunked" =
  negb (bool_decide (transfer_coding_tokens headers = [])).
Proof.
  unfold header_value_contains_token, transfer_coding_tokens.
  induction (header_items _ headers) as [|t l IH]; simpl; [done|].
  destruct (is_empty t) eqn:Ht; simpl.
  - apply bool_decide_eq_true in Ht as ->. exact IH.
  - intros [Hc _]%Forall_cons. unfold is_chunked in Hc. by rewrite Hc.
Qed.

Lemma detect_framed headers k :
  validate_http1_request_hardening headers = Ok tt → detect_body_kind headers = Ok k →
  framed_as k headers.
Proof.
  intros (_ & Hboth & Hall)%validate_spec Hk.
  pose proof (contains_chunked _ Hall) as Hc.
  destruct (bool_decide (transfer_coding_tokens headers = [])) eqn:Ht; simpl in Hc.
  - apply bool_decide_eq_true in Ht. destruct (has_header "content-length" headers) eqn:Hcl.
    + destruct (detect_body_kind_lengths _ _ Hc Hk Hcl) as (n & Hn & ->).
      case_decide; simpl; [subst; by rewrite Hcl|]. rewrite Hcl. split_and!; [done..|lia|done].
    + unfold detect_body_kind in Hk. rewrite Hc in Hk.
      assert (content_length_values headers = []) as Hv by by apply content_length_values_nil.
      rewrite Hv in Hk. injection Hk as <-. simpl. split; [done|congruence].
  - apply bool_decide_eq_false in Ht. unfold detect_body_kind in Hk. rewrite Hc in Hk.
    injection Hk as <-. simpl. split_and!; [|done..].
    apply andb_false_iff in Hboth as [?|Hte]; [done|]. destruct Ht.
    rewrite has_header_filter, negb_false_iff, bool_decide_eq_true in Hte.
    unfold transfer_coding_tokens, header_items. by rewrite Hte.
Qed.

Lemma to_ascii_lowercase_idem s : to_ascii_lowercase (to_ascii_lowercase s) = to_ascii_lowercase s.
Proof.
  unfold to_ascii_lowercase. rewrite bytes_of_bytes.
  - f_equal. rewrite <- list_fmap_compose. apply list_fmap_ext. intros _ c _. simpl.
    unfold ascii_lower. repeat case_decide; lia.
  - apply Forall_fmap. eapply Forall_impl; [apply bytes_lt_256|]. intros c Hc. simpl in *.
    unfold ascii_lower. case_decide; lia.
Qed.

Lemma owned_headers_spec raw headers :
  owned_headers raw = Ok headers →
  length headers = length raw ∧ Forall (λ h, to_ascii_lowercase h.(h_name) = h.(h_name)) headers.
Proof.
  revert headers. induction raw as [|r raw IH]; intros headers; simpl; [by intros [= <-]|].
  destruct (from_utf8 _); [|done]. destruct (owned_headers raw) as [rest|]; [|done].
  intros [= <-]. destruct (IH rest eq_refl) as [Hl Hr]. simpl. rewrite Hl. split; [done|].
  constructor; [apply to_ascii_lowercase_idem|done].
Qed.

Lemma filter_set_host name a headers :
  List.filter (named name) (set_host a <$> headers) = set_host a <$> List.filter (named name) headers.
Proof.
  induction headers as [|h hs IH]; [done|]. cbn.
  assert (named name (set_host a h) = named name h) as ->.
  { unfold set_host, named. by case_decide. }
  destruct (named name h); cbn; by rewrite IH.
Qed.

Lemma filter_set_host_other name a headers :
  eq_ignore_ascii_case "host" name = false →
  List.filter (named name) (set_host a <$> headers) = List.filter (named name) headers.
Proof.
  intros Hn. rewrite filter_set_host. induction headers as [|h hs IH]; [done|]. cbn.
  destruct (named name h) eqn:E; [|done]. cbn. rewrite IH. f_equal. unfold set_host.
  case_decide as Hh; [|done]. unfold named in E. rewrite Hh in E. congruence.
Qed.

Lemma validate_set_host a headers :
  validate_http1_request_hardening (set_host a <$> headers) = validate_http1_request_hardening headers.
Proof.
  unfold validate_http1_request_hardening, transfer_coding_tokens, header_items.
  rewrite filter_set_host, length_fmap, !has_header_filter.
  by rewrite !filter_set_host_other by (vm_compute; reflexivity).
Qed.

Lemma filter_one_host headers :
  length (List.filter (named "host") headers) = 1%nat →
  Forall (λ h, to_ascii_lowercase h.(h_name) = h.(h_name)) headers →
  ∃ host, List.filter (named "host") headers = [host] ∧ host.(h_name) = "host".
Proof.
  intros Hlen Hlow. destruct (List.filter _ _) as [|host [|]] eqn:E; try done. exists host.
  split; [done|]. assert (Hin : In host (List.filter (named "host") headers)) by (rewrite E; by left).
  apply List.filter_In in Hin as [Hin Hn]. apply eq_ignore_ascii_case_iff in Hn.
  rewrite Forall_forall in Hlow. rewrite Hlow in Hn by by apply list_elem_of_In. exact Hn.
Qed.

Section accepted.
Context {Net : IpNetwork} {Parser : Httparse}.

(** The single host is the authority of an absolute target. *)
Definition one_host (r : Http1RequestHead) : Prop :=
  ∃ host, List.filter (named "host") r.(rq_headers) = [host] ∧
    ∀ authority, absolute_form_authority r.(rq_target) = Ok (Some authority) → host.(h_value) = authority.

Lemma request_of_head_spec head limits routes r consumed :
  request_of_head head limits routes = Ok (r, consumed) →
  one_host r ∧ framed_as r.(rq_body_kind) r.(rq_headers) ∧
  (length r.(rq_headers) ≤ limits.(max_header_count))%nat ∧
  (r.(rq_http10) = true → r.(rq_keep_alive) = false) ∧ (consumed ≤ length head)%nat.
Proof.
  unfold request_of_head. destruct (parse_request _ _) as [[[n|] req]|] eqn:Hp; try done.
  apply parse_request_bounds in Hp as [Hn Hslots].
  destruct (raw_method req); [|done]. destruct (raw_path req) as [target|]; [|done]. simpl.
  set (http10 := bool_decide _). destruct (if http10 then _ else _) as [version|]; [|done].
  destruct (owned_headers _) as [headers|] eqn:Ho; [|done].
  apply owned_headers_spec in Ho as [Hlen Hlow].
  destruct (validate_http1_request_hardening headers) as [[]|] eqn:Hv; [|done].
  destruct (absolute_form_authority target) as [absolute|] eqn:Habs; [|done].
  set (headers' := match absolute with Some a => set_host a <$> headers | None => headers end).
  destruct (detect_request_body_kind headers') as [kind|] eqn:Hk; [|done].
  intros [= <- <-]. unfold one_host. simpl.
  assert (Hv' : validate_http1_request_hardening headers' = Ok tt).
  { unfold headers'. destruct absolute; [by rewrite validate_set_host|done]. }
  pose proof Hv as (H1 & _)%validate_spec.
  destruct (filter_one_host headers H1 Hlow) as (host & Hhost & Hname). split_and!.
  - unfold headers'. destruct absolute as [a|]; rewrite ?filter_set_host, Hhost; simpl.
    + eexists. split; [done|]. rewrite Habs. intros ? [= <-]. unfold set_host. by rewrite decide_True.
    + exists host. split; [done|]. by rewrite Habs.
  - by apply detect_framed.
  - unfold headers'. destruct absolute; rewrite ?length_fmap; lia.
  - by intros ->.
  - done.
Qed.

(** The request is the one the parser found. *)
Lemma request_of_head_parsed head limits routes r consumed :
  request_of_head head limits routes = Ok (r, consumed) →
  ∃ raw, parse_request limits.(max_header_count) head = Ok (Complete consumed, raw) ∧
    raw.(raw_method) = Some r.(rq_method) ∧ raw.(raw_path) = Some r.(rq_target).
Proof.
  unfold request_of_head. destruct (parse_request _ _) as [[[n|] req]|] eqn:Hp; try done.
  destruct (raw_method req) eqn:Em; [|done]. destruct (raw_path req) as [target|] eqn:Et; [|done]. simpl.
  set (http10 := bool_decide _). destruct (if http10 then _ else _) as [version|]; [|done].
  destruct (owned_headers _) as [headers|]; [|done].
  destruct (validate_http1_request_hardening headers) as [[]|]; [|done].
  destruct (absolute_form_authority target) as [absolute|]; [|done].
  destruct (detect_request_body_kind _) as [kind|]; [|done]. intros [= <- <-]. by exists req.
Qed.

(** C16: every request the reader accepts has one host header, which is the target's authority
    when the target is absolute, one unambiguous framing, and no more headers than allowed;
    an HTTP/1.0 request is never kept alive.  Method and target are those the parser found in the
    stream up to its first empty line, exactly the bytes the parser consumed are taken from the
    stream, and all bytes after them are kept in order for the body and the next request. *)
Theorem accepted_request_unambiguous (reader : Reader) (buffer : list N) (limits : Http1Limits)
  (routes : list RoutePrefixRule) (r : Http1RequestHead) (buffer' : list N) (reader' : Reader)
  (H : read_request_head reader buffer limits routes = Some (Ok (Some r), buffer', reader')) :
  one_host r ∧ framed_as r.(rq_body_kind) r.(rq_headers) ∧
  (length r.(rq_headers) ≤ limits.(max_header_count))%nat ∧
  (r.(rq_http10) = true → r.(rq_keep_alive) = false) ∧
  ∃ head p raw,
    let stream := buffer ++ pending reader in
    stream = head ++ buffer' ++ pending reader' ∧ find_head_end stream = Some p ∧
    parse_request limits.(max_header_count) (take p stream) = Ok (Complete (length head), raw) ∧
    raw.(raw_method) = Some r.(rq_method) ∧ raw.(raw_path) = Some r.(rq_target).
Proof.
  unfold read_request_head in H.
  destruct (fill_loop_spec limits (S (limits.(max_head_bytes) - length buffer)) reader buffer)
    as (res & b & rd & Hfill & _ & Hcons & _ & Hres); [lia|].
  unfold fill_until_head_end in H. rewrite Hfill in H. simpl in H.
  destruct res as [[p|]|]; [|done..]. simpl in Hres. pose proof (find_head_end_bound _ _ Hres) as Hp.
  destruct (request_of_head _ _ _) as [[r' n]|] eqn:Hr; [|done]. injection H as -> <- <-.
  pose proof Hr as (raw & Hparse & Hm & Ht)%request_of_head_parsed.
  apply request_of_head_spec in Hr as (Hone & Hframe & Hcount & H10 & Hn).
  split_and!; [done..|]. rewrite length_take in Hn. exists (take n b), p, raw. cbv zeta. rewrite <- Hcons. split_and!; [|..|done|done].
  - by rewrite app_assoc, take_drop.
  - apply find_head_end_app; [lia|done].
  - rewrite take_app_le by lia. by rewrite length_take, Nat.min_l by lia.
Qed.
End accepted.

(** A parser that knows one request, to run the reader on. *)
Definition sample_request : list N :=
  bytes "POST http://b.test/x HTTP/1.1" ++ CRLF ++ bytes "Host: a.test" ++ CRLF ++
  bytes "Content-Length: 5" ++ CRLF ++ CRLF.

Definition sample_raw : RawRequest :=
  {| raw_method := Some "POST"; raw_path := Some "http://b.test/x"; raw_version := Some 1;
     raw_headers := [{| raw_name := "Host"; raw_value := bytes "a.test" |};
                     {| raw_name := "Content-Length"; raw_value := bytes "5" |}] |}.

Definition sample_parse (slots : nat) (l : list N) : Result (HttparseStatus * RawRequest) HttparseError :=
  if decide (slots < 2)%nat then Err Httparse_TooManyHeaders
  else if decide (l = sample_request) then Ok (Complete (length l), sample_raw)
  else Err Httparse_Token.

Lemma sample_parse_bounds slots l n r :
  sample_parse slots l = Ok (Complete n, r) → (n ≤ length l ∧ length r.(raw_headers) ≤ slots)%nat.
Proof.
  unfold sample_parse. repeat case_decide; try done. intros [= <- <-]. simpl. lia.
Qed.

Definition sample_parser : Httparse :=
  {| parse_request := sample_parse; parse_response _ _ := Err Httparse_Token;
     parse_request_bounds := sample_parse_bounds; parse_response_bounds _ _ _ _ H := match H with end |}.

Definition sample_network : IpNetwork := {| IpNet := IpAddr; cidr_contains a b := bool_decide (a = b) |}.

Definition sample_head : Http1RequestHead :=
  {| rq_method := "POST"; rq_target := "http://b.test/x"; rq_version := Version_Http1;
     rq_headers := [{| h_name := "host"; h_value := "b.test" |};
                    {| h_name := "content-length"; h_value := "5" |}];
     rq_body_kind := ContentLength 5; rq_keep_alive := true; rq_route := None; rq_http10 := false |}.

Lemma accepted_request_unambiguous_witness :
  one_host sample_head ∧ framed_as (ContentLength 5) sample_head.(rq_headers) ∧ (2 ≤ 64)%nat ∧
  (false = true → true = false) ∧
  ∃ head p raw,
    let stream := [] ++ pending [Data (sample_request ++ bytes "hel"); Data (bytes "lo")] in
    stream = head ++ bytes "hel" ++ pending [Data (bytes "lo")] ∧ find_head_end stream = Some p ∧
    sample_parse 64 (take p stream) = Ok (Complete (length head), raw) ∧
    raw.(raw_method) = Some "POST" ∧ raw.(raw_path) = Some "http://b.test/x".
Proof.
  apply (@accepted_request_unambiguous sample_network sample_parser
    [Data (sample_request ++ bytes "hel"); Data (bytes "lo")] [] Http1Limits_default [] sample_head
    (bytes "hel") [Data (bytes "lo")]).
  vm_compute. reflexivity.
Defined.

(** ** What is forwarded *)

Lemma normalized_transfer_encoding headers ip keep_alive kind :
  List.filter (named "transfer-encoding") (normalize_request_headers headers ip keep_alive kind) =
  if negb (nominated "transfer-encoding" headers) && match kind with Chunked => true | _ => false end
  then List.filter (named "transfer-encoding") headers else [].
Proof.
  rewrite normalize_request_filter by done. by rewrite filter_headers_named, keeps_transfer_encoding.
Qed.

Lemma normalized_content_length headers ip keep_alive kind :
  List.filter (named "content-length") (normalize_request_headers headers ip keep_alive kind) =
  if negb (nominated "content-length" headers) && match kind with ContentLength _ => true | _ => false end
  then List.filter (named "content-length") headers else [].
Proof.
  rewrite normalize_request_filter by done. by rewrite filter_headers_named, keeps_content_length.
Qed.

Lemma normalized_host headers ip keep_alive kind :
  List.filter (named "host") (normalize_request_headers headers ip keep_alive kind) =
  if negb (nominated "host" headers) then List.filter (named "host") headers else [].
Proof. rewrite normalize_request_filter by done. by rewrite filter_headers_named, keeps_host. Qed.

Lemma no_framing_headers headers :
  List.filter (named "transfer-encoding") headers = [] →
  List.filter (named "content-length") headers = [] → detect_body_kind headers = Ok Body_None.
Proof. intros Ht Hc. by rewrite (detect_body_kind_ext headers []). Qed.

(** C17: unless a connection header nominates a framing header or the host, the forwarded
    head passes the same hardening checks and announces exactly the body that was received. *)
Theorem forwarded_framing_preserved (headers : list HttpHeader) (ip : IpAddr) (keep_alive : bool)
  (kind : BodyKind)
  (Hv : validate_http1_request_hardening headers = Ok tt) (Hk : detect_body_kind headers = Ok kind)
  (Hte : nominated "transfer-encoding" headers = false)
  (Hcl : nominated "content-length" headers = false) (Hh : nominated "host" headers = false) :
  let forwarded := normalize_request_headers headers ip keep_alive kind in
  validate_http1_request_hardening forwarded = Ok tt ∧ detect_body_kind forwarded = Ok kind.
Proof.
  intros forwarded. pose proof (detect_framed _ _ Hv Hk) as Hframe.
  pose proof (normalized_transfer_encoding headers ip keep_alive kind) as Ht.
  pose proof (normalized_content_length headers ip keep_alive kind) as Hc.
  pose proof (normalized_host headers ip keep_alive kind) as Ho.
  rewrite Hte in Ht. rewrite Hcl in Hc. rewrite Hh in Ho. fold forwarded in Ht, Hc, Ho. simpl in Ht, Hc, Ho.
  apply validate_spec in Hv as (H1 & Hboth & Hall). split.
  - apply validate_spec. rewrite Ho, !has_header_filter. split_and!; [done| |].
    + rewrite Ht, Hc. by destruct kind; simpl; rewrite ?andb_false_r.
    + unfold transfer_coding_tokens, header_items. rewrite Ht. destruct kind; try constructor. exact Hall.
  - destruct kind as [|n| |]; [by apply no_framing_headers| | |done].
    + rewrite <- Hk. apply detect_body_kind_ext; [|done]. rewrite Ht. destruct Hframe as [Hf _].
      rewrite has_header_filter, negb_false_iff, bool_decide_eq_true in Hf. by rewrite Hf.
    + destruct Hframe as (_ & Hne & _). pose proof (contains_chunked _ Hall) as Hcc.
      rewrite bool_decide_eq_false_2 in Hcc by done. unfold detect_body_kind.
      unfold header_value_contains_token in *. rewrite (header_items_ext _ _ _ Ht). by rewrite Hcc.
Qed.

Definition sample_headers : list HttpHeader :=
  [{| h_name := "host"; h_value := "a.test" |}; {| h_name := "connection"; h_value := "keep-alive, x-hop" |};
   {| h_name := "content-length"; h_value := "12" |}; {| h_name := "x-hop"; h_value := "1" |}].

Lemma forwarded_framing_preserved_witness :
  let forwarded := normalize_request_headers sample_headers (IpAddr_V4 1) true (ContentLength 12) in
  validate_http1_request_hardening forwarded = Ok tt ∧
  detect_body_kind forwarded = Ok (ContentLength 12).
Proof.
  apply (forwarded_framing_preserved sample_headers (IpAddr_V4 1) true (ContentLength 12));
    vm_compute; reflexivity.
Defined.

(** A connection header that nominates the content length removes it from the forwarded
    head: the head of an accepted request with a body then announces no body at all, although
    the body is forwarded behind it. *)
Theorem nominated_content_length_dropped (headers : list HttpHeader) (ip : IpAddr)
  (keep_alive : bool) (n : N)
  (Hv : validate_http1_request_hardening headers = Ok tt)
  (Hk : detect_body_kind headers = Ok (ContentLength n))
  (Hcl : nominated "content-length" headers = true) :
  0 < n ∧ framed_as (ContentLength n) headers ∧
  detect_body_kind (normalize_request_headers headers ip keep_alive (ContentLength n)) = Ok Body_None.
Proof.
  pose proof (detect_framed _ _ Hv Hk) as Hf. split; [by destruct Hf as (_ & _ & ? & _)|].
  split; [done|]. apply no_framing_headers.
  - by rewrite normalized_transfer_encoding, andb_false_r.
  - by rewrite normalized_content_length, Hcl.
Qed.

Definition smuggling_headers : list HttpHeader :=
  [{| h_name := "host"; h_value := "a.test" |}; {| h_name := "connection"; h_value := "content-length" |};
   {| h_name := "content-length"; h_value := "35" |}].

Lemma nominated_content_length_dropped_witness :
  0 < 35 ∧ framed_as (ContentLength 35) smuggling_headers ∧
  detect_body_kind (normalize_request_headers smuggling_headers (IpAddr_V4 1) true (ContentLength 35)) =
    Ok Body_None.
Proof.
  apply (nominated_content_length_dropped smuggling_headers (IpAddr_V4 1) true 35);
    vm_compute; reflexivity.
Defined.

Lemma named_both a b h : named a h = true → named b h = true → to_ascii_lowercase a = to_ascii_lowercase b.
Proof. unfold named. rewrite !eq_ignore_ascii_case_iff. congruence. Qed.

(** Which headers a forwarded request keeps. *)
Lemma keeps_header_iff headers kind h :
  keeps_header (connection_tokens headers) kind false h = true ↔
  (∀ name, name ∈ hop_by_hop → named name h = false) ∧ nominated h.(h_name) headers = false ∧
  (named "transfer-encoding" h = true → kind = Chunked) ∧
  (named "content-length" h = true → ∃ n, kind = ContentLength n).
Proof.
  unfold keeps_header. fold (nominated h.(h_name) headers).
  assert (Hhop : existsb (λ name, named name h) hop_by_hop = false ↔ ∀ name, name ∈ hop_by_hop → named name h = false).
  { rewrite <- not_true_iff_false, existsb_exists. split.
    - intros Hno name Hin. apply not_true_iff_false. intros Hn. apply Hno. exists name. by rewrite <- list_elem_of_In.
    - intros Hall (name & Hin%list_elem_of_In & Hn). rewrite Hall in Hn; done. }
  rewrite <- Hhop. destruct (existsb _ hop_by_hop); [by split; [|intros (? & _)]|].
  destruct (nominated _ _); [by split; [|intros (_ & ? & _)]|]. cbn [orb].
  destruct (named "transfer-encoding" h) eqn:Ht, (named "content-length" h) eqn:Hc.
  - by pose proof (named_both _ _ _ Ht Hc).
  - split; [by destruct kind|]. intros (_ & _ & H & _). by rewrite H.
  - split; [destruct kind; try done; intros _; split_and!; try done; by eexists|].
    intros (_ & _ & _ & H). by destruct (H eq_refl) as [n ->].
  - done.
Qed.

(** C18: what is forwarded of a request is the received headers, each unchanged and all in their
    order, without the hop-by-hop headers, x-forwarded-for and x-forwarded-proto (all in
    [hop_by_hop]), the headers a connection header nominates, a transfer-encoding header unless the
    body is chunked, and a content-length header unless the body has a length; then one x-forwarded-for header with the client address the proxy determined,
    and "connection: close" if the connection is not kept.  In particular the upstream sees that one
    client address whatever the client claimed, no connection header of the client, and nothing
    hop-by-hop or nominated. *)
Theorem forwarded_headers_sanitised (headers : list HttpHeader) (ip : IpAddr) (keep_alive : bool)
  (kind : BodyKind) :
  let forwarded := normalize_request_headers headers ip keep_alive kind in
  let own name := eq_ignore_ascii_case name "x-forwarded-for" || eq_ignore_ascii_case name "connection" in
  (∃ kept : HttpHeader → bool,
     (∀ h, kept h = true ↔
        (∀ name, name ∈ hop_by_hop → named name h = false) ∧ nominated h.(h_name) headers = false ∧
        (named "transfer-encoding" h = true → kind = Chunked) ∧
        (named "content-length" h = true → ∃ n, kind = ContentLength n)) ∧
     forwarded = List.filter kept headers ++
                 [{| h_name := "x-forwarded-for"; h_value := ip_to_string ip |}] ++
                 (if keep_alive then [] else [{| h_name := "connection"; h_value := "close" |}])) ∧
  List.filter (named "x-forwarded-for") forwarded =
    [{| h_name := "x-forwarded-for"; h_value := ip_to_string ip |}] ∧
  List.filter (named "connection") forwarded = connection_close keep_alive ∧
  (∀ name, name ∈ hop_by_hop ∨ nominated name headers = true → own name = false →
    List.filter (named name) forwarded = []).
Proof.
  intros forwarded own. split_and!.
  - exists (keeps_header (connection_tokens headers) kind false). split; [|done]. apply keeps_header_iff.
  - unfold forwarded, normalize_request_headers. rewrite !List.filter_app, filter_headers_named.
    rewrite keeps_hop_by_hop by set_solver. by destruct keep_alive.
  - unfold forwarded, normalize_request_headers. rewrite !List.filter_app, filter_headers_named.
    rewrite keeps_hop_by_hop by set_solver. by destruct keep_alive.
  - intros name Hname [Hx Hc]%orb_false_iff. unfold eq_ignore_ascii_case in Hx, Hc.
    apply bool_decide_eq_false in Hx, Hc. unfold forwarded.
    rewrite normalize_request_filter by (apply bool_decide_eq_false; simpl; congruence).
    rewrite filter_headers_named. destruct Hname as [Hname|Hname].
    + by rewrite keeps_hop_by_hop.
    + unfold keeps_header. simpl h_name. unfold nominated in Hname. by rewrite Hname, orb_true_r.
Qed.

(** ** Written heads are read back *)

Definition no_cr (s : string) : Prop := 13 ∉ bytes s.
Definition header_no_cr (h : HttpHeader) : Prop := no_cr h.(h_name) ∧ no_cr h.(h_value).

Lemma find_sub_line line l :
  13 ∉ line →
  find_sub [13; 10; 13; 10] (line ++ l) = (λ i, length line + i)%nat <$> find_sub [13; 10; 13; 10] l.
Proof.
  induction line as [|x line IH]; intros Hcr; [by destruct (find_sub _ l) eqn:E; simpl in *; rewrite E|].
  apply not_elem_of_cons in Hcr as [Hx Hcr]. cbn [app find_sub length].
  rewrite decide_False by (intros [? [= ? _]]; congruence). rewrite (IH Hcr).
  by destruct (find_sub _ l).
Qed.

Lemma find_head_end_line line l :
  13 ∉ line → find_head_end (line ++ l) = (λ p, length line + p)%nat <$> find_head_end l.
Proof.
  intros Hcr. unfold find_head_end. rewrite find_sub_line by done.
  destruct (find_sub _ l); simpl; [|done]. f_equal. lia.
Qed.

Lemma find_head_end_crlf x l :
  x ≠ 13 → find_head_end (CRLF ++ x :: l) = (λ p, 2 + p)%nat <$> find_head_end (x :: l).
Proof.
  intros Hx. unfold find_head_end, CRLF. cbn [app].
  change (find_sub [13; 10; 13; 10] (13 :: 10 :: x :: l)) with
    (if decide ([13; 10; 13; 10] `prefix_of` 13 :: 10 :: x :: l) then Some 0%nat
     else S <$> (if decide ([13; 10; 13; 10] `prefix_of` 10 :: x :: l) then Some 0%nat
                 else S <$> find_sub [13; 10; 13; 10] (x :: l))).
  rewrite !decide_False; [|intros [? [= ?]]; congruence..].
  by destruct (find_sub _ (x :: l)).
Qed.

Definition header_line (h : HttpHeader) : list N := bytes h.(h_name) ++ bytes ": " ++ bytes h.(h_value).

Lemma append_headers_lines headers : ∀ buffer,
  append_headers buffer headers = buffer ++ flat_map (λ h, header_line h ++ CRLF) headers ++ CRLF.
Proof.
  induction headers as [|h hs IH]; intros buffer; [done|]. cbn [append_headers flat_map].
  rewrite IH. unfold header_line. by rewrite <- !app_assoc.
Qed.

(** The header lines and the empty line that ends a head. *)
Definition tail_lines (headers : list HttpHeader) : list N :=
  flat_map (λ h, header_line h ++ CRLF) headers ++ CRLF.

Lemma header_line_no_cr h : header_no_cr h → 13 ∉ header_line h.
Proof.
  intros [Hn Hv]. unfold header_line. rewrite !not_elem_of_app. split_and!; [done| |done].
  apply (bool_decide_unpack _). vm_compute. exact I.
Qed.

Lemma header_line_cons h : header_no_cr h → ∃ x l, header_line h = x :: l ∧ x ≠ 13.
Proof.
  intros Hh%header_line_no_cr. destruct (header_line h) as [|x l] eqn:E.
  - exfalso. apply (f_equal length) in E. unfold header_line in E. rewrite !length_app in E.
    simpl in E. lia.
  - exists x, l. split; [done|]. set_solver.
Qed.

Lemma find_head_end_tail headers body :
  Forall header_no_cr headers →
  find_head_end (CRLF ++ tail_lines headers ++ body) = Some (2 + length (tail_lines headers))%nat.
Proof.
  induction headers as [|h hs IH]; intros Hall; [done|].
  apply Forall_cons in Hall as [Hh Hall]. specialize (IH Hall).
  assert (Heq : tail_lines (h :: hs) = header_line h ++ CRLF ++ tail_lines hs).
  { unfold tail_lines. cbn [flat_map]. by rewrite <- !app_assoc. }
  rewrite Heq, <- !app_assoc.
  pose proof (header_line_no_cr h Hh) as Hcr. destruct (header_line_cons h Hh) as (x & l & E & Hx).
  rewrite E in *. cbn [app]. rewrite find_head_end_crlf by done.
  change (x :: l ++ CRLF ++ tail_lines hs ++ body) with ((x :: l) ++ CRLF ++ tail_lines hs ++ body).
  rewrite find_head_end_line, IH by done. simpl. f_equal. rewrite length_app. simpl. lia.
Qed.

Lemma find_head_end_encoded start headers body :
  13 ∉ start → Forall header_no_cr headers →
  find_head_end (append_headers (start ++ CRLF) headers ++ body) =
  Some (length (append_headers (start ++ CRLF) headers)).
Proof.
  intros Hs Hh. rewrite append_headers_lines. fold (tail_lines headers).
  rewrite <- !app_assoc, find_head_end_line, find_head_end_tail by done. simpl.
  f_equal. rewrite !length_app. simpl. lia.
Qed.

Lemma version_text_no_cr v : no_cr (version_text v).
Proof. destruct v; apply (bool_decide_unpack _); vm_compute; exact I. Qed.

Lemma no_cr_app a b : no_cr (a +:+ b) ↔ no_cr a ∧ no_cr b.
Proof. unfold no_cr. by rewrite bytes_app, not_elem_of_app. Qed.

Lemma no_cr_space : no_cr " ".
Proof. apply (bool_decide_unpack _). vm_compute. exact I. Qed.

(** C37: a request head that was written, followed by any body and cut into segments in any
    way, is read back: the reader finds exactly the end of the written head and the buffer
    starts with it.  The parts of the head must not contain a carriage return. *)
Theorem written_request_head_read_back (method target : string) (version : SupportedHttpVersion)
  (headers : list HttpHeader) (body : list N) (reader : Reader) (limits : Http1Limits)
  (Hm : no_cr method) (Ht : no_cr target) (Hhs : Forall header_no_cr headers)
  (Hreader : healthy reader)
  (Hsent : pending reader = encode_request_head method target version headers ++ body)
  (Hmax : (length (encode_request_head method target version headers) ≤ limits.(max_head_bytes))%nat) :
  let head := encode_request_head method target version headers in
  ∃ buffer' reader',
    fill_until_head_end reader [] limits = Some (Ok (Some (length head)), buffer', reader') ∧
    take (length head) buffer' = head ∧
    drop (length head) buffer' ++ pending reader' = body.
Proof.
  intros head.
  assert (Hfind : find_head_end ([] ++ pending reader) = Some (length head)).
  { simpl. rewrite Hsent. apply find_head_end_encoded; [|done].
    pose proof (version_text_no_cr version). pose proof no_cr_space.
    fold (no_cr (method +:+ " " +:+ target +:+ " " +:+ version_text version)).
    by rewrite !no_cr_app. }
  destruct (fill_loop_spec limits (S (limits.(max_head_bytes) - length (@nil N))) reader [])
    as (res & b & r & Hfill & _ & Hcons & _ & Hres); [lia|].
  destruct (fill_finds_head _ _ _ _ Hreader Hfind Hmax) as (b' & r' & Hf & _).
  unfold fill_until_head_end in *. rewrite Hf in Hfill. injection Hfill as <- <- <-.
  exists b', r'. split; [done|]. simpl in Hres, Hcons. apply find_head_end_bound in Hres.
  rewrite Hsent in Hcons. fold head in Hcons. split.
  - apply (f_equal (take (length head))) in Hcons.
    rewrite take_app_le, take_app_length in Hcons by lia. done.
  - apply (f_equal (drop (length head))) in Hcons.
    rewrite drop_app_le, drop_app_length in Hcons by lia. done.
Qed.

Definition sent_head : list N := encode_request_head "GET" "/a" Version_Http1 sample_headers.

Lemma written_request_head_read_back_witness :
  ∃ buffer' reader',
    fill_until_head_end [Data (take 40 sent_head); Data (drop 40 sent_head ++ [1; 2])] []
      Http1Limits_default = Some (Ok (Some (length sent_head)), buffer', reader') ∧
    take (length sent_head) buffer' = sent_head ∧
    drop (length sent_head) buffer' ++ pending reader' = [1; 2].
Proof.
  apply (written_request_head_read_back "GET" "/a" Version_Http1 sample_headers [1; 2]
    [Data (take 40 sent_head); Data (drop 40 sent_head ++ [1; 2])] Http1Limits_default).
  - apply (bool_decide_unpack _). vm_compute. exact I.
  - apply (bool_decide_unpack _). vm_compute. exact I.
  - repeat constructor; apply (bool_decide_unpack _); vm_compute; exact I.
  - repeat constructor.
  - vm_compute. reflexivity.
  - apply (bool_decide_unpack _). vm_compute. exact I.
Defined.

(** ** Close-delimited responses are reframed *)

Lemma split_on_cat c x y : split_on c (x ++ c :: y) = split_on c x ++ split_on c y.
Proof.
  induction x as [|a x IH]; simpl; [by rewrite decide_True by done|].
  rewrite IH. case_decide; [done|].
  pose proof (split_on_nonempty c x). by destruct (split_on c x).
Qed.

Lemma join_last sep l z : ∃ x, join_bytes sep (l ++ [z]) = if decide (l = []) then z else x ++ sep ++ z.
Proof.
  induction l as [|a l [x IH]]; [by exists []|].
  destruct l as [|b l]; [by exists a|]. rewrite decide_False in IH by done.
  exists (a ++ sep ++ x). rewrite decide_False by done. change ((a :: b :: l) ++ [z]) with (a :: (b :: l) ++ [z]).
  change (join_bytes sep (a :: (b :: l) ++ [z])) with (a ++ sep ++ join_bytes sep ((b :: l) ++ [z])).
  rewrite IH. by rewrite <- !app_assoc.
Qed.

(** The last coding of the list the proxy writes is its own. *)
Lemma last_reframed_token headers :
  ∃ items, trim <$> split 44 (join ", " (reframed_codings headers)) = items ++ ["chunked"].
Proof.
  unfold split, reframed_codings. set (l := List.filter _ _). rewrite bytes_join, fmap_app.
  destruct (join_last (bytes ", ") (bytes <$> l) (bytes "chunked")) as [x Hx].
  change (bytes <$> ["chunked"]) with [bytes "chunked"]. rewrite Hx. case_decide; [by exists []|].
  change (bytes ", " ++ bytes "chunked") with (44 :: bytes " chunked").
  rewrite split_on_cat, !fmap_app. eexists. f_equal.
Qed.

Lemma last_filter_snoc {A} (f : A → bool) l x : f x = true → last (List.filter f (l ++ [x])) = Some x.
Proof. intros Hf. rewrite List.filter_app. simpl. by rewrite Hf, last_snoc. Qed.

Lemma normalized_response_framing headers keep_alive :
  List.filter (named "transfer-encoding") (normalize_response_headers headers keep_alive CloseDelimited) =
    [{| h_name := "transfer-encoding"; h_value := join ", " (reframed_codings headers) |}] ∧
  List.filter (named "content-length") (normalize_response_headers headers keep_alive CloseDelimited) = [].
Proof.
  unfold normalize_response_headers. rewrite !List.filter_app, !filter_headers_named.
  rewrite keeps_transfer_encoding, keeps_content_length, !andb_false_r. by destruct keep_alive.
Qed.

(** A response whose body ends with the connection is forwarded with chunked framing only:
    the client that reads the forwarded head expects a chunked body, sees no content length,
    and is told to close exactly when the proxy closes. *)
Theorem close_delimited_response_reframed (headers : list HttpHeader) (keep_alive : bool)
  (status : N) (request_method : string)
  (Hmethod : eq_ignore_ascii_case request_method "HEAD" = false)
  (Hstatus : bodiless_status status = false) :
  let forwarded := normalize_response_headers headers keep_alive CloseDelimited in
  detect_response_body_kind forwarded status request_method = Ok Chunked ∧
  response_has_conflicting_framing forwarded = false ∧
  detect_keep_alive forwarded Version_Http1 = keep_alive.
Proof.
  intros forwarded. destruct (normalized_response_framing headers keep_alive) as [Ht Hc].
  fold forwarded in Ht, Hc. split_and!.
  - unfold detect_response_body_kind. rewrite Hmethod, Hstatus. cbn [orb].
    unfold transfer_coding_tokens, header_items. rewrite Ht. cbn [flat_map h_value].
    rewrite app_nil_r. destruct (last_reframed_token headers) as [items ->].
    by rewrite last_filter_snoc.
  - unfold response_has_conflicting_framing. by rewrite !has_header_filter, Hc, andb_false_r.
  - unfold detect_keep_alive, header_value_contains_token, header_items, forwarded, normalize_response_headers.
    rewrite !List.filter_app, filter_headers_named, keeps_hop_by_hop by set_solver.
    by destruct keep_alive.
Qed.

Lemma close_delimited_response_reframed_witness :
  let forwarded := normalize_response_headers
    [{| h_name := "transfer-encoding"; h_value := "gzip" |}] false CloseDelimited in
  detect_response_body_kind forwarded 200 "GET" = Ok Chunked ∧
  response_has_conflicting_framing forwarded = false ∧
  detect_keep_alive forwarded Version_Http1 = false.
Proof.
  apply (close_delimited_response_reframed [{| h_name := "transfer-encoding"; h_value := "gzip" |}]
    false 200 "GET"); vm_compute; reflexivity.
Defined.
