(* ===== verification/BodyRelay.v ===== *)
(** * Relaying HTTP/1.1 bodies

    Models [crates/runtime/src/http1_proxy/body_relay.rs]: the relay of bodies with a
    content length, of chunked bodies with and without their framing, and of bodies that
    end with the connection, together with the decoding of buffered chunked bodies.

    The relay is a state monad over the reader, the read buffer and the writer.  A reader is
    the list of outcomes of its reads, where a missing outcome is a read that exceeds the idle
    timeout; a writer is what it has accepted and the outcomes of its next writes.  Loops take
    fuel; the number of bytes that can still be read bounds them ([relay_body_total]).
    [usize] is 64 bits wide, so the conversions from [u64] never fail. *)

From S2P Require Import Prelude RustStr RustText RequestTarget RouteMatching HttpMessage.
From stdpp Require Import pretty.
Local Open Scope N_scope.

(** ** Errors *)

Inductive ProtocolAnomalyCategory :=
| MalformedPreface | MalformedMessage | AmbiguousFraming | HeadSizeLimitExceeded
| HeaderCountLimitExceeded | BodySizeLimitExceeded | StreamConcurrencyLimitExceeded.

Definition ProtocolAnomalyCategory_fmt (c : ProtocolAnomalyCategory) : string :=
  match c with
  | MalformedPreface => "malformed-preface"
  | MalformedMessage => "malformed-message"
  | AmbiguousFraming => "ambiguous-framing"
  | HeadSizeLimitExceeded => "head-size-limit-exceeded"
  | HeaderCountLimitExceeded => "header-count-limit-exceeded"
  | BodySizeLimitExceeded => "body-size-limit-exceeded"
  | StreamConcurrencyLimitExceeded => "stream-concurrency-limit-exceeded"
  end.

Inductive SlowClientStage := RequestHead | RequestBody.

Definition SlowClientStage_fmt (s : SlowClientStage) : string :=
  match s with RequestHead => "request-head" | RequestBody => "request-body" end.

Inductive Http1ProxyError :=
| ConnectTimeout (target : SocketAddr)
| Connect (target : SocketAddr) (source : IoError)
| ParseRequest (source : Http1ParseError)
| ParseResponse (source : Http1ParseError)
| BodyLimitExceeded (direction : string)
| IdleTimeout (stage : string)
| RequestIo (source : IoError)
| ResponseIo (source : IoError)
| UpstreamGracefulDrain.

Inductive RelayDirection := Request | Response.

Definition idle_error (direction : RelayDirection) : Http1ProxyError :=
  match direction with
  | Request => IdleTimeout "request body"
  | Response => IdleTimeout "response body"
  end.

Definition body_limit_error (direction : RelayDirection) : Http1ProxyError :=
  match direction with
  | Request => BodyLimitExceeded "request body"
  | Response => BodyLimitExceeded "response body"
  end.

Definition io_error (direction : RelayDirection) (source : IoError) : Http1ProxyError :=
  match direction with Request => RequestIo source | Response => ResponseIo source end.

Definition parse_side_error (direction : RelayDirection) (source : Http1ParseError) : Http1ProxyError :=
  match direction with Request => ParseRequest source | Response => ParseResponse source end.

(** [message.contains(text)]. *)
Definition has_text (text message : string) : bool :=
  bool_decide (is_Some (find_sub (bytes text) (bytes message))).

Definition classify_http1_request_parse_error (error : Http1ParseError) :
    option ProtocolAnomalyCategory :=
  match error with
  | HeadTooLarge => Some HeadSizeLimitExceeded
  | TooManyHeaders => Some HeaderCountLimitExceeded
  | Invalid message =>
      if has_text "ambiguous content-length" message ||
         has_text "missing required host header" message || has_text "multiple host headers" message
      then Some AmbiguousFraming
      else Some MalformedMessage
  | IncompleteHead => Some MalformedMessage
  | Io _ => None
  end.

Definition Http1ProxyError_anomaly_category (e : Http1ProxyError) : option ProtocolAnomalyCategory :=
  match e with
  | ParseRequest source => classify_http1_request_parse_error source
  | BodyLimitExceeded direction =>
      if decide (direction = "request body") then Some BodySizeLimitExceeded else None
  | _ => None
  end.

Definition Http1ProxyError_slow_client_stage (e : Http1ProxyError) : option SlowClientStage :=
  match e with
  | IdleTimeout stage =>
      if decide (stage = "request head") then Some RequestHead
      else if decide (stage = "request body") then Some RequestBody
      else None
  | _ => None
  end.

(** ** The relay monad *)

Record Writer := { w_written : list N; w_outcomes : list (option (nat * IoError)) }.

Record RelayState := {
  rl_reader : list (option ReadEvent);
  rl_buffer : list N;
  rl_writer : Writer
}.

(** No result when the fuel runs out. *)
Definition Relay (A : Type) : Type := RelayState → option (Result A Http1ProxyError * RelayState).

Definition ret {A} (x : A) : Relay A := λ s, Some (Ok x, s).
Definition fail {A} (e : Http1ProxyError) : Relay A := λ s, Some (Err e, s).
Definition out_of_fuel {A} : Relay A := λ _, None.
Definition bind {A B} (c : Relay A) (k : A → Relay B) : Relay B := λ s,
  match c s with
  | Some (Ok x, s) => k x s
  | Some (Err e, s) => Some (Err e, s)
  | None => None
  end.

Declare Scope relay_scope.
Delimit Scope relay_scope with relay.
Notation "'let*' x ':=' c 'in' k" := (bind c (λ x, k))
  (at level 10, x name, c at level 100, k at level 200) : relay_scope.
Notation "c ;; k" := (bind c (λ _, k)) (at level 100, right associativity) : relay_scope.
Local Open Scope relay_scope.

Definition buffered : Relay (list N) := λ s, Some (Ok s.(rl_buffer), s).
Definition set_buffer (b : list N) : Relay () := λ s,
  Some (Ok (), {| rl_reader := s.(rl_reader); rl_buffer := b; rl_writer := s.(rl_writer) |}).

(** [time::timeout(idle_timeout, reader.read(&mut chunk))] with a chunk of [n] bytes. *)
Definition timed_read (direction : RelayDirection) (n : nat) : Relay (list N) := λ s,
  let with_reader r := {| rl_reader := r; rl_buffer := s.(rl_buffer); rl_writer := s.(rl_writer) |} in
  match s.(rl_reader) with
  | [] => Some (Ok [], s)
  | None :: r => Some (Err (idle_error direction), with_reader r)
  | Some (ReadFails e) :: r => Some (Err (io_error direction e), with_reader r)
  | Some (Data l) :: r =>
      Some (Ok (take n l),
            with_reader (match drop n l with [] => r | rest => Some (Data rest) :: r end))
  end.

(** [writer.write_all(bytes)]; a failing write may have accepted some bytes. *)
Definition write_all (direction : RelayDirection) (l : list N) : Relay () := λ s,
  let with_writer w := {| rl_reader := s.(rl_reader); rl_buffer := s.(rl_buffer); rl_writer := w |} in
  let w := s.(rl_writer) in
  match l, w.(w_outcomes) with
  | [], _ => Some (Ok (), s)
  | _, Some (k, e) :: outcomes =>
      Some (Err (io_error direction e),
            with_writer {| w_written := w.(w_written) ++ take k l; w_outcomes := outcomes |})
  | _, outcomes =>
      Some (Ok (), with_writer {| w_written := w.(w_written) ++ l; w_outcomes := tail outcomes |})
  end.

(** ** Content length *)

(** The part of the body that is already buffered: what is relayed. *)
Definition relay_buffered (direction : RelayDirection) (remaining : N) : Relay (list N) :=
  let* b := buffered in
  match b with
  | [] => ret []
  | _ =>
      let n := N.to_nat (N.min remaining (N.of_nat (length b))) in
      write_all direction (take n b) ;;
      set_buffer (drop n b) ;;
      ret (take n b)
  end.

Fixpoint relay_remaining (fuel : nat) (direction : RelayDirection) (remaining : N) : Relay () :=
  match fuel with
  | O => out_of_fuel
  | S fuel =>
      if decide (remaining = 0) then ret ()
      else
        let to_read := N.to_nat (N.min remaining 8192) in
        let* chunk := timed_read direction to_read in
        match chunk with
        | [] => fail (parse_side_error direction IncompleteHead)
        | _ =>
            write_all direction chunk ;;
            relay_remaining fuel direction (remaining - N.of_nat (length chunk))
        end
  end.

Definition relay_content_length (fuel : nat) (direction : RelayDirection) (length : N) : Relay () :=
  let* first := relay_buffered direction length in
  relay_remaining fuel direction (length - N.of_nat (List.length first)).

Fixpoint relay_remaining_collect (fuel : nat) (direction : RelayDirection) (collected : list N)
    (remaining : N) : Relay (list N) :=
  match fuel with
  | O => out_of_fuel
  | S fuel =>
      if decide (remaining = 0) then ret collected
      else
        let to_read := N.to_nat (N.min remaining 8192) in
        let* chunk := timed_read direction to_read in
        match chunk with
        | [] => fail (parse_side_error direction IncompleteHead)
        | _ =>
            write_all direction chunk ;;
            relay_remaining_collect fuel direction (collected ++ chunk)
              (remaining - N.of_nat (length chunk))
        end
  end.

Definition relay_content_length_collect (fuel : nat) (direction : RelayDirection) (length : N) :
    Relay (list N) :=
  let* first := relay_buffered direction length in
  relay_remaining_collect fuel direction first (length - N.of_nat (List.length first)).

(** ** Lines and chunks *)

Definition MAX_CHUNK_LINE_BYTES : nat := 4 * 1024.
Definition MAX_CHUNK_TRAILER_BYTES : nat := N.to_nat (16 * 1024).

(** The search restarts at [scanned]; the bytes before hold no line end. *)
Fixpoint read_crlf_loop (fuel : nat) (direction : RelayDirection) (scanned : nat) : Relay (list N) :=
  match fuel with
  | O => out_of_fuel
  | S fuel =>
      let* b := buffered in
      match find_sub CRLF (drop scanned b) with
      | Some position =>
          let n := (scanned + position + 2)%nat in
          set_buffer (drop n b) ;; ret (take n b)
      | None =>
          if decide (MAX_CHUNK_LINE_BYTES < length b)%nat
          then fail (parse_side_error direction HeadTooLarge)
          else
            let* chunk := timed_read direction 1024 in
            match chunk with
            | [] => fail (parse_side_error direction IncompleteHead)
            | _ => set_buffer (b ++ chunk) ;; read_crlf_loop fuel direction (length b - 1)
            end
      end
  end.

Definition read_crlf_line (fuel : nat) (direction : RelayDirection) : Relay (list N) :=
  read_crlf_loop fuel direction 0.

Fixpoint skip_blanks (l : list N) : list N :=
  match l with
  | c :: l' => if decide (c = 32 ∨ c = 9) then skip_blanks l' else l
  | [] => []
  end.

Definition parse_chunk_size_line (line : list N) : option N :=
  let '(size_digits, rest) := span_until (λ c, negb (is_ascii_hexdigit c)) line in
  if bool_decide (size_digits = []) || bool_decide (16 < length size_digits)%nat then None
  else
    let remainder := skip_blanks rest in
    match remainder with
    | c :: _ =>
        if decide (c ≠ 59) then None
        else if existsb (λ c, bool_decide (c = 13 ∨ c = 10 ∨ c = 0)) remainder then None
        else parse_u64_digits 16 size_digits
    | [] => parse_u64_digits 16 size_digits
    end.

Fixpoint relay_exact_bytes (fuel : nat) (direction : RelayDirection) (remaining : N) : Relay () :=
  match fuel with
  | O => out_of_fuel
  | S fuel =>
      if decide (remaining = 0) then ret ()
      else
        let* b := buffered in
        match b with
        | _ :: _ =>
            let n := N.to_nat (N.min remaining (N.of_nat (length b))) in
            write_all direction (take n b) ;;
            set_buffer (drop n b) ;;
            relay_exact_bytes fuel direction (remaining - N.of_nat n)
        | [] =>
            let* chunk := timed_read direction (N.to_nat (N.min remaining 8192)) in
            match chunk with
            | [] => fail (parse_side_error direction IncompleteHead)
            | _ =>
                write_all direction chunk ;;
                relay_exact_bytes fuel direction (remaining - N.of_nat (length chunk))
            end
        end
  end.

Definition write_if (forward_framing : bool) (direction : RelayDirection) (l : list N) : Relay () :=
  if forward_framing then write_all direction l else ret ().

(** [fuel] bounds this loop and [work] the loops it calls. *)
Fixpoint relay_trailers (fuel work : nat) (direction : RelayDirection) (forward_framing : bool)
    (trailer_bytes : nat) : Relay () :=
  match fuel with
  | O => out_of_fuel
  | S fuel =>
      let* trailer_line := read_crlf_line work direction in
      let trailer_bytes := (trailer_bytes + length trailer_line)%nat in
      if decide (MAX_CHUNK_TRAILER_BYTES < trailer_bytes)%nat
      then fail (parse_side_error direction HeadTooLarge)
      else
        write_if forward_framing direction trailer_line ;;
        if decide (trailer_line = CRLF) then ret ()
        else relay_trailers fuel work direction forward_framing trailer_bytes
  end.

Fixpoint relay_chunks (fuel work : nat) (direction : RelayDirection) (max_body_bytes : N)
    (forward_framing : bool) (total_body_bytes : N) : Relay () :=
  match fuel with
  | O => out_of_fuel
  | S fuel =>
      let* line := read_crlf_line work direction in
      match parse_chunk_size_line (take (length line - 2) line) with
      | None => fail (parse_side_error direction (Invalid "invalid chunk size"))
      | Some chunk_size =>
          let total_body_bytes := saturating_add u64_max total_body_bytes chunk_size in
          if decide (max_body_bytes < total_body_bytes) then fail (body_limit_error direction)
          else
            write_if forward_framing direction line ;;
            if decide (chunk_size = 0) then relay_trailers work work direction forward_framing 0
            else
              relay_exact_bytes work direction chunk_size ;;
              let* terminator := read_crlf_line work direction in
              if decide (terminator = CRLF) then
                write_if forward_framing direction terminator ;;
                relay_chunks fuel work direction max_body_bytes forward_framing total_body_bytes
              else fail (parse_side_error direction (Invalid "invalid chunk data terminator"))
      end
  end.

Definition relay_chunked_with_framing (work : nat) (direction : RelayDirection) (max_body_bytes : N)
    (forward_framing : bool) : Relay () :=
  relay_chunks work work direction max_body_bytes forward_framing 0.

Definition relay_chunked (work : nat) (direction : RelayDirection) (max_body_bytes : N) : Relay () :=
  relay_chunked_with_framing work direction max_body_bytes true.

(** ** Bodies that end with the connection *)

(** [{:x}] of a [usize]: 16 digits at most. *)
Fixpoint lower_hex (fuel : nat) (n : N) : list N :=
  match fuel with
  | O => []
  | S fuel =>
      let digit d := if decide (d < 10) then 48 + d else 87 + d in
      if decide (n < 16) then [digit n] else lower_hex fuel (n / 16) ++ [digit (n mod 16)]
  end.
Definition hex_usize (n : N) : list N := lower_hex 16 n.

Definition chunk_frame (chunk : list N) : list N :=
  hex_usize (N.of_nat (length chunk)) ++ CRLF ++ chunk ++ CRLF.

Definition RELAY_CHUNK_BYTES : nat := N.to_nat (16 * 1024).

(** The next bytes: from the buffer first, then from the reader. *)
Definition next_chunk (direction : RelayDirection) : Relay (list N) :=
  let* b := buffered in
  match b with
  | [] => timed_read direction RELAY_CHUNK_BYTES
  | _ =>
      let n := (length b `min` RELAY_CHUNK_BYTES)%nat in
      set_buffer (drop n b) ;; ret (take n b)
  end.

Fixpoint relay_close_delimited_loop (fuel : nat) (direction : RelayDirection) (max_body_bytes : N)
    (total_body_bytes : N) : Relay () :=
  match fuel with
  | O => out_of_fuel
  | S fuel =>
      let* chunk := next_chunk direction in
      match chunk with
      | [] => write_all direction (bytes "0" ++ CRLF ++ CRLF)
      | _ =>
          let total_body_bytes := saturating_add u64_max total_body_bytes (N.of_nat (length chunk)) in
          if decide (max_body_bytes < total_body_bytes) then fail (body_limit_error direction)
          else
            write_all direction (chunk_frame chunk) ;;
            relay_close_delimited_loop fuel direction max_body_bytes total_body_bytes
      end
  end.

Definition relay_close_delimited_as_chunked (work : nat) (direction : RelayDirection)
    (max_body_bytes : N) : Relay () :=
  relay_close_delimited_loop work direction max_body_bytes 0.

(** ** Dispatch *)

Definition relay_body (work : nat) (direction : RelayDirection) (body_kind : BodyKind)
    (max_body_bytes : N) : Relay () :=
  match body_kind with
  | Body_None => ret ()
  | ContentLength length =>
      if decide (max_body_bytes < length) then fail (body_limit_error direction)
      else relay_content_length work direction length
  | Chunked => relay_chunked work direction max_body_bytes
  | CloseDelimited => relay_close_delimited_as_chunked work direction max_body_bytes
  end.

Fixpoint relay_plain_loop (fuel : nat) (direction : RelayDirection) (max_body_bytes : N)
    (total_body_bytes : N) : Relay () :=
  match fuel with
  | O => out_of_fuel
  | S fuel =>
      let* chunk := timed_read direction RELAY_CHUNK_BYTES in
      match chunk with
      | [] => ret ()
      | _ =>
          let total_body_bytes := saturating_add u64_max total_body_bytes (N.of_nat (length chunk)) in
          if decide (max_body_bytes < total_body_bytes) then fail (body_limit_error direction)
          else
            write_all direction chunk ;;
            relay_plain_loop fuel direction max_body_bytes total_body_bytes
      end
  end.

Definition relay_response_body_for_http10 (work : nat) (body_kind : BodyKind) (max_body_bytes : N) :
    Relay () :=
  let direction := Response in
  match body_kind with
  | Chunked => relay_chunked_with_framing work direction max_body_bytes false
  | CloseDelimited =>
      let* b := buffered in
      let total_body_bytes := N.of_nat (length b) in
      if decide (max_body_bytes < total_body_bytes) then fail (body_limit_error direction)
      else
        write_all direction b ;;
        set_buffer [] ;;
        relay_plain_loop work direction max_body_bytes total_body_bytes
  | Body_None | ContentLength _ => relay_body work direction body_kind max_body_bytes
  end.

(** ** Buffered bodies *)

(** [rest] is what follows the cursor. *)
Fixpoint decode_chunked_loop (fuel : nat) (rest decoded : list N) : option (list N) :=
  match fuel with
  | O => None
  | S fuel =>
      line_len ← find_sub CRLF rest;
      size ← parse_chunk_size_line (take line_len rest);
      let rest := drop (line_len + 2) rest in
      if decide (size = 0) then Some decoded
      else if decide (N.of_nat (length rest) < size) then None
      else
        let chunk := take (N.to_nat size) rest in
        let rest := drop (N.to_nat size) rest in
        if decide (take 2 rest = CRLF) then decode_chunked_loop fuel (drop 2 rest) (decoded ++ chunk)
        else None
  end.

(** Every chunk takes at least five bytes, so the length of the input is enough fuel. *)
Definition decode_chunked_body (raw : list N) : option (list N) :=
  decode_chunked_loop (S (length raw)) raw [].

Definition collect_decoded_body (work : nat) (direction : RelayDirection) (body_kind : BodyKind)
    (max_body_bytes : N) : Relay (list N) := λ s,
  let own w := {| rl_reader := s.(rl_reader); rl_buffer := s.(rl_buffer); rl_writer := w |} in
  match relay_body work direction body_kind max_body_bytes (own {| w_written := []; w_outcomes := [] |}) with
  | None => None
  | Some (res, s') =>
      let raw := s'.(rl_writer).(w_written) in
      let s' := {| rl_reader := s'.(rl_reader); rl_buffer := s'.(rl_buffer); rl_writer := s.(rl_writer) |} in
      match res with
      | Err e => Some (Err e, s')
      | Ok _ =>
          match body_kind with
          | Chunked | CloseDelimited =>
              match decode_chunked_body raw with
              | Some decoded => Some (Ok decoded, s')
              | None => Some (Err (parse_side_error direction (Invalid "invalid chunked body")), s')
              end
          | Body_None | ContentLength _ => Some (Ok raw, s')
          end
      end
  end.

Definition reframe_buffered_headers (headers : list HttpHeader) (body_len : N) : list HttpHeader :=
  List.filter (λ h, negb (named "transfer-encoding" h) && negb (named "content-length" h) &&
                    negb (named "trailer" h)) headers ++
  [{| h_name := "content-length"; h_value := pretty body_len |}].

(** ** Runs

    [runs c s Q]: from [s] the computation ends; the bytes it took from the input and the
    bytes it wrote satisfy [Q] together with its result, and no other byte is lost or added. *)

Definition event_bytes (e : option ReadEvent) : list N :=
  match e with Some (Data l) => l | _ => [] end.
Definition incoming (reader : list (option ReadEvent)) : list N := flat_map event_bytes reader.
Definition avail (s : RelayState) : list N := s.(rl_buffer) ++ incoming s.(rl_reader).
Definition written (s : RelayState) : list N := s.(rl_writer).(w_written).

(** The peers deliver and accept data without errors and delays. *)
Definition clean (s : RelayState) : Prop :=
  Forall (λ e, event_bytes e ≠ []) s.(rl_reader) ∧ Forall (λ o, o = None) s.(rl_writer).(w_outcomes).

Definition Post (A : Type) : Type := Result A Http1ProxyError → list N → list N → RelayState → Prop.

Definition runs {A} (c : Relay A) (s : RelayState) (Q : Post A) : Prop :=
  ∃ r s' consumed out, c s = Some (r, s') ∧ avail s = consumed ++ avail s' ∧
    written s' = written s ++ out ∧ (clean s → clean s') ∧ Q r consumed out s'.

Lemma runs_mono {A} (c : Relay A) s (Q Q' : Post A) :
  runs c s Q →
  (∀ r consumed out s', avail s = consumed ++ avail s' → Q r consumed out s' → Q' r consumed out s') →
  runs c s Q'.
Proof. intros (r & s' & cs & out & H1 & H2 & H3 & H4 & H5) H. exists r, s', cs, out. eauto 10. Qed.

Lemma runs_ret {A} (x : A) s (Q : Post A) : Q (Ok x) [] [] s → runs (ret x) s Q.
Proof. intros H. exists (Ok x), s, [], []. by rewrite app_nil_r. Qed.

Lemma runs_fail {A} e s (Q : Post A) : Q (Err e) [] [] s → runs (fail e) s Q.
Proof. intros H. exists (Err e), s, [], []. by rewrite app_nil_r. Qed.

Lemma runs_bind {A B} (c : Relay A) (k : A → Relay B) s (Q1 : Post A) (Q : Post B) :
  runs c s Q1 →
  (∀ x c1 o1 s1, Q1 (Ok x) c1 o1 s1 → avail s = c1 ++ avail s1 → (clean s → clean s1) →
    runs (k x) s1 (λ r c2 o2 s2, Q r (c1 ++ c2) (o1 ++ o2) s2)) →
  (∀ e c1 o1 s1, Q1 (Err e) c1 o1 s1 → Q (Err e) c1 o1 s1) →
  runs (bind c k) s Q.
Proof.
  intros (r & s1 & c1 & o1 & H1 & H2 & H3 & H4 & H5) Hk He. unfold runs, bind. rewrite H1.
  destruct r as [x|e].
  - destruct (Hk x c1 o1 s1 H5 H2 H4) as (r & s2 & c2 & o2 & G1 & G2 & G3 & G4 & G5).
    exists r, s2, (c1 ++ c2), (o1 ++ o2). split_and!; [done| | |by auto|done].
    + by rewrite H2, G2, app_assoc.
    + by rewrite G3, H3, app_assoc.
  - exists (Err e), s1, c1, o1. eauto 10.
Qed.

Lemma runs_buffered {B} (k : list N → Relay B) s (Q : Post B) :
  runs (k s.(rl_buffer)) s Q → runs (bind buffered k) s Q.
Proof. done. Qed.

(** Dropping a part of the buffer that is known to be consumed. *)
Lemma runs_drain s n (Q : Post ()) :
  (∀ s', avail s = take n s.(rl_buffer) ++ avail s' → s'.(rl_buffer) = drop n s.(rl_buffer) →
    Q (Ok ()) (take n s.(rl_buffer)) [] s') →
  runs (set_buffer (drop n s.(rl_buffer))) s Q.
Proof.
  intros H. unfold runs, set_buffer. eexists _, _, (take n s.(rl_buffer)), []. split; [done|].
  unfold avail, written in *. simpl.
  assert (Ha : rl_buffer s ++ incoming (rl_reader s) =
    take n (rl_buffer s) ++ drop n (rl_buffer s) ++ incoming (rl_reader s)).
  { by rewrite app_assoc, take_drop. }
  split_and!; [done|by rewrite app_nil_r|done|]. by apply H.
Qed.

Lemma runs_write direction l s :
  runs (write_all direction l) s (λ r consumed out s',
    consumed = [] ∧ s'.(rl_buffer) = s.(rl_buffer) ∧
    match r with Ok _ => out = l | Err _ => out `prefix_of` l ∧ ¬ clean s end).
Proof.
  unfold runs, write_all. destruct s as [rd b [w os]]. destruct l as [|x l].
  - eexists _, _, [], []. unfold written. simpl. by rewrite app_nil_r.
  - destruct os as [|[[k e]|] os].
    + eexists _, _, [], (x :: l). unfold written, clean. simpl. naive_solver.
    + eexists _, _, [], (take k (x :: l)). split; [done|]. unfold written. cbn.
      assert (Hc : ¬ clean {| rl_reader := rd; rl_buffer := b; rl_writer := {| w_written := w; w_outcomes := Some (k, e) :: os |} |}).
      { intros [_ Ho]. simpl in Ho. by apply Forall_cons in Ho as [? _]. }
      split_and!; [done|done|by intros ?%Hc|done|done| |done].
      exists (drop k (x :: l)). by rewrite take_drop.
    + eexists _, _, [], (x :: l). unfold written, clean. simpl.
      split_and!; [done..| |done|done|done]. by intros [? [_ ?]%Forall_cons].
Qed.

Lemma runs_write_if forward direction l s :
  runs (write_if forward direction l) s (λ r consumed out s',
    consumed = [] ∧ s'.(rl_buffer) = s.(rl_buffer) ∧
    match r with
    | Ok _ => out = if forward then l else []
    | Err _ => out `prefix_of` (if forward then l else []) ∧ ¬ clean s
    end).
Proof. destruct forward; [apply runs_write|]. by apply runs_ret. Qed.

Definition with_reader (s : RelayState) (r : list (option ReadEvent)) : RelayState :=
  {| rl_reader := r; rl_buffer := s.(rl_buffer); rl_writer := s.(rl_writer) |}.

(** The outcomes of a read. *)
Lemma timed_read_cases direction n s :
  (0 < n)%nat →
  ∃ res r', timed_read direction n s = Some (res, with_reader s r') ∧
    (clean s → clean (with_reader s r')) ∧
    match res with
    | Ok chunk =>
        incoming s.(rl_reader) = chunk ++ incoming r' ∧ (length chunk ≤ n)%nat ∧
        (chunk = [] → clean s → incoming s.(rl_reader) = [])
    | Err _ => incoming s.(rl_reader) = incoming r' ∧ ¬ clean s
    end.
Proof.
  intros Hn. unfold timed_read, with_reader, clean. destruct s as [rd b w]. simpl.
  destruct rd as [|[[l|e]|] rd].
  - exists (Ok []), []. simpl. split_and!; try done. lia.
  - eexists (Ok (take n l)), _. split; [done|]. simpl. split_and!.
    + intros [[Hl Hr]%Forall_cons Ho]. split; [|done]. by destruct (drop n l); [|constructor].
    + destruct (drop n l) as [|y r] eqn:E; simpl.
      * rewrite <- (take_drop n l) at 1. by rewrite E, app_nil_r.
      * rewrite <- (take_drop n l) at 1. by rewrite E, <- app_assoc.
    + rewrite length_take. lia.
    + intros Ht [[Hl _]%Forall_cons _]. simpl in Hl. destruct l; [done|]. by destruct n; [lia|].
  - eexists (Err _), rd. split; [done|]. simpl. split_and!; try done; by intros [[]%Forall_cons _].
  - eexists (Err _), rd. split; [done|]. simpl. split_and!; try done; by intros [[]%Forall_cons _].
Qed.

(** A read while the buffer is empty. *)
Lemma runs_read direction n s :
  s.(rl_buffer) = [] → (0 < n)%nat →
  runs (timed_read direction n) s (λ r consumed out s',
    out = [] ∧ s'.(rl_buffer) = [] ∧
    match r with
    | Ok l => consumed = l ∧ (length l ≤ n)%nat ∧ (l = [] → clean s → avail s = [])
    | Err _ => consumed = [] ∧ ¬ clean s
    end).
Proof.
  intros Hb Hn. destruct (timed_read_cases direction n s Hn) as (res & r' & Heq & Hc & Hres).
  exists res, (with_reader s r'), (match res with Ok l => l | Err _ => [] end), [].
  unfold avail, written. simpl. rewrite Hb, app_nil_r. simpl.
  destruct res; naive_solver.
Qed.

(** ** Lines *)

Lemma find_sub_None pat l : find_sub pat l = None ↔ ∀ j, ¬ pat `prefix_of` drop j l ∨ (length l < j)%nat.
Proof.
  split.
  - intros H j. destruct (decide (length l < j)%nat) as [|Hj]; [by right|left]. revert j Hj H.
    induction l as [|x l IH]; simpl; intros j Hj; case_decide as Hp; try done.
    + intros _. by rewrite drop_nil.
    + intros H%fmap_None. destruct j as [|j]; [done|]. simpl. apply IH; [lia|done].
  - intros H. destruct (find_sub pat l) as [i|] eqn:E; [|done].
    apply find_sub_spec in E as [Hp _]. destruct (H i) as [|Hi]; [done|].
    destruct (H (length l)) as [Hl|]; [|lia]. rewrite drop_ge in Hp by lia.
    rewrite drop_ge in Hl by lia. done.
Qed.

Lemma find_sub_drop pat l scanned :
  (∀ j, (j < scanned)%nat → ¬ pat `prefix_of` drop j l) → (scanned ≤ length l)%nat →
  find_sub pat l = (λ p, scanned + p)%nat <$> find_sub pat (drop scanned l).
Proof.
  intros Hno Hlen. destruct (find_sub pat (drop scanned l)) as [p|] eqn:E; simpl.
  - apply find_sub_spec in E as [Hp Hmin]. rewrite drop_drop in Hp. apply find_sub_spec.
    split; [done|]. intros j Hj.
    destruct (decide (j < scanned)%nat); [by apply Hno|].
    specialize (Hmin (j - scanned)%nat ltac:(lia)). rewrite drop_drop in Hmin.
    by replace (scanned + (j - scanned))%nat with j in Hmin by lia.
  - rewrite find_sub_None in E. apply find_sub_None. intros j.
    destruct (decide (j < scanned)%nat); [left; by apply Hno|].
    destruct (E (j - scanned)%nat) as [Hd|Hd].
    + left. rewrite drop_drop in Hd. by replace (scanned + (j - scanned))%nat with j in Hd by lia.
    + right. rewrite length_drop in Hd. lia.
Qed.

(** A line of the input: up to and including its first line end. *)
Definition is_line (line input : list N) : Prop :=
  (2 ≤ length line)%nat ∧ find_sub CRLF input = Some (length line - 2)%nat.

Definition read_line_post (s : RelayState) : Post (list N) := λ r consumed out s',
  out = [] ∧
  match r with
  | Ok line => consumed = line ∧ is_line line (avail s)
  | Err _ => consumed = [] ∧
      (clean s → ∀ i, find_sub CRLF (avail s) = Some i → (MAX_CHUNK_LINE_BYTES ≤ i)%nat)
  end.

Lemma runs_crlf_loop direction fuel : ∀ s scanned,
  (length (incoming s.(rl_reader)) < fuel)%nat → (scanned ≤ length s.(rl_buffer))%nat →
  (∀ j, (j < scanned)%nat → ¬ CRLF `prefix_of` drop j s.(rl_buffer)) →
  runs (read_crlf_loop fuel direction scanned) s (read_line_post s).
Proof.
  induction fuel as [|fuel IH]; intros s scanned Hfuel Hsc Hno; [lia|]. cbn [read_crlf_loop].
  apply runs_buffered. pose proof (find_sub_drop _ _ _ Hno Hsc) as Hfind.
  destruct (find_sub CRLF (drop scanned (rl_buffer s))) as [p|] eqn:Hp; simpl in Hfind.
  - assert (Hlen : (scanned + p + 2 ≤ length s.(rl_buffer))%nat).
    { apply find_sub_spec in Hfind as [Hpre _]. apply prefix_length in Hpre.
      rewrite length_drop in Hpre. simpl in Hpre. lia. }
    eapply runs_bind; [apply runs_drain with (Q := λ r c o _, r = Ok () ∧ c = take (scanned + p + 2) s.(rl_buffer) ∧ o = [])| |]; [done| |naive_solver].
    intros [] c1 o1 s1 (_ & -> & ->) _ _. apply runs_ret. rewrite app_nil_r.
    split_and!; [done..|]. unfold is_line. rewrite length_take, Nat.min_l by lia. split; [lia|].
    replace (scanned + p + 2 - 2)%nat with (scanned + p)%nat by lia.
    apply find_sub_app; [simpl; lia|done].
  - assert (Hbig : ∀ i, find_sub CRLF (avail s) = Some i → (length s.(rl_buffer) < i + 2)%nat).
    { intros i Hi. destruct (decide (i + 2 ≤ length s.(rl_buffer))%nat) as [Hle|]; [|lia].
      apply find_sub_app in Hi; [congruence|done]. }
    case_decide as Hmax.
    { apply runs_fail. split_and!; [done..|]. intros _ i Hi%Hbig. unfold MAX_CHUNK_LINE_BYTES in *. lia. }
    destruct (timed_read_cases direction 1024 s ltac:(lia)) as (res & r' & Heq & Hc & Hres).
    unfold runs, bind. rewrite Heq. destruct res as [[|x chunk]|e].
    + destruct Hres as (Hin & _ & Hend). exists (Err (parse_side_error direction IncompleteHead)), (with_reader s r'), [], [].
      split; [done|]. unfold read_line_post, avail, written. simpl. rewrite Hin, app_nil_r. split_and!; try done.
      intros Hcl i. rewrite <- (app_nil_l (incoming r')), <- Hin, (Hend eq_refl Hcl), app_nil_r. congruence.
    + destruct Hres as (Hin & _ & _).
      set (s1 := {| rl_reader := r'; rl_buffer := s.(rl_buffer) ++ x :: chunk; rl_writer := s.(rl_writer) |}).
      assert (Ha : avail s1 = avail s) by (unfold avail; simpl; by rewrite Hin, <- app_assoc).
      destruct (IH s1 (length s.(rl_buffer) - 1)%nat) as (r & s2 & c & o & H1 & H2 & H3 & H4 & H5).
      { rewrite Hin in Hfuel. rewrite length_app in Hfuel. simpl in Hfuel |- *. lia. }
      { simpl. rewrite length_app. lia. }
      { simpl. intros j Hj. rewrite prefix_drop_app by (simpl; lia).
        rewrite find_sub_None in Hfind. destruct (Hfind j); [done|lia]. }
      exists r, s2, c, o. split; [exact H1|]. rewrite <- Ha. split; [done|]. split; [done|].
      split; [by intros ?%Hc; apply H4|]. unfold read_line_post in *. rewrite Ha in H5.
      destruct H5 as [Ho H5]. split; [done|]. destruct r; [done|]. destruct H5 as [-> H5].
      split; [done|]. intros ?%Hc. by apply H5.
    + destruct Hres as (Hin & Hcl). exists (Err e), (with_reader s r'), [], [].
      split; [done|]. unfold read_line_post, avail, written. simpl. rewrite Hin, app_nil_r. split_and!; done.
Qed.

Lemma runs_crlf_line direction work s :
  (length (avail s) < work)%nat → runs (read_crlf_line work direction) s (read_line_post s).
Proof.
  intros Hw. apply runs_crlf_loop; [|lia|lia]. unfold avail in Hw. rewrite length_app in Hw. lia.
Qed.

(** ** A known number of bytes *)

(** Exactly [n] bytes pass through; a failure has written a part of them, and happens with
    well-behaved peers only when the input is too short. *)
Definition exact_post {A} (s : RelayState) (n : N) : Post A := λ r consumed out _,
  match r with
  | Ok _ => out = consumed ∧ N.of_nat (length consumed) = n
  | Err _ => out `prefix_of` avail s ∧ N.of_nat (length out) ≤ n ∧
             (clean s → N.of_nat (length (avail s)) < n)
  end.

(** A first part passed and the rest behaves. *)
Lemma exact_post_app {A} (s s1 : RelayState) (l : list N) n (r : Result A _) c2 o2 s2 :
  avail s = l ++ avail s1 → (clean s → clean s1) → N.of_nat (length l) ≤ n →
  exact_post s1 (n - N.of_nat (length l)) r c2 o2 s2 → exact_post s n r (l ++ c2) (l ++ o2) s2.
Proof.
  intros Ha Hc Hl. unfold exact_post. rewrite Ha. destruct r.
  - intros [-> Hlen]. split; [done|]. rewrite length_app. lia.
  - intros (Hp & Hlen & Hs). split_and!.
    + by apply prefix_app.
    + rewrite length_app. lia.
    + intros ?%Hc%Hs. rewrite length_app. lia.
Qed.

Lemma exact_post_write_failed {A} (s s1 : RelayState) (l : list N) n e c out s2 :
  l `prefix_of` avail s → out `prefix_of` l → N.of_nat (length l) ≤ n → ¬ clean s →
  exact_post (A := A) s n (Err e) c out s2.
Proof.
  intros Hl Ho Hn Hc. split_and!; [by etrans| |done]. apply prefix_length in Ho. lia.
Qed.

(** Writing bytes just taken off the input. *)
Lemma runs_pass {A} direction l (k : Relay A) s0 s n :
  avail s0 = l ++ avail s → (clean s0 → clean s) → N.of_nat (length l) ≤ n →
  (∀ s1, avail s1 = avail s → s1.(rl_buffer) = s.(rl_buffer) → (clean s → clean s1) →
    runs k s1 (exact_post s1 (n - N.of_nat (length l)))) →
  runs (write_all direction l ;; k) s (λ r c o s', exact_post s0 n r (l ++ c) o s').
Proof.
  intros Ha Hc Hl Hk. eapply runs_bind; [apply runs_write| |].
  - intros [] c1 o1 s1 (-> & Hb & ->) Ha1 Hc1. simpl in Ha1.
    eapply runs_mono; [apply Hk; [done|done|done]|]. intros r c o s' _ H. simpl.
    eapply exact_post_app; [|by intros ?%Hc%Hc1|done|done]. by rewrite Ha, Ha1.
  - intros e c1 o1 s1 (-> & _ & Ho & Hcl).
    eapply exact_post_write_failed; [exact s|by exists (avail s)|done|done|by intros ?%Hc].
Qed.

Lemma runs_remaining direction fuel : ∀ s remaining,
  (length (avail s) < fuel)%nat → s.(rl_buffer) = [] ∨ remaining = 0 →
  runs (relay_remaining fuel direction remaining) s (exact_post s remaining).
Proof.
  induction fuel as [|fuel IH]; intros s remaining Hfuel Hb; [lia|]. cbn [relay_remaining].
  case_decide as Hz; [by apply runs_ret; subst|]. destruct Hb as [Hb|]; [|done].
  eapply runs_bind; [apply runs_read; [done|lia]| |].
  - intros chunk c1 o1 s1 (-> & Hb1 & -> & Hlen & Hend) Ha Hc.
    destruct chunk as [|x chunk].
    + apply runs_fail. simpl. split_and!; [apply prefix_nil|lia|]. intros Hcl.
      rewrite (Hend eq_refl Hcl). simpl. lia.
    + apply runs_pass; [done|done|lia|]. intros s2 Ha2 Hb2 _.
      apply IH; [|left; congruence]. rewrite Ha2. rewrite Ha, length_app in Hfuel. simpl in Hfuel. lia.
  - intros e c1 o1 s1 (-> & _ & -> & Hcl). split_and!; [apply prefix_nil|simpl; lia|done].
Qed.

(** Taking bytes off the buffer. *)
Lemma runs_pass_buffer {A} direction m (k : Relay A) s n :
  N.of_nat m ≤ n → (m ≤ length s.(rl_buffer))%nat →
  (∀ s1, avail s = take m s.(rl_buffer) ++ avail s1 → s1.(rl_buffer) = drop m s.(rl_buffer) →
    runs k s1 (exact_post s1 (n - N.of_nat m))) →
  runs (write_all direction (take m s.(rl_buffer)) ;; set_buffer (drop m s.(rl_buffer)) ;; k) s
    (exact_post s n).
Proof.
  intros Hm Hlen Hk. eapply runs_bind; [apply runs_write| |].
  - intros [] c1 o1 s1 (-> & Hb & ->) Ha Hc. rewrite <- Hb. simpl in Ha.
    eapply runs_bind; [apply runs_drain with (Q := λ r c o s2, r = Ok () ∧ c = take m s1.(rl_buffer) ∧
      o = [] ∧ s2.(rl_buffer) = drop m s1.(rl_buffer))| |]; [done| |naive_solver].
    intros [] c2 o2 s2 (_ & -> & -> & Hb2) Ha2 Hc2.
    eapply runs_mono; [apply Hk; [by rewrite Ha, Ha2, Hb|congruence]|].
    intros r c o s' _ H. simpl.
    eapply exact_post_app; [by rewrite Ha, Ha2, Hb|auto| |]; rewrite length_take, Nat.min_l by (rewrite ?Hb; lia); done.
  - intros e c1 o1 s1 (-> & Hb & Ho & Hcl).
    eapply exact_post_write_failed; [exact s| |done| |done].
    + exists (drop m s.(rl_buffer) ++ incoming s.(rl_reader)). unfold avail. by rewrite app_assoc, take_drop.
    + rewrite length_take. lia.
Qed.

Lemma runs_exact direction fuel : ∀ s remaining,
  (length (avail s) < fuel)%nat →
  runs (relay_exact_bytes fuel direction remaining) s (exact_post s remaining).
Proof.
  induction fuel as [|fuel IH]; intros s remaining Hfuel; [lia|]. cbn [relay_exact_bytes].
  case_decide as Hz; [by apply runs_ret; subst|]. apply runs_buffered.
  destruct (rl_buffer s) as [|y b] eqn:Eb.
  - eapply runs_bind; [apply runs_read; [done|lia]| |].
    + intros chunk c1 o1 s1 (-> & Hb1 & -> & Hlen & Hend) Ha Hc.
      destruct chunk as [|x chunk].
      * apply runs_fail. simpl. split_and!; [apply prefix_nil|lia|]. intros Hcl.
        rewrite (Hend eq_refl Hcl). simpl. lia.
      * apply runs_pass; [done|done|lia|]. intros s2 Ha2 Hb2 _.
        apply IH. rewrite Ha2. rewrite Ha, length_app in Hfuel. simpl in Hfuel. lia.
    + intros e c1 o1 s1 (-> & _ & -> & Hcl). split_and!; [apply prefix_nil|simpl; lia|done].
  - rewrite <- Eb. assert (Hpos : (0 < length s.(rl_buffer))%nat) by (rewrite Eb; simpl; lia).
    apply runs_pass_buffer; [lia|lia|]. intros s1 Ha Hb1. apply IH.
    rewrite Ha, length_app, length_take in Hfuel. lia.
Qed.

Lemma relay_content_length_eq fuel direction n s :
  let m := N.to_nat (N.min n (N.of_nat (length s.(rl_buffer)))) in
  relay_content_length fuel direction n s =
  match s.(rl_buffer) with
  | [] => relay_remaining fuel direction n s
  | _ => (write_all direction (take m s.(rl_buffer)) ;; set_buffer (drop m s.(rl_buffer)) ;;
          relay_remaining fuel direction (n - N.of_nat m)) s
  end.
Proof.
  intros m. unfold relay_content_length, relay_buffered, bind. simpl.
  destruct (rl_buffer s) as [|y b] eqn:Eb; [cbn; by rewrite N.sub_0_r|]. fold m.
  destruct (write_all _ _ s) as [[[] s1]|]; [|done|done]. simpl.
  assert (length (take m (y :: b)) = m) as -> by (rewrite length_take; lia). done.
Qed.

Lemma runs_content_length direction fuel s n :
  (length (avail s) < fuel)%nat →
  runs (relay_content_length fuel direction n) s (exact_post s n).
Proof.
  intros Hfuel. unfold runs. rewrite relay_content_length_eq.
  remember (N.to_nat (N.min n (N.of_nat (length s.(rl_buffer))))) as m eqn:Hm.
  destruct (rl_buffer s) as [|y b] eqn:Eb.
  - apply (runs_remaining direction fuel s n); [done|by left].
  - rewrite <- Eb in *. apply (runs_pass_buffer direction m _ s n); [lia|lia|].
    intros s1 Ha Hb1. apply runs_remaining.
    + rewrite Ha, length_app in Hfuel. lia.
    + rewrite Hb1. destruct (decide (N.of_nat m = n)); [right; lia|left].
      apply drop_ge. lia.
Qed.

(** ** Chunked bodies *)

Lemma is_line_split line input rest :
  is_line line input → input = line ++ rest →
  ∃ text, line = text ++ CRLF ∧ ∀ more, find_sub CRLF (text ++ CRLF ++ more) = Some (length text).
Proof.
  intros [Hlen Hfind] ->. exists (take (length line - 2) line).
  assert (Hline : line = take (length line - 2) line ++ CRLF).
  { rewrite <- (take_drop (length line - 2) line) at 1. f_equal.
    apply find_sub_spec in Hfind as [[k Hk] _]. rewrite drop_app_le in Hk by lia.
    apply (f_equal (take 2)) in Hk. rewrite take_app_le in Hk by (rewrite length_drop; lia).
    rewrite take_ge in Hk by (rewrite length_drop; lia). exact Hk. }
  split; [exact Hline|]. intros more. rewrite app_assoc, <- Hline, length_take, Nat.min_l by lia.
  apply find_sub_app; [simpl; lia|]. by apply find_sub_app in Hfind; [|simpl; lia].
Qed.

(** ** The grammar of chunked bodies *)

(** The text of a line, whose end is the first one in it. *)
Definition line_of (text : list N) : Prop := find_sub CRLF (text ++ CRLF) = Some (length text).

(** Trailer lines up to and with the empty line that ends the message. *)
Inductive trailer_part : list N → Prop :=
| trailer_part_end : trailer_part CRLF
| trailer_part_line text rest :
    line_of text → text ≠ [] → trailer_part rest → trailer_part (text ++ CRLF ++ rest).

(** Exactly one chunked body and its payload: chunks of the announced size, each with its
    terminator, the zero chunk, and the trailer part. *)
Inductive chunked_body : list N → list N → Prop :=
| chunked_body_last text rest :
    line_of text → parse_chunk_size_line text = Some 0 → trailer_part rest →
    chunked_body (text ++ CRLF ++ rest) []
| chunked_body_chunk text data raw payload :
    line_of text → parse_chunk_size_line text = Some (N.of_nat (length data)) → data ≠ [] →
    chunked_body raw payload → chunked_body (text ++ CRLF ++ data ++ CRLF ++ raw) (data ++ payload).

Lemma line_of_more text more : line_of text → find_sub CRLF (text ++ CRLF ++ more) = Some (length text).
Proof.
  intros H. rewrite app_assoc. apply find_sub_app; [|done]. rewrite length_app. simpl. lia.
Qed.

Lemma is_line_of line input rest :
  is_line line input → input = line ++ rest → ∃ text, line = text ++ CRLF ∧ line_of text.
Proof.
  intros Hl Hi. destruct (is_line_split _ _ _ Hl Hi) as (text & -> & Hfind). exists text. split; [done|].
  specialize (Hfind []). by rewrite app_nil_r in Hfind.
Qed.

(** The first line of an input is determined. *)
Lemma line_of_inj t1 t2 r1 r2 :
  line_of t1 → line_of t2 → t1 ++ CRLF ++ r1 = t2 ++ CRLF ++ r2 → t1 = t2 ∧ r1 = r2.
Proof.
  intros H1 H2 E. assert (Hlen : length t1 = length t2).
  { apply (line_of_more _ r1) in H1. apply (line_of_more _ r2) in H2. rewrite E in H1. congruence. }
  apply app_inj_1 in E as [-> E]; [|done]. by apply app_inv_head in E.
Qed.

Lemma trailer_part_inj x y a b : trailer_part x → trailer_part y → x ++ a = y ++ b → x = y.
Proof.
  intros Hx. revert y. induction Hx as [|t1 r1 H1 N1 _ IH]; intros y Hy E; destruct Hy as [|t2 r2 H2 N2 Hy]; [done|..].
  - rewrite <- !app_assoc in E. by apply (line_of_inj [] t2) in E as [<- _].
  - rewrite <- !app_assoc in E. by apply (line_of_inj t1 []) in E as [-> _].
  - rewrite <- !app_assoc in E. apply line_of_inj in E as [-> E]; [|done..]. do 2 f_equal. by apply IH.
Qed.

(** An input starts with at most one chunked body. *)
Lemma chunked_body_inj x p y q a b : chunked_body x p → chunked_body y q → x ++ a = y ++ b → x = y.
Proof.
  intros Hx. revert y q. induction Hx as [t1 r1 H1 S1 T1|t1 d1 r1 p1 H1 S1 N1 _ IH]; intros y q Hy E;
    destruct Hy as [t2 r2 H2 S2 T2|t2 d2 r2 p2 H2 S2 N2 Hy]; rewrite <- !app_assoc in E;
    (apply line_of_inj in E as [-> E]; [|done..]); rewrite S1 in S2; try (injection S2 as S2).
  - do 2 f_equal. by eapply trailer_part_inj.
  - by destruct d2.
  - by destruct d1.
  - apply app_inj_1 in E as [-> E]; [|lia]. apply app_inv_head in E. do 4 f_equal. by eapply IH.
Qed.

Lemma runs_trailers direction forward work fuel : ∀ s trailer_bytes,
  (length (avail s) < fuel)%nat → (length (avail s) < work)%nat →
  runs (relay_trailers fuel work direction forward trailer_bytes) s (λ r consumed out _,
    match r with
    | Ok _ => out = (if forward then consumed else []) ∧ trailer_part consumed
    | Err _ => forward = false → out = []
    end).
Proof.
  induction fuel as [|fuel IH]; intros s tb Hfuel Hwork; [lia|]. cbn [relay_trailers].
  eapply runs_bind; [by apply runs_crlf_line| |by intros e c o s1 [-> _] _].
  intros line c1 o1 s1 (-> & -> & Hline) Ha _.
  destruct (is_line_of _ _ _ Hline Ha) as (text & Htext & Hof).
  case_decide; [by apply runs_fail|].
  eapply runs_bind; [apply runs_write_if| |].
  - intros [] c2 o2 s2 (-> & _ & ->) Ha2 _. simpl in Ha2. case_decide as Hend.
    + apply runs_ret. rewrite !app_nil_r, Hend. split; [by destruct forward|constructor].
    + assert (Hl2 : (2 ≤ length line)%nat) by (rewrite Htext, length_app; simpl; lia).
      rewrite Ha, Ha2, length_app in Hfuel, Hwork.
      eapply runs_mono; [apply IH; lia|]. intros [[]|e] c o s' _ Hpost; simpl in *.
      * destruct Hpost as [-> Hpart]. split; [by destruct forward|]. subst line. rewrite <- app_assoc.
        constructor; [done| |done]. by intros ->.
      * intros ->. by apply Hpost.
  - intros e c2 o2 s2 (-> & _ & Ho & _) ->. simpl. by apply prefix_nil_inv in Ho.
Qed.

(** One chunk is decoded before the rest. *)
Lemma decode_chunk fuel text size data rest decoded :
  (∀ more, find_sub CRLF (text ++ CRLF ++ more) = Some (length text)) →
  parse_chunk_size_line text = Some size → size ≠ 0 → N.of_nat (length data) = size →
  decode_chunked_loop (S fuel) (text ++ CRLF ++ data ++ CRLF ++ rest) decoded =
  decode_chunked_loop fuel rest (decoded ++ data).
Proof.
  intros Hfind Hparse Hz Hlen. cbn [decode_chunked_loop]. rewrite Hfind. cbn [mbind option_bind].
  rewrite take_app_length, Hparse. cbn [mbind option_bind]. rewrite decide_False by done.
  assert (Hd : drop (length text + 2) (text ++ CRLF ++ data ++ CRLF ++ rest) = data ++ CRLF ++ rest).
  { rewrite drop_app_ge by lia. by replace (length text + 2 - length text)%nat with 2%nat by lia. }
  rewrite Hd, decide_False by (rewrite length_app; lia).
  replace (N.to_nat size) with (length data) by lia. by rewrite drop_app_length, take_app_length.
Qed.

Lemma decode_last fuel text rest decoded :
  (∀ more, find_sub CRLF (text ++ CRLF ++ more) = Some (length text)) →
  parse_chunk_size_line text = Some 0 →
  decode_chunked_loop (S fuel) (text ++ CRLF ++ rest) decoded = Some decoded.
Proof.
  intros Hfind Hparse. cbn [decode_chunked_loop]. rewrite Hfind. simpl.
  by rewrite take_app_length, Hparse.
Qed.

(** What decoding a buffered body gives, with enough fuel. *)
Definition decodes (raw payload : list N) : Prop :=
  ∀ fuel decoded, (length raw < fuel)%nat →
    decode_chunked_loop fuel raw decoded = Some (decoded ++ payload).

Lemma chunked_body_decodes raw payload : chunked_body raw payload → decodes raw payload.
Proof.
  induction 1 as [text rest Hl Hs _|text data raw payload Hl Hs Hne _ IH]; intros [|fuel] decoded Hf; [lia| |lia|].
  - rewrite app_nil_r. apply decode_last; [|done]. intros more. by apply line_of_more.
  - rewrite (decode_chunk _ _ (N.of_nat (length data))); [|intros; by apply line_of_more|done|by destruct data|done].
    rewrite IH; [by rewrite app_assoc|]. rewrite !length_app in Hf. simpl in Hf. lia.
Qed.

(** The total stays within the limit; a limit of [u64::MAX] is no limit. *)
Definition within (max total : N) (l : list N) : Prop :=
  max < u64_max → total + N.of_nat (length l) ≤ max.

Definition chunks_post (max : N) (forward : bool) (total : N) : Post () := λ r consumed out _,
  match r with
  | Ok _ => ∃ payload, chunked_body consumed payload ∧
      out = (if forward then consumed else payload) ∧ within max total payload
  | Err _ => forward = false → within max total out
  end.

Lemma within_nil max total : (max < u64_max → total ≤ max) → within max total [].
Proof. unfold within. simpl. lia. Qed.

Lemma within_app max total size l1 l2 :
  N.of_nat (length l1) = size → within max (saturating_add u64_max total size) l2 →
  ¬ max < saturating_add u64_max total size → within max total (l1 ++ l2).
Proof. unfold within, saturating_add. rewrite length_app. lia. Qed.

Lemma chunks_post_more max forward total size text data r c o s' :
  line_of text → parse_chunk_size_line text = Some size → size ≠ 0 → N.of_nat (length data) = size →
  ¬ max < saturating_add u64_max total size →
  chunks_post max forward (saturating_add u64_max total size) r c o s' →
  chunks_post max forward total r ((text ++ CRLF) ++ data ++ CRLF ++ c)
    ((if forward then text ++ CRLF else []) ++ data ++ (if forward then CRLF else []) ++ o) s'.
Proof.
  intros Hfind Hparse Hz Hlen Hmax. unfold chunks_post. destruct r.
  - intros (payload & Hd & -> & Hw). exists (data ++ payload). split_and!.
    + rewrite <- app_assoc. constructor; [done|by rewrite Hlen| |done]. intros ->. simpl in Hlen. lia.
    + by destruct forward.
    + by eapply within_app.
  - intros Hw Hf. specialize (Hw Hf). rewrite Hf. simpl. by eapply within_app.
Qed.

Lemma runs_chunks direction max forward work fuel : ∀ s total,
  (length (avail s) < fuel)%nat → (length (avail s) < work)%nat → (max < u64_max → total ≤ max) →
  runs (relay_chunks fuel work direction max forward total) s (chunks_post max forward total).
Proof.
  induction fuel as [|fuel IH]; intros s total Hfuel Hwork Htot; [lia|]. cbn [relay_chunks].
  eapply runs_bind; [by apply runs_crlf_line| |].
  2: { intros e c o s1 [-> _] _. by apply within_nil. }
  intros line c1 o1 s1 (-> & -> & Hline) Ha _.
  destruct (is_line_of _ _ _ Hline Ha) as (text & -> & Hfind).
  rewrite length_app, Nat.add_sub, take_app_length.
  destruct (parse_chunk_size_line text) as [size|] eqn:Hparse.
  2: { apply runs_fail. intros _. by apply within_nil. }
  case_decide as Hmax; [apply runs_fail; intros _; by apply within_nil|].
  rewrite Ha, !length_app in Hfuel, Hwork. simpl in Hfuel, Hwork.
  eapply runs_bind; [apply runs_write_if| |].
  2: { intros e c2 o2 s2 (-> & _ & Ho & _) ->. apply prefix_nil_inv in Ho as ->. by apply within_nil. }
  intros [] c2 o2 s2 (-> & _ & ->) Ha2 _. simpl in Ha2. rewrite Ha2 in Hfuel, Hwork.
  case_decide as Hz.
  - subst size. eapply runs_mono; [apply runs_trailers; lia|].
    intros [[]|e] c o s' _ Hpost; simpl in *.
    + destruct Hpost as [-> Hpart]. exists []. split_and!; [|by destruct forward|by apply within_nil].
      rewrite <- app_assoc. by constructor.
    + intros Hf. rewrite (Hpost Hf), Hf. by apply within_nil.
  - eapply runs_bind; [apply runs_exact; lia| |].
    2: { intros e c3 o3 s3 (_ & Ho & _) Hf. rewrite Hf. simpl. unfold within, saturating_add in *. lia. }
    intros [] c3 o3 s3 [-> Hlen] Ha3 _. rewrite Ha3, length_app in Hfuel, Hwork.
    assert (Hdata : forward = false → within max total c3).
    { intros _. unfold within, saturating_add in *. lia. }
    eapply runs_bind; [apply runs_crlf_line; lia| |].
    2: { intros e c4 o4 s4 [-> _] Hf. rewrite Hf, app_nil_r. by apply Hdata. }
    intros term c4 o4 s4 (-> & -> & _) Ha4 _. rewrite Ha4, length_app in Hfuel, Hwork.
    case_decide; [subst term|apply runs_fail; intros Hf; rewrite Hf, app_nil_r; by apply Hdata].
    eapply runs_bind; [apply runs_write_if| |].
    2: { intros e c5 o5 s5 (-> & _ & Ho & _) Hf. rewrite Hf in Ho |- *. apply prefix_nil_inv in Ho as ->.
         rewrite app_nil_r. by apply Hdata. }
    intros [] c5 o5 s5 (-> & _ & ->) Ha5 _. simpl in Ha5. rewrite Ha5 in Hfuel, Hwork.
    eapply runs_mono; [apply IH; [simpl in *; lia..|unfold saturating_add in *; lia]|].
    intros r c o s' _ Hpost. by eapply chunks_post_more.
Qed.

(** ** Bodies that end with the connection *)

Lemma lower_hex_spec fuel : ∀ n, n < 16 ^ N.of_nat fuel → (0 < fuel)%nat →
  lower_hex fuel n ≠ [] ∧ (length (lower_hex fuel n) ≤ fuel)%nat ∧
  Forall (λ c, 48 ≤ c ≤ 57 ∨ 97 ≤ c ≤ 102) (lower_hex fuel n) ∧
  parse_digits 16 (digit_value <$> lower_hex fuel n) = n.
Proof.
  assert (Hdigit : ∀ d, d < 16 →
    let c := if decide (d < 10) then 48 + d else 87 + d in
    (48 ≤ c ≤ 57 ∨ 97 ≤ c ≤ 102) ∧ digit_value c = d).
  { intros d Hd. unfold digit_value. repeat case_decide; lia. }
  induction fuel as [|fuel IH]; intros n Hn Hf; [lia|]. cbn [lower_hex]. case_decide as Hs.
  - destruct (Hdigit n Hs) as [Hr Hv]. split_and!; [done|simpl; lia|by apply Forall_singleton|].
    unfold parse_digits. cbn -[digit_value]. rewrite Hv. lia.
  - destruct fuel as [|fuel]; [simpl in Hn; lia|].
    assert (Hdiv : n / 16 < 16 ^ N.of_nat (S fuel)).
    { apply N.Div0.div_lt_upper_bound. replace (N.of_nat (S (S fuel))) with (N.succ (N.of_nat (S fuel))) in Hn by lia.
      rewrite N.pow_succ_r' in Hn. exact Hn. }
    destruct (IH (n / 16) Hdiv) as (Hne & Hlen & Hall & Hval); [lia|].
    assert (Hmod : n mod 16 < 16) by (apply N.mod_lt; lia).
    destruct (Hdigit _ Hmod) as [Hr Hv].
    assert (Hq : n = 16 * (n / 16) + n mod 16) by (apply N.div_mod; lia).
    set (h := lower_hex (S fuel) (n / 16)) in *. split_and!.
    + by destruct h.
    + rewrite length_app. simpl. lia.
    + rewrite Forall_app. split; [done|]. by apply Forall_singleton.
    + unfold parse_digits in *. rewrite fmap_app, foldl_app, Hval. cbn -[digit_value N.div N.modulo].
      rewrite Hv. lia.
Qed.

Lemma span_until_all f l : Forall (λ c, f c = false) l → span_until f l = (l, []).
Proof. induction 1 as [|c l Hc _ IH]; [done|]. simpl. by rewrite Hc, IH. Qed.

Lemma parse_hex_usize n : n ≤ u64_max → parse_chunk_size_line (hex_usize n) = Some n.
Proof.
  intros Hn. destruct (lower_hex_spec 16 n) as (Hne & Hlen & Hall & Hval); [|lia|].
  { change (16 ^ N.of_nat 16) with (u64_max + 1). lia. }
  unfold parse_chunk_size_line, hex_usize. rewrite span_until_all.
  - rewrite bool_decide_eq_false_2 by done. rewrite bool_decide_eq_false_2 by lia. cbn [orb skip_blanks].
    unfold parse_u64_digits. rewrite Hval. by rewrite decide_True.
  - eapply Forall_impl; [exact Hall|]. intros c Hc. cbn beta in Hc. apply negb_false_iff, bool_decide_eq_true. lia.
Qed.

Lemma find_crlf l more : 13 ∉ l → find_sub CRLF (l ++ CRLF ++ more) = Some (length l).
Proof.
  induction l as [|x l IH]; intros Hcr; [done|]. apply not_elem_of_cons in Hcr as [Hx Hcr].
  cbn [app find_sub]. rewrite decide_False by (intros [? [= ? _]]; congruence). by rewrite IH.
Qed.

Lemma find_crlf_hex n more :
  n ≤ u64_max → find_sub CRLF (hex_usize n ++ CRLF ++ more) = Some (length (hex_usize n)).
Proof.
  intros Hn. apply find_crlf. destruct (lower_hex_spec 16 n) as (_ & _ & Hall & _); [|lia|].
  { change (16 ^ N.of_nat 16) with (u64_max + 1). lia. }
  intros H. rewrite Forall_forall in Hall. specialize (Hall 13 H). simpl in Hall. lia.
Qed.

(** A frame in front of a chunked body. *)
Lemma chunked_body_frame chunk raw payload :
  chunk ≠ [] → N.of_nat (length chunk) ≤ u64_max → chunked_body raw payload →
  chunked_body (chunk_frame chunk ++ raw) (chunk ++ payload).
Proof.
  intros Hne Hlen Hd. unfold chunk_frame. rewrite <- !app_assoc.
  constructor; [|by apply parse_hex_usize|done|done].
  pose proof (find_crlf_hex _ [] Hlen) as H. by rewrite app_nil_r in H.
Qed.

Lemma chunked_body_end : chunked_body (bytes "0" ++ CRLF ++ CRLF) [].
Proof. by repeat constructor. Qed.

Lemma runs_next_chunk direction s :
  runs (next_chunk direction) s (λ r consumed out s',
    out = [] ∧
    match r with
    | Ok l => consumed = l ∧ (length l ≤ RELAY_CHUNK_BYTES)%nat ∧ (l = [] → clean s → avail s = [])
    | Err _ => consumed = [] ∧ ¬ clean s
    end).
Proof.
  unfold next_chunk. apply runs_buffered.
  assert (Hpos : (0 < RELAY_CHUNK_BYTES)%nat) by (unfold RELAY_CHUNK_BYTES; lia).
  destruct (rl_buffer s) as [|y b] eqn:Eb.
  - eapply runs_mono; [by apply runs_read|]. intros r c o s' _. naive_solver.
  - rewrite <- Eb. set (n := (_ `min` _)%nat).
    eapply runs_bind; [apply runs_drain with (Q := λ r c o s2, r = Ok () ∧ c = take n s.(rl_buffer) ∧ o = [])| |];
      [done| |naive_solver].
    intros [] c1 o1 s1 (_ & -> & ->) _ _. apply runs_ret. rewrite !app_nil_r.
    assert (Hn : length (take n s.(rl_buffer)) = n) by (rewrite length_take; lia).
    split; [done|]. split; [done|]. split; [lia|].
    intros Hnil. exfalso. rewrite Hnil in Hn. assert (0 < length s.(rl_buffer))%nat by (rewrite Eb; simpl; lia).
    simpl in Hn. lia.
Qed.

(** Everything was taken from the input, within the limit; with well-behaved peers a
    failure means that the input exceeds the limit. *)
Definition drained_post (s : RelayState) (max total : N) (reframed : list N → list N → Prop) : Post () :=
  λ r consumed out s',
  match r with
  | Ok _ => reframed out consumed ∧ within max total consumed ∧ (clean s → avail s' = [])
  | Err _ => clean s → max < total + N.of_nat (length (avail s))
  end.

Lemma runs_close_delimited direction max fuel : ∀ s total,
  (length (avail s) < fuel)%nat → (max < u64_max → total ≤ max) →
  runs (relay_close_delimited_loop fuel direction max total) s (drained_post s max total chunked_body).
Proof.
  induction fuel as [|fuel IH]; intros s total Hfuel Htot; [lia|]. cbn [relay_close_delimited_loop].
  eapply runs_bind; [apply runs_next_chunk| |by intros e c o s1 (_ & _ & ?) ?].
  intros [|x chunk] c1 o1 s1 (-> & -> & Hlen & Hend) Ha Hc.
  - eapply runs_mono; [apply runs_write|]. intros [[]|e] c o s' Ha1 (-> & _ & Ho); simpl in *.
    + subst o. split_and!; [apply chunked_body_end|by apply within_nil|].
      intros Hcl. rewrite <- Ha1, <- Ha. by apply Hend.
    + intros Hcl. by destruct Ho as [_ []]; apply Hc.
  - set (l := x :: chunk) in *.
    assert (Hl : (0 < length l)%nat ∧ N.of_nat (length l) ≤ u64_max).
    { unfold l, RELAY_CHUNK_BYTES, u64_max in *. simpl in *. lia. }
    assert (Hlen' := f_equal length Ha). rewrite length_app in Hlen'.
    case_decide as Hmax.
    { apply runs_fail. intros _. unfold saturating_add in Hmax. lia. }
    eapply runs_bind; [apply runs_write| |].
    + intros [] c2 o2 s2 (-> & _ & ->) Ha2 Hc2. simpl in Ha2.
      eapply runs_mono; [apply IH; [rewrite <- Ha2; lia|unfold saturating_add in *; lia]|].
      intros [[]|e] c o s' _ Hpost; unfold drained_post in *.
      * destruct Hpost as (Hd & Hw & He). rewrite app_nil_l. split_and!; [|by eapply within_app|auto].
        apply chunked_body_frame; [done|lia|done].
      * intros Hcl. specialize (Hpost (Hc2 (Hc Hcl))). rewrite <- Ha2 in Hpost.
        unfold saturating_add in *. lia.
    + intros e c2 o2 s2 (_ & _ & _ & Hn) Hcl. by destruct Hn; apply Hc.
Qed.

Lemma runs_plain direction max fuel : ∀ s total,
  s.(rl_buffer) = [] → (length (avail s) < fuel)%nat → (max < u64_max → total ≤ max) →
  runs (relay_plain_loop fuel direction max total) s (drained_post s max total eq).
Proof.
  induction fuel as [|fuel IH]; intros s total Hb Hfuel Htot; [lia|]. cbn [relay_plain_loop].
  eapply runs_bind; [apply runs_read; [done|unfold RELAY_CHUNK_BYTES; lia]| |by intros e c o s1 (_ & _ & _ & ?) ?].
  intros [|x chunk] c1 o1 s1 (-> & Hb1 & -> & Hlen & Hend) Ha Hc.
  - apply runs_ret. split_and!; [done|by apply within_nil|]. intros Hcl. simpl in Ha. rewrite <- Ha. by apply Hend.
  - set (l := x :: chunk) in *. assert (Hl : (0 < length l)%nat) by (simpl; lia).
    assert (Hlen' := f_equal length Ha). rewrite length_app in Hlen'.
    case_decide as Hmax.
    { apply runs_fail. intros _. unfold saturating_add in Hmax. lia. }
    eapply runs_bind; [apply runs_write| |].
    + intros [] c2 o2 s2 (-> & Hb2 & ->) Ha2 Hc2. simpl in Ha2.
      eapply runs_mono; [apply IH; [congruence|rewrite <- Ha2; lia|unfold saturating_add in *; lia]|].
      intros [[]|e] c o s' _ Hpost; unfold drained_post in *.
      * destruct Hpost as (-> & Hw & He). split_and!; [done|by eapply within_app|auto].
      * intros Hcl. specialize (Hpost (Hc2 (Hc Hcl))). rewrite <- Ha2 in Hpost.
        unfold saturating_add in *. lia.
    + intros e c2 o2 s2 (_ & _ & _ & Hn) Hcl. by destruct Hn; apply Hc.
Qed.

(** ** Results *)

(** Enough fuel for every loop: one more than the bytes that can still be read. *)
Definition work_for (s : RelayState) : nat := S (length (avail s)).

(** The decoder of buffered bodies finds the payload. *)
Lemma decodes_body raw payload : chunked_body raw payload → decode_chunked_body raw = Some payload.
Proof. intros H%chunked_body_decodes. apply (H (S (length raw)) []). lia. Qed.

(** What a relay with the framing of [kind] does, whatever its result. *)
Definition body_post (s : RelayState) (kind : BodyKind) (max : N) : Post () := λ r consumed out s',
  match kind with
  | Body_None => r = Ok () ∧ consumed = [] ∧ out = []
  | ContentLength n => (n ≤ max → exact_post s n r consumed out s') ∧ (max < n → is_ok r = false ∧ out = [])
  | Chunked => chunks_post max true 0 r consumed out s'
  | CloseDelimited => drained_post s max 0 chunked_body r consumed out s'
  end.

Lemma runs_body direction kind max work s :
  (length (avail s) < work)%nat → runs (relay_body work direction kind max) s (body_post s kind max).
Proof.
  intros Hw. unfold relay_body, body_post. destruct kind as [|n| |].
  - by apply runs_ret.
  - case_decide; [apply runs_fail; split; [lia|done]|].
    eapply runs_mono; [by apply runs_content_length|]. intros r c o s' _ H'. split; [done|lia].
  - apply runs_chunks; lia.
  - apply runs_close_delimited; lia.
Qed.

(** C34: relaying a body always ends, whatever the peers do and however the body is framed, and
    every byte of the input is either taken by the relay or still there for the next message. *)
Theorem relay_body_total (s : RelayState) (direction : RelayDirection) (kind : BodyKind) (max : N) :
  ∃ r s' consumed out,
    relay_body (work_for s) direction kind max s = Some (r, s') ∧
    avail s = consumed ++ avail s' ∧ written s' = written s ++ out ∧
    (clean s → clean s') ∧ body_post s kind max r consumed out s'.
Proof. apply (runs_body direction kind max (work_for s) s). unfold work_for. lia. Qed.

(** C20: a chunked body is relayed faithfully.  A relay that succeeds took exactly one chunked body
    from the input: chunks of the announced sizes with their terminators, the zero chunk, and the
    trailer lines up to and with the empty line, and nothing after it; no other part of the input
    starting there is a chunked body.  It wrote that body unchanged, or, for a client that does not
    understand chunks, exactly its payload, which is also what the decoder of buffered bodies finds.
    The payload stays within a body limit below 2^64-1 (a limit of 2^64-1 is none, since the total
    saturates there). *)
Theorem chunked_relay_faithful (s s' : RelayState) (direction : RelayDirection) (max : N)
  (forward_framing : bool)
  (H : relay_chunked_with_framing (work_for s) direction max forward_framing s = Some (Ok (), s')) :
  ∃ raw payload,
    avail s = raw ++ avail s' ∧ chunked_body raw payload ∧
    (∀ raw' payload' rest, avail s = raw' ++ rest → chunked_body raw' payload' → raw' = raw ∧ rest = avail s') ∧
    decode_chunked_body raw = Some payload ∧
    written s' = written s ++ (if forward_framing then raw else payload) ∧
    (max < u64_max → N.of_nat (length payload) ≤ max).
Proof.
  destruct (runs_chunks direction max forward_framing (work_for s) (work_for s) s 0)
    as (r & s1 & c & o & Heq & Ha & Hw & _ & Hpost); [unfold work_for; lia..|].
  unfold relay_chunked_with_framing in H. rewrite Heq in H. injection H as -> ->.
  destruct Hpost as (payload & Hd & -> & Hlim). exists c, payload.
  split_and!; [done|done| |by apply decodes_body|done|exact Hlim].
  intros raw' payload' rest Hr Hd'. rewrite Ha in Hr.
  pose proof (chunked_body_inj _ _ _ _ _ _ Hd Hd' Hr) as ->. by apply app_inv_head in Hr.
Qed.

Definition no_bytes : Writer := {| w_written := []; w_outcomes := [] |}.
Definition sample_chunked : RelayState :=
  {| rl_reader := [Some (Data (bytes "lo" ++ CRLF ++ bytes "0")); Some (Data (CRLF ++ CRLF ++ bytes "GET"))];
     rl_buffer := bytes "5;x" ++ CRLF ++ bytes "hel"; rl_writer := no_bytes |}.
Definition sample_relayed : RelayState :=
  {| rl_reader := []; rl_buffer := bytes "GET";
     rl_writer := {| w_written := bytes "hello"; w_outcomes := [] |} |}.

Lemma chunked_relay_faithful_witness :
  ∃ raw payload,
    avail sample_chunked = raw ++ avail sample_relayed ∧ chunked_body raw payload ∧
    (∀ raw' payload' rest, avail sample_chunked = raw' ++ rest → chunked_body raw' payload' →
       raw' = raw ∧ rest = avail sample_relayed) ∧
    decode_chunked_body raw = Some payload ∧
    written sample_relayed = written sample_chunked ++ payload ∧
    (100 < u64_max → N.of_nat (length payload) ≤ 100).
Proof.
  apply (chunked_relay_faithful sample_chunked sample_relayed Response 100 false).
  vm_compute. reflexivity.
Defined.

(** A body that ends with the connection is reframed without loss: with well-behaved peers
    and a body within the limit the relay succeeds, takes the whole input, and what it
    writes is a chunked body whose payload is exactly that input. *)
Theorem close_delimited_reframed_exactly (s : RelayState) (direction : RelayDirection) (max : N)
  (Hclean : clean s) (Hmax : N.of_nat (length (avail s)) ≤ max) :
  ∃ s' out,
    relay_close_delimited_as_chunked (work_for s) direction max s = Some (Ok (), s') ∧
    written s' = written s ++ out ∧ decode_chunked_body out = Some (avail s) ∧ avail s' = [].
Proof.
  destruct (runs_close_delimited direction max (work_for s) s 0)
    as (r & s1 & c & o & Heq & Ha & Hw & _ & Hpost); [unfold work_for; lia..|].
  destruct r as [[]|e]; simpl in Hpost; [|specialize (Hpost Hclean); lia].
  destruct Hpost as (Hd & _ & He). exists s1, o. specialize (He Hclean).
  rewrite He, app_nil_r in Ha. rewrite Ha. split_and!; [done|done|by apply decodes_body|done].
Qed.

Definition sample_stream : RelayState :=
  {| rl_reader := [Some (Data (bytes "world"))]; rl_buffer := bytes "hello "; rl_writer := no_bytes |}.

Lemma clean_sample_stream : clean sample_stream.
Proof. split; repeat constructor; done. Qed.

Lemma close_delimited_reframed_exactly_witness :
  ∃ s' out,
    relay_close_delimited_as_chunked (work_for sample_stream) Response 11 sample_stream = Some (Ok (), s') ∧
    written s' = written sample_stream ++ out ∧ decode_chunked_body out = Some (bytes "hello world") ∧
    avail s' = [].
Proof.
  apply (close_delimited_reframed_exactly sample_stream Response 11).
  - apply clean_sample_stream.
  - vm_compute. discriminate.
Defined.

(** ** Buffered bodies *)

(** The payload of a body in the input. *)
Definition payload_of (kind : BodyKind) (raw payload : list N) : Prop :=
  match kind with
  | Body_None => raw = [] ∧ payload = []
  | ContentLength n => payload = raw ∧ N.of_nat (length raw) = n
  | Chunked => decode_chunked_body raw = Some payload
  | CloseDelimited => payload = raw
  end.

(** Collecting a body fails only where relaying it fails: the decoding of the relayed
    bytes always succeeds and gives the payload of what was taken from the input. *)
Theorem collect_decoded_body_decodes (s s1 : RelayState) (direction : RelayDirection)
  (kind : BodyKind) (max : N)
  (H : relay_body (work_for s) direction kind max
         {| rl_reader := s.(rl_reader); rl_buffer := s.(rl_buffer); rl_writer := no_bytes |} =
       Some (Ok (), s1)) :
  ∃ s' raw payload,
    collect_decoded_body (work_for s) direction kind max s = Some (Ok payload, s') ∧
    avail s = raw ++ avail s' ∧ payload_of kind raw payload ∧ s'.(rl_writer) = s.(rl_writer).
Proof.
  set (s0 := {| rl_reader := _; rl_buffer := _; rl_writer := _ |}) in H.
  destruct (runs_body direction kind max (work_for s) s0) as (r & s2 & c & o & Heq & Ha & Hw & _ & Hpost).
  { unfold work_for, avail. simpl. lia. }
  rewrite Heq in H. injection H as -> ->. unfold written in Hw. simpl in Hw.
  unfold collect_decoded_body. fold no_bytes. fold s0. rewrite Heq, Hw.
  set (s' := {| rl_reader := rl_reader s1; rl_buffer := _; rl_writer := _ |}).
  change (avail s = c ++ avail s') in Ha. destruct kind as [|n| |]; unfold body_post in Hpost.
  - destruct Hpost as (_ & -> & ->). by exists s', [], [].
  - destruct Hpost as [Hle Hgt]. destruct (decide (max < n)); [by destruct Hgt|].
    destruct Hle as [-> Hlen]; [lia|]. by exists s', c, c.
  - destruct Hpost as (payload & Hd & -> & _). exists s', c, payload. simpl in *.
    by rewrite (decodes_body _ _ Hd).
  - destruct Hpost as (Hd & _ & _). exists s', c, c. by rewrite (decodes_body _ _ Hd).
Qed.

Lemma collect_decoded_body_decodes_witness :
  ∃ s' raw payload,
    collect_decoded_body (work_for sample_stream) Response CloseDelimited 11 sample_stream =
      Some (Ok payload, s') ∧
    avail sample_stream = raw ++ avail s' ∧ payload = raw ∧ s'.(rl_writer) = no_bytes.
Proof.
  apply (collect_decoded_body_decodes sample_stream
    {| rl_reader := []; rl_buffer := [];
       rl_writer := {| w_written := chunk_frame (bytes "hello ") ++ chunk_frame (bytes "world") ++
                         bytes "0" ++ CRLF ++ CRLF; w_outcomes := [] |} |}
    Response CloseDelimited 11).
  vm_compute. reflexivity.
Defined.

Lemma relay_remaining_extends fuel direction : ∀ s n s',
  relay_remaining fuel direction n s = Some (Ok (), s') → ∃ rest, written s' = written s ++ rest.
Proof.
  induction fuel as [|fuel IH]; intros s n s'; [done|]. cbn [relay_remaining]. case_decide.
  - intros [= <-]. exists []. by rewrite app_nil_r.
  - unfold bind. destruct (timed_read_cases direction (N.to_nat (N.min n 8192)) s ltac:(lia))
      as (res & r2 & -> & _ & _). destruct res as [[|y k]|e]; [done| |done].
    destruct (runs_write direction (y :: k) (with_reader s r2)) as (r & s4 & c & o & -> & _ & Hw & _ & _).
    destruct r as [[]|e]; [|done]. intros [rest ->]%IH. rewrite Hw. exists (o ++ rest).
    by rewrite <- app_assoc.
Qed.

Lemma relay_remaining_collect_eq fuel direction : ∀ collected n s,
  relay_remaining_collect fuel direction collected n s =
  match relay_remaining fuel direction n s with
  | Some (Ok _, s') => Some (Ok (collected ++ drop (length (written s)) (written s')), s')
  | Some (Err e, s') => Some (Err e, s')
  | None => None
  end.
Proof.
  induction fuel as [|fuel IH]; intros collected n s; [done|].
  cbn [relay_remaining relay_remaining_collect]. case_decide.
  - unfold ret. by rewrite drop_all, app_nil_r.
  - unfold bind. destruct (timed_read_cases direction (N.to_nat (N.min n 8192)) s ltac:(lia))
      as (res & r' & -> & _ & _). destruct res as [[|x l]|e]; [done| |done].
    destruct (runs_write direction (x :: l) (with_reader s r')) as (r & s2 & c & o & -> & _ & Hw & _ & Hr).
    destruct r as [[]|e]; [|done]. destruct Hr as (_ & _ & ->). rewrite IH.
    destruct (relay_remaining fuel direction _ s2) as [[[[]|e] s3]|] eqn:E; [|done|done].
    apply relay_remaining_extends in E as [rest ->]. do 3 f_equal. rewrite <- app_assoc. f_equal.
    rewrite Hw. change (written (with_reader s r')) with (written s).
    rewrite drop_app_length, <- app_assoc, drop_app_length. done.
Qed.

(** The collecting relay of a body with a content length does exactly what the plain one
    does, and returns the bytes that the plain one writes. *)
Theorem relay_content_length_collect_equiv (fuel : nat) (direction : RelayDirection) (n : N)
  (s : RelayState) :
  relay_content_length_collect fuel direction n s =
  match relay_content_length fuel direction n s with
  | Some (Ok _, s') => Some (Ok (drop (length (written s)) (written s')), s')
  | Some (Err e, s') => Some (Err e, s')
  | None => None
  end.
Proof.
  unfold relay_content_length_collect, relay_content_length, relay_buffered, bind. simpl.
  destruct (rl_buffer s) as [|y b].
  - cbn. rewrite relay_remaining_collect_eq. by destruct (relay_remaining _ _ _ s) as [[[]]|].
  - set (m := N.to_nat _).
    destruct (runs_write direction (take m (y :: b)) s) as (r & s1 & c & o & -> & _ & Hw & _ & Hr).
    destruct r as [[]|e]; [|done]. destruct Hr as (_ & _ & ->). cbn [ret].
    rewrite relay_remaining_collect_eq. set (s2 := {| rl_reader := _; rl_buffer := _; rl_writer := _ |}).
    destruct (relay_remaining _ _ _ s2) as [[[[]|e] s3]|] eqn:E; [|done|done].
    apply relay_remaining_extends in E as [rest ->]. change (written s2) with (written s1).
    by rewrite Hw, drop_app_length, <- app_assoc, drop_app_length.
Qed.

(** With well-behaved peers a body with a content length passes through completely: exactly
    the announced bytes are written and the bytes after them stay for the next message. *)
Theorem content_length_relay_exact (s : RelayState) (direction : RelayDirection) (n : N)
  (Hclean : clean s) (Hn : n ≤ N.of_nat (length (avail s))) :
  ∃ s', relay_content_length (work_for s) direction n s = Some (Ok (), s') ∧
    written s' = written s ++ take (N.to_nat n) (avail s) ∧
    avail s' = drop (N.to_nat n) (avail s).
Proof.
  destruct (runs_content_length direction (work_for s) s n)
    as (r & s1 & c & o & Heq & Ha & Hw & _ & Hpost); [unfold work_for; lia|].
  destruct r as [[]|e]; [|destruct Hpost as (_ & _ & He); specialize (He Hclean); lia].
  destruct Hpost as [-> Hlen]. exists s1. split; [done|].
  rewrite Ha, Hw. replace (N.to_nat n) with (length c) by lia. by rewrite take_app_length, drop_app_length.
Qed.

Lemma content_length_relay_exact_witness :
  ∃ s', relay_content_length (work_for sample_stream) Request 8 sample_stream = Some (Ok (), s') ∧
    written s' = written sample_stream ++ take (N.to_nat 8) (avail sample_stream) ∧
    avail s' = drop (N.to_nat 8) (avail sample_stream).
Proof.
  apply (content_length_relay_exact sample_stream Request 8).
  - apply clean_sample_stream.
  - vm_compute. discriminate.
Defined.

(** ** Well-formed chunked bodies are accepted *)

(** A line within the limit, without its end. *)
Definition short_line (text : list N) : Prop :=
  (length text < MAX_CHUNK_LINE_BYTES)%nat ∧ find_sub CRLF (text ++ CRLF) = Some (length text).

Inductive trailers : nat → list N → Prop :=
| trailers_end n : (n + 2 ≤ MAX_CHUNK_TRAILER_BYTES)%nat → trailers n CRLF
| trailers_line n text rest :
    short_line text → text ≠ [] → (n + length text + 2 ≤ MAX_CHUNK_TRAILER_BYTES)%nat →
    trailers (n + length text + 2) rest → trailers n (text ++ CRLF ++ rest).

Inductive well_chunked (max : N) : N → list N → list N → Prop :=
| well_chunked_last total text rest :
    short_line text → parse_chunk_size_line text = Some 0 → trailers 0 rest → total ≤ max →
    well_chunked max total (text ++ CRLF ++ rest) []
| well_chunked_more total text data raw payload :
    short_line text → parse_chunk_size_line text = Some (N.of_nat (length data)) → data ≠ [] →
    well_chunked max (saturating_add u64_max total (N.of_nat (length data))) raw payload →
    saturating_add u64_max total (N.of_nat (length data)) ≤ max →
    well_chunked max total (text ++ CRLF ++ data ++ CRLF ++ raw) (data ++ payload).

(** With well-behaved peers [c] returns [x], takes [consumed] and writes [out]. *)
Definition yields {A} (c : Relay A) (s : RelayState) (x : A) (consumed out : list N) : Prop :=
  ∃ s', c s = Some (Ok x, s') ∧ avail s = consumed ++ avail s' ∧ written s' = written s ++ out ∧ clean s'.

Lemma yields_bind {A B} (c : Relay A) (k : A → Relay B) s x y c1 o1 c2 o2 :
  yields c s x c1 o1 →
  (∀ s1, clean s1 → avail s = c1 ++ avail s1 → yields (k x) s1 y c2 o2) →
  yields (bind c k) s y (c1 ++ c2) (o1 ++ o2).
Proof.
  intros (s1 & Hc & Ha & Hw & Hcl) Hk. destruct (Hk s1 Hcl Ha) as (s2 & Hc2 & Ha2 & Hw2 & Hcl2).
  exists s2. unfold bind. rewrite Hc, Ha, Ha2, Hw2, Hw. by rewrite <- !app_assoc.
Qed.

Lemma yields_line direction work s text rest :
  clean s → (length (avail s) < work)%nat → avail s = text ++ CRLF ++ rest → short_line text →
  yields (read_crlf_line work direction) s (text ++ CRLF) (text ++ CRLF) [].
Proof.
  intros Hcl Hw Ha [Hlen Hfind].
  assert (Hf : find_sub CRLF (avail s) = Some (length text)).
  { rewrite Ha, app_assoc. apply find_sub_app; [rewrite length_app; simpl; lia|done]. }
  destruct (runs_crlf_line direction work s Hw) as (r & s' & c & o & Heq & Ha' & Hw' & Hc & -> & Hr).
  destruct r as [line|e].
  - destruct Hr as (-> & H2 & Hl). rewrite Hf in Hl. injection Hl as Hl.
    assert (line = text ++ CRLF) as ->.
    { rewrite Ha, app_assoc in Ha'. apply app_inj_1 in Ha' as [? _]; [done|].
      rewrite length_app. simpl. lia. }
    exists s'. auto.
  - destruct Hr as [_ Hr]. specialize (Hr Hcl _ Hf). lia.
Qed.

Lemma yields_write_if forward direction l s :
  clean s → yields (write_if forward direction l) s () [] (if forward then l else []).
Proof.
  intros Hcl. destruct (runs_write_if forward direction l s) as (r & s' & c & o & Heq & Ha & Hw & Hc & -> & _ & Hr).
  destruct r as [[]|e]; [|by destruct Hr]. subst o. exists s'. auto.
Qed.

Lemma yields_exact direction work s data rest :
  clean s → (length (avail s) < work)%nat → avail s = data ++ rest →
  yields (relay_exact_bytes work direction (N.of_nat (length data))) s () data data.
Proof.
  intros Hcl Hw Ha. destruct (runs_exact direction work s (N.of_nat (length data)) Hw)
    as (r & s' & c & o & Heq & Ha' & Hw' & Hc & Hr).
  destruct r as [[]|e]; [|destruct Hr as (_ & _ & Hr); specialize (Hr Hcl); rewrite Ha, length_app in Hr; lia].
  destruct Hr as [-> Hlen]. assert (c = data) as ->.
  { rewrite Ha in Ha'. symmetry in Ha'. apply app_inj_1 in Ha' as [? _]; [done|lia]. }
  exists s'. auto.
Qed.

Lemma yields_eq {A} (c : Relay A) s x c1 o1 c2 o2 :
  yields c s x c1 o1 → c1 = c2 → o1 = o2 → yields c s x c2 o2.
Proof. by intros ? -> ->. Qed.

Lemma yields_ret {A} (x : A) s : clean s → yields (ret x) s x [] [].
Proof. intros Hcl. exists s. by rewrite app_nil_r. Qed.

Lemma short_line_nil : short_line [].
Proof. split; [unfold MAX_CHUNK_LINE_BYTES; simpl; lia|done]. Qed.

Lemma yields_trailers direction forward work n raw :
  trailers n raw → ∀ fuel s rest,
  clean s → (length (avail s) < fuel)%nat → (length (avail s) < work)%nat → avail s = raw ++ rest →
  yields (relay_trailers fuel work direction forward n) s () raw (if forward then raw else []).
Proof.
  induction 1 as [n Hn|n text raw Htext Hne Hn _ IH]; intros fuel s rest Hcl Hf Hw Ha;
    (destruct fuel as [|fuel]; [lia|]); cbn [relay_trailers].
  - eapply yields_eq; [eapply yields_bind| |].
    + by apply (yields_line direction work s [] rest), short_line_nil.
    + intros s1 Hcl1 Ha1. rewrite decide_False by (simpl; lia).
      eapply yields_bind; [by apply yields_write_if|]. intros s2 Hcl2 _.
      rewrite decide_True by done. by apply yields_ret.
    + by rewrite !app_nil_r.
    + by rewrite !app_nil_r.
  - rewrite <- !app_assoc in Ha. eapply yields_eq; [eapply yields_bind| |].
    + by apply (yields_line direction work s text (raw ++ rest)).
    + intros s1 Hcl1 Ha1. rewrite length_app. cbn [length CRLF].
      rewrite decide_False by lia.
      eapply yields_bind; [by apply yields_write_if|]. intros s2 Hcl2 Ha2. simpl in Ha2.
      assert (Hrest : avail s2 = raw ++ rest).
      { rewrite Ha1, Ha2 in Ha. rewrite <- !app_assoc in Ha. by do 2 apply app_inv_head in Ha. }
      rewrite decide_False by (intros He; apply (f_equal length) in He; rewrite length_app in He;
        destruct text; [done|simpl in He; lia]).
      rewrite Ha1, Ha2, !length_app in Hf, Hw. simpl in Hf, Hw.
      replace (n + (length text + 2))%nat with (n + length text + 2)%nat by lia.
      apply (IH fuel s2 rest); [done|lia|lia|done].
    + simpl. by rewrite <- app_assoc.
    + destruct forward; [|done]. simpl. by rewrite <- app_assoc.
Qed.

Lemma yields_chunks direction forward work max total raw payload :
  well_chunked max total raw payload → ∀ fuel s rest,
  clean s → (length (avail s) < fuel)%nat → (length (avail s) < work)%nat → avail s = raw ++ rest →
  yields (relay_chunks fuel work direction max forward total) s () raw
    (if forward then raw else payload).
Proof.
  induction 1 as [total text tr Htext Hparse Htr Htot|total text data raw payload Htext Hparse Hne _ IH Htot];
    intros fuel s rest Hcl Hf Hw Ha; (destruct fuel as [|fuel]; [lia|]); cbn [relay_chunks];
    rewrite <- !app_assoc in Ha.
  - eapply yields_eq; [eapply yields_bind; [by apply (yields_line direction work s text (tr ++ rest))|]| |].
    + intros s1 Hcl1 Ha1. rewrite length_app, Nat.add_sub, take_app_length, Hparse.
      rewrite decide_False by (unfold saturating_add; lia).
      eapply yields_bind; [by apply yields_write_if|]. intros s2 Hcl2 Ha2. simpl in Ha2.
      rewrite decide_True by done.
      assert (Hrest : avail s2 = tr ++ rest).
      { rewrite Ha1, Ha2 in Ha. rewrite <- !app_assoc in Ha. by do 2 apply app_inv_head in Ha. }
      rewrite Ha1, Ha2, !length_app in Hw. apply (yields_trailers _ _ _ _ _ Htr work s2 rest); [done|lia|lia|done].
    + simpl. by rewrite <- app_assoc.
    + destruct forward; [|done]. simpl. by rewrite <- app_assoc.
  - eapply yields_eq;
      [eapply yields_bind; [by apply (yields_line direction work s text (data ++ CRLF ++ raw ++ rest))|]| |].
    + intros s1 Hcl1 Ha1. rewrite length_app, Nat.add_sub, take_app_length, Hparse.
      rewrite decide_False by lia.
      eapply yields_bind; [by apply yields_write_if|]. intros s2 Hcl2 Ha2. simpl in Ha2.
      rewrite decide_False by (destruct data; [done|simpl; lia]).
      assert (Hrest : avail s2 = data ++ CRLF ++ raw ++ rest).
      { rewrite Ha1, Ha2 in Ha. rewrite <- !app_assoc in Ha. by do 2 apply app_inv_head in Ha. }
      rewrite Ha1, Ha2, !length_app in Hf, Hw.
      eapply yields_bind; [apply (yields_exact direction work s2 data (CRLF ++ raw ++ rest)); [done|lia|done]|].
      intros s3 Hcl3 Ha3. rewrite Ha3 in Hrest. apply app_inv_head in Hrest.
      rewrite Ha3, length_app in Hf, Hw.
      eapply yields_bind; [apply (yields_line direction work s3 [] (raw ++ rest)); [done|lia|done|apply short_line_nil]|].
      intros s4 Hcl4 Ha4. rewrite decide_True by done. rewrite Ha4 in Hrest. simpl in Hrest.
      injection Hrest as Hrest. rewrite Ha4, length_app in Hf, Hw.
      eapply yields_bind; [by apply yields_write_if|]. intros s5 Hcl5 Ha5. simpl in Ha5.
      rewrite Ha5 in Hrest, Hf, Hw. apply (IH fuel s5 rest); [done|simpl in *; lia|simpl in *; lia|done].
    + simpl. by rewrite <- app_assoc.
    + destruct forward; simpl; by rewrite <- ?app_assoc.
Qed.

(** C21: with well-behaved peers every well-formed chunked body within the limits is relayed,
    however the network cuts it into segments, and what follows it stays in the input. *)
Theorem well_formed_chunked_relayed (s : RelayState) (direction : RelayDirection) (max : N)
  (forward_framing : bool) (raw payload rest : list N)
  (Hclean : clean s) (Hwf : well_chunked max 0 raw payload) (Ha : avail s = raw ++ rest) :
  ∃ s', relay_chunked_with_framing (work_for s) direction max forward_framing s = Some (Ok (), s') ∧
    written s' = written s ++ (if forward_framing then raw else payload) ∧ avail s' = rest.
Proof.
  destruct (yields_chunks direction forward_framing (work_for s) _ _ _ _ Hwf (work_for s) s rest)
    as (s' & Heq & Ha' & Hw & _); [done|unfold work_for; lia..|done|].
  exists s'. split_and!; [done|done|]. rewrite Ha in Ha'. by apply app_inv_head in Ha'.
Qed.

Lemma sample_well_chunked :
  well_chunked 100 0 (bytes "5;x" ++ CRLF ++ bytes "hello" ++ CRLF ++ bytes "0" ++ CRLF ++ CRLF)
    (bytes "hello" ++ []).
Proof.
  assert (Hs : short_line (bytes "5;x") ∧ short_line (bytes "0")).
  { unfold short_line, MAX_CHUNK_LINE_BYTES. split; split; [simpl; lia|done|simpl; lia|done]. }
  destruct Hs as [H5 H0]. apply well_chunked_more; [done|done|done| |].
  - apply well_chunked_last; [done|done| |]; [|vm_compute; discriminate].
    constructor. unfold MAX_CHUNK_TRAILER_BYTES. lia.
  - vm_compute. discriminate.
Qed.

Lemma well_formed_chunked_relayed_witness :
  ∃ s', relay_chunked_with_framing (work_for sample_chunked) Request 100 false sample_chunked =
      Some (Ok (), s') ∧
    written s' = written sample_chunked ++ bytes "hello" ++ [] ∧ avail s' = bytes "GET".
Proof.
  apply (well_formed_chunked_relayed sample_chunked Request 100 false
    (bytes "5;x" ++ CRLF ++ bytes "hello" ++ CRLF ++ bytes "0" ++ CRLF ++ CRLF) (bytes "hello" ++ [])
    (bytes "GET")).
  - split; repeat constructor; done.
  - apply sample_well_chunked.
  - vm_compute. reflexivity.
Defined.
