(* ===== verification/RequestTransforms.v ===== *)
(** * Request and response transforms

    Models [crates/runtime/src/http1_proxy/request_transforms.rs] and the transform policies
    of [crates/config-model/src/policy.rs]: merging of listener and route policies, header
    mutations, and the rewriting of request targets. *)

From S2P Require Import Prelude RustStr RustText RequestTarget RouteMatching HttpMessage.
Local Open Scope N_scope.
Local Open Scope rust_scope.

(** ** Policies *)

Inductive PathRewriteTransformConfig := ReplacePrefix (match_prefix replacement : string).
Inductive HeaderMutationConfig := SetHeader (name value : string) | RemoveHeader (name : string).

Record RequestTransformConfig := {
  path_rewrite : option PathRewriteTransformConfig;
  host_rewrite : option string;
  rt_header_mutations : list HeaderMutationConfig
}.
Definition RequestTransformConfig_default : RequestTransformConfig :=
  {| path_rewrite := None; host_rewrite := None; rt_header_mutations := [] |}.

Record ResponseTransformConfig := { st_header_mutations : list HeaderMutationConfig }.
Definition ResponseTransformConfig_default : ResponseTransformConfig := {| st_header_mutations := [] |}.

(** The transform policies of a proxy configuration. *)
Record TransformPolicies := {
  listener_request_transform : option RequestTransformConfig;
  listener_response_transform : option ResponseTransformConfig;
  route_request_transforms : gmap string RequestTransformConfig;
  route_response_transforms : gmap string ResponseTransformConfig
}.

(** [first] when present, else [second]. *)
Definition or_else {A} (first second : option A) : option A :=
  match first with Some x => Some x | None => second end.

Definition merge_request_transforms (listener route : option RequestTransformConfig) :
    option RequestTransformConfig :=
  match listener, route with
  | None, None => None
  | _, _ =>
      let merged := default RequestTransformConfig_default listener in
      Some match route with
           | Some route =>
               {| path_rewrite := or_else route.(path_rewrite) merged.(path_rewrite);
                  host_rewrite := or_else route.(host_rewrite) merged.(host_rewrite);
                  rt_header_mutations := merged.(rt_header_mutations) ++ route.(rt_header_mutations) |}
           | None => merged
           end
  end.

Definition merge_response_transforms (listener route : option ResponseTransformConfig) :
    option ResponseTransformConfig :=
  match listener, route with
  | None, None => None
  | _, _ =>
      let merged := default ResponseTransformConfig_default listener in
      Some match route with
           | Some route =>
               {| st_header_mutations := merged.(st_header_mutations) ++ route.(st_header_mutations) |}
           | None => merged
           end
  end.

Definition effective_request_transform (config : TransformPolicies) (route : option RouteMatch) :
    option RequestTransformConfig :=
  merge_request_transforms config.(listener_request_transform)
    (route ≫= λ route, config.(route_request_transforms) !! route.(m_label)).

Definition effective_response_transform (config : TransformPolicies) (route : option RouteMatch) :
    option ResponseTransformConfig :=
  merge_response_transforms config.(listener_response_transform)
    (route ≫= λ route, config.(route_response_transforms) !! route.(m_label)).

(** [destination] is the response transform of the destination policy, if there is one. *)
Definition effective_destination_response_transform (config : TransformPolicies)
    (route : option RouteMatch) (destination : option (option ResponseTransformConfig)) :
    option ResponseTransformConfig :=
  or_else (destination ≫= id) (effective_response_transform config route).

(** ** Headers *)

Definition retain_other (name : string) (headers : list HttpHeader) : list HttpHeader :=
  List.filter (λ h, negb (named name h)) headers.

Definition apply_header_mutation (headers : list HttpHeader) (mutation : HeaderMutationConfig) :
    list HttpHeader :=
  match mutation with
  | SetHeader name value =>
      let normalized := default (to_ascii_lowercase name) (normalize_http_header_name name) in
      retain_other normalized headers ++ [{| h_name := normalized; h_value := value |}]
  | RemoveHeader name => retain_other name headers
  end.

Definition apply_http1_header_mutations (headers : list HttpHeader)
    (mutations : list HeaderMutationConfig) : list HttpHeader :=
  foldl apply_header_mutation headers mutations.

Definition upsert_http1_header (headers : list HttpHeader) (name value : string) : list HttpHeader :=
  retain_other name headers ++ [{| h_name := to_ascii_lowercase name; h_value := value |}].

(** ** Targets *)

Definition rewrite_path_and_query (path_and_query : string)
    (path_rewrite : option PathRewriteTransformConfig) : string :=
  match path_rewrite with
  | None => path_and_query
  | Some (ReplacePrefix match_prefix replacement) =>
      let '(path, query) :=
        match split_once 63 path_and_query with
        | Some (path, query) => (if is_empty path then "/" else path, Some query)
        | None => (path_and_query, None)
        end in
      let rewritten_path :=
        if starts_with match_prefix path
        then replacement +:+ of_bytes (drop (str_len match_prefix) (bytes path))
        else path in
      match query with
      | Some query => rewritten_path +:+ "?" +:+ query
      | None => rewritten_path
      end
  end.

Definition rewrite_http1_request_target (target : string)
    (path_rewrite : option PathRewriteTransformConfig) (host_rewrite : option string) :
    Result string RequestTargetError :=
  let target := trim target in
  if is_empty target || bool_decide (target = "*") then Err UnsupportedForm
  else if contains 35 target then Err FragmentNotAllowed
  else
    match split_scheme target with
    | Some (scheme, remainder) =>
        if negb (http_scheme scheme) then Err UnsupportedForm
        else
          let '(authority, tail) := split_authority remainder in
          if is_blank authority then Err EmptyAuthority
          else
            let path_and_query :=
              if is_empty tail then "/" else if starts_with "?" tail then "/" +:+ tail else tail in
            Ok (scheme +:+ "://" +:+ default authority host_rewrite +:+
                rewrite_path_and_query path_and_query path_rewrite)
    | None =>
        if starts_with "/" target then Ok (rewrite_path_and_query target path_rewrite)
        else Err UnsupportedForm
    end.

Definition set_target_headers (r : Http1RequestHead) (target : string) (headers : list HttpHeader) :
    Http1RequestHead :=
  {| rq_method := r.(rq_method); rq_target := target; rq_version := r.(rq_version);
     rq_headers := headers; rq_body_kind := r.(rq_body_kind); rq_keep_alive := r.(rq_keep_alive);
     rq_route := r.(rq_route); rq_http10 := r.(rq_http10) |}.

Definition transformed_target (target : string) (transform : RequestTransformConfig) :
    Result string RequestTargetError :=
  match transform.(path_rewrite), transform.(host_rewrite) with
  | None, None => Ok target
  | _, _ => rewrite_http1_request_target target transform.(path_rewrite) transform.(host_rewrite)
  end.

(** An error leaves the request unchanged: the target is rewritten first. *)
Definition apply_request_transform (request : Http1RequestHead) (transform : RequestTransformConfig) :
    Result Http1RequestHead RequestTargetError :=
  let? target := transformed_target request.(rq_target) transform in
  let headers := apply_http1_header_mutations request.(rq_headers) transform.(rt_header_mutations) in
  Ok (set_target_headers request target
        match transform.(host_rewrite) with
        | Some host => upsert_http1_header headers "host" host
        | None => headers
        end).

(** ** Header mutations *)

Lemma filter_negb_self {A} (f : A → bool) l : List.filter f (List.filter (λ x, negb (f x)) l) = [].
Proof. induction l as [|x l IH]; simpl; [done|]. destruct (f x) eqn:E; simpl; [done|]. by rewrite E. Qed.

Lemma named_ext a b h : eq_ignore_ascii_case a b = true → named a h = named b h.
Proof.
  intros H%eq_ignore_ascii_case_iff. unfold named, eq_ignore_ascii_case. by rewrite H.
Qed.

Lemma filter_retain_same name name' headers :
  eq_ignore_ascii_case name' name = true → List.filter (named name') (retain_other name headers) = [].
Proof.
  intros H. unfold retain_other. rewrite (List.filter_ext _ (named name)) by (intros h; by apply named_ext).
  apply filter_negb_self.
Qed.

Lemma filter_retain_other name name' headers :
  eq_ignore_ascii_case name' name = false →
  List.filter (named name') (retain_other name headers) = List.filter (named name') headers.
Proof.
  intros H. unfold retain_other. rewrite (filter_filter_const _ _ true); [done|].
  intros h Hh. apply negb_true_iff. apply eq_ignore_ascii_case_iff in Hh.
  unfold named, eq_ignore_ascii_case in *. by rewrite Hh.
Qed.

(** The name a mutation is about. *)
Definition mutated_name (mutation : HeaderMutationConfig) : string :=
  match mutation with
  | SetHeader name _ => default (to_ascii_lowercase name) (normalize_http_header_name name)
  | RemoveHeader name => name
  end.

Lemma filter_mutation_other name headers mutation :
  eq_ignore_ascii_case name (mutated_name mutation) = false →
  List.filter (named name) (apply_header_mutation headers mutation) = List.filter (named name) headers.
Proof.
  intros H. destruct mutation as [n v|n]; simpl in *; [|by apply filter_retain_other].
  rewrite List.filter_app, filter_retain_other by done. cbn [List.filter].
  assert (named name {| h_name := default (to_ascii_lowercase n) (normalize_http_header_name n); h_value := v |} = false) as ->.
  { unfold named, eq_ignore_ascii_case in *. cbn [h_name]. rewrite bool_decide_eq_false in *. congruence. }
  by rewrite app_nil_r.
Qed.

Lemma filter_mutations_other name mutations : ∀ headers,
  Forall (λ m, eq_ignore_ascii_case name (mutated_name m) = false) mutations →
  List.filter (named name) (apply_http1_header_mutations headers mutations) = List.filter (named name) headers.
Proof.
  unfold apply_http1_header_mutations.
  induction mutations as [|m ms IH]; intros headers H; [done|]. apply Forall_cons in H as [Hm Hms].
  simpl. by rewrite IH, filter_mutation_other.
Qed.

(** The last mutation of a name decides. *)
Lemma filter_mutations_last name before m after headers :
  eq_ignore_ascii_case name (mutated_name m) = true →
  Forall (λ m, eq_ignore_ascii_case name (mutated_name m) = false) after →
  List.filter (named name) (apply_http1_header_mutations headers (before ++ m :: after)) =
  match m with SetHeader _ value => [{| h_name := mutated_name m; h_value := value |}] | RemoveHeader _ => [] end.
Proof.
  intros Hm Hafter. unfold apply_http1_header_mutations. rewrite foldl_app. simpl.
  fold (apply_http1_header_mutations (apply_header_mutation (foldl apply_header_mutation headers before) m) after).
  rewrite filter_mutations_other by done. destruct m as [n v|n]; simpl in *; [|by apply filter_retain_same].
  rewrite List.filter_app, filter_retain_same by done. cbn [List.filter].
  assert (named name {| h_name := default (to_ascii_lowercase n) (normalize_http_header_name n); h_value := v |} = true) as ->; [|done].
  unfold named, eq_ignore_ascii_case in *. cbn [h_name]. rewrite bool_decide_eq_true in *. congruence.
Qed.

(** After a transform the last mutation of a header decides its fate: set leaves exactly one
    header with the new value, remove leaves none, and headers without a mutation keep
    their values and order; a host rewrite leaves exactly one host header with that value. *)
Theorem transformed_headers (request request' : Http1RequestHead) (transform : RequestTransformConfig)
  (H : apply_request_transform request transform = Ok request') :
  (∀ host, transform.(host_rewrite) = Some host →
    List.filter (named "host") request'.(rq_headers) = [{| h_name := "host"; h_value := host |}]) ∧
  (∀ name, (transform.(host_rewrite) = None ∨ eq_ignore_ascii_case name "host" = false) →
    (Forall (λ m, eq_ignore_ascii_case name (mutated_name m) = false) transform.(rt_header_mutations) →
      List.filter (named name) request'.(rq_headers) = List.filter (named name) request.(rq_headers)) ∧
    (∀ before m after, transform.(rt_header_mutations) = before ++ m :: after →
      eq_ignore_ascii_case name (mutated_name m) = true →
      Forall (λ m, eq_ignore_ascii_case name (mutated_name m) = false) after →
      List.filter (named name) request'.(rq_headers) =
        match m with
        | SetHeader _ value => [{| h_name := mutated_name m; h_value := value |}]
        | RemoveHeader _ => []
        end)).
Proof.
  unfold apply_request_transform in H. destruct (transformed_target _ _); [|done].
  injection H as <-. simpl. split.
  - intros host ->. unfold upsert_http1_header. by rewrite List.filter_app, filter_retain_same.
  - intros name Hname.
    assert (Hhost : List.filter (named name)
        match host_rewrite transform with
        | Some host => upsert_http1_header (apply_http1_header_mutations (rq_headers request)
            (rt_header_mutations transform)) "host" host
        | None => apply_http1_header_mutations (rq_headers request) (rt_header_mutations transform)
        end = List.filter (named name) (apply_http1_header_mutations (rq_headers request)
            (rt_header_mutations transform))).
    { destruct (host_rewrite transform) as [host|]; [|done]. destruct Hname as [|Hname]; [done|].
      unfold upsert_http1_header. rewrite List.filter_app, filter_retain_other by done. simpl.
      assert (named name {| h_name := to_ascii_lowercase "host"; h_value := host |} = false) as ->.
      { unfold named, eq_ignore_ascii_case in *. rewrite bool_decide_eq_false in *.
        change (to_ascii_lowercase "host") with "host" in Hname |- *. by intros ?%eq_sym. }
      by rewrite app_nil_r. }
    rewrite Hhost. split; [by apply filter_mutations_other|].
    intros before m after ->. by apply filter_mutations_last.
Qed.

Definition sample_transform : RequestTransformConfig :=
  {| path_rewrite := Some (ReplacePrefix "/api" "/v2"); host_rewrite := Some "b.test";
     rt_header_mutations := [SetHeader "X-Hop" "2"; RemoveHeader "cookie"] |}.

Definition sample_request_head (target : string) (headers : list HttpHeader) : Http1RequestHead :=
  {| rq_method := "GET"; rq_target := target; rq_version := Version_Http1; rq_headers := headers;
     rq_body_kind := ContentLength 12; rq_keep_alive := true; rq_route := None; rq_http10 := false |}.

Definition sample_transformed : list HttpHeader :=
  [{| h_name := "connection"; h_value := "keep-alive, x-hop" |};
   {| h_name := "content-length"; h_value := "12" |}; {| h_name := "x-hop"; h_value := "2" |};
   {| h_name := "host"; h_value := "b.test" |}].

Lemma transformed_headers_witness :
  List.filter (named "host") sample_transformed = [{| h_name := "host"; h_value := "b.test" |}].
Proof.
  apply (proj1 (transformed_headers (sample_request_head "/api/x?q=1" sample_headers)
    (sample_request_head "/v2/x?q=1" sample_transformed) sample_transform
    ltac:(vm_compute; reflexivity)) "b.test" eq_refl).
Defined.

(** ** Targets with an embedded URL *)

Lemma slash_not_http scheme l : bytes scheme = 47 :: l → http_scheme scheme = false.
Proof.
  intros Hb. unfold http_scheme, eq_ignore_ascii_case.
  assert (Hlow : ∀ s c k, bytes s = c :: k → ascii_lower c ≠ 47 →
    to_ascii_lowercase scheme ≠ to_ascii_lowercase s).
  { intros s c k Hs Hc He. apply (f_equal bytes) in He. unfold to_ascii_lowercase in He.
    assert (Hlt : ∀ x, Forall (λ b, b < 256) (ascii_lower <$> bytes x)).
    { intros x. apply Forall_fmap. eapply Forall_impl; [apply bytes_lt_256|]. intros b Hb'. simpl in *.
      unfold ascii_lower. case_decide; lia. }
    rewrite !bytes_of_bytes, Hb, Hs in He by apply Hlt. simpl in He. by injection He. }
  rewrite !bool_decide_eq_false_2; [done|..]; (eapply Hlow; [reflexivity|done]).
Qed.

(** An origin-form target that contains a URL, such as a redirect parameter, is a path for
    the router and the cache, but every transform that rewrites the path or the host
    rejects it. *)
Theorem embedded_url_rewrite_rejected (target : string) (rewrite : option PathRewriteTransformConfig)
  (host : option string)
  (Hv : visible target) (Hfragment : contains 35 target = false)
  (Horigin : starts_with "/" target = true)
  (Hurl : is_Some (find_sub (bytes "://") (bytes target))) :
  target_parts target = Ok (None, target) ∧
  rewrite_http1_request_target target rewrite host = Err UnsupportedForm.
Proof.
  apply bool_decide_eq_true in Horigin as Hpre. destruct Hpre as [l Hl]. simpl in Hl. split.
  - unfold target_parts. by rewrite Horigin.
  - unfold rewrite_http1_request_target. rewrite trim_visible, Hfragment by done.
    assert (is_empty target || bool_decide (target = "*") = false) as ->.
    { apply orb_false_iff. unfold is_empty. rewrite !bool_decide_eq_false. split; by intros ->. }
    destruct Hurl as [i Hi]. unfold split_scheme. rewrite Hi.
    assert (∃ k, bytes (of_bytes (take i (bytes target))) = 47 :: k) as [k Hk].
    { rewrite (bytes_of_bytes_sub _ target) by (intros x; apply elem_of_take_list).
      apply find_sub_spec in Hi as [Hp _]. destruct i as [|i]; [|rewrite Hl; by eexists].
      exfalso. rewrite Hl in Hp. destruct Hp as [? Hp]. by injection Hp. }
    by rewrite (slash_not_http _ _ Hk).
Qed.

Lemma embedded_url_rewrite_rejected_witness :
  target_parts "/login?redirect=https://app.example/home" =
    Ok (None, "/login?redirect=https://app.example/home") ∧
  rewrite_http1_request_target "/login?redirect=https://app.example/home"
    (Some (ReplacePrefix "/login" "/signin")) None = Err UnsupportedForm.
Proof.
  apply (embedded_url_rewrite_rejected "/login?redirect=https://app.example/home"
    (Some (ReplacePrefix "/login" "/signin")) None).
  - apply (bool_decide_unpack _). vm_compute. exact I.
  - vm_compute. reflexivity.
  - vm_compute. reflexivity.
  - apply (bool_decide_unpack _). vm_compute. exact I.
Defined.
