(* ===== verification/Lifecycle.v ===== *)
(** * Lifecycle and probes

    Models the lifecycle state machine of [crates/runtime/src/lifecycle.rs] and the probe
    evaluation of [crates/runtime/src/probe_semantics.rs]. *)

From S2P Require Import Prelude RustStr.
Local Open Scope N_scope.

(** ** The lifecycle state machine *)

Inductive LifecycleState := Warming | Active | Draining | Drained | Removed.
#[export] Instance LifecycleState_eq_dec : EqDecision LifecycleState.
Proof. solve_decision. Defined.

Definition LifecycleState_as_str (s : LifecycleState) : string :=
  match s with
  | Warming => "warming" | Active => "active" | Draining => "draining" | Drained => "drained"
  | Removed => "removed"
  end.

Record LifecycleTransitionError := { lt_from : LifecycleState; lt_action : string }.

Definition LifecycleTransitionError_fmt (e : LifecycleTransitionError) : string :=
  "invalid lifecycle transition: action " +:+ e.(lt_action) +:+ " is not allowed from " +:+
  LifecycleState_as_str e.(lt_from).

Record LifecycleStateMachine := { lm_state : LifecycleState }.

Definition LifecycleStateMachine_new_warming : LifecycleStateMachine := {| lm_state := Warming |}.
Definition LifecycleStateMachine_new_active : LifecycleStateMachine := {| lm_state := Active |}.

Definition LifecycleStateMachine_activate (m : LifecycleStateMachine) :
    LifecycleStateMachine * Result () LifecycleTransitionError :=
  match m.(lm_state) with
  | Warming => ({| lm_state := Active |}, Ok ())
  | Active => (m, Ok ())
  | state => (m, Err {| lt_from := state; lt_action := "activate" |})
  end.

Definition LifecycleStateMachine_start_draining (m : LifecycleStateMachine) :
    LifecycleStateMachine * Result () LifecycleTransitionError :=
  match m.(lm_state) with
  | Warming | Active => ({| lm_state := Draining |}, Ok ())
  | Draining => (m, Ok ())
  | state => (m, Err {| lt_from := state; lt_action := "start_draining" |})
  end.

Definition LifecycleStateMachine_mark_drained (m : LifecycleStateMachine) :
    LifecycleStateMachine * Result () LifecycleTransitionError :=
  match m.(lm_state) with
  | Draining => ({| lm_state := Drained |}, Ok ())
  | Drained => (m, Ok ())
  | state => (m, Err {| lt_from := state; lt_action := "mark_drained" |})
  end.

Definition LifecycleStateMachine_mark_removed (m : LifecycleStateMachine) :
    LifecycleStateMachine * Result () LifecycleTransitionError :=
  match m.(lm_state) with
  | Drained => ({| lm_state := Removed |}, Ok ())
  | Removed => (m, Ok ())
  | state => (m, Err {| lt_from := state; lt_action := "mark_removed" |})
  end.

Definition LifecycleStateMachine_force_remove (m : LifecycleStateMachine) : LifecycleStateMachine :=
  {| lm_state := Removed |}.

(** ** Probes *)

Record RuntimeProbeInput := {
  startup_complete : bool; active_config_loaded : bool; has_ready_listeners : bool;
  has_ready_upstreams : bool; pi_degraded : bool; fatal_error : bool; control_plane_stalled : bool
}.

Inductive StartupProbeState := Starting | Succeeded.
Inductive LivenessProbeState := Live | Failed.
Inductive ReadinessProbeState := Ready | NotReady.

Record ProbeEvaluation := {
  pe_startup : StartupProbeState; pe_liveness : LivenessProbeState;
  pe_readiness : ReadinessProbeState; pe_readiness_reason : string
}.

Record ProbeMetrics := {
  readiness_ready_count : N; readiness_not_ready_count : N; liveness_live_count : N;
  liveness_failed_count : N; startup_pending_count : N; startup_success_count : N
}.

Definition ProbeMetrics_default : ProbeMetrics :=
  {| readiness_ready_count := 0; readiness_not_ready_count := 0; liveness_live_count := 0;
     liveness_failed_count := 0; startup_pending_count := 0; startup_success_count := 0 |}.

(** [counter.saturating_add(1)] when the branch is taken. *)
Definition count_if (taken : bool) (counter : N) : N :=
  if taken then saturating_add u64_max counter 1 else counter.

Definition readiness_of (input : RuntimeProbeInput) : ReadinessProbeState * string :=
  if negb input.(startup_complete) || negb input.(active_config_loaded) then (NotReady, "startup_incomplete")
  else if negb input.(has_ready_listeners) then (NotReady, "no_ready_listeners")
  else if negb input.(has_ready_upstreams) then (NotReady, "no_ready_upstreams")
  else if input.(pi_degraded) then (NotReady, "runtime_degraded")
  else if input.(fatal_error) then (NotReady, "fatal_error")
  else (Ready, "ready").

Definition ProbeSemanticsEvaluator_evaluate (metrics : ProbeMetrics) (input : RuntimeProbeInput) :
    ProbeMetrics * ProbeEvaluation :=
  let started := input.(startup_complete) && input.(active_config_loaded) in
  let dead := input.(fatal_error) || input.(control_plane_stalled) in
  let '(readiness, reason) := readiness_of input in
  let ready := match readiness with Ready => true | NotReady => false end in
  ({| readiness_ready_count := count_if ready metrics.(readiness_ready_count);
      readiness_not_ready_count := count_if (negb ready) metrics.(readiness_not_ready_count);
      liveness_live_count := count_if (negb dead) metrics.(liveness_live_count);
      liveness_failed_count := count_if dead metrics.(liveness_failed_count);
      startup_pending_count := count_if (negb started) metrics.(startup_pending_count);
      startup_success_count := count_if started metrics.(startup_success_count) |},
   {| pe_startup := if started then Succeeded else Starting;
      pe_liveness := if dead then Failed else Live;
      pe_readiness := readiness; pe_readiness_reason := reason |}).

(** ** The lifecycle only moves forward *)

Inductive LifecycleAction := Activate | StartDraining | MarkDrained | MarkRemoved | ForceRemove.

Definition lifecycle_apply (action : LifecycleAction) (m : LifecycleStateMachine) :
    LifecycleStateMachine * Result () LifecycleTransitionError :=
  match action with
  | Activate => LifecycleStateMachine_activate m
  | StartDraining => LifecycleStateMachine_start_draining m
  | MarkDrained => LifecycleStateMachine_mark_drained m
  | MarkRemoved => LifecycleStateMachine_mark_removed m
  | ForceRemove => (LifecycleStateMachine_force_remove m, Ok ())
  end.

Inductive lifecycle_step : LifecycleStateMachine → LifecycleStateMachine → Prop :=
| lifecycle_action action m : lifecycle_step m (lifecycle_apply action m).1.

Definition stage (s : LifecycleState) : N :=
  match s with Warming => 0 | Active => 1 | Draining => 2 | Drained => 3 | Removed => 4 end.

Lemma lifecycle_apply_forward action m :
  stage m.(lm_state) ≤ stage (lifecycle_apply action m).1.(lm_state).
Proof. destruct m as [[]], action; simpl; lia. Qed.

(** Along any sequence of lifecycle actions the state never moves back, so traffic is never
    taken up again once draining has begun and removal is final; an action that is refused
    leaves the state unchanged and names the state it was refused in. *)
Theorem lifecycle_monotone (m m' : LifecycleStateMachine) (action : LifecycleAction)
  (Hreach : rtc lifecycle_step m m') :
  stage m.(lm_state) ≤ stage m'.(lm_state) ∧
  (m.(lm_state) = Removed → m' = m) ∧
  match lifecycle_apply action m' with
  | (m2, Err e) => m2 = m' ∧ e.(lt_from) = m'.(lm_state)
  | (m2, Ok _) => (lifecycle_apply action m2) = (m2, Ok ())
  end.
Proof.
  assert (Hmono : stage m.(lm_state) ≤ stage m'.(lm_state)).
  { induction Hreach as [|m1 m2 m3 [action' m0] _ IH]; [lia|].
    pose proof (lifecycle_apply_forward action' m0). lia. }
  split_and!; [done| |by destruct m' as [[]], action].
  intros Hr. rewrite Hr in Hmono. destruct m as [[]], m' as [[]]; simpl in *; done.
Qed.

Lemma lifecycle_monotone_witness :
  1 ≤ 3 ∧ (Active = Removed → {| lm_state := Drained |} = {| lm_state := Active |}) ∧
  {| lm_state := Drained |} = {| lm_state := Drained |} ∧ Drained = Drained.
Proof.
  apply (lifecycle_monotone {| lm_state := Active |} {| lm_state := Drained |} Activate).
  apply (rtc_l _ _ {| lm_state := Draining |}); [exact (lifecycle_action StartDraining {| lm_state := Active |})|].
  apply rtc_once. exact (lifecycle_action MarkDrained {| lm_state := Draining |}).
Defined.

(** Readiness implies that startup succeeded and no fatal error is known; the evaluation
    counts every probe exactly once. *)
Theorem probe_evaluation_spec (metrics : ProbeMetrics) (input : RuntimeProbeInput) :
  let '(metrics', e) := ProbeSemanticsEvaluator_evaluate metrics input in
  (e.(pe_readiness) = Ready ↔
    input.(startup_complete) = true ∧ input.(active_config_loaded) = true ∧
    input.(has_ready_listeners) = true ∧ input.(has_ready_upstreams) = true ∧
    input.(pi_degraded) = false ∧ input.(fatal_error) = false) ∧
  (e.(pe_readiness) = Ready → e.(pe_startup) = Succeeded) ∧
  (e.(pe_liveness) = Live ↔ input.(fatal_error) = false ∧ input.(control_plane_stalled) = false).
Proof. destruct input as [[] [] [] [] [] [] []]; simpl; naive_solver. Qed.
