(* ===== verification/RustIp.v ===== *)
(** * Parsing of IP addresses

    [str::parse::<IpAddr>] of Rust's standard library (the parser of [core::net]), and the
    round trip of dotted decimal addresses. *)

From stdpp Require Import pretty.
From S2P Require Import Prelude RustStr RustText.
Local Open Scope N_scope.

(** ** The parser

    A parser takes the rest of the input and returns a value and what is left. *)

Definition Parse (A : Type) : Type := list N → option (A * list N).

(** [char::to_digit]. *)
Definition to_digit (radix c : N) : option N :=
  let value :=
    if decide (48 ≤ c ≤ 57) then Some (c - 48)
    else if decide (97 ≤ c ≤ 122) then Some (c - 87)
    else if decide (65 ≤ c ≤ 90) then Some (c - 55)
    else None in
  d ← value; if decide (d < radix) then Some d else None.

(** The digits that follow: their value, their number, and the rest; too many digits fail. *)
Fixpoint read_digits (radix : N) (max_digits digit_count : nat) (result : N) (l : list N) :
    option (N * nat * list N) :=
  match l with
  | c :: l' =>
      match to_digit radix c with
      | Some digit =>
          if decide (max_digits < S digit_count)%nat then None
          else read_digits radix max_digits (S digit_count) (result * radix + digit) l'
      | None => Some (result, digit_count, l)
      end
  | [] => Some (result, digit_count, [])
  end.

Definition read_number (radix : N) (max_digits : nat) (allow_zero_prefix : bool) (max : N) : Parse N :=
  λ l,
  let has_leading_zero := match l with c :: _ => bool_decide (c = 48) | [] => false end in
  '(result, digit_count, rest) ← read_digits radix max_digits 0 0 l;
  if decide (digit_count = 0%nat) then None
  else if negb allow_zero_prefix && has_leading_zero && bool_decide (1 < digit_count)%nat then None
  else if decide (result ≤ max) then Some (result, rest) else None.

Definition read_given_char (c : N) (l : list N) : option (list N) :=
  match l with x :: l => if decide (x = c) then Some l else None | [] => None end.

Definition read_separator {A} (separator : N) (index : nat) (inner : Parse A) : Parse A := λ l,
  match index with
  | O => inner l
  | S _ => l ← read_given_char separator l; inner l
  end.

Definition read_octet (index : nat) : Parse N := read_separator 46 index (read_number 10 3 false 255).

Definition read_ipv4_addr : Parse N := λ l,
  '(a, l) ← read_octet 0 l; '(b, l) ← read_octet 1 l; '(c, l) ← read_octet 2 l; '(d, l) ← read_octet 3 l;
  Some (a * 2 ^ 24 + b * 2 ^ 16 + c * 2 ^ 8 + d, l).

(** The groups from index [i], at most [left] of them; whether they end with an IPv4 part. *)
Fixpoint read_groups (left i : nat) (l : list N) : list N * bool * list N :=
  match left with
  | O => ([], false, l)
  | S left' =>
      let ipv4 := match left' with O => None | S _ => read_separator 58 i read_ipv4_addr l end in
      match ipv4 with
      | Some (a, l) => ([a / 65536; a mod 65536], true, l)
      | None =>
          match read_separator 58 i (read_number 16 4 true 65535) l with
          | Some (g, l) => let '(groups, v4, l) := read_groups left' (S i) l in (g :: groups, v4, l)
          | None => ([], false, l)
          end
      end
  end.

Definition groups_value (groups : list N) : N := foldl (λ acc g, acc * 65536 + g) 0 groups.

Definition read_ipv6_addr : Parse N := λ l,
  let '(head, head_ipv4, l) := read_groups 8 0 l in
  if decide (length head = 8%nat) then Some (groups_value head, l)
  else if head_ipv4 then None
  else
    l ← read_given_char 58 l; l ← read_given_char 58 l;
    let '(tail, _, l) := read_groups (8 - (length head + 1)) 0 l in
    Some (groups_value (head ++ replicate (8 - length head - length tail) 0 ++ tail), l).

(** The whole input must be an address. *)
Definition parse_ip (s : string) : option IpAddr :=
  match read_ipv4_addr (bytes s) with
  | Some (a, rest) => match rest with [] => Some (IpAddr_V4 a) | _ => None end
  | None =>
      match read_ipv6_addr (bytes s) with
      | Some (a, []) => Some (IpAddr_V6 a)
      | _ => None
      end
  end.

Example parse_ip_examples :
  parse_ip "198.51.100.10" = Some (IpAddr_V4 3325256714) ∧
  parse_ip "::1" = Some (IpAddr_V6 1) ∧
  parse_ip "::ffff:127.0.0.1" = Some (IpAddr_V6 281472812449793) ∧
  parse_ip "1:2:3:4:5:6:7:8" = Some (IpAddr_V6 5192455318486707404433266433261576) ∧
  parse_ip "01.2.3.4" = None ∧ parse_ip "256.0.0.1" = None ∧ parse_ip "1.2.3.4:80" = None ∧
  parse_ip ":::1" = None ∧ parse_ip "1::2::3" = None ∧ parse_ip "" = None.
Proof. vm_compute. tauto. Qed.

(** ** Dotted decimal addresses are read back *)

Definition not_digit (l : list N) : Prop := match l with c :: _ => to_digit 10 c = None | [] => True end.

Lemma read_digits_app max ds rest : ∀ count acc,
  Forall (λ c, 48 ≤ c ≤ 57) ds → (count + length ds ≤ max)%nat → not_digit rest →
  read_digits 10 max count acc (ds ++ rest) =
  Some (foldl (λ a c, a * 10 + (c - 48)) acc ds, (count + length ds)%nat, rest).
Proof.
  induction ds as [|c ds IH]; intros count acc Hds Hlen Hrest.
  - simpl. rewrite Nat.add_0_r. destruct rest as [|c rest]; [done|]. simpl. simpl in Hrest. by rewrite Hrest.
  - apply Forall_cons in Hds as [Hc Hds]. simpl in Hlen. cbn [app read_digits].
    assert (to_digit 10 c = Some (c - 48)) as ->.
    { unfold to_digit. rewrite decide_True by lia. simpl. by rewrite decide_True by lia. }
    rewrite decide_False by lia. rewrite IH by (done || lia). simpl. do 2 f_equal. f_equal. lia.
Qed.

(** The decimal text of an octet: one to three digits without a leading zero. *)
Definition octet_text (o : N) : Prop :=
  let ds := bytes (pretty o) in
  Forall (λ c, 48 ≤ c ≤ 57) ds ∧ (0 < length ds ≤ 3)%nat ∧
  (head ds = Some 48 → length ds = 1%nat) ∧ foldl (λ a c, a * 10 + (c - 48)) 0 ds = o.

Lemma octet_text_all o : o < 256 → octet_text o.
Proof.
  intros Ho.
  assert (Hall : Forall octet_text (N.of_nat <$> seq 0 256)).
  { apply (bool_decide_unpack _). vm_compute. exact I. }
  rewrite Forall_forall in Hall. apply Hall. apply list_elem_of_fmap. exists (N.to_nat o).
  split; [lia|]. apply elem_of_seq. lia.
Qed.

Lemma read_octet_text o rest :
  o < 256 → not_digit rest → read_number 10 3 false 255 (bytes (pretty o) ++ rest) = Some (o, rest).
Proof.
  intros Ho Hrest. destruct (octet_text_all o Ho) as (Hds & Hlen & Hzero & Hval).
  unfold read_number. rewrite read_digits_app by (done || lia). rewrite Hval. cbn [mbind option_bind].
  destruct (bytes (pretty o)) as [|c ds] eqn:E; [simpl in Hlen; lia|]. cbn [app].
  rewrite decide_False by (simpl; lia). cbn [negb andb].
  destruct (bool_decide (c = 48)) eqn:Hc.
  - apply bool_decide_eq_true in Hc as ->. specialize (Hzero eq_refl). simpl in Hzero.
    rewrite bool_decide_eq_false_2 by (simpl; lia). simpl. by rewrite decide_True by lia.
  - simpl. by rewrite decide_True by lia.
Qed.

Lemma ipv4_octet_lt a i : ipv4_octet a i < 256.
Proof. unfold ipv4_octet. apply N.mod_lt. lia. Qed.

Lemma ipv4_octets a : a < 2 ^ 32 →
  ipv4_octet a 0 * 2 ^ 24 + ipv4_octet a 1 * 2 ^ 16 + ipv4_octet a 2 * 2 ^ 8 + ipv4_octet a 3 = a.
Proof.
  intros Ha. unfold ipv4_octet.
  change (2 ^ (8 * (3 - 0))) with 16777216. change (2 ^ (8 * (3 - 1))) with 65536.
  change (2 ^ (8 * (3 - 2))) with 256. change (2 ^ (8 * (3 - 3))) with 1.
  change (2 ^ 24) with 16777216. change (2 ^ 16) with 65536. change (2 ^ 8) with 256.
  change (2 ^ 32) with 4294967296 in Ha. zify. Z.div_mod_to_equations. lia.
Qed.

Lemma read_ipv4_text a : a < 2 ^ 32 → read_ipv4_addr (bytes (ipv4_to_string a)) = Some (a, []).
Proof.
  intros Ha. unfold ipv4_to_string. rewrite !bytes_app. change (bytes ".") with [46].
  unfold read_ipv4_addr, read_octet, read_separator.
  assert (Hdot : ∀ l, not_digit ([46] ++ l)) by done.
  rewrite read_octet_text by (done || apply ipv4_octet_lt). cbn [mbind option_bind app read_given_char].
  rewrite decide_True by done. cbn [mbind option_bind].
  rewrite (read_octet_text _ (46 :: _)) by (done || apply ipv4_octet_lt). cbn [mbind option_bind read_given_char].
  rewrite decide_True by done. cbn [mbind option_bind].
  rewrite (read_octet_text _ (46 :: _)) by (done || apply ipv4_octet_lt). cbn [mbind option_bind read_given_char].
  rewrite decide_True by done. cbn [mbind option_bind].
  rewrite <- (app_nil_r (bytes (pretty (ipv4_octet a 3)))).
  rewrite read_octet_text by (done || apply ipv4_octet_lt). cbn [mbind option_bind].
  by rewrite ipv4_octets.
Qed.

Lemma parse_ipv4_text a : a < 2 ^ 32 → parse_ip (ipv4_to_string a) = Some (IpAddr_V4 a).
Proof. intros Ha. unfold parse_ip. by rewrite read_ipv4_text. Qed.
