(* ===== verification/TrustedClientIp.v ===== *)
(** * Trusted client addresses

    Models [crates/runtime/src/trusted_client_ip.rs]: the client address of a request, taken
    from the forwarding headers as far as trusted proxies vouch for them.  Networks are the
    parameter [IpNetwork]; the header map of HTTP/2 is the list of its names and values,
    where a value that is not text is [None]. *)

From S2P Require Import Prelude RustStr RustText NetCore RouteMatching HttpMessage RustIp.
Local Open Scope N_scope.
Local Open Scope rust_scope.

Inductive TrustedClientIpHeaderSource := Source_Forwarded | Source_XForwardedFor.

Record TrustedClientIpResolution := {
  tr_client_ip : IpAddr; tr_peer_ip : IpAddr; tr_header_source : option TrustedClientIpHeaderSource
}.

Inductive TrustedClientIpError := UntrustedForwardingHeader | InvalidForwardingHeader.

(** ** Forwarding headers *)

(** [token.trim_matches(c)]. *)
Definition trim_matches (c : N) (s : string) : string :=
  let is_c x := bool_decide (x = c) in
  of_bytes (reverse (drop_while is_c (reverse (drop_while is_c (bytes s))))).

Definition parse_canonical_ip (host : string) : Result IpAddr TrustedClientIpError :=
  match parse_ip host with
  | Some ip => Ok (canonicalize_ip ip)
  | None => Err InvalidForwardingHeader
  end.

Definition parse_forwarded_ip_token (token : string) : Result IpAddr TrustedClientIpError :=
  let token := trim_matches 34 (trim token) in
  if is_empty token || eq_ignore_ascii_case token "unknown" || starts_with "_" token
  then Err InvalidForwardingHeader
  else match strip_prefix 91 token with
  | Some inner =>
      match split_once 93 inner with
      | None => Err InvalidForwardingHeader
      | Some (host, after) =>
          if negb (is_empty after) && negb (starts_with ":" after) then Err InvalidForwardingHeader
          else parse_canonical_ip host
      end
  | None =>
      match parse_ip token with
      | Some ip => Ok (canonicalize_ip ip)
      | None =>
          match rsplit_once 58 token with
          | Some (host, port) =>
              if all_chars is_ascii_digit port then parse_canonical_ip host
              else Err InvalidForwardingHeader
          | None => Err InvalidForwardingHeader
          end
      end
  end.

Fixpoint parse_entries (entries : list string) : Result (list IpAddr) TrustedClientIpError :=
  match entries with
  | [] => Ok []
  | entry :: entries =>
      if is_empty entry then Err InvalidForwardingHeader
      else
        let? ip := parse_forwarded_ip_token entry in
        let? chain := parse_entries entries in
        Ok (ip :: chain)
  end.

Definition parse_x_forwarded_for_chain (values : list string) :
    Result (list IpAddr) TrustedClientIpError :=
  parse_entries (flat_map (λ value, trim <$> split 44 value) values).

(** The first parameter [for=...] of an element, if it has one. *)
Fixpoint find_for_parameter (parameters : list string) : option (Result IpAddr TrustedClientIpError) :=
  match parameters with
  | [] => None
  | parameter :: parameters =>
      match split_once 61 (trim parameter) with
      | None => find_for_parameter parameters
      | Some (name, raw_value) =>
          if eq_ignore_ascii_case (trim name) "for" then Some (parse_forwarded_ip_token (trim raw_value))
          else find_for_parameter parameters
      end
  end.

Fixpoint parse_elements (elements : list string) : Result (list IpAddr) TrustedClientIpError :=
  match elements with
  | [] => Ok []
  | element :: elements =>
      match find_for_parameter (split 59 element) with
      | None => Err InvalidForwardingHeader
      | Some found =>
          let? ip := found in
          let? chain := parse_elements elements in
          Ok (ip :: chain)
      end
  end.

Definition parse_forwarded_chain (values : list string) : Result (list IpAddr) TrustedClientIpError :=
  parse_elements (flat_map (split 44) values).

(** The loop that collects the forwarding headers: a header is a [forwarded] value, or else
    an [x-forwarded-for] value, or neither. *)
Definition is_forwarded (h : string * string) : bool := eq_ignore_ascii_case h.1 "forwarded".
Definition is_x_forwarded_for (h : string * string) : bool :=
  negb (is_forwarded h) && eq_ignore_ascii_case h.1 "x-forwarded-for".
Definition forwarded_values (headers : list (string * string)) : list string :=
  snd <$> List.filter is_forwarded headers.
Definition xff_values (headers : list (string * string)) : list string :=
  snd <$> List.filter is_x_forwarded_for headers.

(** ** Resolution *)

Section resolution.
Context {Net : IpNetwork}.

Record TrustedClientIpPolicy := { tp_enabled : bool; trusted_proxy_cidrs : list IpNet }.

Definition in_cidrs (cidrs : list IpNet) (ip : IpAddr) : bool := existsb (λ cidr, cidr_contains cidr ip) cidrs.

Definition TrustedClientIpPolicy_is_trusted_proxy (p : TrustedClientIpPolicy) (ip : IpAddr) : bool :=
  in_cidrs p.(trusted_proxy_cidrs) (canonicalize_ip ip).

(** The loop over the chain from its end. *)
Fixpoint resolve_loop (cidrs : list IpNet) (current : IpAddr) (rev_chain : list IpAddr) : IpAddr :=
  match rev_chain with
  | [] => current
  | candidate :: rev_chain =>
      if in_cidrs cidrs current then resolve_loop cidrs (canonicalize_ip candidate) rev_chain
      else current
  end.

Definition resolve_client_from_chain (peer_ip : IpAddr) (chain : list IpAddr) (cidrs : list IpNet) : IpAddr :=
  resolve_loop cidrs (canonicalize_ip peer_ip) (reverse chain).

Definition TrustedClientIpPolicy_resolve_from_header_iter (p : TrustedClientIpPolicy) (peer_ip : IpAddr)
    (headers : list (string * string)) : Result TrustedClientIpResolution TrustedClientIpError :=
  let peer_ip := canonicalize_ip peer_ip in
  let direct := {| tr_client_ip := peer_ip; tr_peer_ip := peer_ip; tr_header_source := None |} in
  if negb p.(tp_enabled) then Ok direct
  else
    let forwarded := forwarded_values headers in
    let xff := xff_values headers in
    if bool_decide (forwarded = []) && bool_decide (xff = []) then Ok direct
    else if negb (TrustedClientIpPolicy_is_trusted_proxy p peer_ip) then Err UntrustedForwardingHeader
    else
      let? found :=
        if bool_decide (forwarded = [])
        then let? chain := parse_x_forwarded_for_chain xff in Ok (Source_XForwardedFor, chain)
        else let? chain := parse_forwarded_chain forwarded in Ok (Source_Forwarded, chain) in
      let '(source, chain) := found in
      if bool_decide (chain = []) then Err InvalidForwardingHeader
      else Ok {| tr_client_ip := resolve_client_from_chain peer_ip chain p.(trusted_proxy_cidrs);
                 tr_peer_ip := peer_ip; tr_header_source := Some source |}.

Definition TrustedClientIpPolicy_resolve_resolution_from_http1_headers (p : TrustedClientIpPolicy)
    (peer_ip : IpAddr) (headers : list HttpHeader) : Result TrustedClientIpResolution TrustedClientIpError :=
  TrustedClientIpPolicy_resolve_from_header_iter p peer_ip ((λ h, (h.(h_name), h.(h_value))) <$> headers).

Definition TrustedClientIpPolicy_resolve_from_http1_headers (p : TrustedClientIpPolicy)
    (peer_ip : IpAddr) (headers : list HttpHeader) : Result IpAddr TrustedClientIpError :=
  let? resolution := TrustedClientIpPolicy_resolve_resolution_from_http1_headers p peer_ip headers in
  Ok resolution.(tr_client_ip).

Definition TrustedClientIpPolicy_resolve_resolution_from_http2_headers (p : TrustedClientIpPolicy)
    (peer_ip : IpAddr) (headers : list (string * option string)) :
    Result TrustedClientIpResolution TrustedClientIpError :=
  TrustedClientIpPolicy_resolve_from_header_iter p peer_ip
    (omap (λ h, (λ value, (h.1, value)) <$> h.2) headers).

Definition TrustedClientIpPolicy_resolve_from_http2_headers (p : TrustedClientIpPolicy)
    (peer_ip : IpAddr) (headers : list (string * option string)) : Result IpAddr TrustedClientIpError :=
  let? resolution := TrustedClientIpPolicy_resolve_resolution_from_http2_headers p peer_ip headers in
  Ok resolution.(tr_client_ip).

(** ** The chain of trust *)

(** The hops of a request, from the client's side to the peer. *)
Definition hops (peer_ip : IpAddr) (chain : list IpAddr) : list IpAddr :=
  canonicalize_ip <$> chain ++ [peer_ip].

Lemma resolve_loop_spec cidrs rev_chain : ∀ current,
  ∃ before after,
    reverse (current :: (canonicalize_ip <$> rev_chain)) =
      before ++ resolve_loop cidrs current rev_chain :: after ∧
    Forall (λ ip, in_cidrs cidrs ip = true) after ∧
    (before ≠ [] → in_cidrs cidrs (resolve_loop cidrs current rev_chain) = false).
Proof.
  induction rev_chain as [|c rev_chain IH]; intros current; cbn [resolve_loop]; [by exists [], []|].
  rewrite fmap_cons, (reverse_cons _ current).
  destruct (in_cidrs cidrs current) eqn:Ht.
  - destruct (IH (canonicalize_ip c)) as (before & after & Heq & Hall & Hb).
    exists before, (after ++ [current]). rewrite Heq, <- app_assoc. split; [done|].
    split; [|done]. rewrite Forall_app. split; [done|]. by apply Forall_singleton.
  - exists (reverse (canonicalize_ip c :: (canonicalize_ip <$> rev_chain))), []. done.
Qed.

(** The resolved client is the hop nearest to the peer that is not a trusted proxy. *)
Lemma resolve_client_spec peer chain cidrs :
  ∃ before after,
    hops peer chain = before ++ resolve_client_from_chain peer chain cidrs :: after ∧
    Forall (λ ip, in_cidrs cidrs ip = true) after ∧
    (before ≠ [] → in_cidrs cidrs (resolve_client_from_chain peer chain cidrs) = false).
Proof.
  destruct (resolve_loop_spec cidrs (reverse chain) (canonicalize_ip peer)) as (b & a & Heq & H).
  exists b, a. split; [|done]. unfold resolve_client_from_chain. rewrite <- Heq.
  unfold hops. rewrite reverse_cons, fmap_reverse, reverse_involutive, fmap_app. done.
Qed.

Lemma resolve_loop_extend cidrs rev_chain more : ∀ current,
  in_cidrs cidrs (resolve_loop cidrs current rev_chain) = false →
  resolve_loop cidrs current (rev_chain ++ more) = resolve_loop cidrs current rev_chain.
Proof.
  induction rev_chain as [|c rev_chain IH]; intros current; simpl.
  - intros Hu. destruct more; simpl; [done|]. by rewrite Hu.
  - destruct (in_cidrs cidrs current); [apply IH|done].
Qed.

Lemma resolve_client_extend peer spoofed chain cidrs :
  in_cidrs cidrs (resolve_client_from_chain peer chain cidrs) = false →
  resolve_client_from_chain peer (spoofed ++ chain) cidrs = resolve_client_from_chain peer chain cidrs.
Proof. unfold resolve_client_from_chain. rewrite reverse_app. apply resolve_loop_extend. Qed.

Lemma parse_entries_app a b :
  parse_entries (a ++ b) =
  match parse_entries a with
  | Ok ca => match parse_entries b with Ok cb => Ok (ca ++ cb) | Err e => Err e end
  | Err e => Err e
  end.
Proof.
  induction a as [|x a IH]; cbn [parse_entries app]; [by destruct (parse_entries b)|]. destruct (is_empty x); [done|].
  destruct (parse_forwarded_ip_token x); [|done]. rewrite IH.
  destruct (parse_entries a); [|done]. by destruct (parse_entries b).
Qed.

Lemma parse_forwarded_ip_token_err token e : parse_forwarded_ip_token token = Err e → e = InvalidForwardingHeader.
Proof.
  unfold parse_forwarded_ip_token, parse_canonical_ip. destruct (_ || _); [by intros [= <-]|].
  destruct (strip_prefix _ _).
  - destruct (split_once _ _) as [[]|]; [|by intros [= <-]].
    destruct (_ && _); [by intros [= <-]|]. destruct (parse_ip _); by intros [= <-].
  - destruct (parse_ip _); [done|]. destruct (rsplit_once _ _) as [[]|]; [|by intros [= <-]].
    destruct (all_chars _ _); [|by intros [= <-]]. destruct (parse_ip _); by intros [= <-].
Qed.

Lemma parse_entries_err entries e : parse_entries entries = Err e → e = InvalidForwardingHeader.
Proof.
  revert e. induction entries as [|x l IH]; cbn [parse_entries]; intros e; [done|].
  destruct (is_empty x); [by intros [= <-]|]. destruct (parse_forwarded_ip_token x) eqn:Ht.
  - destruct (parse_entries l); [done|]. intros [= <-]. by apply IH.
  - intros [= <-]. by eapply parse_forwarded_ip_token_err.
Qed.

(** C19: a client cannot choose its address: when the trusted proxies vouch for an address
    outside the trusted networks, then whatever [x-forwarded-for] headers the client sent
    ahead of theirs, the request resolves to the same address or is rejected. *)
Theorem spoofed_hops_ignored (p : TrustedClientIpPolicy) (peer : IpAddr)
  (spoofed honest : list (string * string)) (r : TrustedClientIpResolution)
  (Hs : Forall (λ h, is_forwarded h = false) spoofed)
  (Hr : TrustedClientIpPolicy_resolve_from_header_iter p peer honest = Ok r)
  (Hsource : r.(tr_header_source) = Some Source_XForwardedFor)
  (Hu : in_cidrs p.(trusted_proxy_cidrs) r.(tr_client_ip) = false) :
  TrustedClientIpPolicy_resolve_from_header_iter p peer (spoofed ++ honest) = Ok r ∨
  TrustedClientIpPolicy_resolve_from_header_iter p peer (spoofed ++ honest) = Err InvalidForwardingHeader.
Proof.
  assert (Hf : forwarded_values (spoofed ++ honest) = forwarded_values honest).
  { unfold forwarded_values. rewrite List.filter_app, fmap_app.
    assert (List.filter is_forwarded spoofed = []) as ->; [|done].
    clear -Hs. induction Hs as [|h l Hh _ IH]; simpl; [done|]. by rewrite Hh. }
  assert (Hx : xff_values (spoofed ++ honest) = xff_values spoofed ++ xff_values honest).
  { unfold xff_values. by rewrite List.filter_app, fmap_app. }
  revert Hr. unfold TrustedClientIpPolicy_resolve_from_header_iter. rewrite Hf, Hx.
  destruct (negb (tp_enabled p)); [by left|].
  destruct (bool_decide (forwarded_values honest = [])) eqn:Ef; simpl; [|by left].
  destruct (bool_decide (xff_values honest = [])) eqn:Ex; [intros [= <-]; discriminate|].
  rewrite bool_decide_eq_false_2.
  2: { apply bool_decide_eq_false in Ex. by intros [_ ?]%app_nil. }
  destruct (negb _); [done|]. unfold parse_x_forwarded_for_chain.
  rewrite flat_map_app, parse_entries_app.
  destruct (parse_entries (flat_map _ (xff_values honest))) as [chain|]; [|done].
  destruct (bool_decide (chain = [])) eqn:Ec; [done|]. intros [= <-]. simpl in Hu.
  destruct (parse_entries (flat_map _ (xff_values spoofed))) as [extra|e] eqn:Hp.
  - left. rewrite bool_decide_eq_false_2.
    2: { apply bool_decide_eq_false in Ec. by intros [_ ?]%app_nil. }
    by rewrite resolve_client_extend.
  - right. f_equal. by apply (parse_entries_err _ _ Hp).
Qed.

(** ** Two proxies in a row *)

Definition header_pair (h : HttpHeader) : string * string := (h.(h_name), h.(h_value)).

Lemma filter_pairs (f : string * string → bool) (g : HttpHeader → bool) headers :
  (∀ h, f (header_pair h) = g h) →
  snd <$> List.filter f (header_pair <$> headers) = h_value <$> List.filter g headers.
Proof.
  intros Hfg. induction headers as [|h hs IH]; [done|]. cbn. rewrite Hfg.
  destruct (g h); cbn; by rewrite IH.
Qed.

Lemma forwarded_values_pairs headers :
  forwarded_values (header_pair <$> headers) = h_value <$> List.filter (named "forwarded") headers.
Proof. by apply filter_pairs. Qed.

Lemma xff_values_pairs headers :
  xff_values (header_pair <$> headers) = h_value <$> List.filter (named "x-forwarded-for") headers.
Proof.
  apply filter_pairs. intros h. unfold is_x_forwarded_for, is_forwarded, named, header_pair. simpl fst.
  destruct (eq_ignore_ascii_case (h_name h) "forwarded") eqn:E; [|done]. simpl. symmetry.
  apply eq_ignore_ascii_case_iff in E. unfold eq_ignore_ascii_case. rewrite E. vm_compute. reflexivity.
Qed.

(** The forwarding headers of a forwarded request: the proxy's own address header, and the
    client's [forwarded] headers. *)
Lemma normalized_forwarding headers ip keep_alive kind :
  nominated "forwarded" headers = false →
  xff_values (header_pair <$> normalize_request_headers headers ip keep_alive kind) = [ip_to_string ip] ∧
  forwarded_values (header_pair <$> normalize_request_headers headers ip keep_alive kind) =
    h_value <$> List.filter (named "forwarded") headers.
Proof.
  intros Hn. rewrite forwarded_values_pairs, xff_values_pairs. split.
  - unfold normalize_request_headers. rewrite !List.filter_app, filter_headers_named.
    rewrite keeps_hop_by_hop by set_solver. by destruct keep_alive.
  - f_equal. rewrite normalize_request_filter by done. rewrite filter_headers_named.
    unfold keeps_header. unfold nominated in Hn. cbn [h_name]. rewrite Hn. done.
Qed.

Lemma resolve_single peer ip cidrs :
  in_cidrs cidrs (canonicalize_ip peer) = true → resolve_client_from_chain peer [ip] cidrs = canonicalize_ip ip.
Proof. intros H. unfold resolve_client_from_chain. simpl. by rewrite H. Qed.

Lemma canonicalize_idem ip : canonicalize_ip (canonicalize_ip ip) = canonicalize_ip ip.
Proof. destruct ip as [a|a]; simpl; [done|]. destruct (to_ipv4_mapped a) eqn:E; simpl; [done|]. by rewrite E. Qed.

Lemma ipv4_text_chars a :
  Forall (λ c, 48 ≤ c ≤ 57 ∨ c = 46) (bytes (ipv4_to_string a)) ∧
  ∃ c l, bytes (ipv4_to_string a) = c :: l ∧ 48 ≤ c ≤ 57.
Proof.
  unfold ipv4_to_string. rewrite !bytes_app.
  assert (Ho : ∀ i, Forall (λ c, 48 ≤ c ≤ 57 ∨ c = 46) (bytes (pretty (ipv4_octet a i)))).
  { intros i. destruct (octet_text_all _ (ipv4_octet_lt a i)) as [H _].
    eapply Forall_impl; [exact H|]. simpl. lia. }
  assert (Hd : Forall (λ c, 48 ≤ c ≤ 57 ∨ c = 46) (bytes ".")).
  { apply (bool_decide_unpack _). vm_compute. exact I. }
  split; [rewrite !Forall_app; auto 10|].
  destruct (octet_text_all _ (ipv4_octet_lt a 0)) as (H & Hlen & _).
  destruct (bytes (pretty (ipv4_octet a 0))) as [|c l]; [simpl in Hlen; lia|].
  apply Forall_cons in H as [Hc _]. eexists c, _. split; [reflexivity|done].
Qed.

Lemma ipv4_text_visible a : visible (ipv4_to_string a).
Proof.
  destruct (ipv4_text_chars a) as [H _]. unfold visible. eapply Forall_impl; [exact H|]. simpl. lia.
Qed.

Lemma ipv4_text_not_in a c : ¬ (48 ≤ c ≤ 57 ∨ c = 46) → c ∉ bytes (ipv4_to_string a).
Proof.
  intros Hc Hin. destruct (ipv4_text_chars a) as [H _]. rewrite Forall_forall in H. by apply Hc, H.
Qed.

Lemma trim_matches_none c s : c ∉ bytes s → trim_matches c s = s.
Proof.
  intros Hc. unfold trim_matches.
  assert (Hall : Forall (λ x, bool_decide (x = c) = false) (bytes s)).
  { apply Forall_forall. intros x Hx. apply bool_decide_eq_false. by intros ->. }
  rewrite (drop_while_none _ (bytes s)) by done.
  rewrite drop_while_none by by apply Forall_reverse. rewrite reverse_involutive. apply of_bytes_bytes.
Qed.

Lemma parse_ipv4_token a : a < 2 ^ 32 → parse_forwarded_ip_token (ipv4_to_string a) = Ok (IpAddr_V4 a).
Proof.
  intros Ha. unfold parse_forwarded_ip_token.
  rewrite trim_visible by apply ipv4_text_visible.
  rewrite trim_matches_none by (apply ipv4_text_not_in; lia).
  pose proof (parse_ipv4_text a Ha) as Hp. destruct (ipv4_text_chars a) as (Hall & c & l & Hcl & Hc).
  remember (ipv4_to_string a) as t eqn:Et. clear Et.
  assert (is_empty t = false) as ->. { apply bool_decide_eq_false. by intros ->. }
  assert (eq_ignore_ascii_case t "unknown" = false) as ->.
  { apply not_true_iff_false. rewrite eq_ignore_ascii_case_iff. intros He.
    apply (f_equal bytes) in He. unfold to_ascii_lowercase in He at 1. rewrite Hcl, bytes_of_bytes in He.
    - change (bytes (to_ascii_lowercase "unknown")) with (bytes "unknown") in He. injection He as He _.
      unfold ascii_lower in He. case_decide; lia.
    - rewrite <- Hcl. apply Forall_fmap. eapply Forall_impl; [exact Hall|]. intros x Hx. simpl in *.
      unfold ascii_lower. case_decide; lia. }
  assert (starts_with "_" t = false) as ->.
  { apply bool_decide_eq_false. rewrite Hcl. intros [k Hk]. injection Hk as Hk. lia. }
  cbn [orb]. unfold strip_prefix. rewrite Hcl, decide_False by lia. by rewrite Hp.
Qed.

Lemma parse_ipv4_chain a : a < 2 ^ 32 → parse_x_forwarded_for_chain [ipv4_to_string a] = Ok [IpAddr_V4 a].
Proof.
  intros Ha. unfold parse_x_forwarded_for_chain, split. cbn [flat_map].
  rewrite split_on_none by (apply ipv4_text_not_in; lia). cbn [fmap list_fmap app].
  rewrite of_bytes_bytes, trim_visible by apply ipv4_text_visible. cbn [parse_entries].
  rewrite parse_ipv4_token by done.
  assert (is_empty (ipv4_to_string a) = false) as ->; [|done].
  apply bool_decide_eq_false. destruct (ipv4_text_chars a) as (_ & c & l & Hcl & _).
  intros He. by rewrite He in Hcl.
Qed.

(** Two proxies in a row agree on the client: the address that the first proxy writes into
    the forwarded head is the address that the second one, which trusts the first, resolves,
    provided the client sent no [forwarded] header. *)
Theorem forwarded_client_resolved (p : TrustedClientIpPolicy) (peer : IpAddr) (headers : list HttpHeader)
  (client : N) (keep_alive : bool) (kind : BodyKind)
  (Hen : p.(tp_enabled) = true) (Htrust : TrustedClientIpPolicy_is_trusted_proxy p peer = true)
  (Hclient : client < 2 ^ 32) (Hnone : List.filter (named "forwarded") headers = [])
  (Hnom : nominated "forwarded" headers = false) :
  TrustedClientIpPolicy_resolve_from_http1_headers p peer
    (normalize_request_headers headers (IpAddr_V4 client) keep_alive kind) = Ok (IpAddr_V4 client).
Proof.
  unfold TrustedClientIpPolicy_resolve_from_http1_headers,
    TrustedClientIpPolicy_resolve_resolution_from_http1_headers, TrustedClientIpPolicy_resolve_from_header_iter.
  change (λ h, (h_name h, h_value h)) with header_pair.
  destruct (normalized_forwarding headers (IpAddr_V4 client) keep_alive kind Hnom) as [-> ->].
  rewrite Hnone, Hen. cbn [negb fmap list_fmap]. rewrite bool_decide_eq_true_2 by done.
  rewrite bool_decide_eq_false_2 by done. cbn [andb].
  unfold TrustedClientIpPolicy_is_trusted_proxy in *. rewrite canonicalize_idem, Htrust. cbn [negb].
  change (ip_to_string (IpAddr_V4 client)) with (ipv4_to_string client).
  rewrite parse_ipv4_chain by done. rewrite bool_decide_eq_false_2 by done. cbn [tr_client_ip].
  by rewrite resolve_single by (by rewrite canonicalize_idem).
Qed.

(** The [forwarded] header of a client survives the normalisation, and the next proxy
    prefers it: the client chooses the address that the next proxy resolves. *)
Theorem forwarded_header_spoofs_next_hop (p : TrustedClientIpPolicy) (peer : IpAddr)
  (headers : list HttpHeader) (client claimed : IpAddr) (keep_alive : bool) (kind : BodyKind)
  (Hen : p.(tp_enabled) = true) (Htrust : TrustedClientIpPolicy_is_trusted_proxy p peer = true)
  (Hnom : nominated "forwarded" headers = false)
  (Hclaim : parse_forwarded_chain (h_value <$> List.filter (named "forwarded") headers) = Ok [claimed]) :
  TrustedClientIpPolicy_resolve_from_http1_headers p peer
    (normalize_request_headers headers client keep_alive kind) = Ok (canonicalize_ip claimed).
Proof.
  unfold TrustedClientIpPolicy_resolve_from_http1_headers,
    TrustedClientIpPolicy_resolve_resolution_from_http1_headers, TrustedClientIpPolicy_resolve_from_header_iter.
  change (λ h, (h_name h, h_value h)) with header_pair.
  destruct (normalized_forwarding headers client keep_alive kind Hnom) as [-> ->].
  rewrite Hen. cbn [negb]. rewrite bool_decide_eq_false_2.
  2: { intros Hnil. by rewrite Hnil in Hclaim. }
  cbn [andb]. unfold TrustedClientIpPolicy_is_trusted_proxy in *. rewrite canonicalize_idem, Htrust. cbn [negb].
  rewrite Hclaim. rewrite bool_decide_eq_false_2 by done. cbn [tr_client_ip].
  by rewrite resolve_single by (by rewrite canonicalize_idem).
Qed.
End resolution.

(** ** Examples *)

Definition loopback : IpAddr := IpAddr_V4 2130706433.
Definition loopback_policy : @TrustedClientIpPolicy sample_network :=
  {| tp_enabled := true; trusted_proxy_cidrs := [loopback : @IpNet sample_network] |}.

Lemma spoofed_hops_ignored_witness :
  TrustedClientIpPolicy_resolve_from_header_iter loopback_policy loopback
    ([("x-forwarded-for", "10.0.0.1, 127.0.0.1")] ++ [("x-forwarded-for", "198.51.100.10")]) =
    Ok {| tr_client_ip := IpAddr_V4 3325256714; tr_peer_ip := loopback;
          tr_header_source := Some Source_XForwardedFor |} ∨
  TrustedClientIpPolicy_resolve_from_header_iter loopback_policy loopback
    ([("x-forwarded-for", "10.0.0.1, 127.0.0.1")] ++ [("x-forwarded-for", "198.51.100.10")]) =
    Err InvalidForwardingHeader.
Proof.
  apply (spoofed_hops_ignored loopback_policy loopback [("x-forwarded-for", "10.0.0.1, 127.0.0.1")]
    [("x-forwarded-for", "198.51.100.10")]).
  - repeat constructor.
  - vm_compute. reflexivity.
  - reflexivity.
  - vm_compute. reflexivity.
Defined.

Lemma forwarded_client_resolved_witness :
  TrustedClientIpPolicy_resolve_from_http1_headers loopback_policy loopback
    (normalize_request_headers sample_headers (IpAddr_V4 3325256714) true (ContentLength 12)) =
    Ok (IpAddr_V4 3325256714).
Proof.
  apply (forwarded_client_resolved loopback_policy loopback sample_headers 3325256714 true (ContentLength 12));
    vm_compute; reflexivity.
Defined.

Definition spoofing_headers : list HttpHeader :=
  {| h_name := "forwarded"; h_value := "for=10.0.0.1" |} :: sample_headers.

Lemma forwarded_header_spoofs_next_hop_witness :
  TrustedClientIpPolicy_resolve_from_http1_headers loopback_policy loopback
    (normalize_request_headers spoofing_headers (IpAddr_V4 3325256714) true (ContentLength 12)) =
    Ok (canonicalize_ip (IpAddr_V4 167772161)).
Proof.
  apply (forwarded_header_spoofs_next_hop loopback_policy loopback spoofing_headers (IpAddr_V4 3325256714)
    (IpAddr_V4 167772161) true (ContentLength 12)); vm_compute; reflexivity.
Defined.
