(* ===== verification/SourceGuards.v ===== *)
(** * Guards against abusive sources

    Models [crates/runtime/src/source_guards.rs] (connections per source, concurrent
    handshakes) and [crates/runtime/src/anonymous_sources.rs] (denied networks).

    The semaphore of the asynchronous runtime is a parameter with its documented behaviour. *)

From stdpp Require Import pretty.
From S2P Require Import Prelude RustStr NetCore RustText RouteMatching HttpMessage RustIp TrustedClientIp.
Local Open Scope N_scope.

(** ** Source quotas *)

Inductive SourceAggregation := ExactIp | Ipv4Subnet24 | Ipv6Subnet64.

Definition normalize_source_key (ip : IpAddr) (aggregation : SourceAggregation) : string :=
  match aggregation, canonicalize_ip ip with
  | ExactIp, ip => ip_to_string ip
  | Ipv4Subnet24, IpAddr_V4 a =>
      pretty (ipv4_octet a 0) +:+ "." +:+ pretty (ipv4_octet a 1) +:+ "." +:+
      pretty (ipv4_octet a 2) +:+ ".0/24"
  | Ipv4Subnet24, IpAddr_V6 a => ipv6_to_string a
  | Ipv6Subnet64, IpAddr_V6 a => ipv6_to_string (a / 2 ^ 64 * 2 ^ 64) +:+ "/64"
  | Ipv6Subnet64, IpAddr_V4 a => ipv4_to_string a
  end.

Record SourceQuotaPolicy := {
  aggregation : SourceAggregation; max_active_per_source : N; max_tracked_sources : N
}.
Definition SourceQuotaPolicy_new (aggregation : SourceAggregation) (max_active max_tracked : N) :
    SourceQuotaPolicy :=
  {| aggregation := aggregation; max_active_per_source := max_active; max_tracked_sources := max_tracked |}.

Record HandshakeGuardPolicy := { hp_max_inflight : N; hp_timeout : Duration }.
Definition HandshakeGuardPolicy_new (max_inflight : N) (timeout : Duration) : HandshakeGuardPolicy :=
  {| hp_max_inflight := max_inflight; hp_timeout := timeout |}.

Record ListenerAbuseProtectionPolicy := {
  source_quota_policy : option SourceQuotaPolicy; handshake_guard_policy : option HandshakeGuardPolicy
}.
Definition ListenerAbuseProtectionPolicy_default : ListenerAbuseProtectionPolicy :=
  {| source_quota_policy := None; handshake_guard_policy := None |}.

Record ListenerAbuseProtectionSnapshot := {
  sn_source_quota_rejections : N; sn_tracked_source_limit_rejections : N;
  sn_handshake_guard_rejections : N; sn_tracked_sources : N; sn_active_handshakes : N
}.

Inductive AbuseRejectionReason := SourceQuotaExceeded | TrackedSourceLimitReached | HandshakeLimitReached.

Definition AbuseRejectionReason_code (r : AbuseRejectionReason) : string :=
  match r with
  | SourceQuotaExceeded => "source_quota_exceeded"
  | TrackedSourceLimitReached => "tracked_source_limit_reached"
  | HandshakeLimitReached => "handshake_limit_reached"
  end.

Definition AbuseRejectionReason_detail (r : AbuseRejectionReason) : string :=
  match r with
  | SourceQuotaExceeded => "source quota exhausted"
  | TrackedSourceLimitReached => "bounded source state exhausted"
  | HandshakeLimitReached => "handshake concurrency exhausted"
  end.

Record SourceQuotaTracker := { sq_policy : SourceQuotaPolicy; active_by_source : gmap string N }.
Definition SourceQuotaTracker_new (policy : SourceQuotaPolicy) : SourceQuotaTracker :=
  {| sq_policy := policy; active_by_source := ∅ |}.

(** A lease is the key it counts for. *)
Record SourceQuotaLease := { sl_key : string }.

Definition SourceQuotaTracker_try_acquire (t : SourceQuotaTracker) (peer_addr : SocketAddr) :
    SourceQuotaTracker * Result SourceQuotaLease AbuseRejectionReason :=
  let key := normalize_source_key peer_addr.(sa_ip) t.(sq_policy).(aggregation) in
  let with_active active := {| sq_policy := t.(sq_policy); active_by_source := active |} in
  match t.(active_by_source) !! key with
  | Some active =>
      if decide (t.(sq_policy).(max_active_per_source) ≤ active) then (t, Err SourceQuotaExceeded)
      else (with_active (<[key := saturating_add u64_max active 1]> t.(active_by_source)), Ok {| sl_key := key |})
  | None =>
      if decide (t.(sq_policy).(max_tracked_sources) ≤ N.of_nat (size t.(active_by_source)))
      then (t, Err TrackedSourceLimitReached)
      else (with_active (<[key := 1]> t.(active_by_source)), Ok {| sl_key := key |})
  end.

Definition SourceQuotaTracker_tracked_sources (t : SourceQuotaTracker) : N :=
  N.of_nat (size t.(active_by_source)).

Definition SourceQuotaTracker_release (t : SourceQuotaTracker) (key : string) : SourceQuotaTracker :=
  match t.(active_by_source) !! key with
  | Some active =>
      {| sq_policy := t.(sq_policy);
         active_by_source := if decide (active - 1 = 0) then delete key t.(active_by_source)
                             else <[key := active - 1]> t.(active_by_source) |}
  | None => t
  end.

Definition SourceQuotaLease_drop (t : SourceQuotaTracker) (lease : SourceQuotaLease) : SourceQuotaTracker :=
  SourceQuotaTracker_release t lease.(sl_key).

(** ** Handshakes *)

(** The semaphore of the asynchronous runtime. Its documentation: [new] panics above
    [MAX_PERMITS] ([usize::MAX >> 3]), [try_acquire_owned] fails exactly when no permit is
    available (the code never closes it), a dropped permit is available again. *)
Definition MAX_PERMITS : N := N.shiftr u64_max 3.

Class SemaphoreOps := {
  Semaphore : Type;
  sem_new : N → option Semaphore;
  sem_try_acquire : Semaphore → option Semaphore;
  sem_release : Semaphore → Semaphore;
  sem_available : Semaphore → N;
  sem_new_available n s : sem_new n = Some s → sem_available s = n;
  sem_new_panics n : sem_new n = None ↔ MAX_PERMITS < n;
  sem_acquire_none s : sem_try_acquire s = None ↔ sem_available s = 0;
  sem_acquire_some s s' : sem_try_acquire s = Some s' → sem_available s = sem_available s' + 1;
  sem_release_available s :
    sem_available s < MAX_PERMITS → sem_available (sem_release s) = sem_available s + 1
}.

Section guards.
Context {Sem : SemaphoreOps}.

Record HandshakeGuard := { hg_semaphore : Semaphore; hg_max_inflight : N; hg_timeout : Duration }.
Definition HandshakeGuard_new (policy : HandshakeGuardPolicy) : option HandshakeGuard :=
  semaphore ← sem_new policy.(hp_max_inflight);
  Some {| hg_semaphore := semaphore; hg_max_inflight := policy.(hp_max_inflight);
          hg_timeout := policy.(hp_timeout) |}.

Definition with_semaphore (g : HandshakeGuard) (s : Semaphore) : HandshakeGuard :=
  {| hg_semaphore := s; hg_max_inflight := g.(hg_max_inflight); hg_timeout := g.(hg_timeout) |}.

(** Whether the permit still holds its slot. *)
Record HandshakePermit := { hs_held : bool }.

Definition HandshakeGuard_try_acquire (g : HandshakeGuard) :
    HandshakeGuard * Result HandshakePermit AbuseRejectionReason :=
  match sem_try_acquire g.(hg_semaphore) with
  | Some s => (with_semaphore g s, Ok {| hs_held := true |})
  | None => (g, Err HandshakeLimitReached)
  end.

Definition HandshakeGuard_active_handshakes (g : HandshakeGuard) : N :=
  g.(hg_max_inflight) - sem_available g.(hg_semaphore).

(** [release] drops the slot if the permit still holds it; dropping the permit does the same. *)
Definition HandshakePermit_release (g : HandshakeGuard) (permit : HandshakePermit) :
    HandshakeGuard * HandshakePermit :=
  if permit.(hs_held)
  then (with_semaphore g (sem_release g.(hg_semaphore)), {| hs_held := false |})
  else (g, permit).

(** ** The listener's state *)

Record ListenerAbuseProtectionState := {
  la_source_quota : option SourceQuotaTracker; la_handshake_guard : option HandshakeGuard;
  source_quota_rejections : N; tracked_source_limit_rejections : N; handshake_guard_rejections : N
}.

Definition ListenerAbuseProtectionState_new (policy : ListenerAbuseProtectionPolicy) :
    option ListenerAbuseProtectionState :=
  handshake_guard ← match policy.(handshake_guard_policy) with
                    | Some guard => Some <$> HandshakeGuard_new guard
                    | None => Some None
                    end;
  Some {| la_source_quota := SourceQuotaTracker_new <$> policy.(source_quota_policy);
          la_handshake_guard := handshake_guard;
          source_quota_rejections := 0; tracked_source_limit_rejections := 0;
          handshake_guard_rejections := 0 |}.

Definition ListenerAbuseProtectionState_default : option ListenerAbuseProtectionState :=
  ListenerAbuseProtectionState_new ListenerAbuseProtectionPolicy_default.

Definition ListenerAbuseProtectionState_try_acquire_source (l : ListenerAbuseProtectionState)
    (peer_addr : SocketAddr) :
    ListenerAbuseProtectionState * Result (option SourceQuotaLease) AbuseRejectionReason :=
  match l.(la_source_quota) with
  | None => (l, Ok None)
  | Some tracker =>
      let '(tracker, result) := SourceQuotaTracker_try_acquire tracker peer_addr in
      let with_counts quota tracked :=
        {| la_source_quota := Some tracker; la_handshake_guard := l.(la_handshake_guard);
           source_quota_rejections := quota; tracked_source_limit_rejections := tracked;
           handshake_guard_rejections := l.(handshake_guard_rejections) |} in
      let quota := l.(source_quota_rejections) in
      let tracked := l.(tracked_source_limit_rejections) in
      match result with
      | Ok lease => (with_counts quota tracked, Ok (Some lease))
      | Err SourceQuotaExceeded => (with_counts (fetch_add quota 1) tracked, Err SourceQuotaExceeded)
      | Err TrackedSourceLimitReached =>
          (with_counts quota (fetch_add tracked 1), Err TrackedSourceLimitReached)
      | Err HandshakeLimitReached => (with_counts quota tracked, Err HandshakeLimitReached)
      end
  end.

Definition ListenerAbuseProtectionState_try_acquire_handshake (l : ListenerAbuseProtectionState) :
    ListenerAbuseProtectionState * Result (option HandshakePermit) AbuseRejectionReason :=
  match l.(la_handshake_guard) with
  | None => (l, Ok None)
  | Some guard =>
      let '(guard, result) := HandshakeGuard_try_acquire guard in
      let with_count rejected :=
        {| la_source_quota := l.(la_source_quota); la_handshake_guard := Some guard;
           source_quota_rejections := l.(source_quota_rejections);
           tracked_source_limit_rejections := l.(tracked_source_limit_rejections);
           handshake_guard_rejections := rejected |} in
      match result with
      | Ok permit => (with_count l.(handshake_guard_rejections), Ok (Some permit))
      | Err error => (with_count (fetch_add l.(handshake_guard_rejections) 1), Err error)
      end
  end.

Definition ListenerAbuseProtectionState_snapshot (l : ListenerAbuseProtectionState) :
    ListenerAbuseProtectionSnapshot :=
  {| sn_source_quota_rejections := l.(source_quota_rejections);
     sn_tracked_source_limit_rejections := l.(tracked_source_limit_rejections);
     sn_handshake_guard_rejections := l.(handshake_guard_rejections);
     sn_tracked_sources := from_option SourceQuotaTracker_tracked_sources 0 l.(la_source_quota);
     sn_active_handshakes := from_option HandshakeGuard_active_handshakes 0 l.(la_handshake_guard) |}.

Definition ListenerAbuseProtectionState_handshake_timeout (l : ListenerAbuseProtectionState) :
    option Duration := hg_timeout <$> l.(la_handshake_guard).

(** ** The guards count what is held

    The clients' view: the leases and handshake permits that have not been dropped. *)

Record Clients := { cs_leases : list SourceQuotaLease; cs_permits : list HandshakePermit }.

Definition held_leases (k : string) (leases : list SourceQuotaLease) : N :=
  N.of_nat (length (filter (λ x, x.(sl_key) = k) leases)).
Definition held_permits (permits : list HandshakePermit) : N :=
  N.of_nat (length (filter (λ x, x.(hs_held) = true) permits)).

Definition with_tracker (l : ListenerAbuseProtectionState) (t : SourceQuotaTracker) : ListenerAbuseProtectionState :=
  {| la_source_quota := Some t; la_handshake_guard := l.(la_handshake_guard);
     source_quota_rejections := l.(source_quota_rejections);
     tracked_source_limit_rejections := l.(tracked_source_limit_rejections);
     handshake_guard_rejections := l.(handshake_guard_rejections) |}.
Definition with_guard (l : ListenerAbuseProtectionState) (g : HandshakeGuard) : ListenerAbuseProtectionState :=
  {| la_source_quota := l.(la_source_quota); la_handshake_guard := Some g;
     source_quota_rejections := l.(source_quota_rejections);
     tracked_source_limit_rejections := l.(tracked_source_limit_rejections);
     handshake_guard_rejections := l.(handshake_guard_rejections) |}.

Inductive guard_step : ListenerAbuseProtectionState * Clients → ListenerAbuseProtectionState * Clients → Prop :=
| source_asked l c peer l' r :
    ListenerAbuseProtectionState_try_acquire_source l peer = (l', r) →
    guard_step (l, c)
      (l', match r with
           | Ok (Some lease) => {| cs_leases := lease :: c.(cs_leases); cs_permits := c.(cs_permits) |}
           | _ => c
           end)
| source_dropped l t leases1 lease leases2 permits :
    l.(la_source_quota) = Some t →
    guard_step (l, {| cs_leases := leases1 ++ lease :: leases2; cs_permits := permits |})
      (with_tracker l (SourceQuotaLease_drop t lease), {| cs_leases := leases1 ++ leases2; cs_permits := permits |})
| handshake_asked l c l' r :
    ListenerAbuseProtectionState_try_acquire_handshake l = (l', r) →
    guard_step (l, c)
      (l', match r with
           | Ok (Some permit) => {| cs_leases := c.(cs_leases); cs_permits := permit :: c.(cs_permits) |}
           | _ => c
           end)
| handshake_released l g leases permits1 permit permits2 g' permit' :
    l.(la_handshake_guard) = Some g → HandshakePermit_release g permit = (g', permit') →
    guard_step (l, {| cs_leases := leases; cs_permits := permits1 ++ permit :: permits2 |})
      (with_guard l g', {| cs_leases := leases; cs_permits := permits1 ++ permit' :: permits2 |})
| handshake_dropped l g leases permits1 permit permits2 :
    l.(la_handshake_guard) = Some g →
    guard_step (l, {| cs_leases := leases; cs_permits := permits1 ++ permit :: permits2 |})
      (with_guard l (HandshakePermit_release g permit).1,
       {| cs_leases := leases; cs_permits := permits1 ++ permits2 |}).

Definition tracker_inv (t : SourceQuotaTracker) (leases : list SourceQuotaLease) : Prop :=
  (∀ k, t.(active_by_source) !! k = if decide (held_leases k leases = 0) then None else Some (held_leases k leases)) ∧
  (∀ k, held_leases k leases ≤ N.max 1 t.(sq_policy).(max_active_per_source)) ∧
  N.of_nat (size t.(active_by_source)) ≤ t.(sq_policy).(max_tracked_sources) ∧
  t.(sq_policy).(max_active_per_source) ≤ u64_max.

Definition guard_inv (g : HandshakeGuard) (permits : list HandshakePermit) : Prop :=
  sem_available g.(hg_semaphore) + held_permits permits = g.(hg_max_inflight) ∧
  g.(hg_max_inflight) ≤ MAX_PERMITS.

Definition listener_inv (s : ListenerAbuseProtectionState * Clients) : Prop :=
  match s.1.(la_source_quota) with Some t => tracker_inv t s.2.(cs_leases) | None => s.2.(cs_leases) = [] end ∧
  match s.1.(la_handshake_guard) with Some g => guard_inv g s.2.(cs_permits) | None => s.2.(cs_permits) = [] end.

Lemma held_leases_cons k x leases :
  held_leases k (x :: leases) = (if decide (x.(sl_key) = k) then 1 else 0) + held_leases k leases.
Proof. unfold held_leases. rewrite filter_cons. case_decide; simpl; lia. Qed.

Lemma held_leases_middle k x l1 l2 :
  held_leases k (l1 ++ x :: l2) = (if decide (x.(sl_key) = k) then 1 else 0) + held_leases k (l1 ++ l2).
Proof. rewrite <- held_leases_cons. unfold held_leases. by rewrite <- Permutation_middle. Qed.

Lemma held_permits_middle x l1 l2 :
  held_permits (l1 ++ x :: l2) = (if x.(hs_held) then 1 else 0) + held_permits (l1 ++ l2).
Proof.
  unfold held_permits. rewrite <- Permutation_middle, filter_cons.
  destruct (hs_held x); simpl; [|done]. lia.
Qed.

Lemma tracker_acquire_inv t leases peer t' r :
  tracker_inv t leases → SourceQuotaTracker_try_acquire t peer = (t', r) →
  t'.(sq_policy) = t.(sq_policy) ∧
  tracker_inv t' (match r with Ok lease => lease :: leases | Err _ => leases end).
Proof.
  intros (Hcnt & Hle & Hlen & Hpos). unfold SourceQuotaTracker_try_acquire.
  set (key := normalize_source_key _ _). pose proof (Hcnt key) as Hkey.
  destruct (active_by_source t !! key) as [active|] eqn:E.
  - destruct (decide (held_leases key leases = 0)) as [|Hz]; [done|]. injection Hkey as ->.
    case_decide as Hmax; intros [= <- <-]; [done|]. split; [done|]. unfold tracker_inv. simpl.
    split_and!; try done.
    + intros k. rewrite held_leases_cons. simpl. destruct (decide (key = k)) as [<-|Hne].
      * rewrite lookup_insert_eq, decide_False by lia. f_equal. unfold saturating_add. lia.
      * by rewrite lookup_insert_ne, Hcnt.
    + intros k. rewrite held_leases_cons. simpl. case_decide; [subst; lia|apply Hle].
    + rewrite map_size_insert_Some by eauto. lia.
  - destruct (decide (held_leases key leases = 0)) as [Hz|]; [|done].
    case_decide as Hmax; intros [= <- <-]; [done|]. split; [done|]. unfold tracker_inv. simpl.
    split_and!; try done.
    + intros k. rewrite held_leases_cons. simpl. destruct (decide (key = k)) as [<-|Hne].
      * rewrite lookup_insert_eq, decide_False by lia. f_equal. lia.
      * by rewrite lookup_insert_ne, Hcnt.
    + intros k. rewrite held_leases_cons. simpl. case_decide; [subst; lia|apply Hle].
    + rewrite map_size_insert_None by done. lia.
Qed.

Lemma tracker_drop_inv t l1 lease l2 :
  tracker_inv t (l1 ++ lease :: l2) → tracker_inv (SourceQuotaLease_drop t lease) (l1 ++ l2).
Proof.
  intros (Hcnt & Hle & Hlen & Hpos). unfold SourceQuotaLease_drop, SourceQuotaTracker_release.
  rewrite Hcnt, held_leases_middle, !(decide_True _ _ eq_refl), decide_False by lia.
  set (h := held_leases (sl_key lease) (l1 ++ l2)). replace (1 + h - 1) with h by lia.
  unfold tracker_inv. simpl. split_and!; try done.
  - intros k. specialize (Hcnt k). rewrite held_leases_middle in Hcnt.
    destruct (decide (sl_key lease = k)) as [<-|Hne]; fold h.
    + destruct (decide (h = 0)); [by rewrite lookup_delete_eq|by rewrite lookup_insert_eq].
    + destruct (decide (h = 0)); [by rewrite lookup_delete_ne, Hcnt|by rewrite lookup_insert_ne, Hcnt].
  - intros k. specialize (Hle k). rewrite held_leases_middle in Hle. case_decide; lia.
  - etransitivity; [|exact Hlen]. apply N_of_nat_le. case_decide.
    + apply map_subseteq_size, delete_subseteq.
    + rewrite map_size_insert_Some; [lia|].
      rewrite Hcnt, held_leases_middle, !(decide_True _ _ eq_refl), decide_False by lia. eauto.
Qed.

Lemma guard_release_inv g p1 permit p2 :
  guard_inv g (p1 ++ permit :: p2) → guard_inv (HandshakePermit_release g permit).1 (p1 ++ p2).
Proof.
  unfold guard_inv, HandshakePermit_release. rewrite held_permits_middle.
  destruct (hs_held permit); simpl; [|done]. intros [Hsum Hmax].
  rewrite sem_release_available; lia.
Qed.

Lemma guard_release_unheld g permit : (HandshakePermit_release g permit).2.(hs_held) = false.
Proof. unfold HandshakePermit_release. by destruct (hs_held permit) eqn:E. Qed.

Lemma guard_acquire_inv g permits g' r :
  guard_inv g permits → HandshakeGuard_try_acquire g = (g', r) →
  guard_inv g' (match r with Ok permit => permit :: permits | Err _ => permits end).
Proof.
  unfold guard_inv, HandshakeGuard_try_acquire. intros [Hsum Hmax].
  destruct (sem_try_acquire _) as [sem|] eqn:Es; intros [= <- <-]; [|done].
  apply sem_acquire_some in Es. pose proof (held_permits_middle {| hs_held := true |} [] permits) as Hp.
  simpl in *. lia.
Qed.

Lemma guard_step_inv s s' : listener_inv s → guard_step s s' → listener_inv s'.
Proof.
  intros [Hs Hh] Hstep. destruct Hstep as
    [l c peer l' r E|l t l1 lease l2 permits El|l c l' r E|l g leases p1 permit p2 g' permit' El E
    |l g leases p1 permit p2 El];
    unfold listener_inv in *; simpl in *.
  - unfold ListenerAbuseProtectionState_try_acquire_source in E.
    destruct (la_source_quota l) as [t|] eqn:El; [|injection E as <- <-; by rewrite El].
    destruct (SourceQuotaTracker_try_acquire t peer) as [t' r'] eqn:Et.
    destruct (tracker_acquire_inv _ _ _ _ _ Hs Et) as [_ Hinv].
    destruct r' as [lease|[]]; injection E as <- <-; done.
  - rewrite El in Hs. split; [by apply tracker_drop_inv|done].
  - unfold ListenerAbuseProtectionState_try_acquire_handshake in E.
    destruct (la_handshake_guard l) as [g|] eqn:El; [|injection E as <- <-; by rewrite El].
    destruct (HandshakeGuard_try_acquire g) as [g' r'] eqn:Eg.
    pose proof (guard_acquire_inv _ _ _ _ Hh Eg). destruct r'; injection E as <- <-; done.
  - rewrite El in Hh. split; [done|]. apply guard_release_inv in Hh.
    pose proof (guard_release_unheld g permit) as Hu. rewrite E in Hh, Hu. simpl in Hh, Hu.
    unfold guard_inv in *. by rewrite held_permits_middle, Hu.
  - rewrite El in Hh. split; [done|]. by apply guard_release_inv.
Qed.

Definition policies (l : ListenerAbuseProtectionState) : option SourceQuotaPolicy * option N :=
  (sq_policy <$> l.(la_source_quota), hg_max_inflight <$> l.(la_handshake_guard)).

Lemma release_max_inflight g permit :
  (HandshakePermit_release g permit).1.(hg_max_inflight) = g.(hg_max_inflight).
Proof. unfold HandshakePermit_release. by destruct (hs_held permit). Qed.

Lemma guard_step_policies s s' : guard_step s s' → policies s'.1 = policies s.1.
Proof.
  intros Hstep. destruct Hstep as
    [l c peer l' r E|l t l1 lease l2 permits El|l c l' r E|l g leases p1 permit p2 g' permit' El E
    |l g leases p1 permit p2 El]; unfold policies; simpl in *.
  - unfold ListenerAbuseProtectionState_try_acquire_source in E.
    destruct (la_source_quota l) as [t|] eqn:El; [|injection E as <- <-; by rewrite El].
    unfold SourceQuotaTracker_try_acquire in E.
    destruct (_ !! _); case_decide; injection E as <- <-; done.
  - rewrite El. simpl. unfold SourceQuotaLease_drop, SourceQuotaTracker_release. by destruct (_ !! _).
  - unfold ListenerAbuseProtectionState_try_acquire_handshake in E.
    destruct (la_handshake_guard l) as [g|] eqn:El; [|injection E as <- <-; by rewrite El].
    unfold HandshakeGuard_try_acquire in E. destruct (sem_try_acquire _); injection E as <- <-; done.
  - rewrite El. simpl. pose proof (release_max_inflight g permit) as Hm. rewrite E in Hm. simpl in Hm. by rewrite Hm.
  - rewrite El. simpl. by rewrite release_max_inflight.
Qed.

(** The sources that hold a lease. *)
Definition held_sources (leases : list SourceQuotaLease) : N :=
  N.of_nat (size (list_to_set (sl_key <$> leases) : gset string)).

Lemma held_leases_zero k leases : held_leases k leases = 0 ↔ k ∉ sl_key <$> leases.
Proof.
  induction leases as [|x leases IH]; [simpl; split; [intros _; apply not_elem_of_nil|done]|].
  rewrite held_leases_cons, fmap_cons, not_elem_of_cons. case_decide; split; [lia| | |];
    naive_solver lia.
Qed.

Lemma tracker_size t leases : tracker_inv t leases → SourceQuotaTracker_tracked_sources t = held_sources leases.
Proof.
  intros (Hcnt & _). unfold SourceQuotaTracker_tracked_sources, held_sources. rewrite <- size_dom.
  do 2 f_equal. apply leibniz_equiv. intros k. rewrite elem_of_dom, Hcnt, elem_of_list_to_set.
  pose proof (held_leases_zero k leases). case_decide as Hz.
  - split; [by intros []|]. tauto.
  - split; [|done]. intros _. destruct (decide (k ∈ sl_key <$> leases)); tauto.
Qed.

(** What a new connection from a source is told, from the leases held alone. *)
Definition source_admission (p : SourceQuotaPolicy) (leases : list SourceQuotaLease) (k : string) :
    Result (option SourceQuotaLease) AbuseRejectionReason :=
  if decide (held_leases k leases = 0)
  then if decide (p.(max_tracked_sources) ≤ held_sources leases) then Err TrackedSourceLimitReached
       else Ok (Some {| sl_key := k |})
  else if decide (p.(max_active_per_source) ≤ held_leases k leases) then Err SourceQuotaExceeded
       else Ok (Some {| sl_key := k |}).

Lemma acquire_source_admission l t leases peer :
  l.(la_source_quota) = Some t → tracker_inv t leases →
  (ListenerAbuseProtectionState_try_acquire_source l peer).2 =
    source_admission t.(sq_policy) leases (normalize_source_key peer.(sa_ip) t.(sq_policy).(aggregation)).
Proof.
  intros Hl Hinv. pose proof (tracker_size _ _ Hinv) as Hsize. destruct Hinv as [Hcnt _].
  unfold ListenerAbuseProtectionState_try_acquire_source, SourceQuotaTracker_try_acquire, source_admission.
  rewrite Hl, Hcnt, <- Hsize. unfold SourceQuotaTracker_tracked_sources.
  by repeat case_decide.
Qed.

Lemma new_listener_inv policy l :
  ListenerAbuseProtectionState_new policy = Some l →
  (∀ q, policy.(source_quota_policy) = Some q → q.(max_active_per_source) ≤ u64_max) →
  listener_inv (l, {| cs_leases := []; cs_permits := [] |}) ∧
  policies l = (policy.(source_quota_policy), hp_max_inflight <$> policy.(handshake_guard_policy)).
Proof.
  unfold ListenerAbuseProtectionState_new, listener_inv, policies. destruct policy as [[q|] [h|]]; simpl;
    unfold HandshakeGuard_new; try destruct (sem_new _) as [s|] eqn:Es; simpl; intros [= <-] Hq; simpl;
    (split; [split|done]); try done.
  all: try (unfold tracker_inv; simpl; split_and!; [done|intros; unfold held_leases; simpl; lia|
    rewrite map_size_empty; simpl; lia|by apply Hq]).
  all: unfold guard_inv; simpl; rewrite (sem_new_available _ _ Es);
    assert (¬ MAX_PERMITS < hp_max_inflight h) by (rewrite <- sem_new_panics; congruence);
    unfold held_permits; simpl; lia.
Qed.

Lemma reachable_listener_inv s s' :
  rtc guard_step s s' → listener_inv s → listener_inv s' ∧ policies s'.1 = policies s.1.
Proof.
  induction 1 as [s|s1 s2 s3 Hstep _ IH]; intros Hinv; [done|].
  destruct (IH (guard_step_inv _ _ Hinv Hstep)) as [? Hp]. split; [done|].
  by rewrite Hp, (guard_step_policies _ _ Hstep).
Qed.

(** C40: In every state a listener reaches by connections and handshakes that ask, release and
    drop in any order, the quota tracker and the handshake guard report exactly what the clients
    hold: the tracked sources are the sources holding a lease and number at most
    [max_tracked_sources], no source holds more than [max_active_per_source] leases (one, when it
    is zero), the next connection is admitted or refused by the leases held alone, and the active
    handshakes are the permits held, never above [max_inflight]. *)
Theorem source_guards_exact (policy : ListenerAbuseProtectionPolicy) (q : SourceQuotaPolicy)
    (h : HandshakeGuardPolicy) (l0 l : ListenerAbuseProtectionState) (c : Clients)
    (Hq : policy.(source_quota_policy) = Some q) (Hwidth : q.(max_active_per_source) ≤ u64_max)
    (Hh : policy.(handshake_guard_policy) = Some h)
    (Hnew : ListenerAbuseProtectionState_new policy = Some l0)
    (Hreach : rtc guard_step (l0, {| cs_leases := []; cs_permits := [] |}) (l, c)) :
  let snapshot := ListenerAbuseProtectionState_snapshot l in
  snapshot.(sn_tracked_sources) = held_sources c.(cs_leases) ∧
  held_sources c.(cs_leases) ≤ q.(max_tracked_sources) ∧
  (∀ k, held_leases k c.(cs_leases) ≤ N.max 1 q.(max_active_per_source)) ∧
  (∀ peer, (ListenerAbuseProtectionState_try_acquire_source l peer).2 =
    source_admission q c.(cs_leases) (normalize_source_key peer.(sa_ip) q.(aggregation))) ∧
  snapshot.(sn_active_handshakes) = held_permits c.(cs_permits) ∧
  held_permits c.(cs_permits) ≤ h.(hp_max_inflight).
Proof.
  destruct (new_listener_inv _ _ Hnew) as [Hinv0 Hp0]; [intros ? Hq'; rewrite Hq in Hq'; by injection Hq' as <-|].
  destruct (reachable_listener_inv _ _ Hreach Hinv0) as [[Ht Hg] Hp]. simpl in *.
  rewrite Hp0, Hq, Hh in Hp. unfold policies in Hp.
  destruct (la_source_quota l) as [t|] eqn:El; [|done].
  destruct (la_handshake_guard l) as [g|] eqn:Eg; [|done]. injection Hp as Hpt Hpg.
  pose proof (tracker_size _ _ Ht) as Hsize. pose proof Ht as (_ & Hle & Hlen & _).
  destruct Hg as [Hsum _]. cbn [from_option].
  rewrite <- Hsize, <- Hpt, <- Hpg.
  split_and!; [done|done|done| | |lia].
  - intros peer. by apply acquire_source_admission.
  - unfold HandshakeGuard_active_handshakes. lia.
Qed.

(** A refused handshake is refused because all [max_inflight] slots are held; a slot given
    back by [release] is not given back again when the permit is dropped. *)
Theorem handshake_refused_iff_full (policy : ListenerAbuseProtectionPolicy) (h : HandshakeGuardPolicy)
    (l0 l : ListenerAbuseProtectionState) (c : Clients)
    (Hwidth : ∀ q, policy.(source_quota_policy) = Some q → q.(max_active_per_source) ≤ u64_max)
    (Hh : policy.(handshake_guard_policy) = Some h)
    (Hnew : ListenerAbuseProtectionState_new policy = Some l0)
    (Hreach : rtc guard_step (l0, {| cs_leases := []; cs_permits := [] |}) (l, c)) :
  ((ListenerAbuseProtectionState_try_acquire_handshake l).2 = Err HandshakeLimitReached ↔
    held_permits c.(cs_permits) = h.(hp_max_inflight)) ∧
  (∀ g permit, let '(g', permit') := HandshakePermit_release g permit in
    HandshakePermit_release g' permit' = (g', permit')).
Proof.
  destruct (new_listener_inv _ _ Hnew Hwidth) as [Hinv0 Hp0].
  destruct (reachable_listener_inv _ _ Hreach Hinv0) as [[_ Hg] Hp]. simpl in *.
  rewrite Hp0, Hh in Hp. unfold policies in Hp.
  destruct (la_handshake_guard l) as [g|] eqn:Eg; [|done]. injection Hp as _ Hpg. destruct Hg as [Hsum _].
  split.
  - unfold ListenerAbuseProtectionState_try_acquire_handshake, HandshakeGuard_try_acquire. rewrite Eg.
    pose proof (sem_acquire_none (hg_semaphore g)) as Hnone.
    destruct (sem_try_acquire _) as [s|] eqn:Es; simpl.
    + apply sem_acquire_some in Es. split; [done|lia].
    + split; [|done]. intros _. destruct Hnone as [Hnone _]. specialize (Hnone eq_refl). lia.
  - intros g0 permit. unfold HandshakePermit_release. destruct (hs_held permit) eqn:E; simpl; [done|by rewrite E].
Qed.
End guards.

(** ** Sources share a quota by network *)

Lemma string_app_suffix_inj (a b suffix : string) : a +:+ suffix = b +:+ suffix → a = b.
Proof. intros H%(f_equal bytes). rewrite !bytes_app in H. apply app_inv_tail in H. by apply bytes_inj. Qed.

Lemma ipv4_to_string_inj a b : a < 2 ^ 32 → b < 2 ^ 32 → ipv4_to_string a = ipv4_to_string b → a = b.
Proof.
  intros Ha Hb H. apply (f_equal parse_ip) in H. rewrite !parse_ipv4_text in H by done. by injection H.
Qed.

Lemma subnet24_key a : a < 2 ^ 32 →
  normalize_source_key (IpAddr_V4 a) Ipv4Subnet24 = ipv4_to_string (a / 256 * 256) +:+ "/24".
Proof.
  intros Ha. unfold normalize_source_key, ipv4_to_string. cbn [canonicalize_ip].
  assert (Ho : ∀ i, i ≤ 2 → ipv4_octet (a / 256 * 256) i = ipv4_octet a i).
  { intros i Hi. unfold ipv4_octet. f_equal.
    replace (2 ^ (8 * (3 - i))) with (256 * 2 ^ (8 * (2 - i))).
    - rewrite <- !N.Div0.div_div, N.div_mul by lia. done.
    - replace (8 * (3 - i)) with (8 + 8 * (2 - i)) by lia. by rewrite N.pow_add_r. }
  rewrite !Ho by lia. replace (ipv4_octet (a / 256 * 256) 3) with 0.
  - apply bytes_inj. by rewrite !bytes_app, <- !app_assoc.
  - unfold ipv4_octet. change (2 ^ (8 * (3 - 3))) with 1. rewrite N.div_1_r. symmetry. apply N.Div0.mod_mul.
Qed.

(** Which IPv4 peers share a quota: with the exact aggregation only equal addresses, with
    the /24 aggregation exactly the addresses that agree on their first three octets; and a peer
    seen through an IPv4-mapped IPv6 address has the quota of its IPv4 address. *)
Theorem source_key_aggregates (a b : N) (Ha : a < 2 ^ 32) (Hb : b < 2 ^ 32) :
  (normalize_source_key (IpAddr_V4 a) ExactIp = normalize_source_key (IpAddr_V4 b) ExactIp ↔ a = b) ∧
  (normalize_source_key (IpAddr_V4 a) Ipv4Subnet24 = normalize_source_key (IpAddr_V4 b) Ipv4Subnet24 ↔
    a / 256 = b / 256) ∧
  (∀ agg, normalize_source_key (IpAddr_V6 (65535 * 2 ^ 32 + a)) agg = normalize_source_key (IpAddr_V4 a) agg).
Proof.
  split_and!.
  - split; [|by intros ->]. cbn. by apply ipv4_to_string_inj.
  - rewrite !subnet24_key by done. split; [|by intros ->]. intros H.
    apply string_app_suffix_inj, ipv4_to_string_inj in H; [lia| |];
      (eapply N.le_lt_trans; [rewrite N.mul_comm; apply N.Div0.mul_div_le|done]).
  - intros agg. unfold normalize_source_key, canonicalize_ip, to_ipv4_mapped.
    replace ((65535 * 2 ^ 32 + a) / 2 ^ 32) with 65535
      by (rewrite N.div_add_l, N.div_small by done; lia).
    rewrite decide_True by done.
    replace ((65535 * 2 ^ 32 + a) mod 2 ^ 32) with a; [done|].
    rewrite N.add_comm, N.Div0.mod_add, N.mod_small by done. done.
Qed.

Lemma source_key_aggregates_witness :
  normalize_source_key (IpAddr_V4 3325256714) Ipv4Subnet24 = normalize_source_key (IpAddr_V4 3325256719) Ipv4Subnet24.
Proof. apply (source_key_aggregates 3325256714 3325256719); vm_compute; reflexivity. Defined.

(** ** Sample runs *)

Definition counting_semaphore : SemaphoreOps.
Proof.
  refine {| Semaphore := N; sem_new n := if decide (n ≤ MAX_PERMITS) then Some n else None;
            sem_try_acquire s := if decide (s = 0) then None else Some (s - 1);
            sem_release s := s + 1; sem_available s := s |}; intros.
  - by case_decide; simplify_eq.
  - case_decide; split; try done; lia.
  - by case_decide.
  - case_decide; simplify_eq. lia.
  - done.
Defined.

Definition sample_policy : ListenerAbuseProtectionPolicy :=
  {| source_quota_policy := Some (SourceQuotaPolicy_new Ipv4Subnet24 1 2);
     handshake_guard_policy := Some (HandshakeGuardPolicy_new 1 5) |}.

Definition sample_peer : SocketAddr := {| sa_ip := IpAddr_V4 3325256714; sa_port := 4000 |}.

Definition sample_listener : @ListenerAbuseProtectionState counting_semaphore :=
  {| la_source_quota := Some (SourceQuotaTracker_new (SourceQuotaPolicy_new Ipv4Subnet24 1 2));
     la_handshake_guard := Some {| hg_semaphore := (1 : @Semaphore counting_semaphore);
                                   hg_max_inflight := 1; hg_timeout := 5 |};
     source_quota_rejections := 0; tracked_source_limit_rejections := 0; handshake_guard_rejections := 0 |}.

Lemma source_guards_exact_witness :
  let '(l, r) := ListenerAbuseProtectionState_try_acquire_source sample_listener sample_peer in
  (ListenerAbuseProtectionState_try_acquire_source l sample_peer).2 = Err SourceQuotaExceeded.
Proof.
  destruct (ListenerAbuseProtectionState_try_acquire_source sample_listener sample_peer) as [l r] eqn:E.
  pose proof (@source_guards_exact counting_semaphore sample_policy (SourceQuotaPolicy_new Ipv4Subnet24 1 2)
    (HandshakeGuardPolicy_new 1 5) sample_listener l
    {| cs_leases := [{| sl_key := "198.51.100.0/24" |}]; cs_permits := [] |} eq_refl) as H.
  destruct H as (_ & _ & _ & H & _).
  - vm_compute. discriminate.
  - reflexivity.
  - reflexivity.
  - apply rtc_once.
    assert (r = Ok (Some {| sl_key := "198.51.100.0/24" |})) as ->.
    { apply (f_equal snd) in E. simpl in E. rewrite <- E. vm_compute. reflexivity. }
    exact (source_asked _ _ _ _ _ E).
  - rewrite H. vm_compute. reflexivity.
Defined.

Lemma handshake_refused_iff_full_witness :
  let '(l, r) := ListenerAbuseProtectionState_try_acquire_handshake sample_listener in
  (ListenerAbuseProtectionState_try_acquire_handshake l).2 = Err HandshakeLimitReached.
Proof.
  destruct (ListenerAbuseProtectionState_try_acquire_handshake sample_listener) as [l r] eqn:E.
  pose proof (@handshake_refused_iff_full counting_semaphore sample_policy
    (HandshakeGuardPolicy_new 1 5) sample_listener l
    {| cs_leases := []; cs_permits := [{| hs_held := true |}] |}) as H.
  destruct H as [H _].
  - intros q [= <-]. vm_compute. discriminate.
  - reflexivity.
  - reflexivity.
  - apply rtc_once.
    assert (r = Ok (Some {| hs_held := true |})) as ->.
    { apply (f_equal snd) in E. simpl in E. by rewrite <- E. }
    exact (handshake_asked _ _ _ _ E).
  - apply H. reflexivity.
Defined.

(** ** Denied networks ([anonymous_sources.rs]) *)

Inductive AnonymousSourceCategory := Direct | Vpn | Proxy | Socks | Tor.
#[export] Instance AnonymousSourceCategory_eq_dec : EqDecision AnonymousSourceCategory.
Proof. solve_decision. Defined.

Section anonymous.
Context {Net : IpNetwork}.

Record AnonymousSourceFilterPolicy := {
  af_enabled : bool; deny_cidrs : list IpNet;
  deny_vpn : bool; deny_proxy : bool; deny_socks : bool; deny_tor : bool;
  vpn_cidrs : list IpNet; proxy_cidrs : list IpNet; socks_cidrs : list IpNet; tor_exit_cidrs : list IpNet
}.

Definition AnonymousSourceFilterPolicy_default : AnonymousSourceFilterPolicy :=
  {| af_enabled := false; deny_cidrs := []; deny_vpn := false; deny_proxy := false; deny_socks := false;
     deny_tor := false; vpn_cidrs := []; proxy_cidrs := []; socks_cidrs := []; tor_exit_cidrs := [] |}.

Record AnonymousSourceFilterSnapshot := {
  blocked_direct_count : N; blocked_vpn_count : N; blocked_proxy_count : N;
  blocked_socks_count : N; blocked_tor_count : N
}.

(** The counters are the fields of the snapshot, which loads them one by one. *)
Record AnonymousSourceFilterState := {
  af_policy : AnonymousSourceFilterPolicy; af_counts : AnonymousSourceFilterSnapshot
}.

Definition AnonymousSourceFilterState_new (policy : AnonymousSourceFilterPolicy) : AnonymousSourceFilterState :=
  {| af_policy := policy;
     af_counts := {| blocked_direct_count := 0; blocked_vpn_count := 0; blocked_proxy_count := 0;
                     blocked_socks_count := 0; blocked_tor_count := 0 |} |}.

(** [fetch_add(1)] on the counter of a category. *)
Definition count_blocked (c : AnonymousSourceFilterSnapshot) (category : AnonymousSourceCategory) :
    AnonymousSourceFilterSnapshot :=
  let add which n := if decide (which = category) then fetch_add n 1 else n in
  {| blocked_direct_count := add Direct c.(blocked_direct_count);
     blocked_vpn_count := add Vpn c.(blocked_vpn_count);
     blocked_proxy_count := add Proxy c.(blocked_proxy_count);
     blocked_socks_count := add Socks c.(blocked_socks_count);
     blocked_tor_count := add Tor c.(blocked_tor_count) |}.

Definition AnonymousSourceFilterState_classify_and_record (f : AnonymousSourceFilterState) (ip : IpAddr) :
    AnonymousSourceFilterState * option AnonymousSourceCategory :=
  let p := f.(af_policy) in
  let blocked category :=
    ({| af_policy := p; af_counts := count_blocked f.(af_counts) category |}, Some category) in
  if negb p.(af_enabled) then (f, None)
  else
    let ip := canonicalize_ip ip in
    if in_cidrs p.(deny_cidrs) ip then blocked Direct
    else if p.(deny_tor) && in_cidrs p.(tor_exit_cidrs) ip then blocked Tor
    else if p.(deny_socks) && in_cidrs p.(socks_cidrs) ip then blocked Socks
    else if p.(deny_proxy) && in_cidrs p.(proxy_cidrs) ip then blocked Proxy
    else if p.(deny_vpn) && in_cidrs p.(vpn_cidrs) ip then blocked Vpn
    else (f, None).

Definition AnonymousSourceFilterState_snapshot (f : AnonymousSourceFilterState) :
    AnonymousSourceFilterSnapshot := f.(af_counts).

(** The networks a policy denies, with the category each is reported as. *)
Definition denied_networks (p : AnonymousSourceFilterPolicy) (category : AnonymousSourceCategory) : list IpNet :=
  match category with
  | Direct => p.(deny_cidrs)
  | Vpn => if p.(deny_vpn) then p.(vpn_cidrs) else []
  | Proxy => if p.(deny_proxy) then p.(proxy_cidrs) else []
  | Socks => if p.(deny_socks) then p.(socks_cidrs) else []
  | Tor => if p.(deny_tor) then p.(tor_exit_cidrs) else []
  end.

Definition blocked_count (s : AnonymousSourceFilterSnapshot) (category : AnonymousSourceCategory) : N :=
  match category with
  | Direct => s.(blocked_direct_count) | Vpn => s.(blocked_vpn_count) | Proxy => s.(blocked_proxy_count)
  | Socks => s.(blocked_socks_count) | Tor => s.(blocked_tor_count)
  end.

Lemma in_denied_networks p ip category :
  in_cidrs (denied_networks p category) ip =
    match category with
    | Direct => in_cidrs p.(deny_cidrs) ip
    | Vpn => p.(deny_vpn) && in_cidrs p.(vpn_cidrs) ip
    | Proxy => p.(deny_proxy) && in_cidrs p.(proxy_cidrs) ip
    | Socks => p.(deny_socks) && in_cidrs p.(socks_cidrs) ip
    | Tor => p.(deny_tor) && in_cidrs p.(tor_exit_cidrs) ip
    end.
Proof. destruct category; simpl; [done| | | |]; by case_match. Qed.

(** The order in which the categories are reported. *)
Definition by_precedence : list AnonymousSourceCategory := [Direct; Tor; Socks; Proxy; Vpn].

Definition first_denied (p : AnonymousSourceFilterPolicy) (ip : IpAddr) : option AnonymousSourceCategory :=
  head (filter (λ category, in_cidrs (denied_networks p category) ip = true) by_precedence).

Lemma classify_first f ip :
  (AnonymousSourceFilterState_classify_and_record f ip).2 =
    if f.(af_policy).(af_enabled) then first_denied f.(af_policy) (canonicalize_ip ip) else None.
Proof.
  unfold AnonymousSourceFilterState_classify_and_record, first_denied, by_precedence.
  destruct (af_enabled _); cbn [negb]; [|done]. rewrite !filter_cons, !in_denied_networks.
  destruct (in_cidrs (deny_cidrs _) _); [done|]. destruct (deny_tor _ && _); [done|].
  destruct (deny_socks _ && _); [done|]. destruct (deny_proxy _ && _); [done|]. by destruct (deny_vpn _ && _).
Qed.

Lemma first_denied_Some p ip category :
  first_denied p ip = Some category → in_cidrs (denied_networks p category) ip = true.
Proof.
  intros H. assert (Hin : category ∈ filter (λ c, in_cidrs (denied_networks p c) ip = true) by_precedence).
  { apply list_elem_of_lookup. exists 0%nat. by rewrite <- head_lookup. }
  by apply list_elem_of_filter in Hin as [? _].
Qed.

Lemma first_denied_None p ip category :
  first_denied p ip = None → in_cidrs (denied_networks p category) ip = false.
Proof.
  unfold first_denied. intros H%head_None. apply not_true_is_false. intros Hin.
  assert (category ∈ filter (λ c, in_cidrs (denied_networks p c) ip = true) by_precedence) as Hf.
  { apply list_elem_of_filter. split; [done|]. destruct category; unfold by_precedence; set_solver. }
  rewrite H in Hf. by apply not_elem_of_nil in Hf.
Qed.

Lemma classify_state f ip :
  (AnonymousSourceFilterState_classify_and_record f ip).1 =
    match (AnonymousSourceFilterState_classify_and_record f ip).2 with
    | Some category => {| af_policy := f.(af_policy); af_counts := count_blocked f.(af_counts) category |}
    | None => f
    end.
Proof.
  unfold AnonymousSourceFilterState_classify_and_record. destruct (af_enabled _); cbn [negb]; [|done].
  destruct (in_cidrs (deny_cidrs _) _); [done|]. destruct (deny_tor _ && _); [done|].
  destruct (deny_socks _ && _); [done|]. destruct (deny_proxy _ && _); [done|]. by destruct (deny_vpn _ && _).
Qed.

Lemma count_blocked_spec s category c :
  blocked_count (count_blocked s category) c =
    if decide (category = c) then fetch_add (blocked_count s c) 1 else blocked_count s c.
Proof. by destruct category, c. Qed.

(** An enabled filter blocks an address exactly when some denied network contains its
    canonical form (so an IPv4-mapped address is judged as the IPv4 address), reports the first
    category in the order denied, Tor, SOCKS, proxy, VPN whose networks contain it, and counts the
    block once, on that category alone; a disabled filter blocks and counts nothing. *)
Theorem anonymous_filter_spec (f : AnonymousSourceFilterState) (ip : IpAddr) :
  let '(f', result) := AnonymousSourceFilterState_classify_and_record f ip in
  let count s category := blocked_count (AnonymousSourceFilterState_snapshot s) category in
  result = (if f.(af_policy).(af_enabled) then first_denied f.(af_policy) (canonicalize_ip ip) else None) ∧
  (is_Some result ↔ f.(af_policy).(af_enabled) = true ∧
    ∃ category, in_cidrs (denied_networks f.(af_policy) category) (canonicalize_ip ip) = true) ∧
  f'.(af_policy) = f.(af_policy) ∧
  (∀ category, count f' category =
    if decide (result = Some category) then fetch_add (count f category) 1 else count f category).
Proof.
  pose proof (classify_first f ip) as Hr. pose proof (classify_state f ip) as Hf.
  destruct (AnonymousSourceFilterState_classify_and_record f ip) as [f' result]. simpl in Hr, Hf.
  unfold AnonymousSourceFilterState_snapshot. split_and!; [done| | |].
  - rewrite Hr. destruct (af_enabled _); [|split; [by intros []|by intros []]].
    destruct (first_denied _ _) as [c|] eqn:E.
    + apply first_denied_Some in E. split; [by eauto|done].
    + split; [by intros []|]. intros [_ [c Hc]]. by rewrite (first_denied_None _ _ c E) in Hc.
  - rewrite Hf. by destruct result.
  - intros c. rewrite Hf. destruct result as [c'|]; cbn [af_counts]; [|done].
    rewrite count_blocked_spec. destruct (decide (c' = c)) as [->|Hne]; [by rewrite decide_True|].
    rewrite decide_False by congruence. done.
Qed.
End anonymous.
