(* ===== verification/RouteEnumeration.v ===== *)
(** * Protection against route enumeration

    Models [crates/runtime/src/route_enumeration.rs]: sources that ask for many unknown routes
    or try many query shapes on one route are banned for a growing time.

    An [Instant] is a number of nanoseconds; [Instant + Duration] panics beyond what the
    platform can represent, the parameter [instant_max].  The key of a source is computed by a
    copy of [normalize_source_key] of the source guards. *)

From S2P Require Import Prelude RustStr RustText RequestTarget NetCore SourceGuards.
Local Open Scope N_scope.

Record RouteEnumerationProtectionPolicy := {
  re_source_aggregation : SourceAggregation; evaluation_window : Duration;
  max_unmatched_route_events : N; max_distinct_query_signatures_per_route : N;
  base_ban_duration : Duration; max_ban_duration : Duration; re_max_tracked_sources : N
}.

Definition RouteEnumerationProtectionPolicy_default : RouteEnumerationProtectionPolicy :=
  {| re_source_aggregation := ExactIp; evaluation_window := from_secs 30;
     max_unmatched_route_events := 3; max_distinct_query_signatures_per_route := 6;
     base_ban_duration := from_secs 60; max_ban_duration := from_secs (15 * 60);
     re_max_tracked_sources := 4096 |}.

Record RouteEnumerationProtectionSnapshot := {
  rs_tracked_sources : N; rs_active_bans : N; rs_total_bans : N; rs_blocked_request_count : N
}.

Record SourceState := {
  last_seen : N; ban_level : N; banned_until : option N;
  unmatched_route_events : list N; distinct_query_signatures : gmap string N
}.

Definition SourceState_new (now : N) : SourceState :=
  {| last_seen := now; ban_level := 0; banned_until := None;
     unmatched_route_events := []; distinct_query_signatures := ∅ |}.

Record RouteEnumerationProtectionState := {
  re_policy : RouteEnumerationProtectionPolicy; sources : gmap string SourceState;
  total_bans : N; blocked_request_count : N
}.

Definition RouteEnumerationProtectionState_new (policy : RouteEnumerationProtectionPolicy) :
    RouteEnumerationProtectionState :=
  {| re_policy := policy; sources := ∅; total_bans := 0; blocked_request_count := 0 |}.

(** ** One source *)

(** [banned_until.is_some_and(|until| until > now)]. *)
Definition is_banned (s : SourceState) (now : N) : bool :=
  match s.(banned_until) with Some until => bool_decide (now < until) | None => false end.

(** [now.duration_since(t)] is zero when [t] is later. *)
Definition prune_source_state (s : SourceState) (now : N) (window : Duration) : SourceState :=
  {| last_seen := s.(last_seen); ban_level := s.(ban_level);
     banned_until := match s.(banned_until) with
                     | Some until => if decide (until ≤ now) then None else Some until
                     | None => None
                     end;
     unmatched_route_events := drop_while (λ seen_at, bool_decide (window < now - seen_at)) s.(unmatched_route_events);
     distinct_query_signatures := filter (λ kv, now - kv.2 ≤ window) s.(distinct_query_signatures) |}.

Definition set_last_seen (s : SourceState) (now : N) : SourceState :=
  {| last_seen := now; ban_level := s.(ban_level); banned_until := s.(banned_until);
     unmatched_route_events := s.(unmatched_route_events);
     distinct_query_signatures := s.(distinct_query_signatures) |}.

Definition set_unmatched_events (s : SourceState) (events : list N) : SourceState :=
  {| last_seen := s.(last_seen); ban_level := s.(ban_level); banned_until := s.(banned_until);
     unmatched_route_events := events; distinct_query_signatures := s.(distinct_query_signatures) |}.

Definition set_signatures (s : SourceState) (signatures : gmap string N) : SourceState :=
  {| last_seen := s.(last_seen); ban_level := s.(ban_level); banned_until := s.(banned_until);
     unmatched_route_events := s.(unmatched_route_events); distinct_query_signatures := signatures |}.

Definition u32_max : N := 4294967295.

(** The duration of the ban that takes a source to [level]. *)
Definition ban_duration (policy : RouteEnumerationProtectionPolicy) (level : N) : Duration :=
  let shift := N.min (level - 1) 8 in
  N.min (saturating_mul Duration_MAX policy.(base_ban_duration) (N.shiftl 1 shift)) policy.(max_ban_duration).

(** What a call does to the counters: nothing, one more blocked request, or one more ban and
    blocked request. *)
Inductive Verdict := Pass | StillBanned | NewBan.

(** Names in order without repetitions, joined. *)
Fixpoint dedup (l : list string) : list string :=
  match l with
  | x :: (y :: _) as l' => if decide (x = y) then dedup l' else x :: dedup l'
  | l => l
  end.

Definition canonical_query_signature (query_pairs : list (string * string)) : string :=
  join "&" (dedup (sort_by id String.compare (fst <$> query_pairs))).

Section protection.
Variable instant_max : N.

Definition activate_ban (policy : RouteEnumerationProtectionPolicy) (s : SourceState) (now : N) :
    option SourceState :=
  let level := saturating_add u32_max s.(ban_level) 1 in
  let until := now + ban_duration policy level in
  if decide (until ≤ instant_max)
  then Some {| last_seen := s.(last_seen); ban_level := level; banned_until := Some until;
               unmatched_route_events := []; distinct_query_signatures := ∅ |}
  else None.

Definition unmatched_on (policy : RouteEnumerationProtectionPolicy) (now : N) (s : SourceState) :
    option (SourceState * Verdict) :=
  let s := set_last_seen (prune_source_state s now policy.(evaluation_window)) now in
  if is_banned s now then Some (s, StillBanned)
  else
    let s := set_unmatched_events s (s.(unmatched_route_events) ++ [now]) in
    if decide (policy.(max_unmatched_route_events) < N.of_nat (length s.(unmatched_route_events)))
    then s ← activate_ban policy s now; Some (s, NewBan)
    else Some (s, Pass).

Definition probe_on (policy : RouteEnumerationProtectionPolicy) (route_key_prefix signature_key : string)
    (now : N) (s : SourceState) : option (SourceState * Verdict) :=
  let s := set_last_seen (prune_source_state s now policy.(evaluation_window)) now in
  if is_banned s now then Some (s, StillBanned)
  else
    let s := set_signatures s (<[signature_key := now]> s.(distinct_query_signatures)) in
    let distinct_signature_count :=
      size (filter (λ kv, starts_with route_key_prefix kv.1 = true) s.(distinct_query_signatures)) in
    if decide (policy.(max_distinct_query_signatures_per_route) < N.of_nat distinct_signature_count)
    then s ← activate_ban policy s now; Some (s, NewBan)
    else Some (s, Pass).

(** ** The table of sources *)

Definition evict_oldest_source (sources : gmap string SourceState) : gmap string SourceState :=
  match min_by_key (λ kv, kv.2.(last_seen)) (btree_iter sources) with
  | Some (oldest_key, _) => delete oldest_key sources
  | None => sources
  end.

(** The table after [ensure_source_state]; the reference it returns is the entry of [key]. *)
Definition ensure_source_state (policy : RouteEnumerationProtectionPolicy)
    (sources : gmap string SourceState) (key : string) (now : N) : gmap string SourceState :=
  match sources !! key with
  | Some _ => sources
  | None =>
      let sources :=
        if decide (policy.(re_max_tracked_sources) ≤ N.of_nat (size sources))
        then evict_oldest_source sources else sources in
      <[key := SourceState_new now]> sources
  end.

Definition source_key (st : RouteEnumerationProtectionState) (peer_addr : SocketAddr) : string :=
  normalize_source_key peer_addr.(sa_ip) st.(re_policy).(re_source_aggregation).

Definition put_source (st : RouteEnumerationProtectionState) (sources : gmap string SourceState)
    (key : string) (s : SourceState) (v : Verdict) : RouteEnumerationProtectionState :=
  {| re_policy := st.(re_policy); sources := <[key := s]> sources;
     total_bans := match v with NewBan => fetch_add st.(total_bans) 1 | _ => st.(total_bans) end;
     blocked_request_count :=
       match v with Pass => st.(blocked_request_count) | _ => fetch_add st.(blocked_request_count) 1 end |}.

Definition is_blocked_verdict (st : RouteEnumerationProtectionState) (now : N) (peer_addr : SocketAddr) :
    RouteEnumerationProtectionState * Verdict :=
  let key := source_key st peer_addr in
  match st.(sources) !! key with
  | None => (st, Pass)
  | Some s =>
      let s := set_last_seen (prune_source_state s now st.(re_policy).(evaluation_window)) now in
      let v := if is_banned s now then StillBanned else Pass in
      (put_source st st.(sources) key s v, v)
  end.

(** The entry that [ensure_source_state] provides, updated; without an entry the code is
    [unreachable!]. *)
Definition on_source (st : RouteEnumerationProtectionState) (now : N) (peer_addr : SocketAddr)
    (f : SourceState → option (SourceState * Verdict)) : option (RouteEnumerationProtectionState * Verdict) :=
  let key := source_key st peer_addr in
  let sources := ensure_source_state st.(re_policy) st.(sources) key now in
  s ← sources !! key;
  '(s, v) ← f s;
  Some (put_source st sources key s v, v).

Definition record_unmatched_verdict (st : RouteEnumerationProtectionState) (now : N) (peer_addr : SocketAddr) :
    option (RouteEnumerationProtectionState * Verdict) :=
  on_source st now peer_addr (unmatched_on st.(re_policy) now).

(** Prefix and key of the signature of a query, for the targets that have one. *)
Definition probe_keys (host : option string) (target : string) : option (string * string) :=
  match canonicalize_request_target target with
  | Err _ => None
  | Ok canonical_target =>
      if decide (canonical_target.(ct_query_pairs) = []) then None
      else
        let query_signature := canonical_query_signature canonical_target.(ct_query_pairs) in
        if is_empty query_signature then None
        else
          let from_host := match host with
                           | Some value => match canonicalize_host value with Ok h => Some h | Err _ => None end
                           | None => None
                           end in
          let authority := default "_" (match from_host with
                                        | Some h => Some h
                                        | None => canonical_target.(ct_authority)
                                        end) in
          let route_key := authority +:+ "|" +:+ canonical_target.(ct_path) in
          let route_key_prefix := route_key +:+ "?" in
          Some (route_key_prefix, route_key_prefix +:+ query_signature)
  end.

Definition record_query_verdict (st : RouteEnumerationProtectionState) (now : N) (peer_addr : SocketAddr)
    (host : option string) (target : string) : option (RouteEnumerationProtectionState * Verdict) :=
  match probe_keys host target with
  | None => Some (st, Pass)
  | Some (route_key_prefix, signature_key) =>
      on_source st now peer_addr (probe_on st.(re_policy) route_key_prefix signature_key now)
  end.

(** The results of the public operations: whether the request is blocked. *)
Definition blocks (v : Verdict) : bool := match v with Pass => false | _ => true end.

Definition RouteEnumerationProtectionState_is_blocked (st : RouteEnumerationProtectionState) (now : N)
    (peer_addr : SocketAddr) : RouteEnumerationProtectionState * bool :=
  prod_map id blocks (is_blocked_verdict st now peer_addr).

Definition RouteEnumerationProtectionState_record_unmatched_route (st : RouteEnumerationProtectionState)
    (now : N) (peer_addr : SocketAddr) : option (RouteEnumerationProtectionState * bool) :=
  prod_map id blocks <$> record_unmatched_verdict st now peer_addr.

Definition RouteEnumerationProtectionState_record_query_probe (st : RouteEnumerationProtectionState)
    (now : N) (peer_addr : SocketAddr) (host : option string) (target : string) :
    option (RouteEnumerationProtectionState * bool) :=
  prod_map id blocks <$> record_query_verdict st now peer_addr host target.

Definition RouteEnumerationProtectionState_snapshot (st : RouteEnumerationProtectionState) (now : N) :
    RouteEnumerationProtectionState * RouteEnumerationProtectionSnapshot :=
  let pruned := (λ s, prune_source_state s now st.(re_policy).(evaluation_window)) <$> st.(sources) in
  ({| re_policy := st.(re_policy); sources := pruned; total_bans := st.(total_bans);
      blocked_request_count := st.(blocked_request_count) |},
   {| rs_tracked_sources := N.of_nat (size pruned);
      rs_active_bans := N.of_nat (size (filter (λ kv, is_banned kv.2 now = true) pruned));
      rs_total_bans := st.(total_bans); rs_blocked_request_count := st.(blocked_request_count) |}).

(** ** Runs

    Every operation, at times that do not go back.  The ghost [history] holds, for each tracked
    source, the times of its unmatched requests since it was tracked or last banned. *)

Inductive Operation :=
| Op_is_blocked (peer : SocketAddr)
| Op_unmatched (peer : SocketAddr)
| Op_query (peer : SocketAddr) (host : option string) (target : string)
| Op_snapshot.

Definition perform (st : RouteEnumerationProtectionState) (now : N) (op : Operation) :
    option (RouteEnumerationProtectionState * Verdict) :=
  match op with
  | Op_is_blocked peer => Some (is_blocked_verdict st now peer)
  | Op_unmatched peer => record_unmatched_verdict st now peer
  | Op_query peer host target => record_query_verdict st now peer host target
  | Op_snapshot => Some ((RouteEnumerationProtectionState_snapshot st now).1, Pass)
  end.

Abbreviation History := (gmap string (list N)) (only parsing).
Definition history_of (h : History) (k : string) : list N := default [] (h !! k).

Definition op_key (st : RouteEnumerationProtectionState) (op : Operation) : option string :=
  match op with
  | Op_is_blocked peer | Op_unmatched peer | Op_query peer _ _ => Some (source_key st peer)
  | Op_snapshot => None
  end.

Definition new_history (st : RouteEnumerationProtectionState) (h : History) (now : N) (op : Operation)
    (v : Verdict) (k : string) : list N :=
  if decide (op_key st op = Some k) then
    match v, op with
    | NewBan, _ => []
    | Pass, Op_unmatched _ => history_of h k ++ [now]
    | _, _ => history_of h k
    end
  else history_of h k.

Record Run := { run_state : RouteEnumerationProtectionState; run_clock : N; run_history : History }.

Inductive run_step : Run → Run → Prop :=
| run_op r now op st' v :
    r.(run_clock) ≤ now → perform r.(run_state) now op = Some (st', v) →
    run_step r {| run_state := st'; run_clock := now;
                  run_history := map_imap (λ k _, Some (new_history r.(run_state) r.(run_history) now op v k))
                                   st'.(sources) |}.

Definition initial_run (policy : RouteEnumerationProtectionPolicy) : Run :=
  {| run_state := RouteEnumerationProtectionState_new policy; run_clock := 0; run_history := ∅ |}.

(** *** The window of one source *)

Definition outside (window now t : N) : Prop := window < now - t.

Definition window_inv (window max clock : N) (events history : list N) : Prop :=
  (∃ old, history = old ++ events ∧ Forall (outside window clock) old) ∧
  StronglySorted N.le history ∧ Forall (λ t, t ≤ clock) history ∧ N.of_nat (length events) ≤ max.

Definition within (window now : N) (history : list N) : N :=
  N.of_nat (length (filter (λ t, now - t ≤ window) history)).

Lemma filter_within_none window now l :
  Forall (outside window now) l → filter (λ t, now - t ≤ window) l = [].
Proof.
  unfold outside. induction 1 as [|x l Hx _ IH]; [done|]. rewrite filter_cons, decide_False by lia. done.
Qed.

Lemma filter_within_all window now l :
  Forall (λ t, now - t ≤ window) l → filter (λ t, now - t ≤ window) l = l.
Proof. induction 1 as [|x l Hx _ IH]; [done|]. rewrite filter_cons, decide_True by done. by rewrite IH. Qed.

Lemma drop_while_window window now l :
  StronglySorted N.le l →
  ∃ old, l = old ++ drop_while (λ t, bool_decide (window < now - t)) l ∧
    Forall (outside window now) old ∧
    Forall (λ t, now - t ≤ window) (drop_while (λ t, bool_decide (window < now - t)) l).
Proof.
  induction 1 as [|x l Hs IH Hx]; simpl; [by exists []|]. case_bool_decide as Ho.
  - destruct IH as (old & El & Hold & Hin). exists (x :: old). simpl. rewrite <- El. by auto.
  - exists []. split_and!; [done|done|]. constructor; [lia|].
    eapply Forall_impl; [exact Hx|]. simpl. lia.
Qed.

Lemma window_prune window max clock now events history :
  clock ≤ now → window_inv window max clock events history →
  let events' := drop_while (λ t, bool_decide (window < now - t)) events in
  window_inv window max now events' history ∧ N.of_nat (length events') = within window now history.
Proof.
  intros Hnow ([old [-> Hold]] & Hs & Hle & Hmax) events'.
  assert (Hsev : StronglySorted N.le events) by by eapply StronglySorted_app_1_r.
  destruct (drop_while_window window now events Hsev) as (old' & El & Hold' & Hin). fold events' in El, Hin.
  assert (Hout : Forall (outside window now) (old ++ old')).
  { apply Forall_app. split; [|done]. eapply Forall_impl; [exact Hold|]. unfold outside. lia. }
  assert (Hlen : (length events' ≤ length events)%nat) by (rewrite El, length_app; lia).
  split.
  - split_and!; [|done| |lia].
    + exists (old ++ old'). by rewrite <- (assoc_L app), <- El.
    + eapply Forall_impl; [exact Hle|]. simpl. lia.
  - unfold within. rewrite El, (assoc_L app), filter_app.
    by rewrite filter_within_none, filter_within_all.
Qed.

Lemma window_push window max now events history :
  N.of_nat (length events) < max → window_inv window max now events history →
  window_inv window max now (events ++ [now]) (history ++ [now]).
Proof.
  intros Hlt ([old [-> Hold]] & Hs & Hle & Hmax). split_and!.
  - exists old. by rewrite (assoc_L app).
  - apply StronglySorted_app_2; [|done|by repeat constructor].
    intros x y Hx ->%list_elem_of_singleton. rewrite Forall_forall in Hle. by apply Hle.
  - apply Forall_app. split; [done|]. by repeat constructor.
  - rewrite length_app. simpl. lia.
Qed.

Lemma window_empty window max now : window_inv window max now [] [].
Proof. split_and!; [by exists []|constructor|done|simpl; lia]. Qed.

Lemma window_later window max clock now events history :
  clock ≤ now → window_inv window max clock events history → window_inv window max now events history.
Proof.
  intros Hnow ([old [-> Hold]] & Hs & Hle & Hmax). split_and!; [|done| |done].
  - exists old. split; [done|]. eapply Forall_impl; [exact Hold|]. unfold outside. lia.
  - eapply Forall_impl; [exact Hle|]. simpl. lia.
Qed.

(** *** One operation on its source *)

Definition pruned_events (policy : RouteEnumerationProtectionPolicy) (now : N) (s : SourceState) : list N :=
  drop_while (λ t, bool_decide (policy.(evaluation_window) < now - t)) s.(unmatched_route_events).

(** The ban a source is under after an operation at [now] with verdict [v]. *)
Definition ban_after (policy : RouteEnumerationProtectionPolicy) (now : N) (s : SourceState) (v : Verdict) :
    option N :=
  match v with
  | Pass => None
  | StillBanned => s.(banned_until)
  | NewBan => Some (now + ban_duration policy (saturating_add u32_max s.(ban_level) 1))
  end.

Definition source_update (policy : RouteEnumerationProtectionPolicy) (now : N) (op : Operation)
    (s s' : SourceState) (v : Verdict) : Prop :=
  s'.(unmatched_route_events) =
    match v, op with
    | NewBan, _ => []
    | Pass, Op_unmatched _ => pruned_events policy now s ++ [now]
    | _, _ => pruned_events policy now s
    end ∧
  s'.(banned_until) = ban_after policy now s v ∧
  (v = StillBanned ↔ is_banned s now = true) ∧
  match op with
  | Op_unmatched _ => v = NewBan ↔ is_banned s now = false ∧
      policy.(max_unmatched_route_events) ≤ N.of_nat (length (pruned_events policy now s))
  | Op_is_blocked _ => v ≠ NewBan
  | _ => True
  end.

Lemma is_banned_prune s now window t :
  is_banned (set_last_seen (prune_source_state s now window) t) now = is_banned s now.
Proof.
  unfold is_banned. simpl. destruct (banned_until s) as [u|]; [|done].
  case_decide; [|done]. case_bool_decide; [lia|done].
Qed.

Lemma banned_until_prune s now window :
  (prune_source_state s now window).(banned_until) =
    if is_banned s now then s.(banned_until) else None.
Proof.
  unfold is_banned. simpl. destruct (banned_until s) as [u|]; [|done].
  case_decide; case_bool_decide; done || lia.
Qed.

Lemma activate_ban_Some policy s now s' :
  activate_ban policy s now = Some s' →
  s'.(unmatched_route_events) = [] ∧ s'.(banned_until) = ban_after policy now s NewBan.
Proof. unfold activate_ban. case_decide; [|done]. by intros [= <-]. Qed.

Lemma unmatched_on_update policy now peer s s' v :
  unmatched_on policy now s = Some (s', v) → source_update policy now (Op_unmatched peer) s s' v.
Proof.
  unfold unmatched_on, source_update. rewrite is_banned_prune.
  pose proof (banned_until_prune s now (evaluation_window policy)) as Hb.
  destruct (is_banned s now) eqn:Eb.
  { intros [= <- <-]. split_and!; [done|exact Hb|done|]. by split; [|intros []]. }
  set (p := prune_source_state _ _ _) in *. simpl. fold (pruned_events policy now s).
  rewrite length_app. simpl. case_decide.
  - destruct (activate_ban _ _ _) as [s1|] eqn:Ea; simpl; [|done]. intros [= <- <-].
    apply activate_ban_Some in Ea as [? ->]. split_and!; [done|done|done|]. split; [|done]. intros _. split; [done|lia].
  - intros [= <- <-]. split_and!; [done|exact Hb|done|]. split; [done|]. intros []. lia.
Qed.

Lemma probe_on_update policy prefix key now peer host target s s' v :
  probe_on policy prefix key now s = Some (s', v) →
  source_update policy now (Op_query peer host target) s s' v.
Proof.
  unfold probe_on, source_update. rewrite is_banned_prune.
  pose proof (banned_until_prune s now (evaluation_window policy)) as Hb.
  destruct (is_banned s now) eqn:Eb.
  { intros [= <- <-]. by split_and!. }
  case_decide.
  - destruct (activate_ban _ _ _) as [s1|] eqn:Ea; simpl; [|done]. intros [= <- <-].
    apply activate_ban_Some in Ea as [? ->]. by split_and!.
  - intros [= <- <-]. by split_and!.
Qed.

(** *** The table *)

Lemma evict_lookup m k s : evict_oldest_source m !! k = Some s → m !! k = Some s.
Proof.
  unfold evict_oldest_source. destruct (min_by_key _ _) as [[old ?]|]; [|done].
  intros H. by apply lookup_delete_Some in H as [_ ?].
Qed.

Lemma evict_size m : (size (evict_oldest_source m) = size m - 1)%nat.
Proof.
  unfold evict_oldest_source. destruct (min_by_key _ _) as [[old so]|] eqn:E.
  - apply min_by_key_spec in E as [Hin _]. apply elem_of_btree_iter in Hin.
    rewrite map_size_delete_Some; [lia|by eauto].
  - apply min_by_key_None, btree_iter_nil in E as ->. by rewrite map_size_empty.
Qed.

Lemma ensure_lookup_key policy m key now :
  ensure_source_state policy m key now !! key = Some (default (SourceState_new now) (m !! key)).
Proof. unfold ensure_source_state. destruct (m !! key) eqn:E; [done|]. by rewrite lookup_insert_eq. Qed.

Lemma ensure_lookup_other policy m key now k s :
  k ≠ key → ensure_source_state policy m key now !! k = Some s → m !! k = Some s.
Proof.
  intros Hne. unfold ensure_source_state. destruct (m !! key) eqn:E; [done|].
  rewrite lookup_insert_ne by done. case_decide; [apply evict_lookup|done].
Qed.

Lemma ensure_size policy m key now :
  N.of_nat (size m) ≤ N.max 1 policy.(re_max_tracked_sources) →
  N.of_nat (size (ensure_source_state policy m key now)) ≤ N.max 1 policy.(re_max_tracked_sources).
Proof.
  unfold ensure_source_state. destruct (m !! key) eqn:E; [done|]. intros Hm. case_decide.
  - rewrite map_size_insert_None, evict_size; [lia|].
    destruct (evict_oldest_source m !! key) eqn:E'; [|done]. apply evict_lookup in E'. congruence.
  - rewrite map_size_insert_None by done. lia.
Qed.

(** What an operation that reaches a source does to the table. *)
Definition updates_source (st st' : RouteEnumerationProtectionState) (now : N) (op : Operation) (v : Verdict)
    (key : string) : Prop :=
  ∃ base s', op_key st op = Some key ∧
    (base = st.(sources) ∧ is_Some (base !! key) ∨ base = ensure_source_state st.(re_policy) st.(sources) key now) ∧
    st'.(sources) = <[key := s']> base ∧
    source_update st.(re_policy) now op (default (SourceState_new now) (st.(sources) !! key)) s' v.

Lemma on_source_updates st now peer op f st' v :
  op_key st op = Some (source_key st peer) →
  (∀ s s' v, f s = Some (s', v) → source_update st.(re_policy) now op s s' v) →
  on_source st now peer f = Some (st', v) →
  st'.(re_policy) = st.(re_policy) ∧ updates_source st st' now op v (source_key st peer).
Proof.
  intros Hop Hf. unfold on_source. rewrite ensure_lookup_key. simpl.
  destruct (f _) as [[s' v']|] eqn:E; simpl; [|done]. intros [= <- <-]. split; [done|].
  eexists _, s'. split_and!; [done|by right|done|by apply Hf].
Qed.

Lemma perform_cases st now op st' v :
  perform st now op = Some (st', v) →
  st'.(re_policy) = st.(re_policy) ∧
  ((st' = st ∧ v = Pass ∧ (∀ peer, op ≠ Op_unmatched peer)) ∨
   (op = Op_snapshot ∧ v = Pass ∧
     st'.(sources) = (λ s, prune_source_state s now st.(re_policy).(evaluation_window)) <$> st.(sources)) ∨
   ∃ key, updates_source st st' now op v key).
Proof.
  destruct op as [peer|peer|peer host target|]; simpl.
  - intros [= H]. unfold is_blocked_verdict in H.
    destruct (sources st !! source_key st peer) as [s|] eqn:Es; injection H as <- <-; [|by auto].
    split; [done|]. right. right. exists (source_key st peer). eexists (sources st), _. rewrite Es.
    split_and!; [done|left; by eauto|done|]. simpl. unfold source_update. rewrite is_banned_prune.
    pose proof (banned_until_prune s now (evaluation_window (re_policy st))) as Hb.
    by destruct (is_banned s now); split_and!.
  - intros H. apply (on_source_updates _ _ _ (Op_unmatched peer)) in H as [? ?]; [by eauto|done|].
    intros s s' w. apply unmatched_on_update.
  - unfold record_query_verdict. destruct (probe_keys host target) as [[prefix key]|].
    + intros H. apply (on_source_updates _ _ _ (Op_query peer host target)) in H as [? ?]; [by eauto|done|].
      intros s s' w. apply probe_on_update.
    + intros [= <- <-]. by auto.
  - intros [= <- <-]. split; [done|]. right. left. done.
Qed.

(** *** The invariant of runs *)

Definition run_inv (policy : RouteEnumerationProtectionPolicy) (r : Run) : Prop :=
  let st := r.(run_state) in
  st.(re_policy) = policy ∧
  N.of_nat (size st.(sources)) ≤ N.max 1 policy.(re_max_tracked_sources) ∧
  (∀ k, st.(sources) !! k = None → r.(run_history) !! k = None) ∧
  (∀ k s, st.(sources) !! k = Some s →
    window_inv policy.(evaluation_window) policy.(max_unmatched_route_events) r.(run_clock)
      s.(unmatched_route_events) (history_of r.(run_history) k)).

(** A source that is not tracked starts with an empty window. *)
Lemma run_inv_window policy r k now : run_inv policy r →
  window_inv policy.(evaluation_window) policy.(max_unmatched_route_events) r.(run_clock)
    (default (SourceState_new now) (r.(run_state).(sources) !! k)).(unmatched_route_events)
    (history_of r.(run_history) k).
Proof.
  intros (_ & _ & Hnone & Hwin). destruct (sources (run_state r) !! k) eqn:E; [by apply Hwin|].
  unfold history_of. rewrite Hnone by done. apply window_empty.
Qed.

Lemma not_still_banned v b : (v = StillBanned ↔ b = true) → v ≠ StillBanned → b = false.
Proof. destruct b; [|done]. intros [_ H] Hv. by destruct Hv; apply H. Qed.

Lemma source_update_window policy st now op v s s' key h clock :
  op_key st op = Some key → clock ≤ now → source_update policy now op s s' v →
  window_inv policy.(evaluation_window) policy.(max_unmatched_route_events) clock
    s.(unmatched_route_events) (history_of h key) →
  window_inv policy.(evaluation_window) policy.(max_unmatched_route_events) now
    s'.(unmatched_route_events) (new_history st h now op v key).
Proof.
  intros Hop Hnow (Hev & _ & Hstill & Hnew) Hinv. unfold new_history. rewrite decide_True by done.
  apply (window_prune _ _ _ _ _ _ Hnow) in Hinv as [Hinv _]. fold (pruned_events policy now s) in Hinv.
  rewrite Hev. destruct v; [|by destruct op|by apply window_empty].
  destruct op; try done. apply window_push; [|done].
  apply not_still_banned in Hstill; [|done].
  destruct (decide (max_unmatched_route_events policy ≤ N.of_nat (length (pruned_events policy now s)))); [|lia].
  by discriminate (proj2 Hnew (conj Hstill l)).
Qed.

Lemma updates_source_size st st' now op v key :
  updates_source st st' now op v key →
  N.of_nat (size st.(sources)) ≤ N.max 1 st.(re_policy).(re_max_tracked_sources) →
  N.of_nat (size st'.(sources)) ≤ N.max 1 st.(re_policy).(re_max_tracked_sources).
Proof.
  intros (base & s' & _ & Hbase & -> & _) Hsize.
  destruct Hbase as [[-> Hin]| ->]; rewrite map_size_insert_Some; try done; [by apply ensure_size|].
  rewrite ensure_lookup_key. eauto.
Qed.

Lemma updates_source_other st st' now op v key k s :
  updates_source st st' now op v key → k ≠ key → st'.(sources) !! k = Some s → st.(sources) !! k = Some s.
Proof.
  intros (base & s' & _ & Hbase & -> & _) Hne. rewrite lookup_insert_ne by done.
  destruct Hbase as [[-> _]| ->]; [done|by apply ensure_lookup_other].
Qed.

Lemma step_window policy r now op st' v k s :
  run_inv policy r → r.(run_clock) ≤ now → perform r.(run_state) now op = Some (st', v) →
  st'.(sources) !! k = Some s →
  window_inv policy.(evaluation_window) policy.(max_unmatched_route_events) now
    s.(unmatched_route_events) (new_history r.(run_state) r.(run_history) now op v k).
Proof.
  intros Hinv Hnow Hop Hk. pose proof Hinv as (Hpol & _ & _ & Hwin).
  apply perform_cases in Hop as [_ [(-> & -> & Hne)|[(-> & -> & Hs)|[key Hu]]]].
  - assert (new_history (run_state r) (run_history r) now op Pass k = history_of (run_history r) k) as ->.
    { unfold new_history. case_decide; [|done]. destruct op; try done. by destruct (Hne peer). }
    eapply window_later; [exact Hnow|by apply Hwin].
  - rewrite Hs, lookup_fmap_Some in Hk. destruct Hk as (s0 & <- & Hk). rewrite Hpol.
    apply (window_prune _ _ _ _ _ _ Hnow (Hwin _ _ Hk)).
  - destruct (decide (k = key)) as [->|Hne].
    + destruct Hu as (base & s' & Hkey & _ & Es & Hu). rewrite Es, lookup_insert_eq in Hk. injection Hk as <-.
      rewrite Hpol in Hu. eapply source_update_window; [done|exact Hnow|exact Hu|by apply run_inv_window].
    + pose proof (updates_source_other _ _ _ _ _ _ _ _ Hu Hne Hk) as Hk'.
      destruct Hu as (? & ? & Hkey & _). unfold new_history. rewrite decide_False by congruence.
      eapply window_later; [exact Hnow|by apply Hwin].
Qed.

Lemma run_step_inv policy r r' : run_inv policy r → run_step r r' → run_inv policy r'.
Proof.
  intros Hinv Hstep. destruct Hstep as [r0 now op st' v Hnow Hop]. pose proof Hinv as (Hpol & Hsize & _).
  pose proof (perform_cases _ _ _ _ _ Hop) as [Hpol' Hcases]. unfold run_inv. simpl. split_and!.
  - congruence.
  - destruct Hcases as [(-> & _)|[(_ & _ & ->)|[key Hu]]]; [done|by rewrite map_size_fmap|].
    rewrite <- Hpol in Hsize |- *. by apply (updates_source_size _ _ _ _ _ _ Hu).
  - intros k Hk. by rewrite map_lookup_imap, Hk.
  - intros k s Hk. unfold history_of at 1. rewrite map_lookup_imap, Hk. simpl.
    by apply (step_window policy r0 now op st' v k s).
Qed.

Lemma reachable_run_inv policy r : rtc run_step (initial_run policy) r → run_inv policy r.
Proof.
  intros H. assert (Hinit : run_inv policy (initial_run policy)).
  { unfold run_inv. simpl. split_and!; [done|rewrite map_size_empty; simpl; lia|done|by intros]. }
  revert Hinit. induction H as [|r1 r2 r3 Hstep _ IH]; [done|]. intros Hi. by apply IH, (run_step_inv _ _ _ Hi Hstep).
Qed.

(** In every run the table holds at most [max_tracked_sources] sources (one, when it is
    zero), and an unmatched request is blocked exactly when its source is under a ban or the
    request is one more than [max_unmatched_route_events] unmatched requests within the
    evaluation window, counted over all unmatched requests since the source was tracked or last
    banned; the operation does not panic while the ban's end is a representable time. *)
Theorem unmatched_route_ban_exact (policy : RouteEnumerationProtectionPolicy) (r : Run) (now : N)
    (peer : SocketAddr) (Hreach : rtc run_step (initial_run policy) r) (Hnow : r.(run_clock) ≤ now)
    (Hrep : now + policy.(max_ban_duration) ≤ instant_max) :
  let st := r.(run_state) in
  let key := source_key st peer in
  N.of_nat (size st.(sources)) ≤ N.max 1 policy.(re_max_tracked_sources) ∧
  ∃ st' blocked, RouteEnumerationProtectionState_record_unmatched_route st now peer = Some (st', blocked) ∧
    (blocked = true ↔
      (∃ s, st.(sources) !! key = Some s ∧ is_banned s now = true) ∨
      policy.(max_unmatched_route_events) <
        within policy.(evaluation_window) now (history_of r.(run_history) key) + 1).
Proof.
  apply reachable_run_inv in Hreach as Hinv. pose proof Hinv as (Hpol & Hsize & _). intros st key.
  split; [done|]. set (s := default (SourceState_new now) (sources st !! key)).
  assert (Hon : ∃ s' v, unmatched_on policy now s = Some (s', v)).
  { unfold unmatched_on, activate_ban. repeat case_match; try by eauto.
    case_decide as Hle; [by simpl; eauto|]. exfalso. apply Hle. unfold ban_duration. lia. }
  destruct Hon as (s' & v & Hon).
  pose proof (unmatched_on_update _ _ peer _ _ _ Hon) as (_ & _ & Hstill & Hnew).
  pose proof (window_prune _ _ _ _ _ _ Hnow (run_inv_window _ _ key now Hinv)) as [_ Hcount].
  fold st s (pruned_events policy now s) in Hcount.
  eexists _, (blocks v). unfold RouteEnumerationProtectionState_record_unmatched_route, record_unmatched_verdict,
    on_source. fold st key. rewrite ensure_lookup_key. fold s.
  assert (Hp : re_policy st = policy) by exact Hpol. simpl. rewrite Hp, Hon. simpl.
  split; [done|]. rewrite <- Hcount.
  assert (Hb : (∃ s, sources st !! key = Some s ∧ is_banned s now = true) ↔ is_banned s now = true).
  { unfold s. destruct (sources st !! key) as [s0|]; simpl; split; [by intros (? & [= <-] & ?)|by eauto|by intros (? & ? & _)|done]. }
  rewrite Hb, <- Hstill. destruct v; simpl.
  - split; [done|]. intros [?|Hm]; [done|]. destruct Hnew as [_ Hnew].
    apply not_still_banned in Hstill; [|done].
    assert (Pass = NewBan) as [=]. apply Hnew. split; [done|lia].
  - split; [by left|done].
  - split; [|done]. intros _. right. destruct Hnew as [Hnew _]. specialize (Hnew eq_refl). lia.
Qed.

(** *** Bans *)

(** Steps that keep the source of [k] in the table. *)
Definition keeping_step (k : string) (r r' : Run) : Prop :=
  run_step r r' ∧ is_Some (r'.(run_state).(sources) !! k).

Lemma step_keeps_ban r r' k s until :
  keeping_step k r r' → r.(run_state).(sources) !! k = Some s → s.(banned_until) = Some until →
  r'.(run_clock) < until →
  ∃ s', r'.(run_state).(sources) !! k = Some s' ∧ s'.(banned_until) = Some until.
Proof.
  intros [Hstep Hin] Hk Hu. destruct Hstep as [r now op st' v Hnow Hop]. simpl in *. intros Hlt.
  destruct (perform_cases _ _ _ _ _ Hop) as [_ [(-> & _)|[(_ & _ & Hs)|[key Hup]]]]; [by eauto| |].
  - rewrite Hs, lookup_fmap, Hk. eexists. split; [done|]. simpl. rewrite Hu. by rewrite decide_False by lia.
  - destruct (decide (k = key)) as [->|Hne].
    + destruct Hup as (base & s' & _ & _ & -> & (_ & Hb & Hstill & _)). exists s'. rewrite lookup_insert_eq.
      split; [done|]. rewrite Hk in Hb, Hstill. simpl in Hb, Hstill. rewrite Hb, (proj2 Hstill); [done|].
      unfold is_banned. rewrite Hu. by apply bool_decide_eq_true.
    + destruct Hin as [s' Hs']. exists s'. split; [done|].
      rewrite (updates_source_other _ _ _ _ _ _ _ _ Hup Hne Hs') in Hk. by injection Hk as ->.
Qed.

Lemma run_step_facts r r' : run_step r r' →
  r.(run_clock) ≤ r'.(run_clock) ∧ r'.(run_state).(re_policy) = r.(run_state).(re_policy).
Proof. intros [? now op st' v ? Hop]. simpl. split; [done|]. by apply perform_cases in Hop as [? _]. Qed.

Lemma run_keeps_ban k r r' s until :
  rtc (keeping_step k) r r' → r.(run_state).(sources) !! k = Some s → s.(banned_until) = Some until →
  r'.(run_clock) < until →
  r'.(run_state).(re_policy) = r.(run_state).(re_policy) ∧
  ∃ s', r'.(run_state).(sources) !! k = Some s' ∧ s'.(banned_until) = Some until.
Proof.
  intros H. revert s. induction H as [r|r1 r2 r3 Hstep Hrest IH]; intros s Hk Hu Hlt; [by eauto|].
  assert (Hclock : run_clock r2 ≤ run_clock r3).
  { clear -Hrest. induction Hrest as [|? ? ? [Hs _] _ IH]; [lia|]. apply run_step_facts in Hs as [? _]. lia. }
  destruct (step_keeps_ban _ _ _ _ _ Hstep Hk Hu) as (s2 & Hk2 & Hu2); [lia|].
  destruct (IH s2 Hk2 Hu2 Hlt) as [Hp ?]. destruct Hstep as [Hs _]. apply run_step_facts in Hs as [_ Hp2].
  split; [congruence|done].
Qed.

(** A ban that an operation imposes at [now] on a source holds for exactly its duration:
    whatever is asked in between by anyone, as long as the source stays in the table, the source
    is blocked until [now] plus the duration and not from then on.  The duration doubles with
    each ban of the source, up to 256 times the base, and never exceeds the maximum. *)
Theorem ban_holds_exactly (r r1 r2 : Run) (now later : N) (op : Operation) (peer : SocketAddr)
    (Hop : perform r.(run_state) now op = Some (r1.(run_state), NewBan))
    (Hpeer : op_key r.(run_state) op = Some (source_key r.(run_state) peer))
    (Hclock : r1.(run_clock) = now)
    (Hrun : rtc (keeping_step (source_key r.(run_state) peer)) r1 r2) (Hlater : r2.(run_clock) ≤ later) :
  let policy := r.(run_state).(re_policy) in
  let level := default 0 (ban_level <$> r.(run_state).(sources) !! source_key r.(run_state) peer) in
  let duration := ban_duration policy (saturating_add u32_max level 1) in
  duration = N.min (N.min Duration_MAX (policy.(base_ban_duration) * 2 ^ N.min level 8)) policy.(max_ban_duration) ∧
  (r2.(run_clock) < now + duration →
    (RouteEnumerationProtectionState_is_blocked r2.(run_state) later peer).2 = bool_decide (later < now + duration)).
Proof.
  intros policy level duration. split.
  { unfold duration, ban_duration, saturating_mul, saturating_add. rewrite N.shiftl_1_l.
    do 4 f_equal. unfold u32_max. lia. }
  intros Hlt. destruct (perform_cases _ _ _ _ _ Hop) as [Hpol [(_ & [=] & _)|[(_ & [=] & _)|[key Hup]]]].
  destruct Hup as (base & s' & Hkey & _ & Es & (_ & Hb & _)).
  rewrite Hpeer in Hkey. injection Hkey as <-. set (k := source_key (run_state r) peer) in *.
  assert (Hs' : sources (run_state r1) !! k = Some s') by (rewrite Es; apply lookup_insert_eq).
  assert (Hu : banned_until s' = Some (now + duration)).
  { rewrite Hb. unfold duration, level. simpl. by destruct (sources (run_state r) !! k). }
  destruct (run_keeps_ban _ _ _ _ _ Hrun Hs' Hu Hlt) as [Hpol2 (s2 & Hs2 & Hu2)].
  assert (Hk2 : source_key (run_state r2) peer = k) by (unfold k, source_key; by rewrite Hpol2, Hpol).
  unfold RouteEnumerationProtectionState_is_blocked, is_blocked_verdict. rewrite Hk2, Hs2. simpl.
  rewrite is_banned_prune. unfold is_banned. rewrite Hu2. by case_bool_decide.
Qed.
End protection.

(** ** Query signatures *)

Abbreviation str_le := (key_le (A := string) id String.compare).

Lemma str_le_antisymm x y : str_le x y → str_le y x → x = y.
Proof.
  unfold key_le. simpl. intros Hxy Hyx. apply (cmp_eq (cmp := String.compare)).
  rewrite (cmp_antisym x y) in Hyx. by destruct (String.compare x y).
Qed.

Lemma dedup_cons x y l : dedup (x :: y :: l) = if decide (x = y) then dedup (y :: l) else x :: dedup (y :: l).
Proof. done. Qed.

Lemma elem_of_dedup z l : z ∈ dedup l ↔ z ∈ l.
Proof.
  induction l as [|x [|y l] IH]; [done..|]. rewrite dedup_cons. case_decide as E.
  - rewrite IH, E, !elem_of_cons. tauto.
  - rewrite elem_of_cons, IH, (elem_of_cons (y :: l) z x). done.
Qed.

Lemma dedup_sorted l : StronglySorted str_le l → StronglySorted str_le (dedup l) ∧ NoDup (dedup l).
Proof.
  induction l as [|x [|y l] IH]; intros Hs.
  - split; constructor.
  - split; [done|]. apply NoDup_singleton.
  - apply StronglySorted_cons in Hs as [Hx Hs]. destruct (IH Hs) as [Hs' Hnd]. rewrite dedup_cons.
    case_decide as E; [done|]. split.
    + apply StronglySorted_cons. split; [|done]. apply Forall_forall. intros z Hz. rewrite elem_of_dedup in Hz.
      rewrite Forall_forall in Hx. by apply Hx.
    + apply NoDup_cons. split; [|done]. intros Hin. rewrite elem_of_dedup in Hin. apply E.
      apply StronglySorted_cons in Hs as [Hy _]. rewrite Forall_forall in Hx, Hy.
      apply str_le_antisymm; [apply Hx; left|].
      apply elem_of_cons in Hin as [->|Hin]; [apply Hx; left|by apply Hy].
Qed.

Definition signature_names (query_pairs : list (string * string)) : list string :=
  dedup (sort_by id String.compare (fst <$> query_pairs)).

Lemma elem_of_signature_names z pairs : z ∈ signature_names pairs ↔ z ∈ fst <$> pairs.
Proof. unfold signature_names. by rewrite elem_of_dedup, elem_of_sort_by. Qed.

Lemma signature_names_ext pairs1 pairs2 :
  (∀ z, z ∈ fst <$> pairs1 ↔ z ∈ fst <$> pairs2) → signature_names pairs1 = signature_names pairs2.
Proof.
  intros H. unfold signature_names.
  destruct (dedup_sorted _ (sort_by_sorted id String.compare (fst <$> pairs1))) as [Hs1 Hn1].
  destruct (dedup_sorted _ (sort_by_sorted id String.compare (fst <$> pairs2))) as [Hs2 Hn2].
  apply (StronglySorted_unique_strong str_le); [|done|done|].
  - intros x y _ _. apply str_le_antisymm.
  - apply NoDup_Permutation; [done|done|]. intros z. rewrite !elem_of_dedup, !elem_of_sort_by. apply H.
Qed.

(** The signature of a query depends on the set of its parameter names alone, not on their
    order, repetition or values, and it tells different sets of names apart, when no name
    contains an ampersand, as in every parsed query. *)
Theorem query_signature_by_names (pairs1 pairs2 : list (string * string)) (Hne1 : pairs1 ≠ []) (Hne2 : pairs2 ≠ [])
    (H1 : Forall (λ p, 38 ∉ bytes p.1) pairs1) (H2 : Forall (λ p, 38 ∉ bytes p.1) pairs2) :
  canonical_query_signature pairs1 = canonical_query_signature pairs2 ↔
  (∀ name, name ∈ fst <$> pairs1 ↔ name ∈ fst <$> pairs2).
Proof.
  unfold canonical_query_signature. fold (signature_names pairs1) (signature_names pairs2).
  assert (Hsplit : ∀ pairs, pairs ≠ [] → Forall (λ p, 38 ∉ bytes p.1) pairs →
    split_on 38 (bytes (join "&" (signature_names pairs))) = bytes <$> signature_names pairs).
  { intros pairs Hne Hf. rewrite bytes_join. apply split_join.
    - intros E%fmap_nil_inv. destruct pairs as [|[n v] pairs]; [done|].
      assert (Hin : n ∈ signature_names ((n, v) :: pairs)) by (apply elem_of_signature_names; left).
      rewrite E in Hin. by apply not_elem_of_nil in Hin.
    - apply Forall_fmap, Forall_forall. intros z Hz. rewrite elem_of_signature_names in Hz.
      apply list_elem_of_fmap in Hz as (p & -> & Hp). rewrite Forall_forall in Hf. by apply Hf. }
  split.
  - intros E. apply (f_equal (λ s, split_on 38 (bytes s))) in E. rewrite !Hsplit in E by done.
    apply (inj (fmap (M := list) bytes)) in E. intros name. by rewrite <- !elem_of_signature_names, E.
  - intros H. by rewrite (signature_names_ext _ _ H).
Qed.

Lemma query_signature_by_names_witness :
  canonical_query_signature [("b", "1"); ("a", "2"); ("b", "3")] = canonical_query_signature [("a", "9"); ("b", "1")].
Proof.
  apply (query_signature_by_names [("b", "1"); ("a", "2"); ("b", "3")] [("a", "9"); ("b", "1")]);
    [done|done| | |]; [apply (bool_decide_unpack _); vm_compute; exact I..|].
  intros name. rewrite !fmap_cons, !elem_of_cons. cbn [fst]. split; intros H; tauto.
Defined.

(** ** A sample run *)

Definition sample_policy_re : RouteEnumerationProtectionPolicy :=
  {| re_source_aggregation := ExactIp; evaluation_window := 10; max_unmatched_route_events := 1;
     max_distinct_query_signatures_per_route := 6; base_ban_duration := 5; max_ban_duration := 100;
     re_max_tracked_sources := 4 |}.

Definition run_after (r : Run) (now : N) (op : Operation) : option Run :=
  '(st', v) ← perform 1000 r.(run_state) now op;
  Some {| run_state := st'; run_clock := now;
          run_history := map_imap (λ k _, Some (new_history r.(run_state) r.(run_history) now op v k)) st'.(sources) |}.

Lemma run_after_step r now op r' :
  r.(run_clock) ≤ now → run_after r now op = Some r' → run_step 1000 r r'.
Proof.
  unfold run_after. destruct (perform 1000 _ _ _) as [[st' v]|] eqn:E; simpl; [|done].
  intros Hnow [= <-]. by constructor.
Qed.

Definition first_run : Run := default (initial_run sample_policy_re) (run_after (initial_run sample_policy_re) 1 (Op_unmatched sample_peer)).
Definition second_run : Run := default first_run (run_after first_run 2 (Op_unmatched sample_peer)).

Lemma unmatched_route_ban_exact_witness :
  ∃ st' blocked,
    RouteEnumerationProtectionState_record_unmatched_route 1000 first_run.(run_state) 2 sample_peer = Some (st', blocked) ∧
    blocked = true.
Proof.
  destruct (unmatched_route_ban_exact 1000 sample_policy_re first_run 2 sample_peer) as (_ & st' & b & H & Hb).
  - apply rtc_once, (run_after_step _ 1 (Op_unmatched sample_peer)); [vm_compute; discriminate|].
    vm_compute. reflexivity.
  - vm_compute. discriminate.
  - vm_compute. discriminate.
  - exists st', b. split; [exact H|]. apply Hb. right. vm_compute. reflexivity.
Defined.

Lemma ban_holds_exactly_witness :
  (RouteEnumerationProtectionState_is_blocked second_run.(run_state) 6 sample_peer).2 = true ∧
  (RouteEnumerationProtectionState_is_blocked second_run.(run_state) 7 sample_peer).2 = false.
Proof.
  split.
  - apply (ban_holds_exactly 1000 first_run second_run second_run 2 6 (Op_unmatched sample_peer) sample_peer);
      [vm_compute; reflexivity|reflexivity|vm_compute; reflexivity|constructor|vm_compute; discriminate|vm_compute; reflexivity].
  - apply (ban_holds_exactly 1000 first_run second_run second_run 2 7 (Op_unmatched sample_peer) sample_peer);
      [vm_compute; reflexivity|reflexivity|vm_compute; reflexivity|constructor|vm_compute; discriminate|vm_compute; reflexivity].
Defined.
