(* ===== verification/ArtifactSecurity.v ===== *)
(** * Attested configuration artifacts

    Models [crates/config-model/src/security.rs]: the security section of a workspace, the
    signer of snapshots and the verification of their attestations.  The Ed25519 library is a
    parameter with its documented behaviour.  Of a compiled snapshot the model has the fields
    that these operations read; the remaining ones are the parameter type [SnapshotContent]. *)

From S2P Require Import Prelude RustStr RustText.
Local Open Scope N_scope.
Local Open Scope rust_scope.

(** The signature library: keys and signatures are byte arrays of fixed length, and a signature
    verifies under the key of its signer. *)
Class Ed25519 := {
  SigningKey : Type; VerifyingKey : Type;
  signing_key_from_bytes : list N → SigningKey;
  verifying_key : SigningKey → VerifyingKey;
  verifying_key_as_bytes : VerifyingKey → list N;
  verifying_key_from_bytes : list N → option VerifyingKey;
  sign : SigningKey → list N → list N;
  verify : VerifyingKey → list N → list N → bool;
  verifying_key_bytes k : length (verifying_key_as_bytes k) = 32%nat ∧ Forall (λ b, b < 256) (verifying_key_as_bytes k);
  verifying_key_roundtrip sk :
    verifying_key_from_bytes (verifying_key_as_bytes (verifying_key sk)) = Some (verifying_key sk);
  signature_bytes sk message : length (sign sk message) = 64%nat ∧ Forall (λ b, b < 256) (sign sk message);
  signature_verifies sk message : verify (verifying_key sk) message (sign sk message) = true
}.

Class SnapshotContents := { SnapshotContent : Type }.

(** ** Configuration *)

Record TrustedClientIpConfig := { tc_enabled : bool; tc_trusted_proxy_cidrs : list string }.

Definition TrustedClientIpConfig_is_default (c : TrustedClientIpConfig) : bool :=
  negb c.(tc_enabled) && bool_decide (c.(tc_trusted_proxy_cidrs) = []).

Record AnonymousSourceFilterConfig := {
  ac_enabled : bool; ac_deny_cidrs : list string;
  ac_deny_vpn : bool; ac_deny_proxy : bool; ac_deny_socks : bool; ac_deny_tor : bool;
  ac_vpn_cidrs : list string; ac_proxy_cidrs : list string; ac_socks_cidrs : list string;
  ac_tor_exit_cidrs : list string
}.

Definition AnonymousSourceFilterConfig_is_default (c : AnonymousSourceFilterConfig) : bool :=
  negb c.(ac_enabled) && bool_decide (c.(ac_deny_cidrs) = []) &&
  negb c.(ac_deny_vpn) && negb c.(ac_deny_proxy) && negb c.(ac_deny_socks) && negb c.(ac_deny_tor) &&
  bool_decide (c.(ac_vpn_cidrs) = []) && bool_decide (c.(ac_proxy_cidrs) = []) &&
  bool_decide (c.(ac_socks_cidrs) = []) && bool_decide (c.(ac_tor_exit_cidrs) = []).

Record InsecureDevModeConfig := { dev_enabled : bool; dev_acknowledgement : option string }.

Inductive ArtifactVerificationMode := Enforced | Disabled.

Record TrustedArtifactSignerConfig := { ts_identity : string; ts_public_key_ed25519 : string }.

Definition TrustedArtifactSignerConfig_new (identity public_key_ed25519 : string) : TrustedArtifactSignerConfig :=
  {| ts_identity := trim identity; ts_public_key_ed25519 := public_key_ed25519 |}.

Record ArtifactVerificationConfig := {
  av_mode : ArtifactVerificationMode; trusted_signers : list TrustedArtifactSignerConfig
}.

Definition ArtifactVerificationConfig_default : ArtifactVerificationConfig :=
  {| av_mode := Enforced; trusted_signers := [] |}.

Record WorkspaceSecurityConfig := {
  insecure_dev_mode : InsecureDevModeConfig; artifact_verification : ArtifactVerificationConfig;
  trusted_client_ip : TrustedClientIpConfig; anonymous_source_filter : AnonymousSourceFilterConfig
}.

Definition WorkspaceSecurityConfig_default : WorkspaceSecurityConfig :=
  {| insecure_dev_mode := {| dev_enabled := false; dev_acknowledgement := None |};
     artifact_verification := ArtifactVerificationConfig_default;
     trusted_client_ip := {| tc_enabled := false; tc_trusted_proxy_cidrs := [] |};
     anonymous_source_filter :=
       {| ac_enabled := false; ac_deny_cidrs := []; ac_deny_vpn := false; ac_deny_proxy := false;
          ac_deny_socks := false; ac_deny_tor := false; ac_vpn_cidrs := []; ac_proxy_cidrs := [];
          ac_socks_cidrs := []; ac_tor_exit_cidrs := [] |} |}.

Record ArtifactAttestation := {
  at_signer_identity : string; artifact_digest_sha256 : string; signature_ed25519 : string
}.

Inductive ArtifactSigningError :=
| Signing_EmptySignerIdentity | Signing_SignerIdentityTooLong | InvalidPrivateKeyFormat.

Definition ArtifactSigningError_fmt (e : ArtifactSigningError) : string :=
  match e with
  | Signing_EmptySignerIdentity => "artifact signer identity must not be empty"
  | Signing_SignerIdentityTooLong => "artifact signer identity exceeds max length"
  | InvalidPrivateKeyFormat => "artifact signer private key must be a lowercase ed25519 hex seed"
  end.

Inductive ArtifactIntegrityError :=
| MissingAttestation | EmptySignerIdentity | SignerIdentityTooLong | InvalidArtifactDigestFormat
| ArtifactDigestMismatch | InvalidTrustedSignerPublicKey | InvalidSignatureFormat | UntrustedSigner
| SignatureVerificationFailed | InsecureModeNotEnabled | MissingInsecureDevAcknowledgement.

Definition ArtifactIntegrityError_fmt (e : ArtifactIntegrityError) : string :=
  match e with
  | MissingAttestation => "artifact attestation is required by the snapshot security posture"
  | EmptySignerIdentity => "artifact attestation signer identity must not be empty"
  | SignerIdentityTooLong => "artifact attestation signer identity exceeds max length"
  | InvalidArtifactDigestFormat => "artifact attestation digest must be a lowercase sha256 hex string"
  | ArtifactDigestMismatch => "artifact attestation digest does not match snapshot digest"
  | InvalidTrustedSignerPublicKey => "trusted signer public key must be a lowercase ed25519 hex string"
  | InvalidSignatureFormat => "artifact attestation signature must be a lowercase ed25519 hex string"
  | UntrustedSigner => "artifact attestation signer is not trusted by snapshot policy"
  | SignatureVerificationFailed => "artifact attestation signature verification failed"
  | InsecureModeNotEnabled => "artifact verification may only be disabled when insecure_dev_mode is enabled"
  | MissingInsecureDevAcknowledgement => "insecure_dev_mode requires a non-empty acknowledgement"
  end.

(** ** Hexadecimal *)

Definition SHA256_HEX_LEN : nat := 64.
Definition MAX_SIGNER_IDENTITY_LEN : nat := 128.
Definition ED25519_PUBLIC_KEY_HEX_LEN : nat := 64.

(** [unreachable!] above 15. *)
Definition nibble_to_hex (nibble : N) : option N :=
  if decide (nibble ≤ 9) then Some (48 + nibble)
  else if decide (nibble ≤ 15) then Some (97 + (nibble - 10)) else None.

Fixpoint encode_hex_loop (l : list N) : option (list N) :=
  match l with
  | [] => Some []
  | byte :: l =>
      high ← nibble_to_hex (N.shiftr byte 4);
      low ← nibble_to_hex (N.land byte 15);
      encoded ← encode_hex_loop l;
      Some (high :: low :: encoded)
  end.

Definition encode_hex (l : list N) : option string := of_bytes <$> encode_hex_loop l.

Definition hex_value (byte : N) : option N :=
  if decide (48 ≤ byte ≤ 57) then Some (byte - 48)
  else if decide (97 ≤ byte ≤ 102) then Some (byte - 97 + 10) else None.

(** The loop over the pairs of [chunks_exact(2)]; a shift drops the bits beyond the byte. *)
Fixpoint decode_hex_loop (l : list N) : option (list N) :=
  match l with
  | high :: low :: l =>
      h ← hex_value high;
      v ← hex_value low;
      decoded ← decode_hex_loop l;
      Some (N.lor (N.shiftl h 4 mod 256) v :: decoded)
  | _ => Some []
  end.

Definition decode_hex_array (n : nat) (value : string) : option (list N) :=
  if decide (length (bytes value) = n * 2)%nat then decode_hex_loop (bytes value) else None.

Definition is_lower_hex_byte (byte : N) : bool :=
  bool_decide (48 ≤ byte ≤ 57) || bool_decide (97 ≤ byte ≤ 102).

Definition is_lower_hex_len (value : string) (expected_len : nat) : bool :=
  bool_decide (length (bytes value) = expected_len) && forallb is_lower_hex_byte (bytes value).

Definition is_lower_hex_digest (value : string) : bool := is_lower_hex_len value SHA256_HEX_LEN.

Definition is_lower_hex_ed25519_public_key (value : string) : bool :=
  is_lower_hex_len value ED25519_PUBLIC_KEY_HEX_LEN.

(** ** Signing and verification *)

Definition validate_signer_identity (signer_identity : string) : Result unit ArtifactIntegrityError :=
  let signer_identity := trim signer_identity in
  if is_empty signer_identity then Err EmptySignerIdentity
  else if decide (MAX_SIGNER_IDENTITY_LEN < length (bytes signer_identity))%nat then Err SignerIdentityTooLong
  else Ok tt.

Definition attestation_message (signer_identity artifact_digest_sha256 : string) : list N :=
  bytes "way-balancer-artifact-attestation-v1" ++ [10] ++ bytes signer_identity ++ [10] ++
  bytes artifact_digest_sha256.

Section security.
Context {Crypto : Ed25519} {Contents : SnapshotContents}.

Record WorkspaceSnapshot := {
  ws_digest_sha256 : string; ws_workspace_name : string; ws_security : WorkspaceSecurityConfig;
  ws_content : SnapshotContent
}.

Record ArtifactSigner := { as_signer_identity : string; as_signing_key : SigningKey }.

Definition ArtifactSigner_from_signing_key_hex (signer_identity signing_key_ed25519 : string) :
    Result ArtifactSigner ArtifactSigningError :=
  let signer_identity := trim signer_identity in
  match validate_signer_identity signer_identity with
  | Err EmptySignerIdentity => Err Signing_EmptySignerIdentity
  | Err SignerIdentityTooLong => Err Signing_SignerIdentityTooLong
  | Err _ => Err InvalidPrivateKeyFormat
  | Ok _ =>
      match decode_hex_array 32 signing_key_ed25519 with
      | None => Err InvalidPrivateKeyFormat
      | Some seed =>
          Ok {| as_signer_identity := signer_identity; as_signing_key := signing_key_from_bytes seed |}
      end
  end.

Definition ArtifactSigner_trusted_signer (s : ArtifactSigner) : option TrustedArtifactSignerConfig :=
  key ← encode_hex (verifying_key_as_bytes (verifying_key s.(as_signing_key)));
  Some {| ts_identity := s.(as_signer_identity); ts_public_key_ed25519 := key |}.

Definition ArtifactSigner_attest_snapshot (s : ArtifactSigner) (snapshot : WorkspaceSnapshot) :
    option ArtifactAttestation :=
  let digest := snapshot.(ws_digest_sha256) in
  let message := attestation_message s.(as_signer_identity) digest in
  signature ← encode_hex (sign s.(as_signing_key) message);
  Some {| at_signer_identity := s.(as_signer_identity); artifact_digest_sha256 := digest;
          signature_ed25519 := signature |}.

Definition parse_verifying_key (public_key_ed25519 : string) : Result VerifyingKey ArtifactIntegrityError :=
  match decode_hex_array 32 public_key_ed25519 with
  | None => Err InvalidTrustedSignerPublicKey
  | Some key =>
      match verifying_key_from_bytes key with
      | Some key => Ok key
      | None => Err InvalidTrustedSignerPublicKey
      end
  end.

Definition parse_signature (signature_ed25519 : string) : Result (list N) ArtifactIntegrityError :=
  match decode_hex_array 64 signature_ed25519 with
  | None => Err InvalidSignatureFormat
  | Some signature => Ok signature
  end.

(** [iter().find]: the first signer of that identity. *)
Definition find_signer (signers : list TrustedArtifactSignerConfig) (signer_identity : string) :
    option TrustedArtifactSignerConfig :=
  List.find (λ signer, bool_decide (trim signer.(ts_identity) = signer_identity)) signers.

Definition verify_attestation (security : WorkspaceSecurityConfig) (digest : string)
    (attestation : ArtifactAttestation) : Result unit ArtifactIntegrityError :=
  let signer_identity := trim attestation.(at_signer_identity) in
  let? _ := validate_signer_identity signer_identity in
  if negb (is_lower_hex_digest attestation.(artifact_digest_sha256)) then Err InvalidArtifactDigestFormat
  else if decide (attestation.(artifact_digest_sha256) ≠ digest) then Err ArtifactDigestMismatch
  else
    match find_signer security.(artifact_verification).(trusted_signers) signer_identity with
    | None => Err UntrustedSigner
    | Some trusted_signer =>
        let? key := parse_verifying_key trusted_signer.(ts_public_key_ed25519) in
        let? signature := parse_signature attestation.(signature_ed25519) in
        let message := attestation_message signer_identity attestation.(artifact_digest_sha256) in
        if verify key message signature then Ok tt else Err SignatureVerificationFailed
    end.

Definition verify_insecure_mode (security : WorkspaceSecurityConfig) : Result unit ArtifactIntegrityError :=
  if negb security.(insecure_dev_mode).(dev_enabled) then Err InsecureModeNotEnabled
  else match security.(insecure_dev_mode).(dev_acknowledgement) with
       | Some acknowledgement =>
           if is_empty (trim acknowledgement) then Err MissingInsecureDevAcknowledgement else Ok tt
       | None => Err MissingInsecureDevAcknowledgement
       end.

Definition verify_snapshot_artifact_integrity (snapshot : WorkspaceSnapshot)
    (attestation : option ArtifactAttestation) : Result unit ArtifactIntegrityError :=
  let security := snapshot.(ws_security) in
  match security.(artifact_verification).(av_mode) with
  | Enforced =>
      match attestation with
      | None => Err MissingAttestation
      | Some attestation => verify_attestation security snapshot.(ws_digest_sha256) attestation
      end
  | Disabled => verify_insecure_mode security
  end.

(** ** Hexadecimal round trip *)

Lemma hex_nibble n : n ≤ 15 → ∃ c, nibble_to_hex n = Some c ∧ hex_value c = Some n ∧ c < 256.
Proof.
  intros Hn. unfold nibble_to_hex, hex_value. case_decide as H9.
  - eexists. split; [done|]. rewrite decide_True by lia. split; [f_equal; lia|lia].
  - rewrite decide_True by lia. eexists. split; [done|].
    rewrite decide_False, decide_True by lia. split; [f_equal; lia|lia].
Qed.

Lemma byte_nibbles b : b < 256 →
  N.shiftr b 4 ≤ 15 ∧ N.land b 15 ≤ 15 ∧ N.lor (N.shiftl (N.shiftr b 4) 4 mod 256) (N.land b 15) = b.
Proof.
  intros Hb.
  assert (Hall : Forall (λ b, N.shiftr b 4 ≤ 15 ∧ N.land b 15 ≤ 15 ∧
    N.lor (N.shiftl (N.shiftr b 4) 4 mod 256) (N.land b 15) = b) (N.of_nat <$> seq 0 256)).
  { apply (bool_decide_unpack _). vm_compute. exact I. }
  rewrite Forall_forall in Hall. apply Hall. apply list_elem_of_fmap. exists (N.to_nat b).
  split; [lia|]. apply elem_of_seq. lia.
Qed.

Lemma encode_hex_decodes l : Forall (λ b, b < 256) l →
  ∃ text, encode_hex l = Some text ∧ decode_hex_array (length l) text = Some l.
Proof.
  intros Hl. assert (H : ∃ e, encode_hex_loop l = Some e ∧ decode_hex_loop e = Some l ∧
    Forall (λ b, b < 256) e ∧ length e = (length l * 2)%nat).
  { induction Hl as [|b l Hb _ (e & He & Hd & Hf & Hlen)]; [by exists []|].
    destruct (byte_nibbles b Hb) as (Hh & Hlo & Hor).
    destruct (hex_nibble _ Hh) as (c1 & E1 & D1 & L1). destruct (hex_nibble _ Hlo) as (c2 & E2 & D2 & L2).
    exists (c1 :: c2 :: e). cbn [encode_hex_loop decode_hex_loop]. rewrite E1, E2, He, D1, D2, Hd. simpl.
    split_and!; [done|by rewrite Hor|by repeat constructor|by rewrite Hlen]. }
  destruct H as (e & He & Hd & Hf & Hlen). exists (of_bytes e). unfold encode_hex, decode_hex_array.
  rewrite He, bytes_of_bytes by done. by rewrite decide_True.
Qed.

(** ** Attestations *)

(** The digest is the last 64 bytes of the message, so the message determines both parts. *)
Lemma attestation_message_inj id1 d1 id2 d2 :
  is_lower_hex_digest d1 = true → is_lower_hex_digest d2 = true →
  attestation_message id1 d1 = attestation_message id2 d2 → id1 = id2 ∧ d1 = d2.
Proof.
  unfold is_lower_hex_digest, is_lower_hex_len.
  intros [H1%bool_decide_eq_true _]%andb_true_iff [H2%bool_decide_eq_true _]%andb_true_iff E.
  unfold attestation_message in E. apply app_inv_head, app_inv_head in E.
  rewrite !(assoc_L app) in E. apply app_inj_2 in E as [E Ed]; [|by rewrite H1, H2].
  apply app_inv_tail in E. by split; apply (inj bytes).
Qed.

Lemma find_signer_Some signers id t : find_signer signers id = Some t → t ∈ signers ∧ trim t.(ts_identity) = id.
Proof.
  unfold find_signer. intros H. apply List.find_some in H as [Hin Hid].
  split; [by apply list_elem_of_In|by apply bool_decide_eq_true in Hid].
Qed.

(** C38: A snapshot whose verification is enforced passes only with an attestation for its own
    digest, by a signer that the snapshot lists as trusted, whose signature verifies under the
    key of that signer; an attestation that passes for one digest passes for no other. *)
Theorem accepted_snapshot_attested (snapshot : WorkspaceSnapshot) (attestation : option ArtifactAttestation)
    (Hmode : snapshot.(ws_security).(artifact_verification).(av_mode) = Enforced)
    (Hok : verify_snapshot_artifact_integrity snapshot attestation = Ok tt) :
  ∃ a signer key signature,
    attestation = Some a ∧ a.(artifact_digest_sha256) = snapshot.(ws_digest_sha256) ∧
    signer ∈ snapshot.(ws_security).(artifact_verification).(trusted_signers) ∧
    trim signer.(ts_identity) = trim a.(at_signer_identity) ∧
    parse_verifying_key signer.(ts_public_key_ed25519) = Ok key ∧
    parse_signature a.(signature_ed25519) = Ok signature ∧
    verify key (attestation_message (trim a.(at_signer_identity)) snapshot.(ws_digest_sha256)) signature = true ∧
    (∀ other, attestation_message (trim other.(at_signer_identity)) other.(artifact_digest_sha256) =
        attestation_message (trim a.(at_signer_identity)) a.(artifact_digest_sha256) →
      is_lower_hex_digest other.(artifact_digest_sha256) = true →
      other.(artifact_digest_sha256) = snapshot.(ws_digest_sha256)).
Proof.
  unfold verify_snapshot_artifact_integrity in Hok. rewrite Hmode in Hok.
  destruct attestation as [a|]; [|done]. unfold verify_attestation in Hok.
  destruct (validate_signer_identity _) as [|]; [|done]. cbn in Hok.
  destruct (is_lower_hex_digest (artifact_digest_sha256 a)) eqn:Ehex; [|done]. cbn [negb] in Hok.
  case_decide as Hd; [done|].
  destruct (find_signer _ _) as [signer|] eqn:Ef; [|done]. apply find_signer_Some in Ef as [Hin Hid].
  destruct (parse_verifying_key _) as [key|] eqn:Ek; [|done]. cbn in Hok.
  destruct (parse_signature _) as [signature|] eqn:Es; [|done]. cbn in Hok.
  destruct (verify _ _ _) eqn:Ev; [|done]. rewrite Hd in Ev.
  exists a, signer, key, signature. split_and!; try done.
  intros other Hm Hh. rewrite <- Hd. by apply attestation_message_inj in Hm as [_ ?].
Qed.

(** What a signer attests is verified: for a signer built from a key and an identity, and a
    snapshot with a well-formed digest whose first trusted signer of that identity is this
    signer, signing and encoding do not panic and the attestation passes. *)
Theorem attested_snapshot_verifies (identity seed : string) (signer : ArtifactSigner)
    (snapshot : WorkspaceSnapshot)
    (Hsigner : ArtifactSigner_from_signing_key_hex identity seed = Ok signer)
    (Hidentity : unicode identity)
    (Hmode : snapshot.(ws_security).(artifact_verification).(av_mode) = Enforced)
    (Hdigest : is_lower_hex_digest snapshot.(ws_digest_sha256) = true)
    (Htrusted : find_signer snapshot.(ws_security).(artifact_verification).(trusted_signers)
      signer.(as_signer_identity) = ArtifactSigner_trusted_signer signer)
    : ∃ attestation, ArtifactSigner_attest_snapshot signer snapshot = Some attestation ∧
      verify_snapshot_artifact_integrity snapshot (Some attestation) = Ok tt.
Proof.
  unfold ArtifactSigner_from_signing_key_hex in Hsigner.
  destruct (validate_signer_identity (trim identity)) as [u|[]] eqn:Ev; try done.
  destruct (decode_hex_array 32 seed) as [sd|]; [|done]. injection Hsigner as <-.
  set (sk := signing_key_from_bytes sd) in *. cbn [as_signer_identity as_signing_key] in *.
  pose proof (trim_idemp _ Hidentity) as Htrim.
  destruct (verifying_key_bytes (verifying_key sk)) as [Hklen Hkb].
  destruct (encode_hex_decodes _ Hkb) as (ktext & Ek & Dk). rewrite Hklen in Dk.
  set (message := attestation_message (trim identity) (ws_digest_sha256 snapshot)).
  destruct (signature_bytes sk message) as [Hslen Hsb].
  destruct (encode_hex_decodes _ Hsb) as (stext & Es & Ds). rewrite Hslen in Ds.
  unfold ArtifactSigner_trusted_signer in Htrusted. cbn [as_signing_key as_signer_identity] in Htrusted.
  rewrite Ek in Htrusted. cbn in Htrusted.
  eexists. unfold ArtifactSigner_attest_snapshot. cbn [as_signing_key as_signer_identity]. fold message.
  rewrite Es. cbn. split; [done|].
  unfold verify_snapshot_artifact_integrity. rewrite Hmode. unfold verify_attestation.
  cbn [at_signer_identity artifact_digest_sha256 signature_ed25519]. rewrite Htrim, Ev, Hdigest. cbn [negb].
  cbn. rewrite decide_False by (intros H; by apply H). rewrite Htrusted.
  cbn [ts_public_key_ed25519]. unfold parse_verifying_key, parse_signature.
  rewrite Dk, verifying_key_roundtrip. cbn. rewrite Ds. cbn. fold message. by rewrite signature_verifies.
Qed.
End security.

(** ** A sample signer *)

Definition sample_crypto : Ed25519.
Proof.
  refine {| SigningKey := list N; VerifyingKey := unit;
            signing_key_from_bytes seed := seed; verifying_key _ := tt;
            verifying_key_as_bytes _ := repeat 7 32;
            verifying_key_from_bytes key := if decide (key = repeat 7 32) then Some tt else None;
            sign _ _ := repeat 9 64;
            verify _ _ signature := bool_decide (signature = repeat 9 64) |}.
  - intros _. split; [done|]. apply (bool_decide_unpack _). vm_compute. exact I.
  - intros _. by rewrite decide_True.
  - intros _ _. split; [done|]. apply (bool_decide_unpack _). vm_compute. exact I.
  - intros _ _. by apply bool_decide_eq_true.
Defined.

Definition sample_contents : SnapshotContents := {| SnapshotContent := unit |}.

Definition sample_digest : string := of_bytes (repeat 97 64).
Definition sample_seed : string := of_bytes (repeat 48 64).

Definition sample_security : WorkspaceSecurityConfig :=
  {| insecure_dev_mode := {| dev_enabled := false; dev_acknowledgement := None |};
     artifact_verification :=
       {| av_mode := Enforced;
          trusted_signers := [TrustedArtifactSignerConfig_new "release" (default EmptyString (encode_hex (repeat 7 32)))] |};
     trusted_client_ip := WorkspaceSecurityConfig_default.(trusted_client_ip);
     anonymous_source_filter := WorkspaceSecurityConfig_default.(anonymous_source_filter) |}.

Definition sample_snapshot : @WorkspaceSnapshot sample_contents :=
  {| ws_digest_sha256 := sample_digest; ws_workspace_name := "edge"; ws_security := sample_security;
     ws_content := (tt : @SnapshotContent sample_contents) |}.

Definition sample_attestation : ArtifactAttestation :=
  {| at_signer_identity := "release"; artifact_digest_sha256 := sample_digest;
     signature_ed25519 := default EmptyString (encode_hex (repeat 9 64)) |}.

Lemma attested_snapshot_verifies_witness :
  ∃ attestation,
    @ArtifactSigner_attest_snapshot sample_crypto sample_contents
      {| as_signer_identity := "release"; as_signing_key := (repeat 0 32 : @SigningKey sample_crypto) |}
      sample_snapshot = Some attestation ∧
    @verify_snapshot_artifact_integrity sample_crypto sample_contents sample_snapshot (Some attestation) = Ok tt.
Proof.
  apply (@attested_snapshot_verifies sample_crypto sample_contents " release " sample_seed).
  - vm_compute. reflexivity.
  - apply (bool_decide_unpack _). vm_compute. exact I.
  - reflexivity.
  - vm_compute. reflexivity.
  - vm_compute. reflexivity.
Defined.

Lemma accepted_snapshot_attested_witness :
  ∃ signer, signer ∈ sample_security.(artifact_verification).(trusted_signers) ∧
    trim signer.(ts_identity) = "release".
Proof.
  destruct (@accepted_snapshot_attested sample_crypto sample_contents sample_snapshot (Some sample_attestation))
    as (a & signer & key & signature & [= <-] & _ & Hin & Hid & _).
  - reflexivity.
  - vm_compute. reflexivity.
  - exists signer. split; [exact Hin|]. rewrite Hid. vm_compute. reflexivity.
Defined.
