(* ===== verification/ConfigApplication.v ===== *)
(** * Application of configuration snapshots

    Models [crates/runtime/src/config_application.rs]: the manager that validates, verifies and
    activates snapshots and remembers the last good one.  The activation hook, a trait object,
    is a parameter with a state of its own; the system clock is an argument. *)

From S2P Require Import Prelude RustStr RustText ArtifactSecurity.
Local Open Scope N_scope.
Local Open Scope rust_scope.

Definition MAX_VERSION_LEN : nat := 128.
Definition MAX_ACTOR_LEN : nat := 128.

Record AppliedSnapshotSummary := {
  su_version : string; su_workspace_name : string; su_digest_sha256 : string;
  su_applied_at_unix_ms : N; su_acknowledged_by : option string
}.

Inductive SnapshotApplyOutcome := Applied | Unchanged.

Record SnapshotApplyAck := {
  ack_outcome : SnapshotApplyOutcome; ack_active : AppliedSnapshotSummary;
  ack_last_known_good : AppliedSnapshotSummary
}.

Inductive SnapshotApplyFailureCategory := Failure_Integrity | Failure_Activation | Failure_Internal.

Record SnapshotApplyFailure := {
  fl_category : SnapshotApplyFailureCategory; fl_version : string; fl_digest_sha256 : string;
  fl_failed_at_unix_ms : N; fl_detail : string
}.

Inductive SnapshotApplyLifecycle :=
| Idle
| Applying (version digest_sha256 : string)
| Lifecycle_Active (version digest_sha256 : string)
| ApplyFailed (version digest_sha256 : string).

Record DataplaneSnapshotStatus := {
  st_lifecycle : SnapshotApplyLifecycle; st_active : option AppliedSnapshotSummary;
  st_last_known_good : option AppliedSnapshotSummary; st_last_apply_failure : option SnapshotApplyFailure
}.

Record SnapshotApplyMetrics := {
  apply_success_count : N; apply_noop_count : N; apply_integrity_failure_count : N;
  apply_activation_failure_count : N; apply_internal_failure_count : N
}.

Inductive InvalidApplyRequest :=
| EmptyVersion | InvalidVersionFormat | VersionTooLong | InvalidSnapshotDigest
| InvalidExpectedDigestFormat | DigestMismatch | EmptyAcknowledgedBy | AcknowledgedByTooLong.

Definition InvalidApplyRequest_fmt (e : InvalidApplyRequest) : string :=
  match e with
  | EmptyVersion => "snapshot version must not be empty"
  | InvalidVersionFormat => "snapshot version contains unsupported characters"
  | VersionTooLong => "snapshot version exceeds max length"
  | InvalidSnapshotDigest => "snapshot digest must be a lowercase sha256 hex string"
  | InvalidExpectedDigestFormat => "expected digest must be a lowercase sha256 hex string"
  | DigestMismatch => "expected digest does not match snapshot digest"
  | EmptyAcknowledgedBy => "acknowledged_by must not be empty"
  | AcknowledgedByTooLong => "acknowledged_by exceeds max length"
  end.

Inductive SnapshotActivationError := Rejected (detail : string).

Definition SnapshotActivationError_fmt (e : SnapshotActivationError) : string :=
  match e with Rejected detail => "snapshot activation rejected: " +:+ detail end.

(** [std::time::SystemTimeError] is how far the clock is before the epoch. *)
Inductive SnapshotApplyError :=
| InvalidRequest (error : InvalidApplyRequest)
| Integrity (error : ArtifactIntegrityError)
| Activation (error : SnapshotActivationError)
| Internal (error : Duration).

(** [current_unix_ms] for what the clock says about the time since the epoch. *)
Definition current_unix_ms (clock : Result Duration Duration) : Result N Duration :=
  let? duration := clock in
  Ok (N.min (as_millis duration) u64_max).

Definition is_version_byte (byte : N) : bool :=
  is_ascii_alphanumeric byte || bool_decide (byte = 45 ∨ byte = 95 ∨ byte = 46).

Section application.
Context {Crypto : Ed25519} {Contents : SnapshotContents}.

Class SnapshotActivationHook := {
  HookState : Type;
  hook_validate : HookState → WorkspaceSnapshot → HookState * Result unit SnapshotActivationError;
  hook_activate : HookState → WorkspaceSnapshot → HookState * Result unit SnapshotActivationError
}.

Definition NoopSnapshotActivationHook : SnapshotActivationHook :=
  {| HookState := unit; hook_validate _ _ := (tt, Ok tt); hook_activate _ _ := (tt, Ok tt) |}.

Context {Hook : SnapshotActivationHook}.

Record SnapshotApplyRequest := {
  ar_version : string; ar_snapshot : WorkspaceSnapshot; ar_artifact_attestation : option ArtifactAttestation;
  ar_expected_digest_sha256 : string; ar_acknowledged_by : option string
}.

Record AppliedSnapshotRecord := {
  rc_version : string; rc_workspace_name : string; rc_digest_sha256 : string;
  rc_applied_at_unix_ms : N; rc_acknowledged_by : option string; rc_snapshot : WorkspaceSnapshot
}.

Definition AppliedSnapshotSummary_from (r : AppliedSnapshotRecord) : AppliedSnapshotSummary :=
  {| su_version := r.(rc_version); su_workspace_name := r.(rc_workspace_name);
     su_digest_sha256 := r.(rc_digest_sha256); su_applied_at_unix_ms := r.(rc_applied_at_unix_ms);
     su_acknowledged_by := r.(rc_acknowledged_by) |}.

Record DataplaneSnapshotManager := {
  dm_hook : HookState; dm_lifecycle : SnapshotApplyLifecycle; dm_active : option AppliedSnapshotRecord;
  dm_last_known_good : option AppliedSnapshotRecord; dm_last_apply_failure : option SnapshotApplyFailure;
  dm_metrics : SnapshotApplyMetrics
}.

Definition DataplaneSnapshotManager_with_hook (hook : HookState) : DataplaneSnapshotManager :=
  {| dm_hook := hook; dm_lifecycle := Idle; dm_active := None; dm_last_known_good := None;
     dm_last_apply_failure := None;
     dm_metrics := {| apply_success_count := 0; apply_noop_count := 0; apply_integrity_failure_count := 0;
                      apply_activation_failure_count := 0; apply_internal_failure_count := 0 |} |}.

Definition validate_acknowledged_by (acknowledged_by : option string) : Result unit InvalidApplyRequest :=
  match acknowledged_by with
  | Some acknowledged_by =>
      let acknowledged_by := trim acknowledged_by in
      if is_empty acknowledged_by then Err EmptyAcknowledgedBy
      else if decide (MAX_ACTOR_LEN < length (bytes acknowledged_by))%nat then Err AcknowledgedByTooLong
      else Ok tt
  | None => Ok tt
  end.

Definition validate_apply_request (request : SnapshotApplyRequest) : Result unit InvalidApplyRequest :=
  let version := trim request.(ar_version) in
  let digest_sha256 := request.(ar_snapshot).(ws_digest_sha256) in
  if is_empty version then Err EmptyVersion
  else if decide (MAX_VERSION_LEN < length (bytes version))%nat then Err VersionTooLong
  else if negb (forallb is_version_byte (bytes version)) then Err InvalidVersionFormat
  else if negb (is_lower_hex_digest digest_sha256) then Err InvalidSnapshotDigest
  else if negb (is_lower_hex_digest request.(ar_expected_digest_sha256)) then Err InvalidExpectedDigestFormat
  else if decide (request.(ar_expected_digest_sha256) ≠ digest_sha256) then Err DigestMismatch
  else validate_acknowledged_by request.(ar_acknowledged_by).

Definition count_failure (m : SnapshotApplyMetrics) (category : SnapshotApplyFailureCategory) : SnapshotApplyMetrics :=
  let add n := saturating_add u64_max n 1 in
  match category with
  | Failure_Integrity =>
      {| apply_success_count := m.(apply_success_count); apply_noop_count := m.(apply_noop_count);
         apply_integrity_failure_count := add m.(apply_integrity_failure_count);
         apply_activation_failure_count := m.(apply_activation_failure_count);
         apply_internal_failure_count := m.(apply_internal_failure_count) |}
  | Failure_Activation =>
      {| apply_success_count := m.(apply_success_count); apply_noop_count := m.(apply_noop_count);
         apply_integrity_failure_count := m.(apply_integrity_failure_count);
         apply_activation_failure_count := add m.(apply_activation_failure_count);
         apply_internal_failure_count := m.(apply_internal_failure_count) |}
  | Failure_Internal =>
      {| apply_success_count := m.(apply_success_count); apply_noop_count := m.(apply_noop_count);
         apply_integrity_failure_count := m.(apply_integrity_failure_count);
         apply_activation_failure_count := m.(apply_activation_failure_count);
         apply_internal_failure_count := add m.(apply_internal_failure_count) |}
  end.

Definition record_failure (m : DataplaneSnapshotManager) (category : SnapshotApplyFailureCategory)
    (version digest_sha256 : string) (failed_at_unix_ms : N) (detail : string) : DataplaneSnapshotManager :=
  {| dm_hook := m.(dm_hook); dm_lifecycle := ApplyFailed version digest_sha256; dm_active := m.(dm_active);
     dm_last_known_good := m.(dm_last_known_good);
     dm_last_apply_failure := Some {| fl_category := category; fl_version := version;
                                      fl_digest_sha256 := digest_sha256;
                                      fl_failed_at_unix_ms := failed_at_unix_ms; fl_detail := detail |};
     dm_metrics := count_failure m.(dm_metrics) category |}.

Definition set_lifecycle (m : DataplaneSnapshotManager) (lifecycle : SnapshotApplyLifecycle) : DataplaneSnapshotManager :=
  {| dm_hook := m.(dm_hook); dm_lifecycle := lifecycle; dm_active := m.(dm_active);
     dm_last_known_good := m.(dm_last_known_good); dm_last_apply_failure := m.(dm_last_apply_failure);
     dm_metrics := m.(dm_metrics) |}.

Definition set_hook (m : DataplaneSnapshotManager) (hook : HookState) : DataplaneSnapshotManager :=
  {| dm_hook := hook; dm_lifecycle := m.(dm_lifecycle); dm_active := m.(dm_active);
     dm_last_known_good := m.(dm_last_known_good); dm_last_apply_failure := m.(dm_last_apply_failure);
     dm_metrics := m.(dm_metrics) |}.

(** The request repeats the active snapshot. *)
Definition apply_unchanged (m : DataplaneSnapshotManager) (active : AppliedSnapshotRecord) :
    DataplaneSnapshotManager * Result SnapshotApplyAck SnapshotApplyError :=
  let x := m.(dm_metrics) in
  ({| dm_hook := m.(dm_hook); dm_lifecycle := Lifecycle_Active active.(rc_version) active.(rc_digest_sha256);
      dm_active := m.(dm_active); dm_last_known_good := m.(dm_last_known_good);
      dm_last_apply_failure := m.(dm_last_apply_failure);
      dm_metrics := {| apply_success_count := x.(apply_success_count);
                       apply_noop_count := saturating_add u64_max x.(apply_noop_count) 1;
                       apply_integrity_failure_count := x.(apply_integrity_failure_count);
                       apply_activation_failure_count := x.(apply_activation_failure_count);
                       apply_internal_failure_count := x.(apply_internal_failure_count) |} |},
   Ok {| ack_outcome := Unchanged; ack_active := AppliedSnapshotSummary_from active;
         ack_last_known_good := AppliedSnapshotSummary_from (default active m.(dm_last_known_good)) |}).

(** The hook has activated the snapshot. *)
Definition apply_activated (m : DataplaneSnapshotManager) (request : SnapshotApplyRequest) (applied_at_unix_ms : N) :
    DataplaneSnapshotManager * Result SnapshotApplyAck SnapshotApplyError :=
  let x := m.(dm_metrics) in
  let digest_sha256 := request.(ar_snapshot).(ws_digest_sha256) in
  let record := {| rc_version := request.(ar_version);
                   rc_workspace_name := request.(ar_snapshot).(ws_workspace_name);
                   rc_digest_sha256 := digest_sha256; rc_applied_at_unix_ms := applied_at_unix_ms;
                   rc_acknowledged_by := request.(ar_acknowledged_by); rc_snapshot := request.(ar_snapshot) |} in
  let summary := AppliedSnapshotSummary_from record in
  ({| dm_hook := m.(dm_hook); dm_lifecycle := Lifecycle_Active request.(ar_version) digest_sha256;
      dm_active := Some record; dm_last_known_good := Some record; dm_last_apply_failure := None;
      dm_metrics := {| apply_success_count := saturating_add u64_max x.(apply_success_count) 1;
                       apply_noop_count := x.(apply_noop_count);
                       apply_integrity_failure_count := x.(apply_integrity_failure_count);
                       apply_activation_failure_count := x.(apply_activation_failure_count);
                       apply_internal_failure_count := x.(apply_internal_failure_count) |} |},
   Ok {| ack_outcome := Applied; ack_active := summary; ack_last_known_good := summary |}).

(** Whether the active record has the version and digest of the request. *)
Definition repeats_active (m : DataplaneSnapshotManager) (request : SnapshotApplyRequest) :
    option AppliedSnapshotRecord :=
  active ← m.(dm_active);
  if decide (active.(rc_version) = request.(ar_version) ∧
             active.(rc_digest_sha256) = request.(ar_snapshot).(ws_digest_sha256))
  then Some active else None.

Definition DataplaneSnapshotManager_apply_at (m : DataplaneSnapshotManager) (request : SnapshotApplyRequest)
    (applied_at_unix_ms : N) : DataplaneSnapshotManager * Result SnapshotApplyAck SnapshotApplyError :=
  let digest_sha256 := request.(ar_snapshot).(ws_digest_sha256) in
  let fail m category detail :=
    record_failure m category request.(ar_version) digest_sha256 applied_at_unix_ms detail in
  match validate_apply_request request with
  | Err error => (fail m Failure_Integrity (InvalidApplyRequest_fmt error), Err (InvalidRequest error))
  | Ok _ =>
  match verify_snapshot_artifact_integrity request.(ar_snapshot) request.(ar_artifact_attestation) with
  | Err error => (fail m Failure_Integrity (ArtifactIntegrityError_fmt error), Err (Integrity error))
  | Ok _ =>
  let m := set_lifecycle m (Applying request.(ar_version) digest_sha256) in
  match repeats_active m request with
  | Some active => apply_unchanged m active
  | None =>
  let '(hook, validated) := hook_validate m.(dm_hook) request.(ar_snapshot) in
  let m := set_hook m hook in
  match validated with
  | Err error => (fail m Failure_Activation (SnapshotActivationError_fmt error), Err (Activation error))
  | Ok _ =>
  let '(hook, activated) := hook_activate m.(dm_hook) request.(ar_snapshot) in
  let m := set_hook m hook in
  match activated with
  | Err error => (fail m Failure_Activation (SnapshotActivationError_fmt error), Err (Activation error))
  | Ok _ => apply_activated m request applied_at_unix_ms
  end end end end end.

Definition DataplaneSnapshotManager_apply (m : DataplaneSnapshotManager) (request : SnapshotApplyRequest)
    (clock : Result Duration Duration) : DataplaneSnapshotManager * Result SnapshotApplyAck SnapshotApplyError :=
  match current_unix_ms clock with
  | Err error =>
      ({| dm_hook := m.(dm_hook); dm_lifecycle := m.(dm_lifecycle); dm_active := m.(dm_active);
          dm_last_known_good := m.(dm_last_known_good); dm_last_apply_failure := m.(dm_last_apply_failure);
          dm_metrics := count_failure m.(dm_metrics) Failure_Internal |}, Err (Internal error))
  | Ok applied_at_unix_ms => DataplaneSnapshotManager_apply_at m request applied_at_unix_ms
  end.

Definition DataplaneSnapshotManager_status (m : DataplaneSnapshotManager) : DataplaneSnapshotStatus :=
  {| st_lifecycle := m.(dm_lifecycle); st_active := AppliedSnapshotSummary_from <$> m.(dm_active);
     st_last_known_good := AppliedSnapshotSummary_from <$> m.(dm_last_known_good);
     st_last_apply_failure := m.(dm_last_apply_failure) |}.

(** ** Runs of the manager *)

Abbreviation Call := (SnapshotApplyRequest * Result Duration Duration)%type (only parsing).
Abbreviation Outcome := (Result SnapshotApplyAck SnapshotApplyError) (only parsing).

Fixpoint apply_all (m : DataplaneSnapshotManager) (calls : list Call) : DataplaneSnapshotManager * list Outcome :=
  match calls with
  | [] => (m, [])
  | (request, clock) :: calls =>
      let '(m, result) := DataplaneSnapshotManager_apply m request clock in
      let '(m, results) := apply_all m calls in
      (m, result :: results)
  end.

Definition record_of (request : SnapshotApplyRequest) (at_ms : N) : AppliedSnapshotRecord :=
  {| rc_version := request.(ar_version); rc_workspace_name := request.(ar_snapshot).(ws_workspace_name);
     rc_digest_sha256 := request.(ar_snapshot).(ws_digest_sha256); rc_applied_at_unix_ms := at_ms;
     rc_acknowledged_by := request.(ar_acknowledged_by); rc_snapshot := request.(ar_snapshot) |}.

(** What a call adds to the log of applied snapshots. *)
Definition log_entry (call : Call) (result : Outcome) : list AppliedSnapshotRecord :=
  match result, current_unix_ms call.2 with
  | Ok ack, Ok at_ms => match ack.(ack_outcome) with Applied => [record_of call.1 at_ms] | Unchanged => [] end
  | _, _ => []
  end.

Fixpoint applied_log (calls : list Call) (results : list Outcome) : list AppliedSnapshotRecord :=
  match calls, results with
  | call :: calls, result :: results => log_entry call result ++ applied_log calls results
  | _, _ => []
  end.

(** A record that passed the checks of its request and of its artifact. *)
Definition vetted (r : AppliedSnapshotRecord) : Prop :=
  r.(rc_digest_sha256) = r.(rc_snapshot).(ws_digest_sha256) ∧
  is_lower_hex_digest r.(rc_digest_sha256) = true ∧
  ∃ attestation, verify_snapshot_artifact_integrity r.(rc_snapshot) attestation = Ok tt.

Definition counted (f : Outcome → bool) (results : list Outcome) : N :=
  N.min u64_max (N.of_nat (length (List.filter f results))).

Definition is_applied (r : Outcome) : bool :=
  match r with Ok ack => match ack.(ack_outcome) with Applied => true | Unchanged => false end | Err _ => false end.
Definition is_unchanged (r : Outcome) : bool :=
  match r with Ok ack => match ack.(ack_outcome) with Applied => false | Unchanged => true end | Err _ => false end.
Definition is_integrity (r : Outcome) : bool :=
  match r with Err (InvalidRequest _) | Err (Integrity _) => true | _ => false end.
Definition is_activation (r : Outcome) : bool := match r with Err (Activation _) => true | _ => false end.
Definition is_internal (r : Outcome) : bool := match r with Err (Internal _) => true | _ => false end.

Definition metrics_of (results : list Outcome) : SnapshotApplyMetrics :=
  {| apply_success_count := counted is_applied results; apply_noop_count := counted is_unchanged results;
     apply_integrity_failure_count := counted is_integrity results;
     apply_activation_failure_count := counted is_activation results;
     apply_internal_failure_count := counted is_internal results |}.

Definition lifecycle_ok (m : DataplaneSnapshotManager) : Prop :=
  match m.(dm_lifecycle) with
  | Idle => m.(dm_active) = None
  | Applying _ _ => False
  | Lifecycle_Active version digest =>
      ∃ r, m.(dm_active) = Some r ∧ r.(rc_version) = version ∧ r.(rc_digest_sha256) = digest
  | ApplyFailed version digest =>
      ∃ f, m.(dm_last_apply_failure) = Some f ∧ f.(fl_version) = version ∧ f.(fl_digest_sha256) = digest
  end.

Definition manager_inv (m : DataplaneSnapshotManager) (log : list AppliedSnapshotRecord) (results : list Outcome) : Prop :=
  m.(dm_active) = last log ∧ m.(dm_last_known_good) = last log ∧ Forall vetted log ∧
  m.(dm_metrics) = metrics_of results ∧ lifecycle_ok m.

Lemma counted_snoc f results r :
  counted f (results ++ [r]) = if f r then saturating_add u64_max (counted f results) 1 else counted f results.
Proof.
  unfold counted, saturating_add. rewrite List.filter_app, length_app. simpl.
  destruct (f r); simpl; lia.
Qed.

Lemma metrics_of_snoc results r :
  metrics_of (results ++ [r]) =
    let m := metrics_of results in
    let add (b : bool) n := if b then saturating_add u64_max n 1 else n in
    {| apply_success_count := add (is_applied r) m.(apply_success_count);
       apply_noop_count := add (is_unchanged r) m.(apply_noop_count);
       apply_integrity_failure_count := add (is_integrity r) m.(apply_integrity_failure_count);
       apply_activation_failure_count := add (is_activation r) m.(apply_activation_failure_count);
       apply_internal_failure_count := add (is_internal r) m.(apply_internal_failure_count) |}.
Proof. unfold metrics_of. by rewrite !counted_snoc. Qed.

Lemma validate_apply_request_Ok request :
  validate_apply_request request = Ok tt → is_lower_hex_digest request.(ar_snapshot).(ws_digest_sha256) = true.
Proof.
  unfold validate_apply_request. destruct (is_empty _); [done|]. case_decide; [done|].
  destruct (forallb _ _); [|done]. by destruct (is_lower_hex_digest (ws_digest_sha256 _)).
Qed.

Lemma failure_inv m m' log results category version digest at_ms detail e :
  manager_inv m log results →
  m'.(dm_active) = m.(dm_active) → m'.(dm_last_known_good) = m.(dm_last_known_good) →
  m'.(dm_metrics) = m.(dm_metrics) →
  count_failure (metrics_of results) category = metrics_of (results ++ [Err e]) →
  manager_inv (record_failure m' category version digest at_ms detail) log (results ++ [Err e]).
Proof.
  intros (Ha & Hl & Hv & Hm & _) Ha' Hl' Hm' Hc. unfold manager_inv, lifecycle_ok. simpl.
  split_and!; [congruence|congruence|done|congruence|]. by eexists.
Qed.

Lemma apply_at_inv m log results request clock at_ms m' r :
  manager_inv m log results → current_unix_ms clock = Ok at_ms →
  DataplaneSnapshotManager_apply_at m request at_ms = (m', r) →
  manager_inv m' (log ++ log_entry (request, clock) r) (results ++ [r]).
Proof.
  intros Hinv Hclock. unfold DataplaneSnapshotManager_apply_at, log_entry. cbn [fst snd]. rewrite Hclock.
  destruct (validate_apply_request request) as [[]|e] eqn:Ev.
  2:{ intros [= <- <-]. rewrite app_nil_r. apply (failure_inv m); try done. by rewrite metrics_of_snoc. }
  destruct (verify_snapshot_artifact_integrity _ _) as [[]|e] eqn:Ei.
  2:{ intros [= <- <-]. rewrite app_nil_r. apply (failure_inv m); try done. by rewrite metrics_of_snoc. }
  destruct (repeats_active _ request) as [active|] eqn:Er.
  { intros [= <- <-]. rewrite app_nil_r. destruct Hinv as (Ha & Hl & Hv & Hm & _).
    unfold repeats_active in Er. cbn [dm_active set_lifecycle] in Er. destruct (dm_active m) as [a|] eqn:Ea; [|done].
    cbn in Er. case_decide; [|done]. injection Er as ->.
    unfold manager_inv, lifecycle_ok. rewrite metrics_of_snoc. cbn. rewrite Hm, ?Ea. split_and!; try done. by eauto. }
  destruct (hook_validate _ _) as [h1 [[]|e]].
  2:{ intros [= <- <-]. rewrite app_nil_r. apply (failure_inv m); try done. by rewrite metrics_of_snoc. }
  destruct (hook_activate _ _) as [h2 [[]|e]].
  2:{ intros [= <- <-]. rewrite app_nil_r. apply (failure_inv m); try done. by rewrite metrics_of_snoc. }
  intros [= <- <-]. destruct Hinv as (_ & _ & Hv & Hm & _). unfold manager_inv, lifecycle_ok.
  rewrite metrics_of_snoc. cbn. rewrite Hm, last_snoc. split_and!; try done; [|by eauto].
  apply Forall_app. split; [done|]. repeat constructor; [by apply validate_apply_request_Ok|by eauto].
Qed.

Lemma apply_inv m log results request clock m' r :
  manager_inv m log results → DataplaneSnapshotManager_apply m request clock = (m', r) →
  manager_inv m' (log ++ log_entry (request, clock) r) (results ++ [r]).
Proof.
  intros Hinv. unfold DataplaneSnapshotManager_apply. destruct (current_unix_ms clock) as [at_ms|e] eqn:Ec.
  - intros H. by eapply apply_at_inv.
  - intros [= <- <-]. cbn. rewrite app_nil_r. destruct Hinv as (Ha & Hl & Hv & Hm & Hlc).
    unfold manager_inv. cbn. rewrite metrics_of_snoc, Hm. by split_and!.
Qed.

Lemma apply_all_inv calls : ∀ m log results m' new,
  manager_inv m log results → apply_all m calls = (m', new) →
  manager_inv m' (log ++ applied_log calls new) (results ++ new).
Proof.
  induction calls as [|[request clock] calls IH]; intros m log results m' new Hinv; cbn [apply_all].
  - intros [= <- <-]. by rewrite !app_nil_r.
  - destruct (DataplaneSnapshotManager_apply m request clock) as [m1 r] eqn:E1.
    destruct (apply_all m1 calls) as [m2 rs] eqn:E2. intros [= <- <-].
    pose proof (IH _ _ _ _ _ (apply_inv _ _ _ _ _ _ _ Hinv E1) E2) as H.
    cbn [applied_log]. by rewrite <- !(assoc_L app) in H.
Qed.

(** C15: Whatever requests a manager is given, with whatever clock and hook, the active snapshot
    and the last known good one are both the last snapshot whose application was acknowledged;
    every snapshot that was ever active has a well-formed digest of its own and passed the
    verification of its artifact; a failed or repeated request changes neither; the counters
    count the results by kind; and between calls the lifecycle is never left in [Applying] and
    names the active snapshot or the recorded failure. *)
Theorem snapshot_manager_refines_log (hook : HookState) (calls : list Call) :
  let '(m, results) := apply_all (DataplaneSnapshotManager_with_hook hook) calls in
  let log := applied_log calls results in
  m.(dm_active) = last log ∧ m.(dm_last_known_good) = last log ∧ Forall vetted log ∧
  m.(dm_metrics) = metrics_of results ∧ lifecycle_ok m.
Proof.
  destruct (apply_all _ calls) as [m results] eqn:E.
  apply (apply_all_inv calls _ [] [] m results) in E; [done|].
  unfold manager_inv, lifecycle_ok. by split_and!.
Qed.

(** The hook is asked to activate a snapshot only after the request, the artifact and the
    hook's own validation passed: a request refused before that, or one that repeats the active
    snapshot, leaves the hook as it was, and an acknowledged application means that the hook
    accepted exactly this snapshot. *)
Theorem activation_guarded (m : DataplaneSnapshotManager) (request : SnapshotApplyRequest) (at_ms : N) :
  let '(m', r) := DataplaneSnapshotManager_apply_at m request at_ms in
  let '(h1, validated) := hook_validate m.(dm_hook) request.(ar_snapshot) in
  let '(h2, activated) := hook_activate h1 request.(ar_snapshot) in
  match r with
  | Ok ack => validate_apply_request request = Ok tt ∧
      verify_snapshot_artifact_integrity request.(ar_snapshot) request.(ar_artifact_attestation) = Ok tt ∧
      ack.(ack_active).(su_version) = request.(ar_version) ∧
      ack.(ack_active).(su_digest_sha256) = request.(ar_expected_digest_sha256) ∧
      match ack.(ack_outcome) with
      | Applied => validated = Ok tt ∧ activated = Ok tt ∧ m'.(dm_hook) = h2 ∧ m'.(dm_active) = Some (record_of request at_ms)
      | Unchanged => m'.(dm_hook) = m.(dm_hook) ∧ m'.(dm_active) = m.(dm_active)
      end
  | Err (Activation e) => m'.(dm_active) = m.(dm_active) ∧
      (validated = Err e ∧ m'.(dm_hook) = h1 ∨ validated = Ok tt ∧ activated = Err e ∧ m'.(dm_hook) = h2)
  | Err _ => m'.(dm_hook) = m.(dm_hook) ∧ m'.(dm_active) = m.(dm_active)
  end.
Proof.
  unfold DataplaneSnapshotManager_apply_at.
  destruct (validate_apply_request request) as [[]|e] eqn:Ev;
    [|by destruct (hook_validate _ _) as [h1 v]; destruct (hook_activate _ _)].
  destruct (verify_snapshot_artifact_integrity _ _) as [[]|e] eqn:Ei;
    [|by destruct (hook_validate _ _) as [h1 v]; destruct (hook_activate _ _)].
  assert (Hd : ws_digest_sha256 (ar_snapshot request) = ar_expected_digest_sha256 request).
  { unfold validate_apply_request in Ev. destruct (is_empty _); [done|]. case_decide; [done|].
    destruct (forallb _ _); [|done]. destruct (is_lower_hex_digest (ws_digest_sha256 _)); [|done].
    destruct (is_lower_hex_digest _); [|done]. cbn [negb] in Ev. by case_decide. }
  destruct (repeats_active _ request) as [active|] eqn:Er.
  { unfold repeats_active in Er. cbn [dm_active set_lifecycle] in Er. destruct (dm_active m) as [a|] eqn:Ea; [|done].
    cbn in Er. case_decide as Hsame; [|done]. injection Er as ->. destruct Hsame as [Hv Hdig].
    destruct (hook_validate _ _) as [h1 v]; destruct (hook_activate _ _). cbn. rewrite Ea. by rewrite <- Hd. }
  cbn [dm_hook set_lifecycle]. destruct (hook_validate _ _) as [h1 [[]|e]]; cbn [dm_hook set_hook].
  - destruct (hook_activate _ _) as [h2 [[]|e]]; cbn; [|by auto]. by rewrite <- Hd.
  - destruct (hook_activate _ _). cbn. by auto.
Qed.

(** The version of a request is validated without the white space around it but stored with
    it: a version with a leading space passes whenever the trimmed one does, and is recorded as
    it was sent although no valid version contains a space. *)
Theorem padded_version_recorded (m : DataplaneSnapshotManager) (request : SnapshotApplyRequest) (at_ms : N)
    (version : string) (Hsame : trim version = trim request.(ar_version)) :
  let padded := {| ar_version := version; ar_snapshot := request.(ar_snapshot);
                   ar_artifact_attestation := request.(ar_artifact_attestation);
                   ar_expected_digest_sha256 := request.(ar_expected_digest_sha256);
                   ar_acknowledged_by := request.(ar_acknowledged_by) |} in
  validate_apply_request padded = validate_apply_request request ∧ is_version_byte 32 = false ∧
  ∀ m' ack, DataplaneSnapshotManager_apply_at m padded at_ms = (m', Ok ack) →
    rc_version <$> m'.(dm_active) = Some version.
Proof.
  intros padded. split_and!; [|done|].
  - unfold validate_apply_request, padded. cbn [ar_version ar_snapshot ar_expected_digest_sha256 ar_acknowledged_by].
    by rewrite Hsame.
  - intros m' ack. unfold DataplaneSnapshotManager_apply_at.
    destruct (validate_apply_request padded); [|done]. destruct (verify_snapshot_artifact_integrity _ _); [|done].
    destruct (repeats_active _ padded) as [active|] eqn:Er.
    + unfold repeats_active in Er. cbn [dm_active set_lifecycle] in Er. destruct (dm_active m) as [a|] eqn:Ea; [|done].
      cbn in Er. case_decide as Hv; [|done]. injection Er as ->. intros [= <- _]. cbn. rewrite Ea. cbn.
      by destruct Hv as [-> _].
    + destruct (hook_validate _ _) as [h1 [[]|e]]; [|done]. destruct (hook_activate _ _) as [h2 [[]|e]]; [|done].
      by intros [= <- _].
Qed.
End application.

(** ** A sample request *)

Definition sample_request : @SnapshotApplyRequest sample_contents :=
  {| ar_version := "v1"; ar_snapshot := sample_snapshot; ar_artifact_attestation := Some sample_attestation;
     ar_expected_digest_sha256 := sample_digest; ar_acknowledged_by := None |}.

Definition sample_manager : @DataplaneSnapshotManager sample_contents (@NoopSnapshotActivationHook sample_contents) :=
  @DataplaneSnapshotManager_with_hook sample_contents (@NoopSnapshotActivationHook sample_contents)
    (tt : @HookState sample_contents (@NoopSnapshotActivationHook sample_contents)).

Lemma padded_version_recorded_witness :
  @validate_apply_request sample_contents
    {| ar_version := " v1"; ar_snapshot := sample_snapshot; ar_artifact_attestation := Some sample_attestation;
       ar_expected_digest_sha256 := sample_digest; ar_acknowledged_by := None |} = Ok tt.
Proof.
  destruct (@padded_version_recorded sample_crypto sample_contents (@NoopSnapshotActivationHook sample_contents)
    sample_manager sample_request 5 " v1") as [H _].
  - vm_compute. reflexivity.
  - etransitivity; [exact H|]. vm_compute. reflexivity.
Defined.

Example sample_application :
  let '(m, results) := @apply_all sample_crypto sample_contents (@NoopSnapshotActivationHook sample_contents)
    sample_manager [(sample_request, Ok 5000000); (sample_request, Ok 6000000); (sample_request, Err 1)] in
  m.(dm_metrics) = {| apply_success_count := 1; apply_noop_count := 1; apply_integrity_failure_count := 0;
                      apply_activation_failure_count := 0; apply_internal_failure_count := 1 |} ∧
  rc_applied_at_unix_ms <$> m.(dm_active) = Some 5.
Proof. vm_compute. done. Qed.
