(* ===== verification/EmergencyProtection.v ===== *)
(** * Emergency protection and abuse forensics

    Models [crates/runtime/src/emergency_protection.rs], the protection mode and the record of
    abuse events, with the redaction of [crates/observability/src/diagnostics.rs] that its
    export uses.  The system clock is an argument. *)

From stdpp Require Import countable.
From S2P Require Import Prelude RustStr RustText BodyRelay.
Local Open Scope N_scope.
Local Open Scope rust_scope.

Definition MAX_STORED_EVENTS : nat := 64.
Definition MAX_SWITCH_HISTORY : nat := 32.
Definition MAX_LABELS_PER_EVENT : nat := 8.
Definition MAX_DETAIL_LEN : nat := 256.
Definition MAX_LABEL_KEY_LEN : nat := 32.
Definition MAX_LABEL_VALUE_LEN : nat := 128.

(** ** Modes *)

Inductive EmergencyProtectionMode := Baseline | Elevated | Lockdown.
#[export] Instance EmergencyProtectionMode_eq_dec : EqDecision EmergencyProtectionMode.
Proof. solve_decision. Defined.

Definition EmergencyProtectionMode_fmt (m : EmergencyProtectionMode) : string :=
  match m with Baseline => "baseline" | Elevated => "elevated" | Lockdown => "lockdown" end.

(** The derived order is that of the declarations. *)
Definition mode_rank (m : EmergencyProtectionMode) : N :=
  match m with Baseline => 0 | Elevated => 1 | Lockdown => 2 end.

Inductive SlowClientMitigationLevel := Standard | Tight | Aggressive.

Record EmergencyProtectionProfile := {
  pf_mode : EmergencyProtectionMode; source_quota_required : bool;
  protocol_anomaly_enforcement_required : bool; forensic_capture_enabled : bool;
  slow_client_mitigation : SlowClientMitigationLevel
}.

Definition EmergencyProtectionProfile_for_mode (mode : EmergencyProtectionMode) : EmergencyProtectionProfile :=
  {| pf_mode := mode; source_quota_required := true; protocol_anomaly_enforcement_required := true;
     forensic_capture_enabled := true;
     slow_client_mitigation := match mode with Baseline => Standard | Elevated => Tight | Lockdown => Aggressive end |}.

(** ** Events *)

Inductive AbuseEventCategory :=
| SourceQuota
| HandshakeGuard
| ProtocolAnomaly (category : ProtocolAnomalyCategory)
| SlowClient (stage : SlowClientStage).

Definition AbuseEventCategory_fmt (c : AbuseEventCategory) : string :=
  match c with
  | SourceQuota => "source-quota"
  | HandshakeGuard => "handshake-guard"
  | ProtocolAnomaly category => "protocol-anomaly:" +:+ ProtocolAnomalyCategory_fmt category
  | SlowClient stage => "slow-client:" +:+ SlowClientStage_fmt stage
  end.

(** The categories in the derived order, which is the order of the map of counts. *)
Definition categories : list AbuseEventCategory :=
  [SourceQuota; HandshakeGuard; ProtocolAnomaly MalformedPreface; ProtocolAnomaly MalformedMessage;
   ProtocolAnomaly AmbiguousFraming; ProtocolAnomaly HeadSizeLimitExceeded;
   ProtocolAnomaly HeaderCountLimitExceeded; ProtocolAnomaly BodySizeLimitExceeded;
   ProtocolAnomaly StreamConcurrencyLimitExceeded; SlowClient RequestHead; SlowClient RequestBody].

#[export] Instance AbuseEventCategory_eq_dec : EqDecision AbuseEventCategory.
Proof. intros [| |[]|[]] [| |[]|[]]; first [by left | by right]. Defined.

Definition category_index (c : AbuseEventCategory) : nat :=
  match c with
  | SourceQuota => 0 | HandshakeGuard => 1
  | ProtocolAnomaly MalformedPreface => 2 | ProtocolAnomaly MalformedMessage => 3
  | ProtocolAnomaly AmbiguousFraming => 4 | ProtocolAnomaly HeadSizeLimitExceeded => 5
  | ProtocolAnomaly HeaderCountLimitExceeded => 6 | ProtocolAnomaly BodySizeLimitExceeded => 7
  | ProtocolAnomaly StreamConcurrencyLimitExceeded => 8
  | SlowClient RequestHead => 9 | SlowClient RequestBody => 10
  end.

#[export] Instance AbuseEventCategory_countable : Countable AbuseEventCategory.
Proof. apply (inj_countable category_index (λ i, categories !! i)). by intros [| |[]|[]]. Defined.

Record AbuseEventLabel := { lb_key : string; lb_value : string }.

Record AbuseEventRecord := {
  er_category : AbuseEventCategory; er_detail : string; er_labels : list AbuseEventLabel;
  er_observed_at_unix_ms : N
}.

Record AbuseEventInput := {
  ei_category : AbuseEventCategory; ei_detail : string; ei_labels : list AbuseEventLabel
}.

Record EmergencyModeSwitchRequest := { target_mode : EmergencyProtectionMode; sw_allow_relaxation : bool }.

Inductive EmergencyModeSwitchResult := Switch_Applied | Switch_Unchanged.

Record EmergencyModeSwitchRecord := {
  sr_previous_mode : EmergencyProtectionMode; sr_active_mode : EmergencyProtectionMode;
  sr_result : EmergencyModeSwitchResult; sr_allow_relaxation : bool; sr_occurred_at_unix_ms : N;
  sr_detail : string
}.

Record EmergencyModeSwitchResponse := {
  sp_previous_mode : EmergencyProtectionMode; sp_active_mode : EmergencyProtectionMode;
  sp_result : EmergencyModeSwitchResult; sp_active_profile : EmergencyProtectionProfile;
  sp_occurred_at_unix_ms : N
}.

Record AbuseForensicsMetrics := {
  successful_mode_switch_count : N; rejected_mode_switch_count : N;
  forensic_export_success_count : N; forensic_export_failure_count : N
}.

Record EmergencyProtectionSnapshot := {
  es_active_mode : EmergencyProtectionMode; es_active_profile : EmergencyProtectionProfile;
  es_abuse_event_counts : gmap AbuseEventCategory N; es_recent_event_count : N;
  es_switch_history_size : N; es_metrics : AbuseForensicsMetrics
}.

Record AbuseForensicsExport := {
  ex_active_mode : EmergencyProtectionMode; ex_content : string; ex_redaction_hit_count : N;
  ex_truncated : bool; ex_included_event_count : N
}.

Inductive AbuseForensicsError := InvalidArtifactLimit | Forensics_TimeUnavailable.

Definition AbuseForensicsError_fmt (e : AbuseForensicsError) : string :=
  match e with
  | InvalidArtifactLimit => "forensic artifact byte limit must be greater than zero"
  | Forensics_TimeUnavailable => "failed to read system time"
  end.

Inductive EmergencyModeSwitchError :=
| RelaxationRequiresExplicitOverride (current_mode target_mode : EmergencyProtectionMode)
| Switch_TimeUnavailable.

Definition EmergencyModeSwitchError_fmt (e : EmergencyModeSwitchError) : string :=
  match e with
  | RelaxationRequiresExplicitOverride current_mode target_mode =>
      "switching from " +:+ EmergencyProtectionMode_fmt current_mode +:+ " to " +:+
      EmergencyProtectionMode_fmt target_mode +:+ " requires explicit relaxation approval"
  | Switch_TimeUnavailable => "failed to read system time"
  end.

(** ** Text *)

Definition truncate_chars (input : string) (max_chars : nat) : string :=
  if decide (length (chars input) ≤ max_chars)%nat then input else of_chars (take max_chars (chars input)).

Definition SUFFIX : string := of_bytes (10 :: bytes "[TRUNCATED]").

(** [while input.len() > target_len { input.pop() }] on the characters, last one first. *)
Fixpoint pop_loop (target_len : nat) (reversed : list N) : list N :=
  match reversed with
  | [] => []
  | _ :: rest =>
      if decide (target_len < length (encode_utf8 (reverse reversed)))%nat then pop_loop target_len rest
      else reversed
  end.

Definition truncate_text_bytes (input : string) (max_bytes : nat) : string * bool :=
  if decide (length (bytes input) ≤ max_bytes)%nat then (input, false)
  else if decide (max_bytes ≤ length (bytes SUFFIX))%nat
  then (of_bytes (take max_bytes (bytes SUFFIX)), true)
  else
    let target_len := (max_bytes - length (bytes SUFFIX))%nat in
    (of_chars (reverse (pop_loop target_len (reverse (chars input)))) +:+ SUFFIX, true).

Definition REDACTED_VALUE : string := "[REDACTED]".
Definition SECRET_MARKERS : list string :=
  ["authorization"; "password"; "secret"; "token"; "api_key"; "apikey"; "cookie"; "set-cookie"].

Definition has_marker (input : string) : bool :=
  let lowered := to_ascii_lowercase input in
  existsb (λ marker, bool_decide (is_Some (find_sub (bytes marker) (bytes lowered)))) SECRET_MARKERS.

Definition RedactionEngine_redact_text (input : string) : string * bool :=
  if has_marker input then (REDACTED_VALUE, true) else (input, false).

Record DiagnosticsLimits := {
  max_metrics_bytes : nat; max_log_records : nat; max_event_records : nat; max_artifact_bytes : nat
}.

(** ** The controller *)

Record EmergencyProtectionController := {
  ec_active_mode : EmergencyProtectionMode; abuse_event_counts : gmap AbuseEventCategory N;
  recent_events : list AbuseEventRecord; switch_history : list EmergencyModeSwitchRecord;
  ec_metrics : AbuseForensicsMetrics
}.

Definition EmergencyProtectionController_new : EmergencyProtectionController :=
  {| ec_active_mode := Baseline; abuse_event_counts := ∅; recent_events := []; switch_history := [];
     ec_metrics := {| successful_mode_switch_count := 0; rejected_mode_switch_count := 0;
                      forensic_export_success_count := 0; forensic_export_failure_count := 0 |} |}.

Definition EmergencyProtectionController_active_profile (c : EmergencyProtectionController) :
    EmergencyProtectionProfile := EmergencyProtectionProfile_for_mode c.(ec_active_mode).

(** [as u64] keeps the low 64 bits. *)
Definition emergency_unix_ms (clock : Result Duration Duration) : Result N Duration :=
  let? duration := clock in Ok (as_millis duration mod (u64_max + 1)).

Definition switch_detail (previous_mode active_mode : EmergencyProtectionMode) (result : EmergencyModeSwitchResult) :
    string :=
  match result with
  | Switch_Applied =>
      "emergency protection mode changed from " +:+ EmergencyProtectionMode_fmt previous_mode +:+ " to " +:+
      EmergencyProtectionMode_fmt active_mode
  | Switch_Unchanged => "emergency protection mode remained at " +:+ EmergencyProtectionMode_fmt active_mode
  end.

Definition push_abuse_event (events : list AbuseEventRecord) (event : AbuseEventRecord) : list AbuseEventRecord :=
  push_bounded MAX_STORED_EVENTS events event.

Definition push_switch_history (history : list EmergencyModeSwitchRecord) (entry : EmergencyModeSwitchRecord) :
    list EmergencyModeSwitchRecord := push_bounded MAX_SWITCH_HISTORY history entry.

Definition count_switch (x : AbuseForensicsMetrics) (accepted : bool) : AbuseForensicsMetrics :=
  let add (b : bool) n := if b then saturating_add u64_max n 1 else n in
  {| successful_mode_switch_count := add accepted x.(successful_mode_switch_count);
     rejected_mode_switch_count := add (negb accepted) x.(rejected_mode_switch_count);
     forensic_export_success_count := x.(forensic_export_success_count);
     forensic_export_failure_count := x.(forensic_export_failure_count) |}.

Definition count_export (x : AbuseForensicsMetrics) (success : bool) : AbuseForensicsMetrics :=
  let add (b : bool) n := if b then saturating_add u64_max n 1 else n in
  {| successful_mode_switch_count := x.(successful_mode_switch_count);
     rejected_mode_switch_count := x.(rejected_mode_switch_count);
     forensic_export_success_count := add success x.(forensic_export_success_count);
     forensic_export_failure_count := add (negb success) x.(forensic_export_failure_count) |}.

Definition EmergencyProtectionController_switch_mode_at (c : EmergencyProtectionController)
    (request : EmergencyModeSwitchRequest) (occurred_at_unix_ms : N) :
    EmergencyProtectionController * Result EmergencyModeSwitchResponse EmergencyModeSwitchError :=
  let previous_mode := c.(ec_active_mode) in
  let target := request.(target_mode) in
  if bool_decide (mode_rank target < mode_rank previous_mode) && negb request.(sw_allow_relaxation) then
    ({| ec_active_mode := previous_mode; abuse_event_counts := c.(abuse_event_counts);
        recent_events := c.(recent_events); switch_history := c.(switch_history);
        ec_metrics := count_switch c.(ec_metrics) false |},
     Err (RelaxationRequiresExplicitOverride previous_mode target))
  else
    let '(result, metrics) :=
      if decide (target = previous_mode) then (Switch_Unchanged, c.(ec_metrics))
      else (Switch_Applied, count_switch c.(ec_metrics) true) in
    let entry := {| sr_previous_mode := previous_mode; sr_active_mode := target; sr_result := result;
                    sr_allow_relaxation := request.(sw_allow_relaxation);
                    sr_occurred_at_unix_ms := occurred_at_unix_ms;
                    sr_detail := switch_detail previous_mode target result |} in
    ({| ec_active_mode := target; abuse_event_counts := c.(abuse_event_counts);
        recent_events := c.(recent_events); switch_history := push_switch_history c.(switch_history) entry;
        ec_metrics := metrics |},
     Ok {| sp_previous_mode := previous_mode; sp_active_mode := target; sp_result := result;
           sp_active_profile := EmergencyProtectionProfile_for_mode target;
           sp_occurred_at_unix_ms := occurred_at_unix_ms |}).

Definition EmergencyProtectionController_switch_mode (c : EmergencyProtectionController)
    (request : EmergencyModeSwitchRequest) (clock : Result Duration Duration) :
    EmergencyProtectionController * Result EmergencyModeSwitchResponse EmergencyModeSwitchError :=
  match emergency_unix_ms clock with
  | Err _ => (c, Err Switch_TimeUnavailable)
  | Ok at_ms => EmergencyProtectionController_switch_mode_at c request at_ms
  end.

Definition bounded_record (input : AbuseEventInput) (observed_at_unix_ms : N) : AbuseEventRecord :=
  {| er_category := input.(ei_category); er_detail := truncate_chars input.(ei_detail) MAX_DETAIL_LEN;
     er_labels := (λ label, {| lb_key := truncate_chars label.(lb_key) MAX_LABEL_KEY_LEN;
                               lb_value := truncate_chars label.(lb_value) MAX_LABEL_VALUE_LEN |}) <$>
                  take MAX_LABELS_PER_EVENT input.(ei_labels);
     er_observed_at_unix_ms := observed_at_unix_ms |}.

Definition EmergencyProtectionController_record_abuse_event_at (c : EmergencyProtectionController)
    (input : AbuseEventInput) (observed_at_unix_ms : N) : EmergencyProtectionController :=
  let count := default 0 (c.(abuse_event_counts) !! input.(ei_category)) in
  {| ec_active_mode := c.(ec_active_mode);
     abuse_event_counts := <[input.(ei_category) := wrapping_add64 count 1]> c.(abuse_event_counts);
     recent_events := push_abuse_event c.(recent_events) (bounded_record input observed_at_unix_ms);
     switch_history := c.(switch_history); ec_metrics := c.(ec_metrics) |}.

Definition EmergencyProtectionController_record_abuse_event (c : EmergencyProtectionController)
    (input : AbuseEventInput) (clock : Result Duration Duration) :
    EmergencyProtectionController * Result unit AbuseForensicsError :=
  match emergency_unix_ms clock with
  | Err _ => (c, Err Forensics_TimeUnavailable)
  | Ok at_ms => (EmergencyProtectionController_record_abuse_event_at c input at_ms, Ok tt)
  end.

Definition EmergencyProtectionController_snapshot (c : EmergencyProtectionController) : EmergencyProtectionSnapshot :=
  {| es_active_mode := c.(ec_active_mode); es_active_profile := EmergencyProtectionController_active_profile c;
     es_abuse_event_counts := c.(abuse_event_counts); es_recent_event_count := N.of_nat (length c.(recent_events));
     es_switch_history_size := N.of_nat (length c.(switch_history)); es_metrics := c.(ec_metrics) |}.

(** ** Export *)

Definition newline : string := of_bytes [10].

Definition concat_lines (l : list string) : string := foldr (λ line rest, line +:+ newline +:+ rest) EmptyString l.

(** The entries of the map in its order. *)
Definition counts_in_order (counts : gmap AbuseEventCategory N) : list (AbuseEventCategory * N) :=
  omap (λ category, (λ count, (category, count)) <$> counts !! category) categories.

Definition count_line (entry : AbuseEventCategory * N) : string :=
  "- " +:+ AbuseEventCategory_fmt entry.1 +:+ ": " +:+ pretty entry.2.

Definition switch_line (s : EmergencyModeSwitchRecord) : string :=
  "- " +:+ EmergencyProtectionMode_fmt s.(sr_previous_mode) +:+ " -> " +:+
  EmergencyProtectionMode_fmt s.(sr_active_mode) +:+ " result=" +:+
  match s.(sr_result) with Switch_Applied => "applied" | Switch_Unchanged => "unchanged" end +:+
  " at=" +:+ pretty s.(sr_occurred_at_unix_ms).

Definition label_text (label : AbuseEventLabel) : string :=
  label.(lb_key) +:+ "=" +:+ (RedactionEngine_redact_text label.(lb_value)).1.

Definition event_head (event : AbuseEventRecord) : string :=
  "- at=" +:+ pretty event.(er_observed_at_unix_ms) +:+ " category=" +:+
  AbuseEventCategory_fmt event.(er_category) +:+ " detail=" +:+
  (RedactionEngine_redact_text event.(er_detail)).1 +:+ " labels=[".

Definition event_line (event : AbuseEventRecord) : string :=
  event_head event +:+ join ", " (label_text <$> event.(er_labels)) +:+ "]".

(** The texts of an event that the redactor replaces. *)
Definition event_hits (event : AbuseEventRecord) : N :=
  N.of_nat (length (List.filter has_marker (event.(er_detail) :: (lb_value <$> event.(er_labels))))).

Definition exported_events (c : EmergencyProtectionController) (limits : DiagnosticsLimits) : list AbuseEventRecord :=
  take limits.(max_event_records) (reverse c.(recent_events)).

Definition export_lines (c : EmergencyProtectionController) (limits : DiagnosticsLimits) : list string :=
  ["active_mode=" +:+ EmergencyProtectionMode_fmt c.(ec_active_mode);
   "recent_events=" +:+ pretty (N.of_nat (length c.(recent_events)));
   "abuse_event_counts:"] ++ (count_line <$> counts_in_order c.(abuse_event_counts)) ++
  ["recent_switches:"] ++ (switch_line <$> c.(switch_history)) ++
  ["recent_abuse_events:"] ++ (event_line <$> exported_events c limits).

Definition export_content (c : EmergencyProtectionController) (limits : DiagnosticsLimits) : string :=
  concat_lines (export_lines c limits).

Definition EmergencyProtectionController_export_forensics (c : EmergencyProtectionController)
    (limits : DiagnosticsLimits) : EmergencyProtectionController * Result AbuseForensicsExport AbuseForensicsError :=
  let counted success :=
    {| ec_active_mode := c.(ec_active_mode); abuse_event_counts := c.(abuse_event_counts);
       recent_events := c.(recent_events); switch_history := c.(switch_history);
       ec_metrics := count_export c.(ec_metrics) success |} in
  if decide (limits.(max_artifact_bytes) = 0%nat) then (counted false, Err InvalidArtifactLimit)
  else
    let truncated := bool_decide (limits.(max_event_records) < length c.(recent_events))%nat in
    let '(content, artifact_truncated) :=
      truncate_text_bytes (export_content c limits) limits.(max_artifact_bytes) in
    (counted true,
     Ok {| ex_active_mode := c.(ec_active_mode); ex_content := content;
           ex_redaction_hit_count := foldr (λ event n, event_hits event + n) 0 (exported_events c limits);
           ex_truncated := artifact_truncated || truncated;
           ex_included_event_count := N.of_nat (length c.(recent_events) `min` limits.(max_event_records)) |}).

(** ** Bounded logs *)

Lemma tail_drop {A} n (l : list A) : tail (drop n l) = drop (S n) l.
Proof. revert n. induction l as [|x l IH]; intros [|n]; try done. apply IH. Qed.

(** A bounded queue holds the last entries that were pushed. *)
Lemma push_bounded_suffix {A} (cap : nat) (l : list A) (x : A) :
  (0 < cap)%nat →
  push_bounded cap (drop (length l - cap) l) x = drop (length (l ++ [x]) - cap) (l ++ [x]).
Proof.
  intros Hcap. unfold push_bounded. rewrite length_drop, length_app. cbn [length].
  destruct (decide (length l < cap)%nat) as [Hlt|Hge].
  - rewrite decide_False by lia. replace (length l - cap)%nat with 0%nat by lia.
    replace (length l + 1 - cap)%nat with 0%nat by lia. done.
  - rewrite decide_True by lia. rewrite drop_app_le by lia. f_equal.
    replace (length l + 1 - cap)%nat with (S (length l - cap)) by lia.
    by rewrite <- tail_drop.
Qed.

Inductive ControllerOperation :=
| Op_switch (request : EmergencyModeSwitchRequest) (clock : Result Duration Duration)
| Op_record (input : AbuseEventInput) (clock : Result Duration Duration)
| Op_export (limits : DiagnosticsLimits).

Definition controller_step (c : EmergencyProtectionController) (op : ControllerOperation) : EmergencyProtectionController :=
  match op with
  | Op_switch request clock => (EmergencyProtectionController_switch_mode c request clock).1
  | Op_record input clock => (EmergencyProtectionController_record_abuse_event c input clock).1
  | Op_export limits => (EmergencyProtectionController_export_forensics c limits).1
  end.

Definition controller_run (ops : list ControllerOperation) : EmergencyProtectionController :=
  foldl controller_step EmergencyProtectionController_new ops.

(** The events recorded by an operation. *)
Definition recorded (op : ControllerOperation) : list AbuseEventRecord :=
  match op with
  | Op_record input clock =>
      match emergency_unix_ms clock with Ok at_ms => [bounded_record input at_ms] | Err _ => [] end
  | _ => []
  end.

Definition recorded_all (ops : list ControllerOperation) : list AbuseEventRecord := flat_map recorded ops.

Definition occurrences (category : AbuseEventCategory) (events : list AbuseEventRecord) : N :=
  N.of_nat (length (filter (λ e, e.(er_category) = category) events)).

Definition controller_inv (c : EmergencyProtectionController) (events : list AbuseEventRecord) : Prop :=
  c.(recent_events) = drop (length events - MAX_STORED_EVENTS) events ∧
  (∀ category, default 0 (c.(abuse_event_counts) !! category) = occurrences category events mod (u64_max + 1)) ∧
  (length c.(switch_history) ≤ MAX_SWITCH_HISTORY)%nat ∧
  match last c.(switch_history) with
  | Some entry => entry.(sr_active_mode) = c.(ec_active_mode)
  | None => c.(ec_active_mode) = Baseline
  end.

Lemma occurrences_snoc category events e :
  occurrences category (events ++ [e]) =
    occurrences category events + (if decide (e.(er_category) = category) then 1 else 0).
Proof.
  unfold occurrences. rewrite filter_app, length_app, filter_cons, filter_nil.
  case_decide; simpl; lia.
Qed.

Lemma controller_step_inv c events op :
  controller_inv c events → controller_inv (controller_step c op) (events ++ recorded op).
Proof.
  intros (Hrec & Hcnt & Hlen & Hlast). destruct op as [request clock|input clock|limits]; cbn [controller_step recorded].
  - rewrite app_nil_r. unfold EmergencyProtectionController_switch_mode.
    destruct (emergency_unix_ms clock) as [at_ms|]; [|by split_and!].
    unfold EmergencyProtectionController_switch_mode_at. destruct (_ && _); [by split_and!|].
    destruct (if decide _ then _ else _) as [result metrics]. unfold controller_inv. cbn [fst recent_events
      abuse_event_counts switch_history ec_active_mode]. split_and!; [done|done| |].
    + apply length_push_bounded; [unfold MAX_SWITCH_HISTORY; lia|done].
    + unfold push_switch_history, push_bounded. by rewrite last_snoc.
  - unfold EmergencyProtectionController_record_abuse_event.
    destruct (emergency_unix_ms clock) as [at_ms|]; [|by rewrite app_nil_r; split_and!].
    unfold controller_inv, EmergencyProtectionController_record_abuse_event_at. cbn [fst recent_events
      abuse_event_counts switch_history ec_active_mode]. split_and!; [| |done|done].
    + rewrite Hrec. apply push_bounded_suffix. unfold MAX_STORED_EVENTS. lia.
    + intros category. rewrite occurrences_snoc. cbn [er_category bounded_record].
      destruct (decide (ei_category input = category)) as [<-|Hne].
      * rewrite lookup_insert_eq. cbn [default]. unfold wrapping_add64. rewrite Hcnt. by rewrite N.Div0.add_mod_idemp_l.
      * rewrite lookup_insert_ne by done. by rewrite N.add_0_r.
  - rewrite app_nil_r. unfold EmergencyProtectionController_export_forensics.
    case_decide; [by split_and!|]. destruct (truncate_text_bytes _ _). by split_and!.
Qed.

Lemma truncate_chars_bound s n : unicode s → (length (chars (truncate_chars s n)) ≤ n)%nat.
Proof.
  intros Hs. unfold truncate_chars. case_decide; [done|].
  rewrite chars_of_chars by by apply Forall_take. rewrite length_take. lia.
Qed.

(** Whatever the controller is asked, its recent events are exactly the last 64 recorded
    ones, its counts are the numbers of recorded events per category (modulo 2^64), its switch
    history has at most 32 entries and ends in the active mode, and the texts of a recorded
    event are within their limits. *)
Theorem emergency_controller_refines_log (ops : list ControllerOperation) :
  let c := controller_run ops in
  let events := recorded_all ops in
  c.(recent_events) = drop (length events - 64) events ∧
  (∀ category, default 0 (c.(abuse_event_counts) !! category) = occurrences category events mod 2 ^ 64) ∧
  (length c.(switch_history) ≤ 32)%nat ∧
  match last c.(switch_history) with
  | Some entry => entry.(sr_active_mode) = c.(ec_active_mode)
  | None => c.(ec_active_mode) = Baseline
  end ∧
  (∀ input at_ms, unicode input.(ei_detail) →
    (length (chars (bounded_record input at_ms).(er_detail)) ≤ 256)%nat ∧
    (length (bounded_record input at_ms).(er_labels) ≤ 8)%nat).
Proof.
  assert (H : ∀ ops c events, controller_inv c events →
    controller_inv (foldl controller_step c ops) (events ++ recorded_all ops)).
  { clear. induction ops as [|op ops IH]; intros c events Hinv; cbn [foldl recorded_all flat_map].
    - by rewrite app_nil_r.
    - rewrite (assoc_L app). by apply IH, controller_step_inv. }
  assert (Hnew : controller_inv EmergencyProtectionController_new []).
  { unfold controller_inv. split_and!; [done| |simpl; lia|done]. intros category.
    unfold EmergencyProtectionController_new. cbn [abuse_event_counts]. by rewrite lookup_empty. }
  destruct (H ops _ _ Hnew) as (H1 & H2 & H3 & H4). cbv zeta. split_and!; [exact H1|exact H2|exact H3|exact H4|].
  intros input at_ms Hu. split; [by apply (truncate_chars_bound _ 256)|].
  unfold bounded_record. cbn [er_labels]. rewrite length_fmap, length_take. unfold MAX_LABELS_PER_EVENT. lia.
Qed.

(** Without permission to relax, the protection mode only rises: after any requests that do
    not allow relaxation the mode is the strictest of the initial one and the requested ones,
    and a request is refused exactly when it asks for a laxer mode than the active one. *)
Theorem protection_only_rises (c : EmergencyProtectionController) (requests : list (EmergencyModeSwitchRequest * N))
    (Hstrict : Forall (λ r, r.1.(sw_allow_relaxation) = false) requests) :
  mode_rank (foldl (λ c r, (EmergencyProtectionController_switch_mode_at c r.1 r.2).1) c requests).(ec_active_mode) =
    foldl (λ rank r, N.max rank (mode_rank r.1.(target_mode))) (mode_rank c.(ec_active_mode)) requests ∧
  (∀ request at_ms, request.(sw_allow_relaxation) = false →
    (∃ e, (EmergencyProtectionController_switch_mode_at c request at_ms).2 = Err e) ↔
    mode_rank request.(target_mode) < mode_rank c.(ec_active_mode)).
Proof.
  split.
  - revert c. induction Hstrict as [|[request at_ms] requests Hr _ IH]; intros c; [done|]. cbn [foldl fst snd] in *.
    rewrite IH. f_equal. unfold EmergencyProtectionController_switch_mode_at. rewrite Hr, andb_true_r.
    case_bool_decide; cbn [fst ec_active_mode]; [lia|].
    destruct (if decide _ then _ else _). cbn [fst ec_active_mode]. lia.
  - intros request at_ms Hr. unfold EmergencyProtectionController_switch_mode_at. rewrite Hr, andb_true_r.
    case_bool_decide as Hlt; [by split; eauto|]. destruct (if decide _ then _ else _). cbn [snd].
    split; [by intros []|done].
Qed.

Lemma protection_only_rises_witness :
  mode_rank (foldl (λ c r, (EmergencyProtectionController_switch_mode_at c r.1 r.2).1) EmergencyProtectionController_new
    [({| target_mode := Lockdown; sw_allow_relaxation := false |}, 1);
     ({| target_mode := Elevated; sw_allow_relaxation := false |}, 2)]).(ec_active_mode) = 2.
Proof.
  destruct (protection_only_rises EmergencyProtectionController_new
    [({| target_mode := Lockdown; sw_allow_relaxation := false |}, 1);
     ({| target_mode := Elevated; sw_allow_relaxation := false |}, 2)]) as [H _].
  - repeat constructor.
  - rewrite H. reflexivity.
Defined.

(** ** The export *)

Lemma length_bytes_of_bytes l : length (bytes (of_bytes l)) = length l.
Proof.
  unfold bytes, of_bytes. rewrite String.list_ascii_of_string_of_list_ascii. by rewrite !length_fmap.
Qed.

Lemma pop_loop_bound target reversed :
  (length (encode_utf8 (reverse (pop_loop target reversed))) ≤ target)%nat.
Proof.
  induction reversed as [|c rest IH]; [simpl; lia|]. cbn [pop_loop]. case_decide; [exact IH|lia].
Qed.

Lemma truncate_text_bound input max_bytes :
  (length (bytes (truncate_text_bytes input max_bytes).1) ≤ max_bytes)%nat.
Proof.
  unfold truncate_text_bytes. case_decide; [done|]. case_decide; cbn [fst].
  - rewrite length_bytes_of_bytes, length_take. lia.
  - rewrite bytes_app, length_app. unfold of_chars at 1. rewrite length_bytes_of_bytes.
    pose proof (pop_loop_bound (max_bytes - length (bytes SUFFIX)) (reverse (chars input))). lia.
Qed.

Lemma truncate_text_flag input max_bytes :
  (truncate_text_bytes input max_bytes).2 = bool_decide (max_bytes < length (bytes input))%nat ∧
  ((truncate_text_bytes input max_bytes).2 = false → (truncate_text_bytes input max_bytes).1 = input).
Proof. unfold truncate_text_bytes. repeat case_decide; case_bool_decide; try done; lia. Qed.

(** An event in which every text the redactor recognises is already replaced. *)
Definition scrub_text (s : string) : string := (RedactionEngine_redact_text s).1.

Definition scrub (e : AbuseEventRecord) : AbuseEventRecord :=
  {| er_category := e.(er_category); er_detail := scrub_text e.(er_detail);
     er_labels := (λ label, {| lb_key := label.(lb_key); lb_value := scrub_text label.(lb_value) |}) <$> e.(er_labels);
     er_observed_at_unix_ms := e.(er_observed_at_unix_ms) |}.

Definition scrub_controller (c : EmergencyProtectionController) : EmergencyProtectionController :=
  {| ec_active_mode := c.(ec_active_mode); abuse_event_counts := c.(abuse_event_counts);
     recent_events := scrub <$> c.(recent_events); switch_history := c.(switch_history);
     ec_metrics := c.(ec_metrics) |}.

Lemma scrub_text_clean s : has_marker (scrub_text s) = false.
Proof.
  unfold scrub_text, RedactionEngine_redact_text. destruct (has_marker s) eqn:E; [|done]. vm_compute. reflexivity.
Qed.

Lemma scrub_text_idemp s : scrub_text (scrub_text s) = scrub_text s.
Proof. unfold scrub_text at 1, RedactionEngine_redact_text at 1. by rewrite scrub_text_clean. Qed.

Lemma label_text_scrub (labels : list AbuseEventLabel) :
  label_text <$> ((λ label, {| lb_key := label.(lb_key); lb_value := scrub_text label.(lb_value) |}) <$> labels) =
  label_text <$> labels.
Proof.
  rewrite <- list_fmap_compose. apply list_fmap_ext. intros _ label _. cbn [compose].
  unfold label_text. cbn [lb_key lb_value]. fold (scrub_text (scrub_text (lb_value label))).
  by rewrite scrub_text_idemp.
Qed.

Lemma event_line_scrub e : event_line (scrub e) = event_line e.
Proof.
  unfold event_line, event_head, scrub. cbn [er_category er_detail er_labels er_observed_at_unix_ms].
  fold (scrub_text (scrub_text (er_detail e))). by rewrite scrub_text_idemp, label_text_scrub.
Qed.

Lemma export_content_scrub c limits : export_content (scrub_controller c) limits = export_content c limits.
Proof.
  unfold export_content, export_lines, exported_events, scrub_controller. cbn [ec_active_mode abuse_event_counts recent_events switch_history].
  rewrite length_fmap, <- fmap_reverse, <- fmap_take.
  assert (Hlines : ∀ l : list AbuseEventRecord, event_line <$> (scrub <$> l) = event_line <$> l).
  { intros l. rewrite <- list_fmap_compose. apply list_fmap_ext. intros _ e _. apply event_line_scrub. }
  by rewrite Hlines.
Qed.

(** A forensic export fails exactly for a zero byte limit; otherwise its content is within
    the byte limit, it reports truncation exactly when events or bytes were left out, and it is
    the same as for events in which every detail and label value with a secret marker is
    replaced by the redaction text, so it reveals nothing of them. *)
Theorem forensic_export_bounded_redacted (c : EmergencyProtectionController) (limits : DiagnosticsLimits) :
  let '(c', result) := EmergencyProtectionController_export_forensics c limits in
  c'.(recent_events) = c.(recent_events) ∧ c'.(ec_active_mode) = c.(ec_active_mode) ∧
  match result with
  | Err e => e = InvalidArtifactLimit ∧ limits.(max_artifact_bytes) = 0%nat
  | Ok export =>
      limits.(max_artifact_bytes) ≠ 0%nat ∧
      (length (bytes export.(ex_content)) ≤ limits.(max_artifact_bytes))%nat ∧
      (export.(ex_truncated) = true ↔
        (limits.(max_event_records) < length c.(recent_events))%nat ∨
        (limits.(max_artifact_bytes) < length (bytes (export_content c limits)))%nat) ∧
      (export.(ex_truncated) = false → export.(ex_content) = export_content c limits) ∧
      (∀ c0, scrub_controller c0 = scrub_controller c →
        ∀ export0, (EmergencyProtectionController_export_forensics c0 limits).2 = Ok export0 →
        export0.(ex_content) = export.(ex_content))
  end.
Proof.
  unfold EmergencyProtectionController_export_forensics at 1. case_decide as Hz; [done|].
  destruct (truncate_text_bytes (export_content c limits) (max_artifact_bytes limits)) as [content cut] eqn:E.
  pose proof (truncate_text_bound (export_content c limits) (max_artifact_bytes limits)) as Hb.
  destruct (truncate_text_flag (export_content c limits) (max_artifact_bytes limits)) as [Hf Hid].
  rewrite E in Hb, Hf, Hid. cbn [fst snd] in Hb, Hf, Hid.
  cbn [recent_events ec_active_mode ex_content ex_truncated]. split_and!; [done|done|done|done| | |].
  - rewrite orb_true_iff, Hf, !bool_decide_eq_true. tauto.
  - intros [H _]%orb_false_iff. by apply Hid.
  - intros c0 Hc0 export0. unfold EmergencyProtectionController_export_forensics. rewrite decide_False by done.
    assert (Hsame : export_content c0 limits = export_content c limits)
      by by rewrite <- export_content_scrub, Hc0, export_content_scrub.
    rewrite Hsame, E. by intros [= <-].
Qed.

Lemma string_app_assoc (a b c : string) : (a +:+ b) +:+ c = a +:+ (b +:+ c).
Proof. apply bytes_inj. by rewrite !bytes_app, (assoc_L app). Qed.

Lemma join_head sep x l : ∃ t, join sep (x :: l) = x +:+ t.
Proof.
  destruct l as [|y l].
  - exists EmptyString. cbn [join]. apply bytes_inj. by rewrite bytes_app, app_nil_r.
  - by eexists.
Qed.

(** The redactor looks for its markers in the value of a label alone: a value that is
    secret because of the key it stands under is exported as it is. *)
Theorem secret_label_exported (c : EmergencyProtectionController) (limits : DiagnosticsLimits)
    (event : AbuseEventRecord) (label : AbuseEventLabel) (rest : list AbuseEventLabel)
    (Hevent : event ∈ exported_events c limits) (Hlabel : event.(er_labels) = label :: rest)
    (Hkey : has_marker label.(lb_key) = true) (Hvalue : has_marker label.(lb_value) = false) :
  ∃ before after, export_content c limits = before +:+ (label.(lb_key) +:+ "=" +:+ label.(lb_value)) +:+ after.
Proof.
  assert (Hsub : ∀ (l : list string) x, x ∈ l → ∃ a b, concat_lines l = a +:+ x +:+ b).
  { clear. intros l x. induction 1 as [x l|x y l _ (a & b & IH)]; cbn [concat_lines foldr].
    - by eexists EmptyString, _.
    - change (foldr _ EmptyString l) with (concat_lines l). rewrite IH.
      exists (y +:+ newline +:+ a), b. by rewrite !string_app_assoc. }
  destruct (Hsub (export_lines c limits) (event_line event)) as (a & b & E).
  { unfold export_lines. rewrite !elem_of_app. do 5 right. by apply list_elem_of_fmap_2. }
  assert (Hline : ∃ p q, event_line event = p +:+ label_text label +:+ q).
  { destruct (join_head ", " (label_text label) (label_text <$> rest)) as [t Ht].
    exists (event_head event), (t +:+ "]"). unfold event_line. rewrite Hlabel, fmap_cons, Ht.
    by rewrite string_app_assoc. }
  destruct Hline as (p & q & Hline). exists (a +:+ p), (q +:+ b).
  unfold export_content. rewrite E, Hline. unfold label_text, RedactionEngine_redact_text. rewrite Hvalue.
  cbn [fst]. by rewrite !string_app_assoc.
Qed.

Definition sample_event : AbuseEventRecord :=
  {| er_category := SourceQuota; er_detail := "login"; er_labels := [{| lb_key := "password"; lb_value := "hunter2" |}];
     er_observed_at_unix_ms := 7 |}.

Definition sample_controller : EmergencyProtectionController :=
  EmergencyProtectionController_record_abuse_event_at EmergencyProtectionController_new
    {| ei_category := SourceQuota; ei_detail := "login"; ei_labels := [{| lb_key := "password"; lb_value := "hunter2" |}] |} 7.

Definition sample_limits : DiagnosticsLimits :=
  {| max_metrics_bytes := 8; max_log_records := 8; max_event_records := 8; max_artifact_bytes := 512 |}.

Lemma secret_label_exported_witness :
  ∃ before after, export_content sample_controller sample_limits = before +:+ "password=hunter2" +:+ after.
Proof.
  apply (secret_label_exported sample_controller sample_limits sample_event
    {| lb_key := "password"; lb_value := "hunter2" |} []).
  - apply list_elem_of_lookup. exists 0%nat. vm_compute. reflexivity.
  - reflexivity.
  - vm_compute. reflexivity.
  - vm_compute. reflexivity.
Defined.
