(* ===== verification/HttpCacheStore.v ===== *)
(** * The HTTP cache store

    Models the store, the invalidation events and the bus of [crates/runtime/src/http_cache.rs].
    A key, a header name or value and a body are byte strings; the clock is an argument.  The
    size of the metadata struct in memory, which the compiler chooses, is the parameter
    [metadata_size].  Sizes of objects that exist in memory are sums that fit a [usize]. *)

From stdpp Require Import pretty.
From S2P Require Import Prelude RustStr RustText RequestTarget HttpMessage.
Local Open Scope N_scope.
Local Open Scope rust_scope.

Definition HTTP_CACHE_INVALIDATION_MAX_EVENT_ID_LEN : nat := 256.
Definition HTTP_CACHE_INVALIDATION_MAX_SCOPE_LEN : nat := 128.
Definition HTTP_CACHE_INVALIDATION_MAX_ISSUER_LEN : nat := 128.
Definition HTTP_CACHE_INVALIDATION_MAX_PATH_PREFIX_LEN : nat := 512.

(** ** Errors *)

Inductive HttpCacheStoreError :=
| ZeroMaxEntries | ZeroMaxBytes | ZeroMaxObjectBytes
| MaxObjectBytesExceedsStoreBytes (max_object_bytes max_bytes : N)
| EmptyKey | FreshnessBeforeStoredAt | StaleWhileRevalidateBeforeFreshness | StaleIfErrorBeforeFreshness
| ObjectTooLarge (object_size max_object_bytes : N)
| MissingHost
| InvalidRequestTarget (error : RequestTargetError)
| InvalidHost (error : RequestTargetError)
| HostAuthorityMismatch (host_header target_authority : string).

Inductive HttpCacheInvalidationError :=
| EmptyEventId | EventIdTooLong | EmptyScope | ScopeTooLong | EmptyIssuer | IssuerTooLong | InvalidPathPrefix.

Definition HttpCacheStoreError_fmt (e : HttpCacheStoreError) : string :=
  match e with
  | ZeroMaxEntries => "http cache max_entries must be greater than zero"
  | ZeroMaxBytes => "http cache max_bytes must be greater than zero"
  | ZeroMaxObjectBytes => "http cache max_object_bytes must be greater than zero"
  | MaxObjectBytesExceedsStoreBytes max_object_bytes max_bytes =>
      "http cache max_object_bytes " +:+ pretty max_object_bytes +:+ " exceeds max_bytes " +:+ pretty max_bytes
  | EmptyKey => "http cache key must not be empty"
  | FreshnessBeforeStoredAt => "http cache fresh_until must not be earlier than stored_at"
  | StaleWhileRevalidateBeforeFreshness =>
      "http cache stale_while_revalidate_until must not be earlier than fresh_until"
  | StaleIfErrorBeforeFreshness => "http cache stale_if_error_until must not be earlier than fresh_until"
  | ObjectTooLarge object_size max_object_bytes =>
      "http cache object size " +:+ pretty object_size +:+ " exceeds max_object_bytes " +:+ pretty max_object_bytes
  | MissingHost => "http cache key construction requires a host header"
  | InvalidRequestTarget error => "http cache key request-target is invalid: " +:+ RequestTargetError_fmt error
  | InvalidHost error => "http cache key host is invalid: " +:+ RequestTargetError_fmt error
  | HostAuthorityMismatch host_header target_authority =>
      "http cache key host header " +:+ host_header +:+ " does not match request-target authority " +:+
      target_authority
  end.

Definition HttpCacheInvalidationError_fmt (e : HttpCacheInvalidationError) : string :=
  match e with
  | EmptyEventId => "cache invalidation event_id must not be empty"
  | EventIdTooLong => "cache invalidation event_id exceeds max length"
  | EmptyScope => "cache invalidation scope must not be empty"
  | ScopeTooLong => "cache invalidation scope exceeds max length"
  | EmptyIssuer => "cache invalidation issuer must not be empty"
  | IssuerTooLong => "cache invalidation issuer exceeds max length"
  | InvalidPathPrefix => "cache invalidation path prefix must start with '/' and contain no query or fragment"
  end.

(** ** Entries *)

Record HttpCacheStoreConfig := { cf_max_entries : N; cf_max_bytes : N; cf_max_object_bytes : N }.

Definition HttpCacheStoreConfig_validate (c : HttpCacheStoreConfig) : Result unit HttpCacheStoreError :=
  if decide (c.(cf_max_entries) = 0) then Err ZeroMaxEntries
  else if decide (c.(cf_max_bytes) = 0) then Err ZeroMaxBytes
  else if decide (c.(cf_max_object_bytes) = 0) then Err ZeroMaxObjectBytes
  else if decide (c.(cf_max_bytes) < c.(cf_max_object_bytes))
  then Err (MaxObjectBytesExceedsStoreBytes c.(cf_max_object_bytes) c.(cf_max_bytes))
  else Ok tt.

Abbreviation HttpCacheKey := string (only parsing).

Definition HttpCacheKey_new (key : string) : Result HttpCacheKey HttpCacheStoreError :=
  if is_empty key then Err EmptyKey else Ok key.

Record HttpCacheHeader := { ch_name : string; ch_value : string }.

Definition HttpCacheHeader_estimated_size (h : HttpCacheHeader) : N :=
  N.of_nat (str_len h.(ch_name)) + N.of_nat (str_len h.(ch_value)).

Inductive HttpCacheFreshness := Fresh | StaleWhileRevalidate | StaleIfError.
#[export] Instance HttpCacheFreshness_eq_dec : EqDecision HttpCacheFreshness.
Proof. solve_decision. Defined.

Record HttpCacheMetadata := {
  hm_status : N; stored_at : Duration; fresh_until : Duration;
  stale_while_revalidate_until : option Duration; stale_if_error_until : option Duration;
  hm_etag : option string; hm_last_modified : option string
}.

(** The latest of the stale deadlines that are set. *)
Definition HttpCacheMetadata_expires_at (m : HttpCacheMetadata) : Duration :=
  match m.(stale_while_revalidate_until), m.(stale_if_error_until) with
  | Some a, Some b => N.max a b
  | Some a, None | None, Some a => a
  | None, None => m.(fresh_until)
  end.

Definition HttpCacheMetadata_is_fresh (m : HttpCacheMetadata) (now : Duration) : bool :=
  bool_decide (now < m.(fresh_until)).

Definition before_deadline (deadline : option Duration) (now : Duration) : bool :=
  match deadline with Some deadline => bool_decide (now < deadline) | None => false end.

Definition HttpCacheMetadata_allows_stale_while_revalidate (m : HttpCacheMetadata) (now : Duration) : bool :=
  before_deadline m.(stale_while_revalidate_until) now.

Definition HttpCacheMetadata_allows_stale_if_error (m : HttpCacheMetadata) (now : Duration) : bool :=
  before_deadline m.(stale_if_error_until) now.

Definition HttpCacheMetadata_freshness (m : HttpCacheMetadata) (now : Duration) : option HttpCacheFreshness :=
  if decide (HttpCacheMetadata_expires_at m ≤ now) then None
  else if HttpCacheMetadata_is_fresh m now then Some Fresh
  else if HttpCacheMetadata_allows_stale_while_revalidate m now then Some StaleWhileRevalidate
  else if HttpCacheMetadata_allows_stale_if_error m now then Some StaleIfError
  else None.

(** [deadline.is_some_and(|deadline| deadline < t)]. *)
Definition deadline_before (deadline : option Duration) (t : Duration) : bool :=
  match deadline with Some deadline => bool_decide (deadline < t) | None => false end.

Definition HttpCacheMetadata_validate (m : HttpCacheMetadata) : Result unit HttpCacheStoreError :=
  if decide (m.(fresh_until) < m.(stored_at)) then Err FreshnessBeforeStoredAt
  else if deadline_before m.(stale_while_revalidate_until) m.(fresh_until)
  then Err StaleWhileRevalidateBeforeFreshness
  else if deadline_before m.(stale_if_error_until) m.(fresh_until)
  then Err StaleIfErrorBeforeFreshness
  else Ok tt.

Record HttpCacheEntry := {
  ce_metadata : HttpCacheMetadata; ce_headers : list HttpCacheHeader; ce_body : string
}.

Record HttpCacheLookup := { lk_entry : HttpCacheEntry; lk_freshness : HttpCacheFreshness }.

Definition HttpCacheEntry_validate (e : HttpCacheEntry) : Result unit HttpCacheStoreError :=
  HttpCacheMetadata_validate e.(ce_metadata).

Record HttpCacheInsertResult := { ir_replaced : bool; ir_evicted_entries : N }.

(** ** Invalidation events *)

Inductive HttpCacheInvalidationTarget := ExactKey (key : HttpCacheKey) | PathPrefix (prefix : string).

Record HttpCacheInvalidationEvent := {
  ev_event_id : string; ev_scope : string; ev_issuer : string; ev_target : HttpCacheInvalidationTarget;
  ev_occurred_at_unix_ms : N
}.

Definition invalid_path_prefix (prefix : string) : bool :=
  is_blank prefix || bool_decide (HTTP_CACHE_INVALIDATION_MAX_PATH_PREFIX_LEN < str_len prefix)%nat ||
  negb (starts_with "/" prefix) || contains 63 prefix || contains 35 prefix.

Definition validate_invalidation_event (event : HttpCacheInvalidationEvent) : Result unit HttpCacheInvalidationError :=
  if is_blank event.(ev_event_id) then Err EmptyEventId
  else if decide (HTTP_CACHE_INVALIDATION_MAX_EVENT_ID_LEN < str_len event.(ev_event_id))%nat then Err EventIdTooLong
  else if is_blank event.(ev_scope) then Err EmptyScope
  else if decide (HTTP_CACHE_INVALIDATION_MAX_SCOPE_LEN < str_len event.(ev_scope))%nat then Err ScopeTooLong
  else if is_blank event.(ev_issuer) then Err EmptyIssuer
  else if decide (HTTP_CACHE_INVALIDATION_MAX_ISSUER_LEN < str_len event.(ev_issuer))%nat then Err IssuerTooLong
  else match event.(ev_target) with
       | PathPrefix prefix => if invalid_path_prefix prefix then Err InvalidPathPrefix else Ok tt
       | ExactKey _ => Ok tt
       end.

Definition HttpCacheInvalidationEvent_validate : HttpCacheInvalidationEvent → Result unit HttpCacheInvalidationError :=
  validate_invalidation_event.

Definition HttpCacheInvalidationEvent_new (event_id scope issuer : string) (target : HttpCacheInvalidationTarget)
    (occurred_at_unix_ms : N) : Result HttpCacheInvalidationEvent HttpCacheInvalidationError :=
  let event := {| ev_event_id := event_id; ev_scope := scope; ev_issuer := issuer; ev_target := target;
                  ev_occurred_at_unix_ms := occurred_at_unix_ms |} in
  let? _ := validate_invalidation_event event in
  Ok event.

Inductive HttpCacheInvalidationApplyResult := InvalidationApplied (purged_entries : N) | InvalidationDuplicate.

Record HttpCacheInvalidationPublishResult := {
  pr_subscriber_count : N; pr_applied_count : N; pr_duplicate_count : N; pr_purged_entries : N;
  pr_delivery_success_count : N; pr_delivery_failure_count : N; pr_failed_targets : list string
}.

(** [str::lines]: a line feed ends a line, with a carriage return before it. *)
Fixpoint lines_of (segments : list (list N)) : list (list N) :=
  match segments with
  | [] => []
  | [last] => if decide (last = []) then [] else [last]
  | line :: segments =>
      (match reverse line with 13 :: rest => reverse rest | _ => line end) :: lines_of segments
  end.
Definition lines (l : list N) : list (list N) := lines_of (split_on 10 l).

(** [line.strip_prefix(prefix)]. *)
Definition strip_bytes (prefix l : list N) : option (list N) :=
  if decide (prefix `prefix_of` l) then Some (drop (length prefix) l) else None.

(** [key.split(|byte| *byte == 0).next()] and its line [path=]. *)
Definition key_path (key : HttpCacheKey) : option (list N) :=
  let primary := default (bytes key) (head (split_on 0 (bytes key))) in
  if utf8_valid primary then head (omap (strip_bytes (bytes "path=")) (lines primary)) else None.

Definition storage_key_matches_path_prefix (key : HttpCacheKey) (path_prefix : string) : bool :=
  match key_path key with
  | None => false
  | Some path =>
      bool_decide (path = bytes path_prefix) || bool_decide (path_prefix = "/") ||
      match strip_bytes (bytes path_prefix) path with
      | Some suffix => bool_decide ([47] `prefix_of` suffix)
      | None => false
      end
  end.

(** ** The store *)

Record CacheRecord := {
  cr_entry : HttpCacheEntry; cr_size : N; inserted_sequence : N; last_accessed_tick : N;
  cr_last_accessed_at : Duration
}.

Record CacheStoreState := { entries : gmap string CacheRecord; total_bytes : N; next_sequence : N }.

Definition CacheStoreState_default : CacheStoreState :=
  {| entries := ∅; total_bytes := 0; next_sequence := 0 |}.

Record HttpCacheStoreCounts := {
  hit_count : N; miss_count : N; insert_count : N; replace_count : N; eviction_count : N;
  expiration_count : N; rejected_insert_count : N
}.

Record HttpCacheStore := {
  hs_config : HttpCacheStoreConfig; hs_state : CacheStoreState; hs_counts : HttpCacheStoreCounts;
  applied_invalidations : list (string * string)
}.

Definition HttpCacheStore_new (config : HttpCacheStoreConfig) : Result HttpCacheStore HttpCacheStoreError :=
  let? _ := HttpCacheStoreConfig_validate config in
  Ok {| hs_config := config; hs_state := CacheStoreState_default;
        hs_counts := {| hit_count := 0; miss_count := 0; insert_count := 0; replace_count := 0;
                        eviction_count := 0; expiration_count := 0; rejected_insert_count := 0 |};
        applied_invalidations := [] |}.

Definition with_store_state (s : HttpCacheStore) (state : CacheStoreState) (counts : HttpCacheStoreCounts) : HttpCacheStore :=
  {| hs_config := s.(hs_config); hs_state := state; hs_counts := counts;
     applied_invalidations := s.(applied_invalidations) |}.

Definition cache_duration_tick (value : Duration) : N := N.min (as_millis value) u64_max.

(** [fetch_add] on the counters. *)
Definition add_lookup (c : HttpCacheStoreCounts) (hit miss expired : N) : HttpCacheStoreCounts :=
  {| hit_count := fetch_add c.(hit_count) hit; miss_count := fetch_add c.(miss_count) miss;
     insert_count := c.(insert_count); replace_count := c.(replace_count);
     eviction_count := c.(eviction_count); expiration_count := fetch_add c.(expiration_count) expired;
     rejected_insert_count := c.(rejected_insert_count) |}.

Definition add_insert (c : HttpCacheStoreCounts) (inserted replaced evicted rejected : N) : HttpCacheStoreCounts :=
  {| hit_count := c.(hit_count); miss_count := c.(miss_count);
     insert_count := fetch_add c.(insert_count) inserted; replace_count := fetch_add c.(replace_count) replaced;
     eviction_count := fetch_add c.(eviction_count) evicted; expiration_count := c.(expiration_count);
     rejected_insert_count := fetch_add c.(rejected_insert_count) rejected |}.

Definition remove_from_state (state : CacheStoreState) (key : HttpCacheKey) :
    CacheStoreState * option HttpCacheEntry :=
  match state.(entries) !! key with
  | Some removed =>
      ({| entries := delete key state.(entries); total_bytes := state.(total_bytes) - removed.(cr_size);
          next_sequence := state.(next_sequence) |}, Some removed.(cr_entry))
  | None => (state, None)
  end.

Definition touch_record (r : CacheRecord) (now : Duration) : CacheRecord :=
  {| cr_entry := r.(cr_entry); cr_size := r.(cr_size); inserted_sequence := r.(inserted_sequence);
     last_accessed_tick := cache_duration_tick now; cr_last_accessed_at := now |}.

Definition HttpCacheStore_lookup (s : HttpCacheStore) (now : Duration) (key : HttpCacheKey) :
    HttpCacheStore * option HttpCacheLookup :=
  let state := s.(hs_state) in
  match state.(entries) !! key with
  | Some record =>
      match HttpCacheMetadata_freshness record.(cr_entry).(ce_metadata) now with
      | None => (with_store_state s (remove_from_state state key).1 (add_lookup s.(hs_counts) 0 1 1), None)
      | Some freshness =>
          (with_store_state s {| entries := <[key := touch_record record now]> state.(entries);
                           total_bytes := state.(total_bytes); next_sequence := state.(next_sequence) |}
                      (add_lookup s.(hs_counts) 1 0 0),
           Some {| lk_entry := record.(cr_entry); lk_freshness := freshness |})
      end
  | None => (with_store_state s state (add_lookup s.(hs_counts) 0 1 0), None)
  end.

Definition HttpCacheStore_lookup_fresh (s : HttpCacheStore) (now : Duration) (key : HttpCacheKey) :
    HttpCacheStore * option HttpCacheEntry :=
  let '(s, found) := HttpCacheStore_lookup s now key in
  (s, match found with
      | Some lookup => if decide (lookup.(lk_freshness) = Fresh) then Some lookup.(lk_entry) else None
      | None => None
      end).

(** The order of eviction: by the tick of the last access, then by the sequence of insertion. *)
Definition lru_rank (kr : string * CacheRecord) : N * N := (kr.2.(last_accessed_tick), kr.2.(inserted_sequence)).
Definition lru_cmp : N * N → N * N → comparison := lex_cmp N.compare N.compare.

(** [min_by_key]: the first entry with the least rank. *)
Fixpoint oldest_from (best : string * CacheRecord) (l : list (string * CacheRecord)) : string * CacheRecord :=
  match l with
  | [] => best
  | x :: l => oldest_from (match lru_cmp (lru_rank x) (lru_rank best) with Lt => x | _ => best end) l
  end.

Definition oldest_entry_key (state : CacheStoreState) : option HttpCacheKey :=
  match btree_iter state.(entries) with
  | [] => None
  | x :: l => Some (oldest_from x l).1
  end.

Definition out_of_bounds (state : CacheStoreState) (config : HttpCacheStoreConfig) : bool :=
  bool_decide (config.(cf_max_entries) < N.of_nat (size state.(entries))) ||
  bool_decide (config.(cf_max_bytes) < state.(total_bytes)).

(** The [while] loop; [None] when the fuel does not suffice. *)
Fixpoint evict_loop (fuel : nat) (state : CacheStoreState) (config : HttpCacheStoreConfig) :
    option (CacheStoreState * N) :=
  match fuel with
  | O => None
  | S fuel =>
      if negb (out_of_bounds state config) then Some (state, 0)
      else match oldest_entry_key state with
           | None => Some (state, 0)
           | Some key =>
               let '(state, removed) := remove_from_state state key in
               '(state, evicted) ← evict_loop fuel state config;
               Some (state, evicted + (if removed is Some _ then 1 else 0))
           end
  end.

Definition evict_until_within_bounds (state : CacheStoreState) (config : HttpCacheStoreConfig) :
    option (CacheStoreState * N) :=
  evict_loop (S (size state.(entries))) state config.

Definition HttpCacheStore_remove (s : HttpCacheStore) (key : HttpCacheKey) :
    HttpCacheStore * option HttpCacheEntry :=
  let '(state, removed) := remove_from_state s.(hs_state) key in
  (with_store_state s state s.(hs_counts), removed).

(** Removes the keys one by one. *)
Definition remove_keys (state : CacheStoreState) (keys : list HttpCacheKey) : CacheStoreState :=
  foldl (λ state key, (remove_from_state state key).1) state keys.

Definition purge_path_prefix_from_state (state : CacheStoreState) (path_prefix : string) : CacheStoreState * N :=
  let keys_to_remove := List.filter (λ key, storage_key_matches_path_prefix key path_prefix) (btree_iter state.(entries)).*1 in
  (remove_keys state keys_to_remove, N.of_nat (length keys_to_remove)).

Definition HttpCacheStore_purge_path_prefix (s : HttpCacheStore) (path_prefix : string) : HttpCacheStore * N :=
  let '(state, purged) := purge_path_prefix_from_state s.(hs_state) path_prefix in
  (with_store_state s state s.(hs_counts), purged).

Definition HttpCacheStore_purge_expired (s : HttpCacheStore) (now : Duration) : HttpCacheStore * N :=
  let state := s.(hs_state) in
  let keys_to_remove :=
    (List.filter (λ kr, bool_decide (HttpCacheMetadata_expires_at kr.2.(cr_entry).(ce_metadata) ≤ now))
       (btree_iter state.(entries))).*1 in
  let purged := N.of_nat (length keys_to_remove) in
  (with_store_state s (remove_keys state keys_to_remove) (add_lookup s.(hs_counts) 0 0 purged), purged).

Definition purge_target (state : CacheStoreState) (target : HttpCacheInvalidationTarget) : CacheStoreState * N :=
  match target with
  | ExactKey key => let '(state, removed) := remove_from_state state key in (state, if removed is Some _ then 1 else 0)
  | PathPrefix prefix => purge_path_prefix_from_state state prefix
  end.

(** At most 256 applied events are remembered. *)
Definition HttpCacheStore_apply_invalidation_event (s : HttpCacheStore) (event : HttpCacheInvalidationEvent) :
    HttpCacheStore * Result HttpCacheInvalidationApplyResult HttpCacheInvalidationError :=
  match validate_invalidation_event event with
  | Err error => (s, Err error)
  | Ok _ =>
      let id := (event.(ev_issuer), event.(ev_event_id)) in
      if decide (id ∈ s.(applied_invalidations)) then (s, Ok InvalidationDuplicate)
      else
        let '(state, purged) := purge_target s.(hs_state) event.(ev_target) in
        let applied := s.(applied_invalidations) ++ [id] in
        ({| hs_config := s.(hs_config); hs_state := state; hs_counts := s.(hs_counts);
            applied_invalidations := drop (length applied - 256) applied |},
         Ok (InvalidationApplied purged))
  end.

Section sizes.
Variable metadata_size : N.

Definition HttpCacheMetadata_estimated_size (m : HttpCacheMetadata) : N :=
  metadata_size + from_option (λ v, N.of_nat (str_len v)) 0 m.(hm_etag) +
  from_option (λ v, N.of_nat (str_len v)) 0 m.(hm_last_modified).

Definition HttpCacheEntry_estimated_size (e : HttpCacheEntry) : N :=
  HttpCacheMetadata_estimated_size e.(ce_metadata) +
  foldr (λ h n, HttpCacheHeader_estimated_size h + n) 0 e.(ce_headers) + N.of_nat (str_len e.(ce_body)).

Definition HttpCacheStore_insert (s : HttpCacheStore) (now : Duration) (key : HttpCacheKey) (entry : HttpCacheEntry) :
    option (HttpCacheStore * Result HttpCacheInsertResult HttpCacheStoreError) :=
  match HttpCacheEntry_validate entry with
  | Err error => Some (s, Err error)
  | Ok _ =>
      let size := HttpCacheEntry_estimated_size entry in
      if decide (s.(hs_config).(cf_max_object_bytes) < size)
      then Some (with_store_state s s.(hs_state) (add_insert s.(hs_counts) 0 0 0 1),
                 Err (ObjectTooLarge size s.(hs_config).(cf_max_object_bytes)))
      else
        let '(state, replaced) := remove_from_state s.(hs_state) key in
        let record := {| cr_entry := entry; cr_size := size; inserted_sequence := state.(next_sequence);
                         last_accessed_tick := cache_duration_tick now; cr_last_accessed_at := now |} in
        let state := {| entries := <[key := record]> state.(entries);
                        total_bytes := saturating_add u64_max state.(total_bytes) size;
                        next_sequence := saturating_add u64_max state.(next_sequence) 1 |} in
        '(state, evicted) ← evict_until_within_bounds state s.(hs_config);
        let replaced := if replaced is Some _ then true else false in
        Some (with_store_state s state
                (add_insert s.(hs_counts) (if replaced then 0 else 1) (if replaced then 1 else 0) evicted 0),
              Ok {| ir_replaced := replaced; ir_evicted_entries := evicted |})
  end.
End sizes.

(** ** Metrics *)

Record HttpCacheStoreMetrics := {
  mt_entry_count : N; mt_total_bytes : N; mt_max_object_bytes : N; mt_counts : HttpCacheStoreCounts
}.

Definition HttpCacheStore_metrics (s : HttpCacheStore) : HttpCacheStoreMetrics :=
  let state := s.(hs_state) in
  {| mt_entry_count := N.of_nat (size state.(entries)); mt_total_bytes := state.(total_bytes);
     mt_max_object_bytes := foldr (λ kr n, N.max kr.2.(cr_size) n) 0 (btree_iter state.(entries));
     mt_counts := s.(hs_counts) |}.

Record HttpCacheEntrySnapshot := {
  sn_key : string; sn_size : N; sn_last_accessed_at : Duration; sn_metadata : HttpCacheMetadata
}.

Record HttpCacheStoreSnapshot := {
  sn_metrics : HttpCacheStoreMetrics; sn_entries : list HttpCacheEntrySnapshot
}.

Definition HttpCacheStore_snapshot (s : HttpCacheStore) : HttpCacheStoreSnapshot :=
  {| sn_metrics := HttpCacheStore_metrics s;
     sn_entries := (λ kr, {| sn_key := kr.1; sn_size := kr.2.(cr_size);
                             sn_last_accessed_at := kr.2.(cr_last_accessed_at);
                             sn_metadata := kr.2.(cr_entry).(ce_metadata) |}) <$>
                   btree_iter s.(hs_state).(entries) |}.

Definition object_line (index : nat) (e : HttpCacheEntrySnapshot) : string :=
  "- index=" +:+ pretty (N.of_nat index) +:+ " size=" +:+ pretty e.(sn_size) +:+
  " status=" +:+ pretty e.(sn_metadata).(hm_status) +:+
  " last_accessed_ms=" +:+ pretty (as_millis e.(sn_last_accessed_at)) +:+
  " fresh_until_ms=" +:+ pretty (as_millis e.(sn_metadata).(fresh_until)).

Definition HttpCacheStoreSnapshot_render_diagnostics (s : HttpCacheStoreSnapshot) (scope : string)
    (max_entries : nat) : string :=
  let m := s.(sn_metrics) in
  let c := m.(mt_counts) in
  join (of_bytes [10]) (
    ["scope=" +:+ scope; "entries=" +:+ pretty m.(mt_entry_count); "bytes=" +:+ pretty m.(mt_total_bytes);
     "max_object_bytes=" +:+ pretty m.(mt_max_object_bytes); "hits=" +:+ pretty c.(hit_count);
     "misses=" +:+ pretty c.(miss_count); "inserts=" +:+ pretty c.(insert_count);
     "replacements=" +:+ pretty c.(replace_count); "evictions=" +:+ pretty c.(eviction_count);
     "expirations=" +:+ pretty c.(expiration_count); "rejected_inserts=" +:+ pretty c.(rejected_insert_count);
     "objects:"] ++ imap object_line (take max_entries s.(sn_entries))).

(** ** The invalidation bus

    A subscriber holds an [Arc] of a store, so two subscribers may share one: the stores are a
    list and a subscriber names its store by index. *)

Record HttpCacheStoreInvalidationSubscriber := { sb_scope : string; sb_store : nat }.

Definition HttpCacheStoreInvalidationSubscriber_apply (sub : HttpCacheStoreInvalidationSubscriber)
    (stores : list HttpCacheStore) (event : HttpCacheInvalidationEvent) :
    option (list HttpCacheStore * Result HttpCacheInvalidationApplyResult HttpCacheInvalidationError) :=
  store ← stores !! sub.(sb_store);
  let '(store, result) := HttpCacheStore_apply_invalidation_event store event in
  Some (<[sub.(sb_store) := store]> stores, result).

Abbreviation HttpCacheInvalidationBus := (list HttpCacheStoreInvalidationSubscriber) (only parsing).

Definition HttpCacheInvalidationBus_register (bus : HttpCacheInvalidationBus)
    (subscriber : HttpCacheStoreInvalidationSubscriber) : HttpCacheInvalidationBus := bus ++ [subscriber].

Definition HttpCacheInvalidationPublishResult_default : HttpCacheInvalidationPublishResult :=
  {| pr_subscriber_count := 0; pr_applied_count := 0; pr_duplicate_count := 0; pr_purged_entries := 0;
     pr_delivery_success_count := 0; pr_delivery_failure_count := 0; pr_failed_targets := [] |}.

(** What one delivery adds to the result. *)
Definition count_delivery (r : HttpCacheInvalidationPublishResult) (outcome : HttpCacheInvalidationApplyResult) :
    HttpCacheInvalidationPublishResult :=
  match outcome with
  | InvalidationApplied purged =>
      {| pr_subscriber_count := r.(pr_subscriber_count) + 1; pr_applied_count := r.(pr_applied_count) + 1;
         pr_duplicate_count := r.(pr_duplicate_count); pr_purged_entries := r.(pr_purged_entries) + purged;
         pr_delivery_success_count := r.(pr_delivery_success_count) + 1;
         pr_delivery_failure_count := r.(pr_delivery_failure_count);
         pr_failed_targets := r.(pr_failed_targets) |}
  | InvalidationDuplicate =>
      {| pr_subscriber_count := r.(pr_subscriber_count) + 1; pr_applied_count := r.(pr_applied_count);
         pr_duplicate_count := r.(pr_duplicate_count) + 1; pr_purged_entries := r.(pr_purged_entries);
         pr_delivery_success_count := r.(pr_delivery_success_count) + 1;
         pr_delivery_failure_count := r.(pr_delivery_failure_count);
         pr_failed_targets := r.(pr_failed_targets) |}
  end.

(** The [for] loop over the subscribers of the event's scope; an error returns at once. *)
Fixpoint deliver (subscribers : list HttpCacheStoreInvalidationSubscriber) (stores : list HttpCacheStore)
    (event : HttpCacheInvalidationEvent) (result : HttpCacheInvalidationPublishResult) :
    option (list HttpCacheStore * Result HttpCacheInvalidationPublishResult HttpCacheInvalidationError) :=
  match subscribers with
  | [] => Some (stores, Ok result)
  | sub :: subscribers =>
      if decide (sub.(sb_scope) = event.(ev_scope)) then
        '(stores, outcome) ← HttpCacheStoreInvalidationSubscriber_apply sub stores event;
        match outcome with
        | Ok outcome => deliver subscribers stores event (count_delivery result outcome)
        | Err error => Some (stores, Err error)
        end
      else deliver subscribers stores event result
  end.

Definition HttpCacheInvalidationBus_publish (bus : HttpCacheInvalidationBus) (stores : list HttpCacheStore)
    (event : HttpCacheInvalidationEvent) :
    option (list HttpCacheStore * Result HttpCacheInvalidationPublishResult HttpCacheInvalidationError) :=
  match validate_invalidation_event event with
  | Err error => Some (stores, Err error)
  | Ok _ => deliver bus stores event HttpCacheInvalidationPublishResult_default
  end.

Inductive HttpCacheInvalidationTransportError :=
| InvalidEvent (error : HttpCacheInvalidationError)
| PublishFailed (transport detail : string).

Definition HttpCacheInvalidationTransportError_fmt (e : HttpCacheInvalidationTransportError) : string :=
  match e with
  | InvalidEvent error => "invalid cache invalidation event: " +:+ HttpCacheInvalidationError_fmt error
  | PublishFailed transport detail =>
      "cache invalidation publish failed via " +:+ transport +:+ ": " +:+ detail
  end.

Definition HttpCacheInvalidationBusTransport_name : string := "in_memory_bus".

Definition HttpCacheInvalidationBusTransport_publish (bus : HttpCacheInvalidationBus) (stores : list HttpCacheStore)
    (event : HttpCacheInvalidationEvent) :
    option (list HttpCacheStore * Result HttpCacheInvalidationPublishResult HttpCacheInvalidationTransportError) :=
  '(stores, result) ← HttpCacheInvalidationBus_publish bus stores event;
  Some (stores, match result with Ok r => Ok r | Err error => Err (InvalidEvent error) end).

(** ** Specification

    The entries from the least to the most recently used; ties of the tick and of the sequence
    (possible once the sequence saturates) go by key.  Eviction drops the shortest prefix of
    this list that makes the rest fit. *)

Definition lru_order : string * CacheRecord → (N * N) * string := λ kr, (lru_rank kr, kr.1).
Definition lru_key_cmp : (N * N) * string → (N * N) * string → comparison := lex_cmp lru_cmp String.compare.
Definition lru_list (m : gmap string CacheRecord) : list (string * CacheRecord) :=
  sort_by lru_order lru_key_cmp (map_to_list m).

Definition sizes (l : list (string * CacheRecord)) : N := foldr (λ kr n, kr.2.(cr_size) + n) 0 l.
Definition total_size (m : gmap string CacheRecord) : N := sizes (map_to_list m).

Definition fits (config : HttpCacheStoreConfig) (l : list (string * CacheRecord)) : Prop :=
  N.of_nat (length l) ≤ config.(cf_max_entries) ∧ sizes l ≤ config.(cf_max_bytes).

(** A prefix that ends with a slash does not match the paths below it. *)
Example trailing_slash_prefix_misses :
  storage_key_matches_path_prefix "path=/api/v1" "/api/" = false ∧
  storage_key_matches_path_prefix "path=/api/v1" "/api" = true ∧
  storage_key_matches_path_prefix "path=/apis" "/api" = false.
Proof. vm_compute. done. Qed.

(** ** Sums and the order of eviction *)

#[export] Instance lru_cmp_lawful : LawfulCmp lru_cmp.
Proof. unfold lru_cmp. apply _. Qed.
#[export] Instance lru_key_cmp_lawful : LawfulCmp lru_key_cmp.
Proof. unfold lru_key_cmp. apply _. Qed.

#[export] Instance sizes_proper : Proper ((≡ₚ) ==> (=)) sizes.
Proof. intros l l'. induction 1; unfold sizes in *; simpl; lia. Qed.

Lemma total_size_insert m k r : m !! k = None → total_size (<[k := r]> m) = r.(cr_size) + total_size m.
Proof. intros Hk. unfold total_size. by rewrite map_to_list_insert. Qed.

Lemma total_size_delete m k r : m !! k = Some r → total_size m = r.(cr_size) + total_size (delete k m).
Proof. intros Hk. unfold total_size. by rewrite <- (map_to_list_delete m k r Hk). Qed.

Lemma lru_list_perm m : lru_list m ≡ₚ map_to_list m.
Proof. apply sort_by_perm. Qed.

Lemma length_lru_list m : length (lru_list m) = size m.
Proof. by rewrite lru_list_perm, length_map_to_list. Qed.

Lemma elem_of_lru_list m k r : (k, r) ∈ lru_list m ↔ m !! k = Some r.
Proof. by rewrite lru_list_perm, elem_of_map_to_list. Qed.

Lemma sizes_lru_list m : sizes (lru_list m) = total_size m.
Proof. by rewrite lru_list_perm. Qed.

(** The least element of a map comes first, the others follow in their own order. *)
Lemma lru_list_delete m k r :
  m !! k = Some r → (∀ x, x ∈ map_to_list m → key_le lru_order lru_key_cmp (k, r) x) →
  lru_list m = (k, r) :: lru_list (delete k m).
Proof.
  intros Hk Hmin. apply (StronglySorted_unique_strong (key_le lru_order lru_key_cmp)).
  - intros [k1 r1] [k2 r2] H1 H2 Hle Hge. unfold key_le in Hle, Hge.
    destruct (lru_key_cmp _ _) eqn:E in Hle; [|by rewrite cmp_antisym, E in Hge|done].
    apply cmp_eq, (f_equal snd) in E. simpl in E. subst k2.
    assert (H2' : (k1, r2) ∈ map_to_list m).
    { rewrite <- (map_to_list_delete m k r Hk), <- (lru_list_perm (delete k m)). done. }
    apply elem_of_lru_list in H1. apply elem_of_map_to_list in H2'. congruence.
  - apply sort_by_sorted, _.
  - apply StronglySorted_cons. split; [|apply sort_by_sorted, _].
    apply Forall_forall. intros x Hx. apply Hmin. rewrite lru_list_perm in Hx.
    rewrite <- (map_to_list_delete m k r Hk). by right.
  - by rewrite !lru_list_perm, map_to_list_delete.
Qed.

(** Along a list in key order, the fold of [min_by_key] finds the least element. *)
Lemma oldest_from_elem x l : oldest_from x l ∈ x :: l.
Proof.
  revert x. induction l as [|y l IH]; intros x; simpl; [by left|].
  specialize (IH (match lru_cmp (lru_rank y) (lru_rank x) with Lt => y | _ => x end)).
  rewrite !elem_of_cons in *. destruct (lru_cmp (lru_rank y) (lru_rank x)); tauto.
Qed.

Lemma oldest_from_least x l :
  StronglySorted (λ a b, String.compare a.1 b.1 = Lt) (x :: l) →
  ∀ y, y ∈ x :: l → key_le lru_order lru_key_cmp (oldest_from x l) y.
Proof.
  revert x. induction l as [|z l IH]; intros x Hs y Hy.
  { apply list_elem_of_singleton in Hy as ->. unfold key_le. simpl. by rewrite (cmp_refl (cmp := lru_key_cmp)). }
  apply StronglySorted_cons in Hs as [Hx Hs]. apply Forall_cons in Hx as [Hxz Hx].
  pose proof Hs as [_ Hs']%StronglySorted_cons. simpl.
  destruct (lru_cmp (lru_rank z) (lru_rank x)) eqn:E.
  2: { apply elem_of_cons in Hy as [->|Hy]; [|by apply IH].
       eapply (cmp_le_trans lru_key_cmp); [by apply (IH z Hs z); left|].
       unfold lru_key_cmp, lex_cmp, lru_order. simpl. by rewrite E. }
  all: assert (Hxl : StronglySorted (λ a b, String.compare a.1 b.1 = Lt) (x :: l)) by (by apply StronglySorted_cons).
  all: rewrite !elem_of_cons in Hy; destruct Hy as [->|[->|Hy]]; try (apply IH; [done | by (left || right)]).
  all: eapply (cmp_le_trans lru_key_cmp); [by apply (IH x Hxl x); left|].
  all: unfold lru_key_cmp, lex_cmp, lru_order; simpl.
  all: rewrite (cmp_antisym (cmp := lru_cmp) (lru_rank z) (lru_rank x)), E; simpl; by rewrite ?Hxz.
Qed.

Lemma btree_iter_strict {V} (m : gmap string V) :
  StronglySorted (λ a b, String.compare a.1 b.1 = Lt) (btree_iter m).
Proof.
  apply (sorted_nodup_strict fst String.compare); [apply sort_by_sorted, _|].
  unfold btree_iter. rewrite sort_by_perm. apply NoDup_fst_map_to_list.
Qed.

Lemma oldest_entry_key_lru (state : CacheStoreState) :
  oldest_entry_key state = fst <$> head (lru_list state.(entries)).
Proof.
  unfold oldest_entry_key. destruct (btree_iter state.(entries)) as [|x l] eqn:E.
  { apply btree_iter_nil in E. unfold lru_list. by rewrite E, map_to_list_empty. }
  pose proof (btree_iter_strict state.(entries)) as Hs. rewrite E in Hs.
  pose proof (oldest_from_least x l Hs) as Hmin. pose proof (oldest_from_elem x l) as Hin.
  rewrite <- E in Hin. destruct (oldest_from x l) as [k r] eqn:Eo.
  rewrite elem_of_btree_iter in Hin. rewrite (lru_list_delete _ k r Hin); [done|].
  intros y Hy. apply Hmin. by rewrite <- E, btree_iter_perm.
Qed.

Lemma lru_list_cons m k r l : lru_list m = (k, r) :: l → m !! k = Some r ∧ lru_list (delete k m) = l.
Proof.
  intros E. assert (Hk : m !! k = Some r) by (apply elem_of_lru_list; rewrite E; by left).
  split; [done|]. pose proof (sort_by_sorted lru_order lru_key_cmp (map_to_list m)) as Hs.
  change (sort_by _ _ _) with (lru_list m) in Hs. rewrite E in Hs.
  apply StronglySorted_cons in Hs as [Hmin _].
  rewrite (lru_list_delete m k r Hk) in E; [by injection E|].
  intros x Hx. rewrite <- lru_list_perm, E in Hx. apply elem_of_cons in Hx as [->|Hx].
  - unfold key_le. by rewrite (cmp_refl (cmp := lru_key_cmp)).
  - rewrite Forall_forall in Hmin. by apply Hmin.
Qed.

Lemma out_of_bounds_fits state config :
  state.(total_bytes) = total_size state.(entries) →
  out_of_bounds state config = false ↔ fits config (lru_list state.(entries)).
Proof.
  intros Ht. unfold out_of_bounds, fits. rewrite length_lru_list, sizes_lru_list, <- Ht.
  rewrite orb_false_iff, !bool_decide_eq_false, !N.nlt_ge. done.
Qed.

Lemma evict_loop_lru fuel state config :
  (size state.(entries) < fuel)%nat → state.(total_bytes) = total_size state.(entries) →
  ∃ (state' : CacheStoreState) n, evict_loop fuel state config = Some (state', N.of_nat n) ∧
    lru_list state'.(entries) = drop n (lru_list state.(entries)) ∧
    state'.(total_bytes) = total_size state'.(entries) ∧ state'.(next_sequence) = state.(next_sequence) ∧
    state'.(entries) ⊆ state.(entries) ∧
    fits config (drop n (lru_list state.(entries))) ∧
    ∀ i, (i < n)%nat → ¬ fits config (drop i (lru_list state.(entries))).
Proof.
  revert state. induction fuel as [|fuel IH]; intros state Hf Ht; [lia|]. simpl.
  destruct (out_of_bounds state config) eqn:Hob; simpl.
  2: { exists state, O. rewrite out_of_bounds_fits in Hob by done. split_and!; try done; try apply Hob. intros i Hi. lia. }
  assert (Hnf : ¬ fits config (lru_list state.(entries))).
  { rewrite <- out_of_bounds_fits by done. by rewrite Hob. }
  rewrite oldest_entry_key_lru. destruct (lru_list state.(entries)) as [|[k r] l] eqn:El; simpl.
  { destruct Hnf. unfold fits, sizes. simpl. lia. }
  destruct (lru_list_cons _ _ _ _ El) as [Hk Hl]. unfold remove_from_state. rewrite Hk.
  set (st := {| entries := delete k state.(entries); total_bytes := _; next_sequence := _ |}).
  destruct (IH st) as (st' & n & -> & Hlru & Ht' & Hseq & Hsub & Hfit & Hleast); simpl.
  { rewrite <- length_lru_list in Hf |- *. rewrite El in Hf. rewrite Hl. simpl in Hf. lia. }
  { rewrite (total_size_delete _ _ _ Hk) in Ht. lia. }
  simpl in Hlru, Hleast, Hfit, Hsub. rewrite Hl in Hlru, Hleast, Hfit.
  exists st', (S n). split_and!; try done; try apply Hfit.
  - simpl. do 2 f_equal. lia.
  - etrans; [exact Hsub | apply delete_subseteq].
  - intros [|i] Hi; [done|]. apply Hleast. lia.
Qed.

(** ** The invariant of the store *)

(** The operations of a store, run at a clock that does not go back. *)
Inductive cache_op :=
| OpLookup (key : HttpCacheKey) | OpInsert (key : HttpCacheKey) (entry : HttpCacheEntry)
| OpRemove (key : HttpCacheKey) | OpPurgePathPrefix (path_prefix : string) | OpPurgeExpired
| OpInvalidate (event : HttpCacheInvalidationEvent).

(** An [HttpCacheKey] is not empty. *)
Definition op_typed (op : cache_op) : Prop :=
  match op with OpInsert key _ => key ≠ EmptyString | _ => True end.

Section store.
Variable metadata_size : N.

Definition run_op (s : HttpCacheStore) (now : Duration) (op : cache_op) : option HttpCacheStore :=
  match op with
  | OpLookup key => Some (HttpCacheStore_lookup s now key).1
  | OpInsert key entry => fst <$> HttpCacheStore_insert metadata_size s now key entry
  | OpRemove key => Some (HttpCacheStore_remove s key).1
  | OpPurgePathPrefix path_prefix => Some (HttpCacheStore_purge_path_prefix s path_prefix).1
  | OpPurgeExpired => Some (HttpCacheStore_purge_expired s now).1
  | OpInvalidate event => Some (HttpCacheStore_apply_invalidation_event s event).1
  end.

Record record_ok (config : HttpCacheStoreConfig) (t next : N) (k : string) (r : CacheRecord) : Prop := {
  ro_key : k ≠ EmptyString;
  ro_size : r.(cr_size) = HttpCacheEntry_estimated_size metadata_size r.(cr_entry);
  ro_bound : r.(cr_size) ≤ config.(cf_max_object_bytes);
  ro_valid : HttpCacheEntry_validate r.(cr_entry) = Ok tt;
  ro_tick : r.(last_accessed_tick) = cache_duration_tick r.(cr_last_accessed_at);
  ro_past : r.(cr_last_accessed_at) ≤ t;
  ro_sequence : r.(inserted_sequence) < next ∨ next = u64_max
}.

Record state_ok (config : HttpCacheStoreConfig) (t : Duration) (state : CacheStoreState) : Prop := {
  so_total : state.(total_bytes) = total_size state.(entries);
  so_fits : fits config (lru_list state.(entries));
  so_records : map_Forall (record_ok config t state.(next_sequence)) state.(entries);
  so_next : state.(next_sequence) ≤ u64_max
}.

Record cache_store_ok (t : Duration) (s : HttpCacheStore) : Prop := {
  sk_config : HttpCacheStoreConfig_validate s.(hs_config) = Ok tt;
  sk_room : 2 * s.(hs_config).(cf_max_bytes) ≤ u64_max;
  sk_state : state_ok s.(hs_config) t s.(hs_state);
  sk_window : (length s.(applied_invalidations) ≤ 256)%nat;
  sk_distinct : NoDup s.(applied_invalidations)
}.

Inductive cache_reachable (config : HttpCacheStoreConfig) : Duration → HttpCacheStore → Prop :=
| reachable_new s : HttpCacheStore_new config = Ok s → cache_reachable config 0 s
| reachable_op t now s op s' :
    cache_reachable config t s → t ≤ now → op_typed op → run_op s now op = Some s' →
    cache_reachable config now s'.

Lemma record_ok_mono config t t' next next' k r :
  t ≤ t' → next ≤ next' ≤ u64_max → record_ok config t next k r → record_ok config t' next' k r.
Proof. intros ? ? []. split; try done; lia. Qed.

Lemma state_ok_later config t t' state : t ≤ t' → state_ok config t state → state_ok config t' state.
Proof.
  intros Ht []. split; try done. eapply map_Forall_impl; [done|].
  intros k r Hr. eapply record_ok_mono; [done| |done]. lia.
Qed.

Lemma fits_lru config m :
  fits config (lru_list m) ↔
  N.of_nat (size m) ≤ config.(cf_max_entries) ∧ total_size m ≤ config.(cf_max_bytes).
Proof. unfold fits. by rewrite length_lru_list, sizes_lru_list. Qed.

Lemma size_delete_le {V} (m : gmap string V) k : (size (delete k m) ≤ size m)%nat.
Proof. apply map_subseteq_size, delete_subseteq. Qed.

Lemma remove_from_state_eq state key :
  remove_from_state state key =
  ({| entries := delete key state.(entries);
      total_bytes := state.(total_bytes) - from_option cr_size 0 (state.(entries) !! key);
      next_sequence := state.(next_sequence) |}, cr_entry <$> state.(entries) !! key).
Proof.
  unfold remove_from_state. destruct (entries state !! key) eqn:E; [done|]. simpl.
  rewrite delete_id, N.sub_0_r by done. by destruct state.
Qed.

Lemma remove_from_state_ok config t state key :
  state_ok config t state → state_ok config t (remove_from_state state key).1.
Proof.
  intros [Ht Hf Hr Hn]. unfold remove_from_state.
  destruct (entries state !! key) as [r|] eqn:E; [|done]. simpl.
  pose proof (total_size_delete _ _ _ E). split; simpl; [lia| |by apply map_Forall_delete|done].
  rewrite fits_lru in *. pose proof (size_delete_le (entries state) key). lia.
Qed.

Lemma remove_keys_ok config t state keys : state_ok config t state → state_ok config t (remove_keys state keys).
Proof.
  unfold remove_keys. revert state. induction keys as [|k keys IH]; intros state Hs; [done|].
  simpl. by apply IH, remove_from_state_ok.
Qed.

Lemma purge_target_ok config t state target :
  state_ok config t state → state_ok config t (purge_target state target).1.
Proof.
  intros Hs. destruct target as [key|prefix]; simpl; [|by apply remove_keys_ok].
  pose proof (remove_from_state_ok config t state key Hs) as H.
  by destruct (remove_from_state state key).
Qed.

Lemma touch_ok config t now state key r :
  t ≤ now → state_ok config t state → entries state !! key = Some r →
  state_ok config now {| entries := <[key := touch_record r now]> state.(entries);
                         total_bytes := state.(total_bytes); next_sequence := state.(next_sequence) |}.
Proof.
  intros Hle Hs E. pose proof (state_ok_later _ _ _ _ Hle Hs) as [Ht Hf Hr Hn].
  pose proof (Hr _ _ E) as [].
  assert (Hts : total_size (<[key := touch_record r now]> (entries state)) = total_size (entries state)).
  { rewrite <- insert_delete_eq, total_size_insert by apply lookup_delete_eq.
    by rewrite (total_size_delete _ _ _ E). }
  split; simpl; [by rewrite Hts| |by apply map_Forall_insert_2|done].
  rewrite fits_lru in *. rewrite Hts, map_size_insert, E. done.
Qed.

(** The record an insertion adds, and the state before the eviction. *)
Definition new_record (state : CacheStoreState) (now : Duration) (entry : HttpCacheEntry) : CacheRecord :=
  {| cr_entry := entry; cr_size := HttpCacheEntry_estimated_size metadata_size entry;
     inserted_sequence := state.(next_sequence); last_accessed_tick := cache_duration_tick now;
     cr_last_accessed_at := now |}.

Definition grown (state : CacheStoreState) (now : Duration) (key : HttpCacheKey) (entry : HttpCacheEntry) :
    gmap string CacheRecord := <[key := new_record state now entry]> state.(entries).

(** A valid entry of an acceptable size is stored: the map grows by its record, and then the
    least recently used entries go until the rest fits. *)
Lemma insert_accepted t now s key entry :
  cache_store_ok t s → t ≤ now → key ≠ EmptyString → HttpCacheEntry_validate entry = Ok tt →
  HttpCacheEntry_estimated_size metadata_size entry ≤ s.(hs_config).(cf_max_object_bytes) →
  ∃ (state : CacheStoreState) n counts,
    HttpCacheStore_insert metadata_size s now key entry =
      Some (with_store_state s state counts,
            Ok {| ir_replaced := bool_decide (is_Some (s.(hs_state).(entries) !! key));
                  ir_evicted_entries := N.of_nat n |}) ∧
    state_ok s.(hs_config) now state ∧
    state.(next_sequence) = saturating_add u64_max s.(hs_state).(next_sequence) 1 ∧
    state.(entries) ⊆ grown s.(hs_state) now key entry ∧
    lru_list state.(entries) = drop n (lru_list (grown s.(hs_state) now key entry)) ∧
    ∀ i, (i < n)%nat → ¬ fits s.(hs_config) (drop i (lru_list (grown s.(hs_state) now key entry))).
Proof.
  intros Hok Hle Hkey Hv Hsize. destruct Hok as [Hc Hroom Hs _ _].
  pose proof (state_ok_later _ _ _ _ Hle Hs) as Hs'.
  pose proof (remove_from_state_ok _ _ _ key Hs') as [Ht Hf Hr Hn].
  set (config := s.(hs_config)) in *. set (state0 := s.(hs_state)) in *.
  assert (Hmax : config.(cf_max_object_bytes) ≤ config.(cf_max_bytes)).
  { unfold HttpCacheStoreConfig_validate in Hc. repeat case_decide; try done. lia. }
  rewrite remove_from_state_eq in Ht, Hf, Hr, Hn. simpl in Ht, Hf, Hr, Hn.
  unfold HttpCacheStore_insert. rewrite Hv. fold config state0. rewrite decide_False by lia.
  rewrite remove_from_state_eq. simpl. rewrite insert_delete_eq.
  replace (if cr_entry <$> entries state0 !! key is Some _ then true else false)
    with (bool_decide (is_Some (entries state0 !! key))) by (by destruct (entries state0 !! key)).
  set (st := {| entries := _; total_bytes := _; next_sequence := _ |}).
  assert (Htot : total_bytes st = total_size (entries st)).
  { simpl. rewrite <- insert_delete_eq, total_size_insert by apply lookup_delete_eq. simpl.
    rewrite Ht. unfold saturating_add. rewrite fits_lru in Hf. lia. }
  destruct (evict_loop_lru (S (size (entries st))) st config) as
    (st' & n & Hev & Hlru & Ht' & Hseq & Hsub & Hfit & Hleast); [lia|done|].
  unfold evict_until_within_bounds. rewrite Hev. simpl.
  eexists st', n, _. split; [reflexivity|]. split; [|split; [done|split; [done|split; [done|exact Hleast]]]].
  split; [done|by rewrite Hlru| |rewrite Hseq; simpl; unfold saturating_add; lia].
  rewrite Hseq. intros k r Hk. eapply lookup_weaken in Hk; [|exact Hsub]. revert k r Hk.
  change (map_Forall (record_ok config now (next_sequence st)) (entries st)). apply map_Forall_insert_2.
  - split; simpl; try done; unfold saturating_add; lia.
  - eapply map_Forall_impl; [apply Hs'|]. intros k r Hkr. eapply record_ok_mono; [reflexivity| |exact Hkr].
    simpl. unfold saturating_add. destruct Hs. lia.
Qed.

Lemma cache_store_ok_state t s state counts :
  cache_store_ok t s → state_ok s.(hs_config) t state → cache_store_ok t (with_store_state s state counts).
Proof. intros [] ?. by split. Qed.

Lemma cache_store_ok_later t t' s : t ≤ t' → cache_store_ok t s → cache_store_ok t' s.
Proof. intros ? []. split; try done. by eapply state_ok_later. Qed.

Lemma lookup_ok t now s key : t ≤ now → cache_store_ok t s → cache_store_ok now (HttpCacheStore_lookup s now key).1.
Proof.
  intros Hle Hs. pose proof (cache_store_ok_later _ _ _ Hle Hs) as Hs'. pose proof (sk_state _ _ Hs') as Hst.
  unfold HttpCacheStore_lookup. destruct (entries (hs_state s) !! key) as [r|] eqn:E.
  2: by apply cache_store_ok_state.
  destruct (HttpCacheMetadata_freshness _ now); simpl; apply cache_store_ok_state; try done.
  - eapply touch_ok; [exact Hle|apply Hs|exact E].
  - by apply remove_from_state_ok.
Qed.

Lemma insert_cases t now s key entry :
  cache_store_ok t s → t ≤ now → key ≠ EmptyString →
  ∃ s' result, HttpCacheStore_insert metadata_size s now key entry = Some (s', result) ∧ cache_store_ok now s'.
Proof.
  intros Hs Hle Hkey. pose proof (cache_store_ok_later _ _ _ Hle Hs) as Hs'.
  destruct (HttpCacheEntry_validate entry) as [[]|e] eqn:Hv.
  2: { exists s, (Err e). unfold HttpCacheStore_insert. by rewrite Hv. }
  destruct (decide (s.(hs_config).(cf_max_object_bytes) < HttpCacheEntry_estimated_size metadata_size entry)) as [Hbig|Hfit].
  - do 2 eexists. unfold HttpCacheStore_insert. rewrite Hv, decide_True by done.
    split; [done|]. apply cache_store_ok_state; [done|apply Hs'].
  - destruct (insert_accepted t now s key entry) as (st & n & counts & Hi & Hst & _); try done; [lia|].
    do 2 eexists. split; [exact Hi|]. by apply cache_store_ok_state.
Qed.

Lemma invalidation_ok t s event :
  cache_store_ok t s → cache_store_ok t (HttpCacheStore_apply_invalidation_event s event).1.
Proof.
  intros Hs. unfold HttpCacheStore_apply_invalidation_event.
  destruct (validate_invalidation_event event); [|done]. case_decide as Hid; [done|].
  destruct (purge_target _ _) as [state purged] eqn:E.
  pose proof (purge_target_ok _ _ _ (ev_target event) (sk_state _ _ Hs)) as Hst. rewrite E in Hst.
  destruct Hs as [? ? ? Hw Hnd]. split; cbn [fst hs_config hs_state applied_invalidations]; try done.
  - rewrite length_drop, length_app. simpl. lia.
  - apply (sublist_NoDup _ (applied_invalidations s ++ [(ev_issuer event, ev_event_id event)]));
      [|apply sublist_drop].
    apply NoDup_app. split_and!; [done| |apply NoDup_singleton].
    by intros x Hx ->%list_elem_of_singleton.
Qed.

Lemma run_op_ok t now s op :
  cache_store_ok t s → t ≤ now → op_typed op → ∃ s', run_op s now op = Some s' ∧ cache_store_ok now s'.
Proof.
  intros Hs Hle Hop. pose proof (cache_store_ok_later _ _ _ Hle Hs) as Hs'. pose proof (sk_state _ _ Hs') as Hst.
  destruct op as [key|key entry|key|prefix| |event]; simpl in *.
  - eexists. split; [done|]. by eapply lookup_ok.
  - destruct (insert_cases t now s key entry Hs Hle Hop) as (s' & r & -> & Hok). by exists s'.
  - eexists. split; [done|]. unfold HttpCacheStore_remove.
    pose proof (remove_from_state_ok _ _ _ key Hst). destruct (remove_from_state _ _).
    by apply cache_store_ok_state.
  - eexists. split; [done|]. by apply cache_store_ok_state, remove_keys_ok.
  - eexists. split; [done|]. by apply cache_store_ok_state, remove_keys_ok.
  - eexists. split; [done|]. by apply invalidation_ok.
Qed.

Lemma new_store_ok config s :
  2 * config.(cf_max_bytes) ≤ u64_max → HttpCacheStore_new config = Ok s → cache_store_ok 0 s.
Proof.
  unfold HttpCacheStore_new. intros Hroom. destruct (HttpCacheStoreConfig_validate config) as [[]|] eqn:E; [|done].
  simpl. intros [= <-]. split; simpl; try done; [|lia|constructor].
  split; simpl; [done| |apply map_Forall_empty|by vm_compute].
  unfold fits, lru_list, CacheStoreState_default. simpl. rewrite map_to_list_empty. unfold sizes. simpl. lia.
Qed.

Lemma run_op_config s now op s' : run_op s now op = Some s' → s'.(hs_config) = s.(hs_config).
Proof.
  destruct op as [key|key entry|key|prefix| |event]; simpl.
  - intros [= <-]. unfold HttpCacheStore_lookup. destruct (_ !! _); [|done].
    by destruct (HttpCacheMetadata_freshness _ _).
  - unfold HttpCacheStore_insert. destruct (HttpCacheEntry_validate entry); [|by intros [= <-]].
    case_decide; [by intros [= <-]|]. destruct (remove_from_state _ _).
    destruct (evict_until_within_bounds _ _) as [[]|]; [by intros [= <-]|done].
  - intros [= <-]. unfold HttpCacheStore_remove. by destruct (remove_from_state _ _).
  - by intros [= <-].
  - by intros [= <-].
  - intros [= <-]. unfold HttpCacheStore_apply_invalidation_event.
    destruct (validate_invalidation_event event); [|done]. case_decide; [done|]. by destruct (purge_target _ _).
Qed.

Lemma cache_reachable_ok config t s :
  2 * config.(cf_max_bytes) ≤ u64_max → cache_reachable config t s → cache_store_ok t s ∧ s.(hs_config) = config.
Proof.
  intros Hroom. induction 1 as [s Hnew|t now s op s' Hr [IH Hcfg] Hle Hop Hrun].
  { split; [by eapply new_store_ok|]. unfold HttpCacheStore_new in Hnew.
    destruct (HttpCacheStoreConfig_validate config); [|done]. by injection Hnew as <-. }
  destruct (run_op_ok _ _ _ _ IH Hle Hop) as (s'' & Hrun' & Hok).
  rewrite Hrun in Hrun'. injection Hrun' as <-. split; [done|]. by rewrite (run_op_config _ _ _ _ Hrun).
Qed.

(** ** The newest entry survives its own insertion *)

Lemma sorted_last {A} (R : A → A → Prop) l x z :
  StronglySorted R l → x ∈ l → last l = Some z → x = z ∨ R x z.
Proof.
  induction 1 as [|y l Hs IH Hy]; [by intros ?%elem_of_nil|].
  destruct l as [|y' l]; [intros ->%list_elem_of_singleton [= ->]; by left|].
  change (last (y :: y' :: l)) with (last (y' :: l)). intros [->|Hx]%elem_of_cons Hl; [|by apply IH].
  right. rewrite Forall_forall in Hy. apply Hy. by apply last_Some_elem_of.
Qed.

Lemma cache_duration_tick_mono a b : a ≤ b → cache_duration_tick a ≤ cache_duration_tick b.
Proof. intros H. unfold cache_duration_tick, as_millis. pose proof (N.Div0.div_le_mono a b 1000000 H). lia. Qed.

Lemma new_record_newest config t now state key entry k r :
  state_ok config t state → t ≤ now → state.(next_sequence) < u64_max → state.(entries) !! k = Some r →
  lru_key_cmp (lru_order (k, r)) (lru_order (key, new_record state now entry)) = Lt.
Proof.
  intros Hs Hle Hn Hk. pose proof (so_records _ _ _ Hs _ _ Hk) as [_ _ _ _ Htick Hpast Hseq].
  pose proof (cache_duration_tick_mono (cr_last_accessed_at r) now ltac:(lia)) as Hm.
  unfold lru_key_cmp, lru_cmp, lex_cmp, lru_order, lru_rank. simpl. rewrite Htick.
  destruct (N.compare_spec (cache_duration_tick (cr_last_accessed_at r)) (cache_duration_tick now)); simpl; [|done|lia].
  destruct (N.compare_spec (inserted_sequence r) (next_sequence state)); simpl; [lia|done|lia].
Qed.

Lemma grown_last config t now state key entry :
  state_ok config t state → t ≤ now → state.(next_sequence) < u64_max →
  last (lru_list (grown state now key entry)) = Some (key, new_record state now entry).
Proof.
  intros Hs Hle Hn. set (m := grown state now key entry).
  assert (Hnew : m !! key = Some (new_record state now entry)) by apply lookup_insert_eq.
  pose proof (proj2 (elem_of_lru_list _ _ _) Hnew) as Hin.
  destruct (last (lru_list m)) as [[k r]|] eqn:El.
  2: { apply last_None in El. rewrite El in Hin. by apply elem_of_nil in Hin. }
  pose proof (last_Some_elem_of _ _ El) as Hk. apply elem_of_lru_list in Hk.
  destruct (decide (k = key)) as [->|Hne]; [by rewrite Hnew in Hk; injection Hk as ->|].
  assert (Hk' : entries state !! k = Some r) by (by unfold m, grown in Hk; rewrite lookup_insert_ne in Hk).
  pose proof (new_record_newest _ _ _ _ key entry _ _ Hs Hle Hn Hk') as Hlt.
  destruct (sorted_last _ _ _ _ (sort_by_sorted lru_order lru_key_cmp (map_to_list m)) Hin El) as [E|Hge].
  - by injection E.
  - destruct Hge. by apply (cmp_gt_lt lru_key_cmp).
Qed.

Lemma insert_kept t now s key entry state n :
  cache_store_ok t s → t ≤ now → s.(hs_state).(next_sequence) < u64_max →
  HttpCacheEntry_estimated_size metadata_size entry ≤ s.(hs_config).(cf_max_object_bytes) →
  lru_list state.(entries) = drop n (lru_list (grown s.(hs_state) now key entry)) →
  (∀ i, (i < n)%nat → ¬ fits s.(hs_config) (drop i (lru_list (grown s.(hs_state) now key entry)))) →
  state.(entries) !! key = Some (new_record s.(hs_state) now entry).
Proof.
  intros Hok Hle Hn Hsize Hlru Hleast. destruct Hok as [Hc _ Hs _ _].
  apply elem_of_lru_list. rewrite Hlru.
  pose proof (grown_last _ _ _ _ key entry Hs Hle Hn) as [l Hl]%last_Some. rewrite Hl in Hleast |- *.
  destruct (decide (n ≤ length l)%nat) as [Hnl|Hnl].
  { rewrite drop_app_le by done. apply elem_of_app. right. by left. }
  destruct (Hleast (length l)); [lia|]. rewrite drop_app_length. unfold fits, sizes. simpl.
  unfold HttpCacheStoreConfig_validate in Hc. repeat case_decide; try done. lia.
Qed.

(** ** A cache is a lossy map

    The abstract cache keeps everything that was stored until it is removed, purged or found
    expired.  The store may forget an entry earlier, and nothing else. *)

Record AbstractCache := { ac_entries : gmap string HttpCacheEntry; ac_applied : list (string * string) }.

Definition contents (s : HttpCacheStore) : gmap string HttpCacheEntry := cr_entry <$> s.(hs_state).(entries).

Definition expired_at (now : Duration) (e : HttpCacheEntry) : Prop :=
  HttpCacheMetadata_expires_at e.(ce_metadata) ≤ now.

#[export] Instance expired_at_dec now e : Decision (expired_at now e).
Proof. unfold expired_at. apply _. Defined.

Definition targeted (target : HttpCacheInvalidationTarget) (key : string) : Prop :=
  match target with
  | ExactKey k => key = k
  | PathPrefix prefix => storage_key_matches_path_prefix key prefix = true
  end.

#[export] Instance targeted_dec target key : Decision (targeted target key).
Proof. destruct target; simpl; apply _. Defined.

Definition abstract_op (config : HttpCacheStoreConfig) (a : AbstractCache) (now : Duration) (op : cache_op) :
    AbstractCache :=
  let keep m := {| ac_entries := m; ac_applied := a.(ac_applied) |} in
  match op with
  | OpLookup key => keep (filter (λ ke, ¬ (ke.1 = key ∧ expired_at now ke.2)) a.(ac_entries))
  | OpInsert key entry =>
      match HttpCacheEntry_validate entry with
      | Ok _ => if decide (HttpCacheEntry_estimated_size metadata_size entry ≤ config.(cf_max_object_bytes))
                then keep (<[key := entry]> a.(ac_entries)) else a
      | Err _ => a
      end
  | OpRemove key => keep (delete key a.(ac_entries))
  | OpPurgePathPrefix prefix => keep (filter (λ ke, ¬ targeted (PathPrefix prefix) ke.1) a.(ac_entries))
  | OpPurgeExpired => keep (filter (λ ke, ¬ expired_at now ke.2) a.(ac_entries))
  | OpInvalidate event =>
      let id := (event.(ev_issuer), event.(ev_event_id)) in
      match validate_invalidation_event event with
      | Ok _ =>
          if decide (id ∈ a.(ac_applied)) then a
          else {| ac_entries := filter (λ ke, ¬ targeted event.(ev_target) ke.1) a.(ac_entries);
                  ac_applied := drop (length a.(ac_applied) - 255) (a.(ac_applied) ++ [id]) |}
      | Err _ => a
      end
  end.

(** The store holds a part of what the abstract cache holds. *)
Definition refines (s : HttpCacheStore) (a : AbstractCache) : Prop :=
  contents s ⊆ a.(ac_entries) ∧ s.(applied_invalidations) = a.(ac_applied).

Lemma contents_lookup s k e : contents s !! k = Some e ↔ ∃ r, s.(hs_state).(entries) !! k = Some r ∧ r.(cr_entry) = e.
Proof. unfold contents. rewrite lookup_fmap_Some. naive_solver. Qed.

Lemma remove_keys_lookup state keys k r :
  (remove_keys state keys).(entries) !! k = Some r ↔ k ∉ keys ∧ state.(entries) !! k = Some r.
Proof.
  unfold remove_keys. revert state. induction keys as [|k' keys IH]; intros state; simpl.
  { split; [|tauto]. intros ?. split; [apply not_elem_of_nil|done]. }
  rewrite IH, remove_from_state_eq. simpl. rewrite not_elem_of_cons, lookup_delete_Some. naive_solver.
Qed.

Lemma elem_of_matching_keys state prefix k r :
  state.(entries) !! k = Some r →
  k ∈ List.filter (λ key, storage_key_matches_path_prefix key prefix) (btree_iter state.(entries)).*1 ↔
  storage_key_matches_path_prefix k prefix = true.
Proof.
  intros Hk. rewrite list_elem_of_In, filter_In, <- list_elem_of_In, list_elem_of_fmap.
  split; [tauto|]. intros Hm. split; [|done]. exists (k, r). by rewrite elem_of_btree_iter.
Qed.

Lemma elem_of_expired_keys state now k r :
  state.(entries) !! k = Some r →
  k ∈ (List.filter (λ kr, bool_decide (HttpCacheMetadata_expires_at kr.2.(cr_entry).(ce_metadata) ≤ now))
         (btree_iter state.(entries))).*1 ↔ expired_at now r.(cr_entry).
Proof.
  intros Hk. rewrite list_elem_of_fmap. split.
  - intros ([k' r'] & -> & Hin). rewrite list_elem_of_In, filter_In, <- list_elem_of_In, elem_of_btree_iter in Hin.
    destruct Hin as [Hin Hb]. simpl in *. rewrite Hk in Hin. injection Hin as ->. by apply bool_decide_eq_true in Hb.
  - intros He. exists (k, r). split; [done|]. rewrite list_elem_of_In, filter_In, <- list_elem_of_In, elem_of_btree_iter.
    split; [done|]. by apply bool_decide_eq_true.
Qed.

Lemma purge_target_lookup state target k r :
  (purge_target state target).1.(entries) !! k = Some r ↔ ¬ targeted target k ∧ state.(entries) !! k = Some r.
Proof.
  destruct target as [key|prefix]; simpl.
  - rewrite remove_from_state_eq. simpl. rewrite lookup_delete_Some. naive_solver.
  - rewrite remove_keys_lookup. split; intros [Hm Hk]; (split; [|done]); by rewrite elem_of_matching_keys in *.
Qed.

(** An entry has no freshness exactly when it has passed its expiry. *)
Lemma freshness_none m now : HttpCacheMetadata_freshness m now = None ↔ HttpCacheMetadata_expires_at m ≤ now.
Proof.
  unfold HttpCacheMetadata_freshness, HttpCacheMetadata_expires_at, HttpCacheMetadata_is_fresh,
    HttpCacheMetadata_allows_stale_while_revalidate, HttpCacheMetadata_allows_stale_if_error, before_deadline.
  case_decide as He; [done|]. split; [|done].
  destruct (stale_while_revalidate_until m), (stale_if_error_until m); repeat case_bool_decide; try done; lia.
Qed.

Lemma abstract_insert_refines t now s a key entry s' r :
  cache_store_ok t s → t ≤ now → key ≠ EmptyString → refines s a →
  HttpCacheStore_insert metadata_size s now key entry = Some (s', r) →
  refines s' (abstract_op s.(hs_config) a now (OpInsert key entry)).
Proof.
  intros Hs Hle Hkey [Hsub Hw] Hi. simpl. destruct (HttpCacheEntry_validate entry) as [[]|e] eqn:Hv.
  2: { unfold HttpCacheStore_insert in Hi. rewrite Hv in Hi. by injection Hi as <- <-. }
  case_decide as Hsize.
  2: { unfold HttpCacheStore_insert in Hi. rewrite Hv, decide_True in Hi by lia. by injection Hi as <- <-. }
  destruct (insert_accepted t now s key entry) as (st & n & counts & Hi' & _ & _ & Hst & _); try done.
  rewrite Hi in Hi'. injection Hi' as -> _. split; [|done]. simpl.
  apply map_subseteq_spec. intros k e. rewrite contents_lookup. simpl. intros (rec & Hk & <-).
  eapply lookup_weaken in Hk; [|exact Hst]. unfold grown in Hk.
  destruct (decide (k = key)) as [->|Hne].
  - rewrite lookup_insert_eq in Hk. rewrite lookup_insert_eq. by injection Hk as <-.
  - rewrite lookup_insert_ne in Hk by done. rewrite lookup_insert_ne by done. eapply lookup_weaken; [|exact Hsub].
    apply contents_lookup. eauto.
Qed.

(** A filter of the abstract map keeps what the store keeps. *)
Lemma refines_filter s a state counts (P : string * HttpCacheEntry → Prop) `{!∀ x, Decision (P x)} :
  refines s a →
  (∀ k r, state.(entries) !! k = Some r →
     P (k, r.(cr_entry)) ∧ ∃ r', s.(hs_state).(entries) !! k = Some r' ∧ r'.(cr_entry) = r.(cr_entry)) →
  refines (with_store_state s state counts) {| ac_entries := filter P a.(ac_entries); ac_applied := a.(ac_applied) |}.
Proof.
  intros [Hsub Hw] Hst. split; [|done]. simpl. apply map_subseteq_spec. intros k e.
  rewrite contents_lookup. simpl. intros (r & Hk & <-). destruct (Hst _ _ Hk) as [HP Hr].
  apply map_lookup_filter_Some. split; [|done]. eapply lookup_weaken; [|exact Hsub]. by apply contents_lookup.
Qed.

Lemma abstract_lookup_refines s a now key :
  refines s a → refines (HttpCacheStore_lookup s now key).1 (abstract_op s.(hs_config) a now (OpLookup key)).
Proof.
  intros Hr. unfold HttpCacheStore_lookup.
  destruct (entries (hs_state s) !! key) as [rec|] eqn:E; [destruct (HttpCacheMetadata_freshness _ now) eqn:F|];
    simpl; apply refines_filter; try done; simpl; intros k r Hk.
  - assert (Hlive : ¬ expired_at now (cr_entry rec)) by (unfold expired_at; rewrite <- freshness_none; by rewrite F).
    destruct (decide (key = k)) as [<-|Hne].
    + rewrite lookup_insert_eq in Hk. injection Hk as <-. simpl. split; [tauto|]. by exists rec.
    + rewrite lookup_insert_ne in Hk by done. split; [naive_solver|eauto].
  - rewrite remove_from_state_eq in Hk. simpl in Hk. apply lookup_delete_Some in Hk as [Hne Hk].
    split; [naive_solver|eauto].
  - split; [|eauto]. intros [-> _]. congruence.
Qed.

Lemma run_op_refines t now s a op s' :
  cache_store_ok t s → t ≤ now → op_typed op → refines s a → run_op s now op = Some s' →
  refines s' (abstract_op s.(hs_config) a now op).
Proof.
  intros Hs Hle Hop Hr Hrun. destruct op as [key|key entry|key|prefix| |event]; cbn [run_op] in Hrun.
  - injection Hrun as <-. by apply abstract_lookup_refines.
  - destruct (HttpCacheStore_insert _ _ _ _ _) as [[s1 r]|] eqn:E; [|done]. injection Hrun as <-.
    by eapply abstract_insert_refines.
  - injection Hrun as <-. unfold HttpCacheStore_remove. rewrite remove_from_state_eq. destruct Hr as [Hsub Hw].
    split; [|done]. simpl. unfold contents. simpl. rewrite fmap_delete. by apply delete_mono.
  - injection Hrun as <-. apply (refines_filter s); [done|]. intros k r Hk.
    apply (purge_target_lookup _ (PathPrefix prefix)) in Hk as [Ht Hk]. eauto.
  - injection Hrun as <-. apply (refines_filter s); [done|]. intros k r Hk.
    apply remove_keys_lookup in Hk as [Hn Hk]. rewrite elem_of_expired_keys in Hn by done. eauto.
  - injection Hrun as <-. unfold HttpCacheStore_apply_invalidation_event. simpl.
    destruct (validate_invalidation_event event); [|done]. destruct Hr as [Hsub Hw]. rewrite <- Hw.
    case_decide; [done|]. destruct (purge_target (hs_state s) (ev_target event)) as [st n] eqn:E.
    split; cbn [fst applied_invalidations ac_applied ac_entries];
      [|f_equal; rewrite length_app; simpl; lia].
    apply (refines_filter s a st (hs_counts s)); [by split|]. intros k r Hk.
    apply (f_equal (entries ∘ fst)) in E. simpl in E. rewrite <- E in Hk.
    apply purge_target_lookup in Hk as [Ht Hk]. eauto.
Qed.

(** A history of operations, at times that do not decrease. *)
Fixpoint clocked (t : Duration) (history : list (Duration * cache_op)) : Prop :=
  match history with
  | [] => True
  | (now, op) :: history => t ≤ now ∧ op_typed op ∧ clocked now history
  end.

Fixpoint run_ops (s : HttpCacheStore) (history : list (Duration * cache_op)) : option HttpCacheStore :=
  match history with
  | [] => Some s
  | (now, op) :: history => s ← run_op s now op; run_ops s history
  end.

Definition abstract_ops (config : HttpCacheStoreConfig) (history : list (Duration * cache_op)) : AbstractCache :=
  foldl (λ a now_op, abstract_op config a now_op.1 now_op.2) {| ac_entries := ∅; ac_applied := [] |} history.

Lemma run_ops_refines t s a history :
  cache_store_ok t s → clocked t history → refines s a →
  ∃ s' t', run_ops s history = Some s' ∧ cache_store_ok t' s' ∧
    refines s' (foldl (λ a now_op, abstract_op s.(hs_config) a now_op.1 now_op.2) a history).
Proof.
  revert t s a. induction history as [|[now op] history IH]; intros t s a Hs Hc Hr; simpl; [eauto|].
  destruct Hc as (Hle & Hop & Hc). destruct (run_op_ok _ _ _ _ Hs Hle Hop) as (s1 & Hrun & Hs1).
  rewrite Hrun. simpl. pose proof (run_op_refines _ _ _ _ _ _ Hs Hle Hop Hr Hrun) as Hr1.
  rewrite <- (run_op_config _ _ _ _ Hrun) in Hr1 |- *. by apply (IH now).
Qed.
End store.

(** ** Deliveries of the bus *)

Definition event_id (event : HttpCacheInvalidationEvent) : string * string :=
  (event.(ev_issuer), event.(ev_event_id)).

Definition invalidated (event : HttpCacheInvalidationEvent) (s : HttpCacheStore) : HttpCacheStore :=
  (HttpCacheStore_apply_invalidation_event s event).1.

(** The subscribers of the event's scope, and the stores they hold. *)
Definition in_scope (bus : HttpCacheInvalidationBus) (event : HttpCacheInvalidationEvent) :
    list HttpCacheStoreInvalidationSubscriber := filter (λ sub, sub.(sb_scope) = event.(ev_scope)) bus.

Lemma invalidated_duplicate event s :
  validate_invalidation_event event = Ok tt → event_id event ∈ s.(applied_invalidations) →
  HttpCacheStore_apply_invalidation_event s event = (s, Ok InvalidationDuplicate).
Proof. intros Hv Hid. unfold HttpCacheStore_apply_invalidation_event. by rewrite Hv, decide_True. Qed.

(** A new event purges its target, all of it and nothing else, and is remembered. *)
Lemma invalidated_new event s :
  validate_invalidation_event event = Ok tt → event_id event ∉ s.(applied_invalidations) →
  event_id event ∈ (invalidated event s).(applied_invalidations) ∧
  (∀ k r, (invalidated event s).(hs_state).(entries) !! k = Some r ↔
          ¬ targeted event.(ev_target) k ∧ s.(hs_state).(entries) !! k = Some r) ∧
  ∃ n, (HttpCacheStore_apply_invalidation_event s event).2 = Ok (InvalidationApplied n).
Proof.
  intros Hv Hid. unfold invalidated, HttpCacheStore_apply_invalidation_event. rewrite Hv, decide_False by done.
  pose proof (purge_target_lookup (hs_state s) (ev_target event)) as Hp.
  destruct (purge_target _ _) as [state n]. simpl in *. split; [|split; [done|by exists n]].
  rewrite drop_app_le by (rewrite length_app; simpl; lia).
  apply elem_of_app. right. by left.
Qed.

Lemma invalidated_remembered event s :
  validate_invalidation_event event = Ok tt → event_id event ∈ (invalidated event s).(applied_invalidations).
Proof.
  intros Hv. destruct (decide (event_id event ∈ s.(applied_invalidations))) as [Hid|Hid].
  - unfold invalidated. by rewrite invalidated_duplicate.
  - by apply invalidated_new.
Qed.

Lemma invalidated_idemp event s :
  validate_invalidation_event event = Ok tt → invalidated event (invalidated event s) = invalidated event s.
Proof.
  intros Hv. unfold invalidated at 1.
  by rewrite (invalidated_duplicate event (invalidated event s)) by (done || by apply invalidated_remembered).
Qed.

(** What the counters of a publish say of each other. *)
Definition deliveries_counted (r : HttpCacheInvalidationPublishResult) : Prop :=
  r.(pr_delivery_success_count) = r.(pr_subscriber_count) ∧
  r.(pr_applied_count) + r.(pr_duplicate_count) = r.(pr_subscriber_count) ∧
  r.(pr_delivery_failure_count) = 0 ∧ r.(pr_failed_targets) = [].

Lemma count_delivery_counted r o :
  deliveries_counted r → deliveries_counted (count_delivery r o) ∧
  (count_delivery r o).(pr_subscriber_count) = r.(pr_subscriber_count) + 1.
Proof. unfold deliveries_counted. destruct o; simpl; intros (? & ? & ? & ?); split_and!; (done || lia). Qed.

Lemma deliver_spec event bus stores r :
  validate_invalidation_event event = Ok tt → deliveries_counted r →
  Forall (λ sub, sub.(sb_store) < length stores)%nat bus →
  ∃ r', deliver bus stores event r =
          Some (foldl (λ st sub, alter (invalidated event) sub.(sb_store) st) stores (in_scope bus event), Ok r') ∧
        deliveries_counted r' ∧
        r'.(pr_subscriber_count) = r.(pr_subscriber_count) + N.of_nat (length (in_scope bus event)).
Proof.
  intros Hv. revert stores r. induction bus as [|sub bus IH]; intros stores r Hr Hb; simpl.
  { exists r. split_and!; try apply Hr; try done. simpl. lia. }
  apply Forall_cons in Hb as [Hlt Hb]. unfold in_scope. rewrite filter_cons.
  destruct (decide (sb_scope sub = ev_scope event)) as [Hsc|Hsc]; [|by apply IH].
  unfold HttpCacheStoreInvalidationSubscriber_apply.
  destruct (lookup_lt_is_Some_2 _ _ Hlt) as [s Hs]. rewrite Hs. simpl.
  destruct (HttpCacheStore_apply_invalidation_event s event) as [s1 o] eqn:E. simpl.
  assert (Ho : ∃ o', o = Ok o').
  { destruct (decide (event_id event ∈ s.(applied_invalidations))) as [Hid|Hid].
    - rewrite invalidated_duplicate in E by done. injection E as _ <-. eauto.
    - destruct (invalidated_new event s Hv Hid) as (_ & _ & n & Hn). rewrite E in Hn. eauto. }
  destruct Ho as [o' ->]. destruct (count_delivery_counted r o' Hr) as [Hr' Hn'].
  replace (<[sb_store sub := s1]> stores) with (alter (invalidated event) (sb_store sub) stores).
  2: { rewrite <- (list_insert_id (alter _ _ _) (sb_store sub) s1).
       - apply list_eq. intros i. destruct (decide (sb_store sub = i)) as [<-|Hne].
         + rewrite !list_lookup_insert_eq; [done|done|by rewrite length_alter].
         + by rewrite !list_lookup_insert_ne, list_lookup_alter_ne.
       - rewrite list_lookup_alter_eq, Hs. simpl. unfold invalidated. by rewrite E. }
  destruct (IH (alter (invalidated event) (sb_store sub) stores) (count_delivery r o') Hr') as (r' & Hd & Hc & Hn).
  { eapply Forall_impl; [exact Hb|]. intros x. by rewrite length_alter. }
  exists r'. split_and!; try apply Hc; [exact Hd|]. rewrite Hn, Hn'. simpl. unfold in_scope. lia.
Qed.

Lemma foldl_alter_lookup {A} (f : A → A) (subs : list HttpCacheStoreInvalidationSubscriber) (l : list A) i :
  (∀ x, f (f x) = f x) →
  foldl (λ st sub, alter f sub.(sb_store) st) l subs !! i =
  (if decide (i ∈ sb_store <$> subs) then f <$> l !! i else l !! i).
Proof.
  intros Hf. revert l. induction subs as [|sub subs IH]; intros l; [done|]. rewrite fmap_cons. cbn [foldl].
  rewrite IH. destruct (decide (sb_store sub = i)) as [<-|Hne].
  - rewrite list_lookup_alter_eq. rewrite (decide_True (P := _ ∈ _ :: _)) by (by left).
    case_decide; [|done]. destruct (l !! sb_store sub); simpl; by rewrite ?Hf.
  - rewrite list_lookup_alter_ne by done. apply decide_ext. rewrite elem_of_cons. naive_solver.
Qed.

Lemma publish_spec bus stores event :
  validate_invalidation_event event = Ok tt → Forall (λ sub, sub.(sb_store) < length stores)%nat bus →
  ∃ stores' r, HttpCacheInvalidationBus_publish bus stores event = Some (stores', Ok r) ∧ deliveries_counted r ∧
    r.(pr_subscriber_count) = N.of_nat (length (in_scope bus event)) ∧
    (∀ i, stores' !! i = if decide (i ∈ sb_store <$> in_scope bus event)
                         then invalidated event <$> stores !! i else stores !! i) ∧
    length stores' = length stores.
Proof.
  intros Hv Hb. unfold HttpCacheInvalidationBus_publish. rewrite Hv.
  destruct (deliver_spec event bus stores HttpCacheInvalidationPublishResult_default Hv) as (r & -> & Hc & Hn); [done..|].
  eexists _, r. split; [done|]. split; [done|]. split; [done|]. split.
  - intros i. apply foldl_alter_lookup. intros x. by apply invalidated_idemp.
  - clear. revert stores. induction (in_scope bus event) as [|sub l IH]; intros stores; simpl; [done|].
    by rewrite IH, length_alter.
Qed.

Lemma foldr_max_le {A} (f : A → N) (l : list A) n : (∀ x, x ∈ l → f x ≤ n) → foldr (λ x n, N.max (f x) n) 0 l ≤ n.
Proof.
  induction l as [|x l IH]; intros H; simpl; [lia|]. pose proof (H x ltac:(by left)).
  pose proof (IH (λ y Hy, H y (list_elem_of_further _ _ _ Hy))). lia.
Qed.

Lemma new_store_refines config s :
  HttpCacheStore_new config = Ok s → refines s {| ac_entries := ∅; ac_applied := [] |}.
Proof.
  unfold HttpCacheStore_new. destruct (HttpCacheStoreConfig_validate config); [|done]. simpl. intros [= <-].
  split; [|done]. unfold contents. simpl. by rewrite fmap_empty.
Qed.

Lemma lookup_found s now key found :
  (HttpCacheStore_lookup s now key).2 = Some found →
  ∃ r, s.(hs_state).(entries) !! key = Some r ∧ r.(cr_entry) = found.(lk_entry) ∧
    HttpCacheMetadata_freshness found.(lk_entry).(ce_metadata) now = Some found.(lk_freshness).
Proof.
  unfold HttpCacheStore_lookup. destruct (entries (hs_state s) !! key) as [r|]; [|done].
  destruct (HttpCacheMetadata_freshness _ now) eqn:F; [|done]. simpl. intros [= <-]. by exists r.
Qed.

(** ** Properties *)

Definition sample_config : HttpCacheStoreConfig :=
  {| cf_max_entries := 2; cf_max_bytes := 300; cf_max_object_bytes := 150 |}.

Definition sample_entry (body : string) : HttpCacheEntry :=
  {| ce_metadata := {| hm_status := 200; stored_at := 0; fresh_until := 5000; stale_while_revalidate_until := None;
                       stale_if_error_until := Some 9000; hm_etag := Some "x"; hm_last_modified := None |};
     ce_headers := [{| ch_name := "content-type"; ch_value := "text/plain" |}]; ce_body := body |}.

(** A new store, and the same after one and after two insertions. *)
Definition sample_new : HttpCacheStore :=
  {| hs_config := sample_config; hs_state := CacheStoreState_default;
     hs_counts := {| hit_count := 0; miss_count := 0; insert_count := 0; replace_count := 0;
                     eviction_count := 0; expiration_count := 0; rejected_insert_count := 0 |};
     applied_invalidations := [] |}.
Definition sample_one : HttpCacheStore :=
  default sample_new (run_op 100 sample_new 1000 (OpInsert "path=/a" (sample_entry "one"))).
Definition sample_store : HttpCacheStore :=
  default sample_one (run_op 100 sample_one 2000 (OpInsert "path=/a/b" (sample_entry "two"))).

Lemma sample_reachable : cache_reachable 100 sample_config 2000 sample_store.
Proof.
  apply (reachable_op 100 sample_config 1000 2000 sample_one (OpInsert "path=/a/b" (sample_entry "two")));
    [|lia|done|vm_compute; reflexivity].
  apply (reachable_op 100 sample_config 0 1000 sample_new (OpInsert "path=/a" (sample_entry "one")));
    [|lia|done|vm_compute; reflexivity].
  apply reachable_new. reflexivity.
Defined.

Definition sample_invalidation (id : string) : HttpCacheInvalidationEvent :=
  {| ev_event_id := id; ev_scope := "edge"; ev_issuer := "admin"; ev_target := PathPrefix "/a";
     ev_occurred_at_unix_ms := 7 |}.

Definition sample_bus : list HttpCacheStoreInvalidationSubscriber :=
  HttpCacheInvalidationBus_register
    (HttpCacheInvalidationBus_register [] {| sb_scope := "edge"; sb_store := 0 |})
    {| sb_scope := "other"; sb_store := 1 |}.

(** C11: every store that operations reach from a new one is well formed (its records have
    non-empty keys, valid metadata, the size of their entry and a last access that is not in the
    future; the bytes are the sum of the sizes; at most 256 invalidations are remembered, each
    once), and no operation on it gets stuck: eviction ends and leaves a well-formed store. *)
Theorem cache_store_well_formed metadata_size config t s :
  2 * config.(cf_max_bytes) ≤ u64_max → cache_reachable metadata_size config t s →
  cache_store_ok metadata_size t s ∧
  ∀ now op, t ≤ now → op_typed op →
    ∃ s', run_op metadata_size s now op = Some s' ∧ cache_store_ok metadata_size now s'.
Proof.
  intros Hroom Hr. destruct (cache_reachable_ok _ _ _ _ Hroom Hr) as [Hok _]. split; [done|].
  intros now op Hle Hop. by eapply run_op_ok.
Qed.

Lemma cache_store_well_formed_witness :
  ∃ s', run_op 100 sample_store 3000 (OpInsert "path=/c" (sample_entry "three")) = Some s' ∧ cache_store_ok 100 3000 s'.
Proof.
  eapply (proj2 (cache_store_well_formed 100 sample_config 2000 sample_store ltac:(vm_compute; done) sample_reachable));
    [lia|done].
Defined.

(** C10: the cache stays within its configuration: the metrics of a reachable store report at most
    [max_entries] entries, at most [max_bytes] bytes in total and no object above
    [max_object_bytes], and the total is the sum of the reported object sizes. *)
Theorem cache_store_bounded metadata_size config t s :
  2 * config.(cf_max_bytes) ≤ u64_max → cache_reachable metadata_size config t s →
  (HttpCacheStore_metrics s).(mt_entry_count) ≤ config.(cf_max_entries) ∧
  (HttpCacheStore_metrics s).(mt_total_bytes) ≤ config.(cf_max_bytes) ∧
  (HttpCacheStore_metrics s).(mt_max_object_bytes) ≤ config.(cf_max_object_bytes) ∧
  (HttpCacheStore_metrics s).(mt_total_bytes) =
    foldr (λ e n, e.(sn_size) + n) 0 (HttpCacheStore_snapshot s).(sn_entries).
Proof.
  intros Hroom Hr. destruct (cache_reachable_ok _ _ _ _ Hroom Hr) as [[_ _ [Ht Hf Hrec _] _ _] <-].
  rewrite fits_lru in Hf. destruct Hf as [Hn Hb]. simpl. split_and!; [done|lia| |].
  - apply foldr_max_le. intros [k r] Hin%elem_of_btree_iter. by apply (ro_bound _ _ _ _ _ _ (Hrec _ _ Hin)).
  - rewrite Ht. unfold total_size. rewrite <- btree_iter_perm. unfold sizes. by rewrite foldr_fmap.
Qed.

Lemma cache_store_bounded_witness : (HttpCacheStore_metrics sample_store).(mt_total_bytes) ≤ 300.
Proof.
  apply (cache_store_bounded 100 sample_config 2000 sample_store); [vm_compute; done|apply sample_reachable].
Defined.

(** Eviction is least-recently-used: on a state whose byte count is exact, the loop ends, and it
    is the same as listing the entries by last access, insertion and key and dropping the shortest
    prefix after which the rest fits both bounds; it reports the length of that prefix. *)
Theorem eviction_is_lru state config :
  state.(total_bytes) = total_size state.(entries) →
  ∃ (state' : CacheStoreState) n, evict_until_within_bounds state config = Some (state', N.of_nat n) ∧
    lru_list state'.(entries) = drop n (lru_list state.(entries)) ∧
    state'.(total_bytes) = total_size state'.(entries) ∧
    fits config (drop n (lru_list state.(entries))) ∧
    ∀ i, (i < n)%nat → ¬ fits config (drop i (lru_list state.(entries))).
Proof.
  intros Ht. destruct (evict_loop_lru (S (size state.(entries))) state config ltac:(lia) Ht)
    as (state' & n & He & Hl & Ht' & _ & _ & Hf & Hleast). exists state', n. eauto 10.
Qed.

Lemma eviction_is_lru_witness :
  ∃ (state' : CacheStoreState) n,
    evict_until_within_bounds sample_store.(hs_state)
      {| cf_max_entries := 1; cf_max_bytes := 300; cf_max_object_bytes := 150 |} = Some (state', N.of_nat n) ∧
    lru_list state'.(entries) = drop n (lru_list sample_store.(hs_state).(entries)).
Proof.
  destruct (eviction_is_lru sample_store.(hs_state)
      {| cf_max_entries := 1; cf_max_bytes := 300; cf_max_object_bytes := 150 |}
      ltac:(vm_compute; reflexivity)) as (state' & n & He & Hl & _).
  exists state', n. split; [exact He|exact Hl].
Defined.

(** C9: the cache never serves anything but the last write.  After any history of operations at
    times that do not decrease, a store holds a part of what a map that forgets nothing holds
    after the same history, where a removal, a purge, an invalidation that is not a duplicate and
    an expired lookup delete; so an entry a lookup returns is the last one stored under that key
    and not deleted since, it has not expired, and the freshness reported is its own. *)
Theorem cache_is_lossy_map metadata_size config s history :
  2 * config.(cf_max_bytes) ≤ u64_max → HttpCacheStore_new config = Ok s → clocked 0 history →
  ∃ s', run_ops metadata_size s history = Some s' ∧
    contents s' ⊆ (abstract_ops metadata_size config history).(ac_entries) ∧
    ∀ now key found, (HttpCacheStore_lookup s' now key).2 = Some found →
      (abstract_ops metadata_size config history).(ac_entries) !! key = Some found.(lk_entry) ∧
      ¬ expired_at now found.(lk_entry) ∧
      HttpCacheMetadata_freshness found.(lk_entry).(ce_metadata) now = Some found.(lk_freshness).
Proof.
  intros Hroom Hnew Hc. destruct (cache_reachable_ok metadata_size _ _ _ Hroom (reachable_new _ _ _ Hnew)) as [Hok Hcfg].
  assert (Hempty : refines s {| ac_entries := ∅; ac_applied := [] |}) by (by eapply new_store_refines).
  destruct (run_ops_refines _ _ _ _ _ Hok Hc Hempty) as (s' & t' & Hrun & _ & Hsub & _). rewrite Hcfg in Hsub.
  exists s'. split_and!; [done|done|]. intros now key found Hl.
  apply lookup_found in Hl as (r & Hk & <- & Hf). split_and!; [|by unfold expired_at; rewrite <- freshness_none, Hf|done].
  eapply lookup_weaken; [|exact Hsub]. apply contents_lookup. eauto.
Qed.

Lemma cache_is_lossy_map_witness :
  ∃ s, run_ops 100 sample_new [(1, OpInsert "path=/a" (sample_entry "one")); (2, OpRemove "path=/a")] = Some s ∧
    contents s ⊆ (abstract_ops 100 sample_config
      [(1, OpInsert "path=/a" (sample_entry "one")); (2, OpRemove "path=/a")]).(ac_entries).
Proof.
  destruct (cache_is_lossy_map 100 sample_config sample_new
    [(1, OpInsert "path=/a" (sample_entry "one")); (2, OpRemove "path=/a")]) as (s & Hrun & Hsub & _);
    [vm_compute; done|reflexivity|cbn [clocked op_typed]; split_and!; (lia || done)|].
  exists s. split; [exact Hrun|exact Hsub].
Defined.

(** What is inserted is found: an entry with valid metadata and an acceptable size is stored
    and survives the eviction of its own insertion, and a later lookup of its key returns it with
    its freshness at that time, or nothing once it has expired. *)
Theorem insert_then_lookup metadata_size config t s now later key entry :
  2 * config.(cf_max_bytes) ≤ u64_max → cache_reachable metadata_size config t s →
  t ≤ now → key ≠ EmptyString → s.(hs_state).(next_sequence) < u64_max →
  HttpCacheEntry_validate entry = Ok tt →
  HttpCacheEntry_estimated_size metadata_size entry ≤ config.(cf_max_object_bytes) →
  ∃ s' result, HttpCacheStore_insert metadata_size s now key entry = Some (s', Ok result) ∧
    (HttpCacheStore_lookup s' later key).2 =
      (λ f, {| lk_entry := entry; lk_freshness := f |}) <$> HttpCacheMetadata_freshness entry.(ce_metadata) later.
Proof.
  intros Hroom Hr Hle Hkey Hn Hv Hsize. destruct (cache_reachable_ok _ _ _ _ Hroom Hr) as [Hok <-].
  destruct (insert_accepted _ _ _ _ key entry Hok Hle Hkey Hv Hsize) as (st & n & counts & Hi & _ & _ & _ & Hlru & Hleast).
  do 2 eexists. split; [exact Hi|].
  pose proof (insert_kept _ _ _ _ _ _ _ _ Hok Hle Hn Hsize Hlru Hleast) as Hk.
  unfold HttpCacheStore_lookup. simpl. rewrite Hk. simpl.
  by destruct (HttpCacheMetadata_freshness (ce_metadata entry) later).
Qed.

Lemma insert_then_lookup_witness :
  ∃ s' result, HttpCacheStore_insert 100 sample_store 2500 "path=/c" (sample_entry "three") = Some (s', Ok result) ∧
    (HttpCacheStore_lookup s' 6000 "path=/c").2 =
      (λ f, {| lk_entry := sample_entry "three"; lk_freshness := f |}) <$>
        HttpCacheMetadata_freshness (sample_entry "three").(ce_metadata) 6000.
Proof.
  apply (insert_then_lookup 100 sample_config 2000 sample_store 2500 6000 "path=/c" (sample_entry "three"));
    [vm_compute; done|apply sample_reachable|lia|done|vm_compute; done|vm_compute; done|vm_compute; done].
Defined.

(** Publishing a valid event reaches every store of its scope and no other: such a store
    that had not applied the event keeps exactly the entries the event does not target, one that
    had is unchanged, and each remembers the event; the result counts one successful delivery per
    subscriber.  Publishing it again changes nothing. *)
Theorem publish_reaches_scope bus stores event :
  validate_invalidation_event event = Ok tt → Forall (λ sub, sub.(sb_store) < length stores)%nat bus →
  ∃ stores' result, HttpCacheInvalidationBus_publish bus stores event = Some (stores', Ok result) ∧
    deliveries_counted result ∧ result.(pr_subscriber_count) = N.of_nat (length (in_scope bus event)) ∧
    (∀ i s, stores !! i = Some s → i ∉ sb_store <$> in_scope bus event → stores' !! i = Some s) ∧
    (∀ i s, stores !! i = Some s → i ∈ sb_store <$> in_scope bus event →
       ∃ s', stores' !! i = Some s' ∧ event_id event ∈ s'.(applied_invalidations) ∧
         (event_id event ∈ s.(applied_invalidations) → s' = s) ∧
         (event_id event ∉ s.(applied_invalidations) →
            ∀ k r, s'.(hs_state).(entries) !! k = Some r ↔
                   ¬ targeted event.(ev_target) k ∧ s.(hs_state).(entries) !! k = Some r)) ∧
    ∃ again, HttpCacheInvalidationBus_publish bus stores' event = Some (stores', Ok again).
Proof.
  intros Hv Hb. destruct (publish_spec bus stores event Hv Hb) as (stores' & r & Hp & Hc & Hn & Hl & Hlen).
  exists stores', r. split_and!; try apply Hc; try done.
  - intros i s Hs Hi. by rewrite Hl, decide_False.
  - intros i s Hs Hi. exists (invalidated event s). rewrite Hl, decide_True, Hs by done.
    split_and!; [done|by apply invalidated_remembered| |by apply invalidated_new].
    intros Hid. unfold invalidated. by rewrite invalidated_duplicate.
  - destruct (publish_spec bus stores' event Hv) as (stores2 & r2 & Hp2 & _ & _ & Hl2 & _); [by rewrite Hlen|].
    exists r2. rewrite Hp2. do 2 f_equal. apply list_eq. intros i. rewrite Hl2. case_decide as Hi; [|done].
    rewrite Hl, decide_True by done. destruct (stores !! i); simpl; [by rewrite invalidated_idemp|done].
Qed.

Lemma publish_reaches_scope_witness :
  ∃ stores' result,
    HttpCacheInvalidationBus_publish sample_bus [sample_store; sample_store] (sample_invalidation "e1") = Some (stores', Ok result) ∧
    result.(pr_subscriber_count) = 1.
Proof.
  destruct (publish_reaches_scope sample_bus [sample_store; sample_store] (sample_invalidation "e1"))
    as (stores' & r & Hp & _ & Hn & _); [vm_compute; reflexivity|repeat constructor; simpl; lia|].
  exists stores', r. split; [exact Hp|]. rewrite Hn. reflexivity.
Defined.
