(* ===== verification/HttpCacheKey.v ===== *)
(** * The keys of the HTTP cache

    Models the cache policy of [crates/config-model/src/policy.rs] and the construction of keys
    of [crates/runtime/src/http_cache.rs]: [build_http_cache_key_material], [storage_key] and
    their helpers, on top of the canonical hosts and targets of [RequestTarget.v]. *)

From S2P Require Import Prelude RustStr RustText RequestTarget RouteMatching HttpMessage BodyRelay RouteEnumeration HttpCacheStore.
Local Open Scope N_scope.
Local Open Scope rust_scope.

(** ** Policy *)

Inductive HttpCacheMethodConfig := CacheGet | CacheHead.
Inductive AuthorizationCacheBehaviorConfig := AuthorizationBypass | AuthorizationPartition.
Inductive CacheQueryKeyBehaviorConfig := IncludeAll | IgnoreAll.

#[export] Instance AuthorizationCacheBehaviorConfig_eq_dec : EqDecision AuthorizationCacheBehaviorConfig.
Proof. solve_decision. Defined.
#[export] Instance CacheQueryKeyBehaviorConfig_eq_dec : EqDecision CacheQueryKeyBehaviorConfig.
Proof. solve_decision. Defined.

Record CacheKeyPolicyConfig := {
  include_host : bool; include_method : bool; ck_query : CacheQueryKeyBehaviorConfig; ck_headers : list string
}.

Definition CacheKeyPolicyConfig_default : CacheKeyPolicyConfig :=
  {| include_host := true; include_method := false; ck_query := IncludeAll; ck_headers := [] |}.

Inductive HttpCacheStorageConfig := CacheMemory (max_entries max_bytes : N).

Record HttpCachePolicyConfig := {
  cp_methods : list HttpCacheMethodConfig; default_ttl_secs : N; max_ttl_secs : N;
  stale_while_revalidate_secs : N; stale_if_error_secs : N; cacheable_status_codes : list N;
  vary_headers : list string; cp_max_object_bytes : N; honor_cache_control : bool;
  allow_set_cookie_storage : bool; cp_authorization : AuthorizationCacheBehaviorConfig;
  revalidation_enabled : bool; purge_enabled : bool; cache_key : CacheKeyPolicyConfig;
  cp_storage : HttpCacheStorageConfig
}.

Definition HttpCachePolicyConfig_default : HttpCachePolicyConfig :=
  {| cp_methods := [CacheGet; CacheHead]; default_ttl_secs := 60; max_ttl_secs := 300;
     stale_while_revalidate_secs := 30; stale_if_error_secs := 60;
     cacheable_status_codes := [200; 203; 204; 300; 301; 404; 410]; vary_headers := [];
     cp_max_object_bytes := 1024 * 1024; honor_cache_control := true; allow_set_cookie_storage := false;
     cp_authorization := AuthorizationBypass; revalidation_enabled := true; purge_enabled := false;
     cache_key := CacheKeyPolicyConfig_default; cp_storage := CacheMemory 10000 (64 * 1024 * 1024) |}.

(** ** Keys *)

Record HttpCacheRequest := { cq_method : string; cq_target : string; cq_headers : list HttpHeader }.

Record HttpCacheKeyMaterial := { km_primary : string; km_secondary : option string }.

(** The primary key, a zero byte and the secondary key. *)
Definition HttpCacheKeyMaterial_storage_key (m : HttpCacheKeyMaterial) : Result string HttpCacheStoreError :=
  HttpCacheKey_new
    match m.(km_secondary) with
    | Some secondary => m.(km_primary) +:+ of_bytes [0] +:+ secondary
    | None => m.(km_primary)
    end.

Definition canonical_header_values (headers : list HttpHeader) (name : string) : string :=
  let values :=
    flat_map (λ h, List.filter (λ v, negb (is_empty v)) (trim <$> split 44 h.(h_value)))
      (List.filter (named name) headers) in
  join (of_bytes [31]) (sort_by id String.compare (to_ascii_lowercase <$> values)).

Definition selected_header_names (primary secondary : list string) : list string :=
  dedup (sort_by id String.compare
    (List.filter (λ name, negb (is_empty name)) ((λ name, to_ascii_lowercase (trim name)) <$> primary ++ secondary))).

(** FNV-1a. *)
Definition stable_hash (value : string) : N :=
  foldl (λ hash byte, wrapping_mul64 (N.lxor hash byte) 1099511628211) 14695981039346656037 (bytes value).

(** [format!("{hash:016x}")]: sixteen digits, the zeros in front included. *)
Definition hex_digits (hash : N) : list N :=
  let digits := lower_hex 16 hash in replicate (16 - length digits) 48 ++ digits.

Definition stable_hex_hash (value : string) : string := of_bytes (hex_digits (stable_hash value)).

Definition authorization_part (headers : list HttpHeader) : string :=
  match find (named "authorization") headers with
  | Some header => "auth=" +:+ stable_hex_hash (trim header.(h_value))
  | None => "auth=anonymous"
  end.

Definition primary_parts (policy : HttpCachePolicyConfig) (request : HttpCacheRequest) (canonical_host : string)
    (target : CanonicalRequestTarget) : list string :=
  ["path=" +:+ target.(ct_path)] ++
  (if policy.(cache_key).(include_host) then ["host=" +:+ canonical_host] else []) ++
  (if policy.(cache_key).(include_method)
   then ["method=" +:+ to_ascii_uppercase (trim request.(cq_method))] else []) ++
  (if decide (policy.(cache_key).(ck_query) = IncludeAll)
   then ["query=" +:+ CanonicalRequestTarget_canonical_query target] else []) ++
  (if decide (policy.(cp_authorization) = AuthorizationPartition)
   then [authorization_part request.(cq_headers)] else []) ++
  ((λ name, "hdr:" +:+ name +:+ "=" +:+ canonical_header_values request.(cq_headers) name) <$>
     selected_header_names policy.(cache_key).(ck_headers) []).

Definition secondary_parts (request : HttpCacheRequest) (vary_headers : list string) : list string :=
  (λ name, "vary:" +:+ name +:+ "=" +:+ canonical_header_values request.(cq_headers) name) <$>
    selected_header_names vary_headers [].

Definition key_newline : string := of_bytes [10].

Definition build_http_cache_key_material (policy : HttpCachePolicyConfig) (request : HttpCacheRequest)
    (vary_headers : list string) : Result (option HttpCacheKeyMaterial) HttpCacheStoreError :=
  let? host_header := match extract_host_header request.(cq_headers) with Some h => Ok h | None => Err MissingHost end in
  let? canonical_host :=
    match canonicalize_host host_header with Ok h => Ok h | Err e => Err (InvalidHost e) end in
  let? target :=
    match canonicalize_request_target request.(cq_target) with
    | Ok t => Ok t | Err e => Err (InvalidRequestTarget e) end in
  let? _ :=
    match target.(ct_authority) with
    | Some authority =>
        if decide (authority = canonical_host) then Ok tt
        else Err (HostAuthorityMismatch canonical_host authority)
    | None => Ok tt
    end in
  if existsb (named "authorization") request.(cq_headers) &&
     bool_decide (policy.(cp_authorization) = AuthorizationBypass) then Ok None
  else if existsb (named "cookie") request.(cq_headers) then Ok None
  else
    let? secondary :=
      match vary_headers with
      | [] => Ok None
      | _ => let? key := HttpCacheKey_new (join key_newline (secondary_parts request vary_headers)) in Ok (Some key)
      end in
    let? primary := HttpCacheKey_new (join key_newline (primary_parts policy request canonical_host target)) in
    Ok (Some {| km_primary := primary; km_secondary := secondary |}).

(** ** What a key distinguishes *)

(** The dimensions of a request that the policy selects. *)
Record KeyDimensions := {
  kd_path : string; kd_host : option string; kd_method : option string; kd_query : option string;
  kd_authorization : option string; kd_headers : list string; kd_vary : list string
}.

Definition dimensions (policy : HttpCachePolicyConfig) (q : HttpCacheRequest) (vary_headers : list string)
    (host : string) (t : CanonicalRequestTarget) : KeyDimensions :=
  {| kd_path := t.(ct_path);
     kd_host := if policy.(cache_key).(include_host) then Some host else None;
     kd_method := if policy.(cache_key).(include_method)
                  then Some (to_ascii_uppercase (trim q.(cq_method))) else None;
     kd_query := if decide (policy.(cache_key).(ck_query) = IncludeAll)
                 then Some (CanonicalRequestTarget_canonical_query t) else None;
     kd_authorization := if decide (policy.(cp_authorization) = AuthorizationPartition)
                         then Some (authorization_part q.(cq_headers)) else None;
     kd_headers := canonical_header_values q.(cq_headers) <$> selected_header_names policy.(cache_key).(ck_headers) [];
     kd_vary := canonical_header_values q.(cq_headers) <$> selected_header_names vary_headers [] |}.

Definition key_dimensions (policy : HttpCachePolicyConfig) (q : HttpCacheRequest) (vary_headers : list string) :
    option KeyDimensions :=
  host_header ← extract_host_header q.(cq_headers);
  match canonicalize_host host_header, canonicalize_request_target q.(cq_target) with
  | Ok host, Ok t => Some (dimensions policy q vary_headers host t)
  | _, _ => None
  end.

(** Text of a request line or a field: well-formed UTF-8 without line feeds and zero
    characters, which is what the parser of heads lets through. *)
Definition line_char (c : N) : Prop := c < 1114112 ∧ c ≠ 10 ∧ c ≠ 0.
Definition line_text (s : string) : Prop := ∃ l, Forall line_char l ∧ s = of_chars l.

Record request_text (q : HttpCacheRequest) : Prop := {
  rt_method : line_text q.(cq_method);
  rt_target : line_text q.(cq_target);
  rt_values : Forall (λ h, line_text h.(h_value)) q.(cq_headers)
}.

(** ** Text without separators *)

Lemma line_char_unicode l : Forall line_char l → Forall (λ c, c < 1114112) l.
Proof. intros H. eapply Forall_impl; [exact H|]. unfold line_char. lia. Qed.

Lemma line_bytes l : Forall line_char l → bytes (of_chars l) = encode_utf8 l.
Proof. intros H. by apply bytes_of_bytes, encode_utf8_lt_256, line_char_unicode. Qed.

(** ASCII text without line feeds and zero bytes. *)
Definition safe (l : list N) : Prop := Forall (λ c, c < 128 ∧ c ≠ 10 ∧ c ≠ 0) l.

Lemma safe_line l : safe l → line_text (of_bytes l).
Proof.
  intros H. exists l. split; [eapply Forall_impl; [exact H|]; unfold line_char; simpl; lia|].
  symmetry. apply of_chars_ascii. eapply Forall_impl; [exact H|]. simpl. lia.
Qed.

Lemma line_text_safe s : safe (bytes s) → line_text s.
Proof. intros H. rewrite <- (of_bytes_bytes s). by apply safe_line. Qed.

(** Literals. *)
Ltac solve_literal := apply line_text_safe; repeat constructor; done.

Lemma line_text_no b s : line_text s → b = 10 ∨ b = 0 → b ∉ bytes s.
Proof.
  intros (l & Hl & ->) Hb. rewrite line_bytes by done. intros Hin%encode_utf8_elem; [|lia].
  rewrite Forall_forall in Hl. apply Hl in Hin. unfold line_char in Hin. lia.
Qed.

Lemma line_text_app a b : line_text a → line_text b → line_text (a +:+ b).
Proof.
  intros (la & Ha & ->) (lb & Hb & ->). exists (la ++ lb). split; [by apply Forall_app|].
  apply (inj bytes). rewrite bytes_app, !line_bytes by (done || by apply Forall_app). by rewrite encode_utf8_app.
Qed.

Lemma line_text_trim s : line_text s → line_text (trim s).
Proof.
  intros (l & Hl & ->). exists (trim_chars l). split; [by apply trim_chars_Forall|].
  unfold trim. by rewrite chars_of_chars by by apply line_char_unicode.
Qed.

Lemma line_text_map (f : N → N) s :
  (∀ c, c < 128 ∧ c ≠ 10 ∧ c ≠ 0 → f c < 128 ∧ f c ≠ 10 ∧ f c ≠ 0) → f 10 < 128 → f 0 < 128 →
  (∀ c, 128 ≤ c → f c = c) → line_text s → line_text (of_bytes (f <$> bytes s)).
Proof.
  intros Hlow H10 H0 Hhigh (l & Hl & ->). exists (f <$> l). split.
  - apply Forall_fmap. eapply Forall_impl; [exact Hl|]. intros c [Hc1 Hc2]. unfold compose, line_char.
    destruct (decide (c < 128)) as [Hc|Hc]; [destruct (Hlow c); [lia..|lia]|rewrite Hhigh by lia; lia].
  - rewrite line_bytes by done. rewrite map_encode; [done| |done]. intros c Hc.
    destruct (decide (c = 10)) as [->|]; [done|]. destruct (decide (c = 0)) as [->|]; [done|].
    by apply Hlow.
Qed.

Lemma line_text_lower s : line_text s → line_text (to_ascii_lowercase s).
Proof. apply line_text_map; unfold ascii_lower; intros; repeat case_decide; lia. Qed.

Lemma line_text_upper s : line_text s → line_text (to_ascii_uppercase s).
Proof. apply line_text_map; unfold ascii_upper; intros; repeat case_decide; lia. Qed.

Lemma line_text_split c s : c < 128 → line_text s → Forall line_text (split c s).
Proof.
  intros Hc (l & Hl & ->). unfold split. rewrite line_bytes, split_on_encode by done.
  rewrite <- list_fmap_compose. apply Forall_fmap. eapply Forall_impl; [by apply split_on_Forall|].
  intros part Hp. by exists part.
Qed.

Lemma line_text_join sep l : line_text sep → Forall line_text l → line_text (join sep l).
Proof.
  intros Hsep Hl. induction Hl as [|x [|y l] Hx Hl IH]; [by exists []|done|].
  change (line_text (x +:+ sep +:+ join sep (y :: l))). by repeat apply line_text_app.
Qed.

Lemma Forall_kept {A} (P : A → Prop) f l : Forall P l → Forall P (List.filter f l).
Proof. intros H. apply Forall_List_filter. eapply Forall_impl; [exact H|]. auto. Qed.

Lemma line_text_values headers name :
  Forall (λ h, line_text h.(h_value)) headers → line_text (canonical_header_values headers name).
Proof.
  intros H. unfold canonical_header_values. apply line_text_join; [solve_literal|].
  rewrite sort_by_perm. apply Forall_fmap, Forall_flat_map.
  eapply Forall_impl; [by apply Forall_kept|]. intros h Hh. simpl. apply Forall_kept, Forall_fmap.
  eapply Forall_impl; [by apply (line_text_split 44)|]. intros v Hv. unfold compose. by apply line_text_lower, line_text_trim.
Qed.

Lemma lower_hex_safe fuel n : safe (lower_hex fuel n).
Proof.
  revert n. induction fuel as [|fuel IH]; intros n; cbn [lower_hex]; [constructor|].
  assert (Hd : ∀ d, d < 16 → safe [if decide (d < 10) then 48 + d else 87 + d]).
  { intros d Hd. repeat constructor; case_decide; lia. }
  case_decide; [by apply Hd|]. apply Forall_app. split; [apply IH|]. apply Hd, N.mod_lt. lia.
Qed.

Lemma line_text_hash v : line_text (stable_hex_hash v).
Proof.
  assert (H : safe (hex_digits (stable_hash v))).
  { apply Forall_app. split; [|apply lower_hex_safe]. apply Forall_replicate. lia. }
  by apply safe_line.
Qed.

Lemma line_text_authorization headers : line_text (authorization_part headers).
Proof.
  unfold authorization_part. destruct (find _ _); [|solve_literal].
  apply line_text_app; [solve_literal|apply line_text_hash].
Qed.

Lemma line_text_host v host : line_text v → canonicalize_host v = Ok host → line_text host.
Proof.
  intros Hv H. assert (Hn : line_text (to_ascii_lowercase (trim v))) by by apply line_text_lower, line_text_trim.
  unfold canonicalize_host in H. set (n := to_ascii_lowercase (trim v)) in *.
  destruct (_ || any_char _ _); [done|].
  assert (Hs : line_text (default n (strip_suffix 46 n))).
  { unfold strip_suffix. destruct (reverse (bytes n)) as [|x l] eqn:E; [done|]. case_decide; [|done]. simpl.
    destruct Hn as (cs & Hcs & En). rewrite En, line_bytes in E by done.
    destruct cs as [|c cs] using rev_ind; [done|]. clear IHcs. apply Forall_app in Hcs as [Hcs _].
    exists cs. split; [done|]. rewrite encode_utf8_app, reverse_app in E. simpl in E. rewrite app_nil_r in E.
    destruct (encode_char_bytes c) as [[Ec _]|[Ec _]].
    - rewrite Ec in E. simpl in E. injection E as _ <-. by rewrite reverse_involutive.
    - apply Forall_reverse in Ec. destruct (reverse (encode_char c)) as [|y l0] eqn:Er.
      { apply (f_equal length) in Er. rewrite length_reverse in Er. unfold encode_char in Er.
        by repeat case_decide. }
      apply Forall_cons in Ec as [Hy _]. injection E as -> _. lia. }
  destruct (is_empty _); [done|]. by injection H as <-.
Qed.

(** Percent-encoding is normalised byte by byte and never makes a separator. *)
Lemma line_text_percent v r :
  10 ∉ bytes v → 0 ∉ bytes v → canonicalize_percent_encoded v = Ok r → line_text r.
Proof.
  intros H10 H0 H. unfold canonicalize_percent_encoded in H.
  destruct (canonicalize_percent_loop (bytes v)) as [l|] eqn:E; [|done]. injection H as <-.
  destruct (percent_loop_fixed _ _ E) as [_ Hb]. exists l. split; [|done]. apply Forall_forall. intros c Hc.
  unfold line_char. destruct (Hb c Hc) as [Hin|Hu]; [|unfold upper_hex in Hu; lia].
  pose proof (bytes_lt_256 v) as Hlt. rewrite Forall_forall in Hlt. specialize (Hlt c Hin). simpl in Hlt.
  split; [lia|]. split; by intros ->.
Qed.

Lemma line_text_pairs raw : ∀ pairs,
  Forall (λ s, 10 ∉ bytes s ∧ 0 ∉ bytes s) raw → query_pair_loop raw = Ok pairs →
  Forall (λ p, line_text p.1 ∧ line_text p.2) pairs.
Proof.
  induction raw as [|s raw IH]; intros pairs Hraw H; cbn [query_pair_loop] in H.
  { injection H as <-. constructor. }
  apply Forall_cons in Hraw as [[H10 H0] Hraw]. destruct (is_empty s); [done|].
  destruct (default (s, EmptyString) (split_once 61 s)) as [n v] eqn:Ed.
  assert (Hsub : ∀ c, c ∈ bytes n ∨ c ∈ bytes v → c ∈ bytes s).
  { destruct (split_once 61 s) as [[a b]|] eqn:Es; simpl in Ed; injection Ed as <- <-.
    - apply split_once_bytes in Es as [-> _]. intros c. rewrite elem_of_app, elem_of_cons. tauto.
    - intros c [?|Hc]; [done|]. by apply elem_of_nil in Hc. }
  destruct (canonicalize_percent_encoded n) as [n'|] eqn:En; [|done].
  destruct (canonicalize_percent_encoded v) as [v'|] eqn:Ev; [|done].
  destruct (query_pair_loop raw) as [rest|]; [|done]. injection H as <-. constructor; [|by apply IH].
  split; simpl; (eapply line_text_percent; [| |eassumption]); eauto.
Qed.

Lemma line_text_query_pairs query pairs :
  10 ∉ bytes query → 0 ∉ bytes query → canonicalize_query_pairs query = Ok pairs →
  line_text (join "&" (query_pair_text <$> pairs)).
Proof.
  intros H10 H0 H. apply line_text_join; [solve_literal|]. unfold canonicalize_query_pairs in H.
  destruct (is_empty query); [injection H as <-; constructor|].
  destruct (query_pair_loop (split 38 query)) as [raw|] eqn:E; [|done]. injection H as <-.
  assert (Hall : Forall (λ p, line_text p.1 ∧ line_text p.2) raw).
  { eapply line_text_pairs; [|exact E].
    enough (Hparts : Forall (λ l, 10 ∉ l ∧ 0 ∉ l) (bytes <$> split 38 query)) by by rewrite Forall_fmap in Hparts.
    rewrite bytes_split. apply (Forall_impl (Forall (λ c, c ≠ 10 ∧ c ≠ 0))).
    - apply split_on_Forall, Forall_forall. intros c Hc. split; by intros ->.
    - intros l Hl. rewrite Forall_forall in Hl. split; intros Hin%Hl; tauto. }
  apply Forall_fmap. rewrite sort_by_perm. eapply Forall_impl; [exact Hall|]. intros p [H1 H2].
  unfold compose, query_pair_text. destruct (is_empty p.2); [done|].
  repeat apply line_text_app; try done. solve_literal.
Qed.

Lemma line_text_query target t :
  line_text target → canonicalize_request_target target = Ok t →
  line_text t.(ct_path) ∧ line_text (CanonicalRequestTarget_canonical_query t).
Proof.
  intros Hv H. unfold canonicalize_request_target in H. apply line_text_trim in Hv.
  set (trimmed := trim target) in *. destruct (is_empty trimmed || _); [done|].
  destruct (contains 35 trimmed); [done|].
  destruct (target_parts trimmed) as [[authority pq]|] eqn:Ep; [|done].
  destruct (split_path_and_query pq) as [path query] eqn:Es.
  destruct (target_parts_split _ _ _ _ _ Ep Es) as (Hps & Hqs & _).
  destruct (canonicalize_percent_encoded path) as [path'|] eqn:Epath; [|done].
  destruct (canonicalize_query_pairs query) as [pairs|] eqn:Eq; [|done]. injection H as <-.
  assert (Hno : ∀ b, b = 10 ∨ b = 0 → b ∉ bytes path ∧ b ∉ bytes query).
  { intros b Hb. pose proof (line_text_no b _ Hv Hb). split; [intros [?|?]%Hps; [done|lia]|by intros ?%Hqs]. }
  destruct (Hno 10), (Hno 0); [auto..|]. split; simpl.
  - by eapply line_text_percent; [| |exact Epath].
  - by eapply line_text_query_pairs; [| |exact Eq].
Qed.

Lemma find_Forall {A} (P : A → Prop) f l x : Forall P l → find f l = Some x → P x.
Proof. rewrite Forall_forall. intros H Hf%find_some. apply H, list_elem_of_In, Hf. Qed.

(** ** Parts and keys *)

Lemma dedup_sub l x : x ∈ dedup l → x ∈ l.
Proof.
  induction l as [|y [|z l] IH]; [done..|]. cbn [dedup]. case_decide; rewrite ?elem_of_cons in *; naive_solver.
Qed.

Lemma line_text_selected primary secondary :
  Forall line_text primary → Forall line_text secondary → Forall line_text (selected_header_names primary secondary).
Proof.
  intros H1 H2. apply Forall_forall. intros x Hx%dedup_sub. rewrite elem_of_sort_by in Hx.
  revert x Hx. rewrite <- Forall_forall. apply Forall_kept, Forall_fmap.
  eapply Forall_impl; [by apply Forall_app|]. intros n Hn. unfold compose. by apply line_text_lower, line_text_trim.
Qed.

Lemma labelled_safe (label : string) headers names :
  line_text label → Forall (λ h, line_text h.(h_value)) headers → Forall line_text names →
  Forall line_text ((λ name, label +:+ name +:+ "=" +:+ canonical_header_values headers name) <$> names).
Proof.
  intros Hl Hh Hn. apply Forall_fmap. eapply Forall_impl; [exact Hn|]. intros n Hx. unfold compose.
  repeat apply line_text_app; try done; [solve_literal|by apply line_text_values].
Qed.

Lemma line_text_primary policy q host t :
  request_text q → line_text host → line_text t.(ct_path) → line_text (CanonicalRequestTarget_canonical_query t) →
  Forall line_text policy.(cache_key).(ck_headers) → Forall line_text (primary_parts policy q host t).
Proof.
  intros [Hm _ Hv] Hh Hp Hq Hn. unfold primary_parts. rewrite !Forall_app. split_and!.
  - apply Forall_singleton, line_text_app; [solve_literal|done].
  - destruct (include_host _); [|constructor]. apply Forall_singleton, line_text_app; [solve_literal|done].
  - destruct (include_method _); [|constructor]. apply Forall_singleton, line_text_app; [solve_literal|].
    by apply line_text_upper, line_text_trim.
  - case_decide; [|constructor]. apply Forall_singleton, line_text_app; [solve_literal|done].
  - case_decide; [|constructor]. apply Forall_singleton, line_text_authorization.
  - apply labelled_safe; [solve_literal|done|by apply line_text_selected].
Qed.

(** Lines of safe text can be read back from their join. *)
Lemma join_newline_inj l1 l2 :
  Forall line_text l1 → Forall line_text l2 → l1 ≠ [] → l2 ≠ [] → join key_newline l1 = join key_newline l2 → l1 = l2.
Proof.
  assert (Hno : ∀ l, Forall line_text l → Forall (λ p, 10 ∉ p) (bytes <$> l)).
  { intros l Hl. apply Forall_fmap. eapply Forall_impl; [exact Hl|]. intros s Hs.
    by apply line_text_no; [|left]. }
  intros H1 H2 N1 N2 E%(f_equal bytes). rewrite !bytes_join in E. change (bytes key_newline) with [10] in E.
  apply (f_equal (split_on 10)) in E.
  rewrite !split_join in E by (by intros ?%fmap_nil_inv || by apply Hno). by apply (inj _) in E.
Qed.

Lemma Ok_Some_inj {T E} (x y : T) : @Ok (option T) E (Some x) = Ok (Some y) → x = y.
Proof. by intros [= ->]. Qed.

(** What a key is made of. *)
Lemma build_inv policy q vary m :
  build_http_cache_key_material policy q vary = Ok (Some m) →
  ∃ v host t, extract_host_header q.(cq_headers) = Some v ∧ canonicalize_host v = Ok host ∧
    canonicalize_request_target q.(cq_target) = Ok t ∧
    m.(km_primary) = join key_newline (primary_parts policy q host t) ∧
    m.(km_secondary) = (match vary with [] => None | _ => Some (join key_newline (secondary_parts q vary)) end) ∧
    (vary ≠ [] → secondary_parts q vary ≠ []) ∧
    existsb (named "cookie") q.(cq_headers) = false ∧
    (existsb (named "authorization") q.(cq_headers) = true → policy.(cp_authorization) = AuthorizationPartition).
Proof.
  unfold build_http_cache_key_material, HttpCacheKey_new.
  destruct (extract_host_header _) as [v|]; [|done]. cbv beta iota.
  destruct (canonicalize_host v) as [host|] eqn:Eh; [|done]. cbv beta iota.
  destruct (canonicalize_request_target _) as [t|] eqn:Et; [|done]. cbv beta iota.
  destruct (match ct_authority t with Some _ => _ | None => _ end); [|done]. cbv beta iota.
  destruct (existsb (named "authorization") _ && _) eqn:Ea; [done|].
  destruct (existsb (named "cookie") _) eqn:Ec; [done|].
  assert (Hauth : existsb (named "authorization") q.(cq_headers) = true →
                  policy.(cp_authorization) = AuthorizationPartition).
  { intros Hx. rewrite Hx in Ea. apply bool_decide_eq_false in Ea. by destruct (cp_authorization policy). }
  intros H. exists v, host, t. do 3 (split; [done|]).
  destruct vary as [|n vary]; cbv beta iota in H.
  - destruct (is_empty (join key_newline (primary_parts policy q host t))); [done|].
    apply Ok_Some_inj in H. subst m. done.
  - destruct (is_empty (join key_newline (secondary_parts _ _))) eqn:Es; [done|]. cbv beta iota in H.
    destruct (is_empty (join key_newline (primary_parts policy q host t))); [done|].
    apply Ok_Some_inj in H. subst m. split_and!; try done. intros _ Hnil. rewrite Hnil in Es. done.
Qed.

Lemma list_cons_eq_inv {A} (x y : A) l l' : x :: l = y :: l' → x = y ∧ l = l'.
Proof. by intros [= -> ->]. Qed.

Lemma labelled_inj (label : string) (f g : string → string) (names : list string) :
  ((λ name, label +:+ name +:+ "=" +:+ f name) <$> names) = ((λ name, label +:+ name +:+ "=" +:+ g name) <$> names) ↔
  f <$> names = g <$> names.
Proof.
  induction names as [|n names IH]; [done|]. rewrite !fmap_cons. split; intros H; apply list_cons_eq_inv in H as [H1 H2].
  - f_equal; [|by apply IH]. by do 3 apply (inj (String.append _)) in H1.
  - f_equal; [by rewrite H1|by apply IH].
Qed.

(** Two optional parts under the same flag. *)
Lemma part_inj (b : bool) (label x y : string) (l l' : list string) :
  (if b then [label +:+ x] else []) ++ l = (if b then [label +:+ y] else []) ++ l' ↔
  (if b then Some x else None) = (if b then Some y else None) ∧ l = l'.
Proof.
  destruct b; simpl; [|naive_solver]. split.
  - intros [H ->]%list_cons_eq_inv. apply (inj (String.append _)) in H. by subst.
  - by intros [[= ->] ->].
Qed.

Lemma decide_bool {A} (P : Prop) `{!Decision P} (x y : A) : (if decide P then x else y) = (if bool_decide P then x else y).
Proof. destruct (decide P); [by rewrite bool_decide_true|by rewrite bool_decide_false]. Qed.

Lemma primary_parts_dimensions policy q1 q2 vary host1 host2 t1 t2 :
  primary_parts policy q1 host1 t1 = primary_parts policy q2 host2 t2 ∧
  secondary_parts q1 vary = secondary_parts q2 vary ↔
  dimensions policy q1 vary host1 t1 = dimensions policy q2 vary host2 t2.
Proof.
  unfold primary_parts, secondary_parts, dimensions. rewrite !decide_bool, (labelled_inj "vary:").
  rewrite (part_inj true "path="), (part_inj _ "host="), (part_inj _ "method="), (part_inj _ "query=").
  assert (Ha : ∀ (b : bool) (x y : string) (l l' : list string),
    (if b then [x] else []) ++ l = (if b then [y] else []) ++ l' ↔
    (if b then Some x else None) = (if b then Some y else None) ∧ l = l').
  { intros [] x y l l'; simpl; naive_solver. }
  rewrite Ha, (labelled_inj "hdr:"). split.
  - intros [([= ->] & -> & -> & -> & -> & ->) ->]. done.
  - intros H. pose proof (f_equal kd_path H). pose proof (f_equal kd_host H). pose proof (f_equal kd_method H).
    pose proof (f_equal kd_query H). pose proof (f_equal kd_authorization H). pose proof (f_equal kd_headers H).
    pose proof (f_equal kd_vary H). clear H. simpl in *. split_and!; try done. by f_equal.
Qed.

Lemma storage_key_inj m1 m2 :
  0 ∉ bytes m1.(km_primary) → 0 ∉ bytes m2.(km_primary) →
  m1.(km_primary) ≠ EmptyString → m2.(km_primary) ≠ EmptyString →
  (is_Some m1.(km_secondary) ↔ is_Some m2.(km_secondary)) →
  HttpCacheKeyMaterial_storage_key m1 = HttpCacheKeyMaterial_storage_key m2 → m1 = m2.
Proof.
  destruct m1 as [p1 s1], m2 as [p2 s2]. unfold HttpCacheKeyMaterial_storage_key, HttpCacheKey_new. simpl.
  intros Z1 Z2 N1 N2 Hs.
  assert (Hne : ∀ p s, p ≠ EmptyString → is_empty (p +:+ s) = false).
  { intros p s Hp. apply is_empty_false. by destruct p. }
  destruct s1 as [s1|], s2 as [s2|].
  - rewrite !Hne by done. intros [= E]. apply (f_equal bytes) in E. rewrite !bytes_app in E.
    change (bytes (of_bytes [0])) with [0] in E. simpl in E. apply (f_equal (split_once_on 0)) in E.
    rewrite (proj2 (split_once_Some 0 (bytes p1 ++ 0 :: bytes s1) (bytes p1) (bytes s1))) in E by done.
    rewrite (proj2 (split_once_Some 0 (bytes p2 ++ 0 :: bytes s2) (bytes p2) (bytes s2))) in E by done.
    injection E as E1%(inj bytes) E2%(inj bytes). by subst.
  - destruct Hs as [Hs _]. by destruct (Hs (mk_is_Some _ _ eq_refl)).
  - destruct Hs as [_ Hs]. by destruct (Hs (mk_is_Some _ _ eq_refl)).
  - apply is_empty_false in N1, N2. rewrite N1, N2. by intros [= ->].
Qed.

(** A primary key: lines of safe text, the first of them not empty. *)
Lemma primary_lines policy q host t :
  Forall line_text (primary_parts policy q host t) →
  Forall (λ c, c ≠ 0) (bytes (join key_newline (primary_parts policy q host t))) ∧
  join key_newline (primary_parts policy q host t) ≠ EmptyString.
Proof.
  intros H. split.
  - apply Forall_forall. intros c Hc ->. rewrite bytes_join in Hc.
    apply elem_of_join_bytes in Hc as [Hc|(l & (s & -> & Hs)%list_elem_of_fmap & Hc)].
    { by apply list_elem_of_singleton in Hc. }
    rewrite Forall_forall in H. eapply (line_text_no 0); [apply H, Hs|auto|done].
  - unfold primary_parts. cbn [app]. intros E%(f_equal bytes). rewrite bytes_join, fmap_cons, bytes_app in E.
    by destruct (bytes <$> _).
Qed.

Lemma build_text policy q vary v host t :
  request_text q → Forall line_text policy.(cache_key).(ck_headers) →
  extract_host_header q.(cq_headers) = Some v → canonicalize_host v = Ok host →
  canonicalize_request_target q.(cq_target) = Ok t → Forall line_text vary →
  Forall line_text (primary_parts policy q host t) ∧ Forall line_text (secondary_parts q vary).
Proof.
  intros Hq Hn Hv Hh Ht Hvary. pose proof Hq as [_ Htarget Hvalues].
  destruct (line_text_query _ _ Htarget Ht) as [Hp Hquery]. split.
  - apply line_text_primary; try done. eapply line_text_host; [|exact Hh]. unfold extract_host_header in Hv.
    destruct (find (named "host") _) as [h|] eqn:E; [|done]. injection Hv as <-.
    exact (find_Forall _ _ _ _ Hvalues E).
  - apply labelled_safe; [solve_literal|done|by apply line_text_selected].
Qed.

Lemma app_focus {A} (a b c d x e : list A) : ∃ before after, a ++ b ++ c ++ d ++ x ++ e = before ++ x ++ after.
Proof. exists (a ++ b ++ c ++ d), e. by rewrite <- !app_assoc. Qed.

(** ** Properties *)

(** Evaluates a concrete text. *)
Ltac solve_line_text :=
  lazymatch goal with
  | |- line_text ?s =>
      exists (chars s); split; [unfold line_char; apply (bool_decide_unpack _); vm_compute; exact I
                               |vm_compute; reflexivity]
  end.

Definition sample_cache_request (target accept : string) : HttpCacheRequest :=
  {| cq_method := "get"; cq_target := target;
     cq_headers := [{| h_name := "Host"; h_value := "Example.com" |}; {| h_name := "Accept"; h_value := accept |}] |}.

Definition sample_material (target accept : string) : HttpCacheKeyMaterial :=
  match build_http_cache_key_material HttpCachePolicyConfig_default (sample_cache_request target accept) ["accept"] with
  | Ok (Some m) => m
  | _ => {| km_primary := EmptyString; km_secondary := None |}
  end.

(** C12: cache keys are exact.  Take two requests whose method, target and header values are
    UTF-8 text without line feed and zero characters, as the head parser delivers them, and a policy
    and vary list whose header names are such text too.  If the cache accepts both under that policy,
    they have the same storage key if and only if they agree on every dimension the policy selects:
    canonical path, canonical host, method, text of the canonical query, authorization partition
    (the hash of the credentials), and the values of the key and vary headers.  No value can spill
    over into another dimension of the key. *)
Theorem cache_key_exact policy vary q1 q2 m1 m2 :
  request_text q1 → request_text q2 →
  Forall line_text policy.(cache_key).(ck_headers) → Forall line_text vary →
  build_http_cache_key_material policy q1 vary = Ok (Some m1) →
  build_http_cache_key_material policy q2 vary = Ok (Some m2) →
  HttpCacheKeyMaterial_storage_key m1 = HttpCacheKeyMaterial_storage_key m2 ↔
  key_dimensions policy q1 vary = key_dimensions policy q2 vary.
Proof.
  intros T1 T2 Hn Hvary B1 B2.
  destruct (build_inv _ _ _ _ B1) as (v1 & host1 & t1 & V1 & H1 & R1 & P1 & S1 & N1 & _).
  destruct (build_inv _ _ _ _ B2) as (v2 & host2 & t2 & V2 & H2 & R2 & P2 & S2 & N2 & _).
  destruct (build_text _ _ _ _ _ _ T1 Hn V1 H1 R1 Hvary) as [L1 L1'].
  destruct (build_text _ _ _ _ _ _ T2 Hn V2 H2 R2 Hvary) as [L2 L2'].
  destruct (primary_lines _ _ _ _ L1) as [Z1 E1], (primary_lines _ _ _ _ L2) as [Z2 E2].
  unfold key_dimensions. rewrite V1, V2. cbn [mbind option_bind]. rewrite H1, H2, R1, R2.
  rewrite (inj_iff Some), <- primary_parts_dimensions. rewrite Forall_forall in Z1, Z2.
  destruct m1 as [p1 s1], m2 as [p2 s2]. cbn [km_primary km_secondary] in P1, P2, S1, S2. subst. split.
  - intros E%storage_key_inj; cbn [km_primary km_secondary];
      [|by intros ?%Z1|by intros ?%Z2|exact E1|exact E2|by destruct vary].
    pose proof (f_equal km_primary E) as Ep. pose proof (f_equal km_secondary E) as Es.
    cbn [km_primary km_secondary] in Ep, Es. split; [by apply join_newline_inj in Ep|].
    destruct vary as [|n vary]; [reflexivity|]. apply (inj Some), join_newline_inj in Es; auto.
  - intros [-> ->]. by destruct vary.
Qed.

Lemma cache_key_exact_witness :
  HttpCacheKeyMaterial_storage_key (sample_material "/a?y=2&x=1" "text/html, é") =
    HttpCacheKeyMaterial_storage_key (sample_material "/a?x=1&y=2" "é,TEXT/html") ↔
  key_dimensions HttpCachePolicyConfig_default (sample_cache_request "/a?y=2&x=1" "text/html, é") ["accept"] =
    key_dimensions HttpCachePolicyConfig_default (sample_cache_request "/a?x=1&y=2" "é,TEXT/html") ["accept"].
Proof.
  apply (cache_key_exact HttpCachePolicyConfig_default ["accept"] (sample_cache_request "/a?y=2&x=1" "text/html, é")
           (sample_cache_request "/a?x=1&y=2" "é,TEXT/html"));
    [split; try solve_line_text; repeat (constructor; [solve_line_text|]); constructor
    |split; try solve_line_text; repeat (constructor; [solve_line_text|]); constructor
    |constructor|repeat constructor; solve_line_text|vm_compute; reflexivity|vm_compute; reflexivity].
Defined.

(** Personal responses are not shared by accident: a request that gets a key carries no cookie,
    and if it carries credentials the policy partitions by them and its key names that partition. *)
Theorem keyed_request_is_shareable policy q vary m :
  build_http_cache_key_material policy q vary = Ok (Some m) →
  existsb (named "cookie") q.(cq_headers) = false ∧
  (existsb (named "authorization") q.(cq_headers) = true →
     policy.(cp_authorization) = AuthorizationPartition ∧
     ∃ before after,
       m.(km_primary) = join key_newline (before ++ [authorization_part q.(cq_headers)] ++ after)).
Proof.
  intros B. destruct (build_inv _ _ _ _ B) as (v & host & t & _ & _ & _ & P & _ & _ & Hc & Ha).
  split; [done|]. intros Hauth. specialize (Ha Hauth). split; [done|].
  rewrite P. unfold primary_parts. rewrite (decide_True (P := _ = AuthorizationPartition)) by done.
  destruct (app_focus ["path=" +:+ t.(ct_path)]
    (if include_host (cache_key policy) then ["host=" +:+ host] else [])
    (if include_method (cache_key policy) then ["method=" +:+ to_ascii_uppercase (trim q.(cq_method))] else [])
    (if decide (ck_query (cache_key policy) = IncludeAll)
     then ["query=" +:+ CanonicalRequestTarget_canonical_query t] else [])
    [authorization_part q.(cq_headers)]
    ((λ name, "hdr:" +:+ name +:+ "=" +:+ canonical_header_values q.(cq_headers) name) <$>
       selected_header_names policy.(cache_key).(ck_headers) [])) as (before & after & ->).
  by exists before, after.
Qed.

Lemma keyed_request_is_shareable_witness :
  existsb (named "cookie") (sample_cache_request "/a" "x").(cq_headers) = false.
Proof.
  apply (keyed_request_is_shareable HttpCachePolicyConfig_default (sample_cache_request "/a" "x") ["accept"]
           (sample_material "/a" "x")). vm_compute. reflexivity.
Defined.

(** The partition is a 64-bit FNV-1a hash: different credentials can fall into the same one. *)
Example authorization_partitions_collide :
  stable_hex_hash "8yn0iYCKYHlIj4-BwPqk" = stable_hex_hash "GReLUrM4wMqfg9yzV3KQ".
Proof. vm_compute. reflexivity. Qed.
