(* ===== verification/HttpCachePolicy.v ===== *)
(** * Caching policy of the HTTP/1 proxy

    Models [crates/runtime/src/http1_proxy/cache_headers_and_freshness.rs] (what may be stored
    and for how long), [cache_lookup.rs] (what a request does with the cache) and the parts of
    [cache_fill_and_revalidation.rs] that fill the cache, refresh an entry after a [304] and
    write a cached response.

    The crates [http] and [httpdate] are parameters: [header_name] is the text of
    [HeaderName::from_bytes], [header_value_ok] whether [HeaderValue::from_str] accepts a value,
    [to_str_ok] whether [HeaderValue::to_str] does, [status_ok] whether [StatusCode::from_u16]
    does, and [parse_http_date] the time in nanoseconds since the epoch.  Telemetry is left out.
    The sum of two [Duration]s panics on overflow, which is [None]. *)

From stdpp Require Import pretty.
From S2P Require Import Prelude RustStr RustText RequestTarget RouteMatching HttpMessage BodyRelay RequestTransforms TrustedClientIp HttpCacheStore HttpCacheKey.
Local Open Scope N_scope.

(** ** Eligibility *)

Definition request_method_is_cache_lookup_eligible (policy : HttpCachePolicyConfig) (method : string) : bool :=
  existsb (λ configured,
    match configured with
    | CacheGet => eq_ignore_ascii_case method "GET"
    | CacheHead => eq_ignore_ascii_case method "HEAD"
    end) policy.(cp_methods).

Definition disallowed_vary_headers : list string :=
  ["authorization"; "cookie"; "set-cookie"; "connection"; "keep-alive"; "proxy-authenticate";
   "proxy-authorization"; "proxy-connection"; "te"; "trailer"; "transfer-encoding"; "upgrade";
   "forwarded"; "x-forwarded-for"; "x-forwarded-proto"].

Definition is_disallowed_cache_vary_header (header : string) : bool :=
  bool_decide (to_ascii_lowercase header ∈ disallowed_vary_headers).

Definition response_has_unsafe_vary (headers : list HttpHeader) : bool :=
  existsb (λ h, existsb (λ value, is_empty value || bool_decide (value = "*") || is_disallowed_cache_vary_header value)
                  (trim <$> split 44 h.(h_value)))
    (List.filter (named "vary") headers).

Definition response_is_cacheable (policy : HttpCachePolicyConfig) (response : Http1ResponseHead)
    (headers : list HttpHeader) : bool :=
  if negb (bool_decide (response.(rs_status) ∈ policy.(cacheable_status_codes))) then false
  else if negb policy.(allow_set_cookie_storage) && existsb (named "set-cookie") headers then false
  else if response_has_unsafe_vary headers then false
  else true.

(** ** Directives *)

(** [str::parse::<u64>]: decimal digits, with an optional plus sign. *)
Definition parse_u64 (s : string) : option N :=
  let digits := match bytes s with 43 :: l => l | l => l end in
  match digits with
  | [] => None
  | _ => if forallb (λ c, bool_decide (48 ≤ c ≤ 57)) digits then parse_u64_digits 10 digits else None
  end.

Definition parse_cache_delta (value : string) : option N := parse_u64 (trim_matches 34 value).

Record ParsedCacheControl := {
  no_store : bool; private : bool; no_cache : bool; max_age : option N; shared_max_age : option N;
  pc_stale_while_revalidate : option N; pc_stale_if_error : option N
}.

Definition ParsedCacheControl_default : ParsedCacheControl :=
  {| no_store := false; private := false; no_cache := false; max_age := None; shared_max_age := None;
     pc_stale_while_revalidate := None; pc_stale_if_error := None |}.

(** The body of the loop over the directives. *)
Definition parse_directive (p : ParsedCacheControl) (directive : string) : option ParsedCacheControl :=
  let '(name, parameter) :=
    match split_once 61 directive with
    | Some (name, value) => (trim name, Some (trim value))
    | None => (directive, None)
    end in
  let '(Build_ParsedCacheControl ns pr nc ma sm swr sie) := p in
  if eq_ignore_ascii_case name "no-store" then Some (Build_ParsedCacheControl true pr nc ma sm swr sie)
  else if eq_ignore_ascii_case name "private" then Some (Build_ParsedCacheControl ns true nc ma sm swr sie)
  else if eq_ignore_ascii_case name "no-cache" then Some (Build_ParsedCacheControl ns pr true ma sm swr sie)
  else if eq_ignore_ascii_case name "max-age" then
    value ← parameter; delta ← parse_cache_delta value; Some (Build_ParsedCacheControl ns pr nc (Some delta) sm swr sie)
  else if eq_ignore_ascii_case name "s-maxage" then
    value ← parameter; delta ← parse_cache_delta value; Some (Build_ParsedCacheControl ns pr nc ma (Some delta) swr sie)
  else if eq_ignore_ascii_case name "stale-while-revalidate" then
    value ← parameter; delta ← parse_cache_delta value; Some (Build_ParsedCacheControl ns pr nc ma sm (Some delta) sie)
  else if eq_ignore_ascii_case name "stale-if-error" then
    value ← parameter; delta ← parse_cache_delta value; Some (Build_ParsedCacheControl ns pr nc ma sm swr (Some delta))
  else Some p.

Fixpoint parse_directives (p : ParsedCacheControl) (directives : list string) : option ParsedCacheControl :=
  match directives with
  | [] => Some p
  | directive :: directives => p ← parse_directive p directive; parse_directives p directives
  end.

(** The directives of all [Cache-Control] fields, in order. *)
Definition cache_directives (headers : list HttpHeader) : list string :=
  flat_map (λ h, List.filter (λ v, negb (is_empty v)) (trim <$> split 44 h.(h_value)))
    (List.filter (named "cache-control") headers).

Definition parse_cache_control (headers : list HttpHeader) : option ParsedCacheControl :=
  parse_directives ParsedCacheControl_default (cache_directives headers).

(** The value of a field that occurs exactly once. *)
Definition header_value (headers : list HttpHeader) (name : string) : option string :=
  match List.filter (named name) headers with
  | [h] => Some (trim h.(h_value))
  | _ => None
  end.

Definition has_pragma_no_cache (headers : list HttpHeader) : bool :=
  existsb (λ h, named "pragma" h && eq_ignore_ascii_case h.(h_value) "no-cache") headers.

Definition duration_if_non_zero (seconds : N) : option Duration :=
  if decide (seconds = 0) then None else Some (from_secs seconds).

Record CacheFreshnessWindows := {
  fresh_for : Duration; stale_while_revalidate_for : option Duration; stale_if_error_for : option Duration
}.

(** [a + b] on [Duration]s. *)
Definition duration_add (a b : Duration) : option Duration :=
  if decide (a + b ≤ Duration_MAX) then Some (a + b) else None.

(** [window.map(|window| t + window)]. *)
Definition deadline_after (t : Duration) (window : option Duration) : option (option Duration) :=
  match window with
  | Some window => Some <$> duration_add t window
  | None => Some None
  end.

Section http.
Variable header_name : string → option string.
Variable header_value_ok to_str_ok : string → bool.
Variable status_ok : N → bool.
Variable parse_http_date : string → option N.

Definition response_header_value (headers : list HttpHeader) (name : string) : option string :=
  match find (named name) headers with
  | Some h => if header_value_ok h.(h_value) then Some h.(h_value) else None
  | None => None
  end.

Fixpoint to_cache_headers (headers : list HttpHeader) : option (list HttpCacheHeader) :=
  match headers with
  | [] => Some []
  | h :: headers =>
      name ← header_name h.(h_name);
      if header_value_ok h.(h_value)
      then rest ← to_cache_headers headers; Some ({| ch_name := name; ch_value := h.(h_value) |} :: rest)
      else None
  end.

(** The lifetime in seconds before the bound of the policy. *)
Definition origin_freshness_secs (policy : HttpCachePolicyConfig) (headers : list HttpHeader)
    (directives : ParsedCacheControl) (age_secs : N) : option N :=
  match (match directives.(shared_max_age) with Some s => Some s | None => directives.(max_age) end) with
  | Some max_age => Some (max_age - age_secs)
  | None =>
      match header_value headers "expires" with
      | Some expires_header =>
          expires_at ← parse_http_date expires_header;
          match header_value headers "date" with
          | Some date_header =>
              origin_date ← parse_http_date date_header;
              Some ((expires_at - origin_date) / 1000000000 - age_secs)
          | None => Some policy.(default_ttl_secs)
          end
      | None => Some policy.(default_ttl_secs)
      end
  end.

Definition derive_freshness_windows_from_origin (policy : HttpCachePolicyConfig) (headers : list HttpHeader) :
    option CacheFreshnessWindows :=
  directives ← parse_cache_control headers;
  if directives.(no_store) || directives.(private) || directives.(no_cache) || has_pragma_no_cache headers then None
  else
    age_secs ← match header_value headers "age" with Some value => parse_u64 value | None => Some 0 end;
    freshness_secs ← origin_freshness_secs policy headers directives age_secs;
    Some {| fresh_for := from_secs (N.min freshness_secs policy.(max_ttl_secs));
            stale_while_revalidate_for := duration_if_non_zero
              (N.min (default policy.(stale_while_revalidate_secs) directives.(pc_stale_while_revalidate))
                     policy.(stale_while_revalidate_secs));
            stale_if_error_for := duration_if_non_zero
              (N.min (default policy.(stale_if_error_secs) directives.(pc_stale_if_error))
                     policy.(stale_if_error_secs)) |}.

Definition freshness_windows (policy : HttpCachePolicyConfig) (headers : list HttpHeader) :
    option CacheFreshnessWindows :=
  if policy.(honor_cache_control) then derive_freshness_windows_from_origin policy headers
  else Some {| fresh_for := from_secs policy.(default_ttl_secs);
               stale_while_revalidate_for := duration_if_non_zero policy.(stale_while_revalidate_secs);
               stale_if_error_for := duration_if_non_zero policy.(stale_if_error_secs) |}.

(** The outer [None] is a panic of a sum. *)
Definition derive_cache_metadata (policy : HttpCachePolicyConfig) (headers : list HttpHeader) (status : N)
    (now : Duration) : option (option HttpCacheMetadata) :=
  match freshness_windows policy headers with
  | None => Some None
  | Some freshness =>
      if bool_decide (freshness.(fresh_for) = 0) && bool_decide (freshness.(stale_while_revalidate_for) = None) &&
         bool_decide (freshness.(stale_if_error_for) = None) then Some None
      else
        fresh_until ← duration_add now freshness.(fresh_for);
        swr ← deadline_after fresh_until freshness.(stale_while_revalidate_for);
        sie ← deadline_after fresh_until freshness.(stale_if_error_for);
        Some (Some {| hm_status := status; stored_at := now; fresh_until := fresh_until;
                      stale_while_revalidate_until := swr; stale_if_error_until := sie;
                      hm_etag := response_header_value headers "etag";
                      hm_last_modified := response_header_value headers "last-modified" |})
  end.

(** ** Revalidation *)

Definition should_revalidate_entry (policy : HttpCachePolicyConfig) (entry : HttpCacheEntry) : bool :=
  policy.(revalidation_enabled) &&
  (bool_decide (is_Some entry.(ce_metadata).(hm_etag)) || bool_decide (is_Some entry.(ce_metadata).(hm_last_modified))).

Definition conditional_header (name : string) (validator : option string) : list HttpHeader :=
  match validator with
  | Some value => if to_str_ok value then [{| h_name := name; h_value := value |}] else []
  | None => []
  end.

Definition append_conditional_revalidation_headers (headers : list HttpHeader)
    (revalidation_entry : option HttpCacheEntry) : list HttpHeader :=
  match revalidation_entry with
  | None => headers
  | Some entry =>
      headers ++ conditional_header "if-none-match" entry.(ce_metadata).(hm_etag) ++
      conditional_header "if-modified-since" entry.(ce_metadata).(hm_last_modified)
  end.

Definition option_or {A} (a b : option A) : option A := match a with Some _ => a | None => b end.

Definition refresh_revalidated_entry (policy : option HttpCachePolicyConfig) (stale_entry : HttpCacheEntry)
    (response_headers : list HttpHeader) (now : Duration) : option (option HttpCacheEntry) :=
  match policy with
  | None => Some None
  | Some policy =>
      derived ← derive_cache_metadata policy response_headers stale_entry.(ce_metadata).(hm_status) now;
      Some (match derived with
            | None => None
            | Some m =>
                Some {| ce_metadata :=
                          {| hm_status := m.(hm_status); stored_at := m.(stored_at); fresh_until := m.(fresh_until);
                             stale_while_revalidate_until := m.(stale_while_revalidate_until);
                             stale_if_error_until := m.(stale_if_error_until);
                             hm_etag := option_or m.(hm_etag) stale_entry.(ce_metadata).(hm_etag);
                             hm_last_modified :=
                               option_or m.(hm_last_modified) stale_entry.(ce_metadata).(hm_last_modified) |};
                        ce_headers := stale_entry.(ce_headers); ce_body := stale_entry.(ce_body) |}
            end)
  end.
End http.

Definition is_stale_if_error_response_status (status : N) : bool := bool_decide (500 ≤ status ≤ 599).

Definition error_allows_stale_if_error (error : Http1ProxyError) : bool :=
  match error with
  | ConnectTimeout _ | Connect _ _ | ParseResponse _ | RequestIo _ | UpstreamGracefulDrain => true
  | IdleTimeout stage => bool_decide (stage = "request body") || bool_decide (stage = "response head")
  | _ => false
  end.

(** ** Lookup *)

Inductive HttpCacheRequestOutcome := OutcomeHit | OutcomeMiss | OutcomeStaleHit | OutcomeFill | OutcomeBypass.

Inductive CacheRequestOutcome :=
| CacheHit (entry : HttpCacheEntry) (outcome : HttpCacheRequestOutcome) (reason : string)
| Fetch (key : option string) (stale_fallback revalidation_entry : option HttpCacheEntry) (reason : string)
| Bypass (reason : string).

Record Http1ResponseCacheConfig := { rc_policy : HttpCachePolicyConfig; rc_store : HttpCacheStore }.

Definition bypass_reason (headers : list HttpHeader) : string :=
  if existsb (named "cookie") headers then "request_cookie"
  else if existsb (named "authorization") headers then "request_authorization"
  else "policy_bypass".

(** The storage key of a request, or why there is none. *)
Definition request_storage_key (policy : HttpCachePolicyConfig) (request : Http1RequestHead) : string + string :=
  match build_http_cache_key_material policy
          {| cq_method := request.(rq_method); cq_target := request.(rq_target); cq_headers := request.(rq_headers) |}
          policy.(vary_headers) with
  | Ok (Some material) =>
      match HttpCacheKeyMaterial_storage_key material with
      | Ok key => inl key
      | Err _ => inr "key_storage_error"
      end
  | Ok None => inr (bypass_reason request.(rq_headers))
  | Err _ => inr "key_build_error"
  end.

Definition lookup_outcome (policy : HttpCachePolicyConfig) (storage_key : string) (found : option HttpCacheLookup) :
    CacheRequestOutcome :=
  match found with
  | None => Fetch (Some storage_key) None None "miss"
  | Some lookup =>
      let entry := lookup.(lk_entry) in
      if decide (lookup.(lk_freshness) = Fresh) then CacheHit entry OutcomeHit "fresh"
      else if bool_decide (lookup.(lk_freshness) = StaleWhileRevalidate) && negb (should_revalidate_entry policy entry)
      then CacheHit entry OutcomeStaleHit "stale_while_revalidate"
      else if should_revalidate_entry policy entry then Fetch (Some storage_key) (Some entry) (Some entry) "revalidation"
      else if decide (lookup.(lk_freshness) = StaleIfError)
      then Fetch (Some storage_key) (Some entry) None "stale_if_error_revalidation"
      else Fetch (Some storage_key) None None "miss"
  end.

Definition resolve_cache_request (response_cache : option Http1ResponseCacheConfig) (request : Http1RequestHead)
    (now : Duration) : option Http1ResponseCacheConfig * option CacheRequestOutcome :=
  match response_cache with
  | None => (None, None)
  | Some cache =>
      if negb (request_method_is_cache_lookup_eligible cache.(rc_policy) request.(rq_method))
      then (Some cache, Some (Bypass "method_ineligible"))
      else if decide (request.(rq_body_kind) ≠ Body_None) then (Some cache, Some (Bypass "request_body"))
      else match request_storage_key cache.(rc_policy) request with
           | inr reason => (Some cache, Some (Bypass reason))
           | inl key =>
               let '(store, found) := HttpCacheStore_lookup cache.(rc_store) now key in
               (Some {| rc_policy := cache.(rc_policy); rc_store := store |},
                Some (lookup_outcome cache.(rc_policy) key found))
           end
  end.

(** ** Errors after the head *)

Definition SocketAddr_fmt (a : SocketAddr) : string :=
  match a.(sa_ip) with
  | IpAddr_V4 _ => ip_to_string a.(sa_ip) +:+ ":" +:+ pretty a.(sa_port)
  | IpAddr_V6 _ => "[" +:+ ip_to_string a.(sa_ip) +:+ "]:" +:+ pretty a.(sa_port)
  end.

Definition Http1ProxyError_fmt (e : Http1ProxyError) : string :=
  match e with
  | ConnectTimeout target => "timed out connecting HTTP/1.1 upstream " +:+ SocketAddr_fmt target
  | Connect target source => "failed to connect HTTP/1.1 upstream " +:+ SocketAddr_fmt target +:+ ": " +:+ source
  | ParseRequest source => "downstream HTTP/1.1 request failed: " +:+ Http1ParseError_fmt source
  | ParseResponse source => "upstream HTTP/1.1 response failed: " +:+ Http1ParseError_fmt source
  | BodyLimitExceeded direction => "HTTP/1.1 body limit exceeded for " +:+ direction
  | IdleTimeout stage => "HTTP/1.1 idle timeout exceeded for " +:+ stage
  | RequestIo source => "HTTP/1.1 upstream write failed: " +:+ source
  | ResponseIo source => "HTTP/1.1 downstream write failed: " +:+ source
  | UpstreamGracefulDrain => "upstream is gracefully draining"
  end.

Definition response_started_error (error : Http1ProxyError) (stale_fallback_armed : bool) : Http1ProxyError :=
  if stale_fallback_armed && error_allows_stale_if_error error then ResponseIo (Http1ProxyError_fmt error) else error.

(** ** Serving and filling *)

Local Open Scope relay_scope.

Record CacheFillAttempt := { fa_entry : option HttpCacheEntry; fa_body_relayed : bool }.
Definition CacheFillAttempt_skipped : CacheFillAttempt := {| fa_entry := None; fa_body_relayed := false |}.

(** A panic ends the exchange without a result. *)
Definition or_panic {A} (x : option A) : Relay A := λ s, match x with Some a => Some (Ok a, s) | None => None end.

Definition map_relay_err {A} (f : Http1ProxyError → Http1ProxyError) (c : Relay A) : Relay A := λ s,
  match c s with Some (Err e, s) => Some (Err (f e), s) | r => r end.

Section fill.
Variable header_name : string → option string.
Variable header_value_ok to_str_ok : string → bool.
Variable status_ok : N → bool.
Variable parse_http_date : string → option N.
Variable metadata_size : N.

(** What is written before the body of a cached response. *)
Definition cached_response_head (keep_alive : bool) (entry : HttpCacheEntry)
    (response_transform : option ResponseTransformConfig) : list N :=
  let headers :=
    (λ h, {| h_name := h.(ch_name); h_value := if to_str_ok h.(ch_value) then h.(ch_value) else EmptyString |})
      <$> entry.(ce_headers) in
  let headers := match response_transform with
                 | Some transform => apply_http1_header_mutations headers transform.(st_header_mutations)
                 | None => headers
                 end in
  let headers := if negb keep_alive then headers ++ [{| h_name := "connection"; h_value := "close" |}] else headers in
  encode_response_head Version_Http1 entry.(ce_metadata).(hm_status) EmptyString headers.

Definition write_cached_response (request_method : string) (keep_alive : bool) (entry : HttpCacheEntry)
    (response_transform : option ResponseTransformConfig) : Relay () :=
  write_all Response (cached_response_head keep_alive entry response_transform) ;;
  if negb (eq_ignore_ascii_case request_method "HEAD") then write_all Response (bytes entry.(ce_body)) else ret ().

Definition build_cacheable_response_entry (fuel : nat) (policy : HttpCachePolicyConfig) (request : Http1RequestHead)
    (response : Http1ResponseHead) (headers : list HttpHeader) (limits : Http1Limits) (now : Duration) :
    Relay CacheFillAttempt :=
  if negb (eq_ignore_ascii_case request.(rq_method) "GET") || negb (response_is_cacheable policy response headers)
  then ret CacheFillAttempt_skipped
  else if negb (status_ok response.(rs_status)) then ret CacheFillAttempt_skipped
  else
    let* derived := or_panic (derive_cache_metadata header_value_ok parse_http_date policy headers
                                response.(rs_status) now) in
    match derived, to_cache_headers header_name header_value_ok headers with
    | Some metadata, Some cached =>
        let filled body := {| fa_entry := Some {| ce_metadata := metadata; ce_headers := cached; ce_body := of_bytes body |};
                              fa_body_relayed := true |} in
        match response.(rs_body_kind) with
        | Body_None => ret (filled [])
        | ContentLength length =>
            if bool_decide (policy.(cp_max_object_bytes) < length) || bool_decide (limits.(max_body_bytes) < length)
            then ret CacheFillAttempt_skipped
            else let* body := relay_content_length_collect fuel Response length in ret (filled body)
        | Chunked | CloseDelimited => ret CacheFillAttempt_skipped
        end
    | _, _ => ret CacheFillAttempt_skipped
    end.

(** The fill of the cache by a response whose head has been sent: the cache afterwards, whether
    the body has been relayed, and whether the entry was stored. *)
Definition fill_response_cache (fuel : nat) (cache : Http1ResponseCacheConfig) (cache_lookup_key : string)
    (request : Http1RequestHead) (response : Http1ResponseHead) (headers : list HttpHeader) (limits : Http1Limits)
    (now : Duration) (stale_fallback : option HttpCacheEntry) : Relay (Http1ResponseCacheConfig * bool * bool) :=
  let* fill := map_relay_err (λ e, response_started_error e (bool_decide (is_Some stale_fallback)))
                 (build_cacheable_response_entry fuel cache.(rc_policy) request response headers limits now) in
  match fill.(fa_entry) with
  | None => ret (cache, fill.(fa_body_relayed), false)
  | Some entry =>
      let* inserted := or_panic (HttpCacheStore_insert metadata_size cache.(rc_store) now cache_lookup_key entry) in
      ret ({| rc_policy := cache.(rc_policy); rc_store := inserted.1 |}, fill.(fa_body_relayed), is_ok inserted.2)
  end.

(** After a [304] the entry is refreshed, or kept as it is when the response gives no lifetime,
    and stored again; it is what the client gets. *)
Definition revalidate_not_modified (response_cache : option Http1ResponseCacheConfig) (cache_lookup_key : option string)
    (stale_entry : HttpCacheEntry) (headers : list HttpHeader) (now : Duration) :
    option (option Http1ResponseCacheConfig * HttpCacheEntry) :=
  (refreshed ← refresh_revalidated_entry header_value_ok parse_http_date (rc_policy <$> response_cache) stale_entry
                headers now;
   let refreshed := default stale_entry refreshed in
   match response_cache, cache_lookup_key with
   | Some cache, Some key =>
       '(store, _) ← HttpCacheStore_insert metadata_size cache.(rc_store) now key refreshed;
       Some (Some {| rc_policy := cache.(rc_policy); rc_store := store |}, refreshed)
   | _, _ => Some (response_cache, refreshed)
   end)%stdpp.
End fill.

(** ** Directives that forbid storage *)

Definition directive_name (directive : string) : string :=
  match split_once 61 directive with Some (name, _) => trim name | None => directive end.

Definition forbids_storage (directive : string) : bool :=
  eq_ignore_ascii_case (directive_name directive) "no-store" ||
  eq_ignore_ascii_case (directive_name directive) "private" ||
  eq_ignore_ascii_case (directive_name directive) "no-cache".

Definition blocked (p : ParsedCacheControl) : bool := p.(no_store) || p.(private) || p.(no_cache).

Lemma parse_directive_blocked p d p' : parse_directive p d = Some p' → blocked p' = blocked p || forbids_storage d.
Proof.
  unfold parse_directive, forbids_storage, directive_name, blocked. destruct p as [ns pr nc ma sm swr sie].
  set (name := match split_once 61 d with Some (name, _) => trim name | None => d end).
  replace (match split_once 61 d with Some (name, value) => (trim name, Some (trim value)) | None => (d, None) end)
    with (name, (λ nv, trim nv.2) <$> split_once 61 d)
    by (unfold name; by destruct (split_once 61 d) as [[]|]).
  generalize ((λ nv, trim nv.2) <$> split_once 61 d) as parameter. intros parameter.
  destruct (eq_ignore_ascii_case name "no-store"); [intros [= <-]; simpl; by rewrite orb_true_r|].
  destruct (eq_ignore_ascii_case name "private"); [intros [= <-]; simpl; by rewrite orb_true_r, orb_true_r|].
  destruct (eq_ignore_ascii_case name "no-cache"); [intros [= <-]; simpl; by rewrite !orb_true_r|].
  rewrite orb_false_r. intros H.
  repeat (destruct (eq_ignore_ascii_case name _) in H; [
    destruct parameter as [v|]; [|done]; cbn in H; destruct (parse_cache_delta v); [|done]; by injection H as <- | ]).
  by injection H as <-.
Qed.

Lemma parse_directives_blocked p ds p' :
  parse_directives p ds = Some p' → blocked p' = blocked p || existsb forbids_storage ds.
Proof.
  revert p. induction ds as [|d ds IH]; intros p; simpl; [intros [= <-]; by rewrite orb_false_r|].
  destruct (parse_directive p d) as [p1|] eqn:E; [|done]. simpl. intros H. rewrite (IH _ H).
  by rewrite (parse_directive_blocked _ _ _ E), orb_assoc.
Qed.

(** ** Windows *)

Definition window_within (limit : N) (w : option Duration) : Prop :=
  match w with Some d => 0 < d ≤ from_secs limit | None => True end.

Lemma duration_if_non_zero_within a limit : a ≤ limit → window_within limit (duration_if_non_zero a).
Proof. intros H. unfold window_within, duration_if_non_zero, from_secs. case_decide; [done|]. nia. Qed.

Lemma freshness_windows_within parse_http_date policy headers w :
  freshness_windows parse_http_date policy headers = Some w →
  (policy.(default_ttl_secs) ≤ policy.(max_ttl_secs) → w.(fresh_for) ≤ from_secs policy.(max_ttl_secs)) ∧
  window_within policy.(stale_while_revalidate_secs) w.(stale_while_revalidate_for) ∧
  window_within policy.(stale_if_error_secs) w.(stale_if_error_for).
Proof.
  unfold freshness_windows. destruct (honor_cache_control policy).
  - unfold derive_freshness_windows_from_origin. destruct (parse_cache_control headers) as [d|]; [|done]. cbn.
    destruct (_ || has_pragma_no_cache headers); [done|].
    destruct (match header_value headers "age" with Some v => parse_u64 v | None => Some 0 end) as [age|]; [|done]. cbn.
    destruct (origin_freshness_secs _ _ _ _ _) as [fresh|]; [|done]. cbn. intros [= <-]. simpl.
    split_and!; [|apply duration_if_non_zero_within; lia..]. intros _. unfold from_secs. nia.
  - intros [= <-]. simpl. split_and!; [|apply duration_if_non_zero_within; lia..]. unfold from_secs. nia.
Qed.

Lemma duration_add_Some a b c : duration_add a b = Some c → c = a + b.
Proof. unfold duration_add. case_decide; [|done]. by intros [= <-]. Qed.

Lemma deadline_after_Some t w d :
  deadline_after t w = Some d → d = (λ window, t + window) <$> w.
Proof.
  destruct w as [w|]; simpl; [|by intros [= <-]]. destruct (duration_add t w) eqn:E; [|done].
  intros [= <-]. by rewrite (duration_add_Some _ _ _ E).
Qed.

(** The metadata is built from the windows. *)
Lemma derive_cache_metadata_inv hv pd policy headers status now m :
  derive_cache_metadata hv pd policy headers status now = Some (Some m) →
  ∃ w, freshness_windows pd policy headers = Some w ∧ m.(stored_at) = now ∧
    m.(hm_status) = status ∧ m.(fresh_until) = now + w.(fresh_for) ∧
    m.(stale_while_revalidate_until) = (λ d, m.(fresh_until) + d) <$> w.(stale_while_revalidate_for) ∧
    m.(stale_if_error_until) = (λ d, m.(fresh_until) + d) <$> w.(stale_if_error_for) ∧
    ¬ (w.(fresh_for) = 0 ∧ w.(stale_while_revalidate_for) = None ∧ w.(stale_if_error_for) = None).
Proof.
  unfold derive_cache_metadata. destruct (freshness_windows _ _ _) as [w|]; [|done].
  destruct (_ && _) eqn:Ez; [done|]. destruct (duration_add now _) as [f|] eqn:Ef; [|done]. cbn.
  destruct (deadline_after f (stale_while_revalidate_for w)) as [swr|] eqn:E1; [|done]. cbn.
  destruct (deadline_after f (stale_if_error_for w)) as [sie|] eqn:E2; [|done]. cbn. intros [= <-]. cbn.
  exists w. rewrite (duration_add_Some _ _ _ Ef), (deadline_after_Some _ _ _ E1), (deadline_after_Some _ _ _ E2).
  rewrite (duration_add_Some _ _ _ Ef). split_and!; try done.
  intros (H1 & H2 & H3). by rewrite H1, H2, H3 in Ez.
Qed.

Lemma derived_metadata_valid hv pd policy headers status now m :
  derive_cache_metadata hv pd policy headers status now = Some (Some m) → HttpCacheMetadata_validate m = Ok tt.
Proof.
  intros H. destruct (derive_cache_metadata_inv _ _ _ _ _ _ _ H) as (w & _ & Hst & _ & Hf & Hswr & Hsie & _).
  unfold HttpCacheMetadata_validate, deadline_before. rewrite Hswr, Hsie, Hst.
  destruct (stale_while_revalidate_for w), (stale_if_error_for w); simpl;
    rewrite decide_False by lia; by rewrite ?bool_decide_false by lia.
Qed.

(** ** Collected bodies *)

(** With well-behaved peers the collecting relay passes exactly the announced bytes and returns them. *)
Lemma collect_exact s n :
  clean s → n ≤ N.of_nat (length (avail s)) →
  ∃ s', relay_content_length_collect (work_for s) Response n s = Some (Ok (take (N.to_nat n) (avail s)), s') ∧
    written s' = written s ++ take (N.to_nat n) (avail s) ∧ avail s' = drop (N.to_nat n) (avail s).
Proof.
  intros Hc Hn. rewrite relay_content_length_collect_equiv.
  destruct (content_length_relay_exact s Response n Hc Hn) as (s' & -> & Hw & Ha).
  exists s'. rewrite Hw, drop_app_length. done.
Qed.

Lemma write_all_ok l s :
  clean s → ∃ s', write_all Response l s = Some (Ok (), s') ∧ written s' = written s ++ l ∧ clean s'.
Proof.
  intros Hc. destruct (runs_write Response l s) as (r & s' & c & out & Hw & _ & Hout & Hcl & _ & _ & Hr).
  destruct r as [[]|e]; [|by destruct Hr]. subst out. exists s'. auto.
Qed.

(** ** Hits *)

Lemma hit_outcome policy key found entry outcome reason :
  lookup_outcome policy key (Some found) = CacheHit entry outcome reason →
  found.(lk_entry) = entry ∧
  (found.(lk_freshness) = Fresh ∨
   found.(lk_freshness) = StaleWhileRevalidate ∧ should_revalidate_entry policy entry = false).
Proof.
  unfold lookup_outcome. case_decide; [intros [= <- _ _]; auto|].
  destruct (bool_decide _ && _) eqn:E.
  - apply andb_true_iff in E as [H1%bool_decide_eq_true H2%negb_true_iff]. intros [= <- _ _]. auto.
  - destruct (should_revalidate_entry _ _); [done|]. by destruct (decide (lk_freshness found = StaleIfError)).
Qed.

Lemma freshness_fresh m now : HttpCacheMetadata_freshness m now = Some Fresh → now < m.(fresh_until).
Proof.
  unfold HttpCacheMetadata_freshness, HttpCacheMetadata_is_fresh. case_decide; [done|]. case_bool_decide; [done|].
  by destruct (HttpCacheMetadata_allows_stale_while_revalidate m now), (HttpCacheMetadata_allows_stale_if_error m now).
Qed.

Lemma freshness_swr m now :
  HttpCacheMetadata_freshness m now = Some StaleWhileRevalidate →
  HttpCacheMetadata_allows_stale_while_revalidate m now = true.
Proof.
  unfold HttpCacheMetadata_freshness. case_decide; [done|]. destruct (HttpCacheMetadata_is_fresh m now); [done|].
  destruct (HttpCacheMetadata_allows_stale_while_revalidate m now); [done|].
  by destruct (HttpCacheMetadata_allows_stale_if_error m now).
Qed.

Lemma storage_key_shareable policy request key :
  request_storage_key policy request = inl key →
  existsb (named "cookie") request.(rq_headers) = false ∧
  (existsb (named "authorization") request.(rq_headers) = true → policy.(cp_authorization) = AuthorizationPartition).
Proof.
  unfold request_storage_key. destruct (build_http_cache_key_material _ _ _) as [[m|]|] eqn:E; [|done..]. intros _.
  by destruct (build_inv _ _ _ _ E) as (? & ? & ? & _ & _ & _ & _ & _ & _ & ? & ?).
Qed.

Lemma freshness_before m now :
  HttpCacheMetadata_validate m = Ok tt → now < m.(fresh_until) → HttpCacheMetadata_freshness m now = Some Fresh.
Proof.
  intros Hv Hf. unfold HttpCacheMetadata_freshness, HttpCacheMetadata_is_fresh. rewrite decide_False.
  { by rewrite bool_decide_true. }
  unfold HttpCacheMetadata_validate, HttpCacheMetadata_expires_at, deadline_before in *. case_decide; [done|].
  destruct (stale_while_revalidate_until m), (stale_if_error_until m); repeat case_bool_decide; try done; lia.
Qed.

Lemma storage_key_nonempty policy request key : request_storage_key policy request = inl key → key ≠ EmptyString.
Proof.
  unfold request_storage_key. destruct (build_http_cache_key_material _ _ _) as [[m|]|]; [|done..].
  unfold HttpCacheKeyMaterial_storage_key, HttpCacheKey_new.
  destruct (is_empty _) eqn:E; [done|]. intros [= <-]. by apply is_empty_false.
Qed.

Lemma get_not_head method : eq_ignore_ascii_case method "GET" = true → eq_ignore_ascii_case method "HEAD" = false.
Proof.
  unfold eq_ignore_ascii_case. intros ->%bool_decide_eq_true. by vm_compute.
Qed.

(** ** Properties *)

Section properties.
Context (header_name : string → option string) (header_value_ok to_str_ok : string → bool) (status_ok : N → bool)
        (parse_http_date : string → option N) (metadata_size : N).

(** The lifetime of what is stored is under control of the policy: derived metadata is
    accepted by the store, starts now, is not expired at once, and is fresh for at most
    [max_ttl_secs] (in a policy whose default lifetime is within that bound) whatever the origin
    says; each stale window adds at most the policy's. *)
Theorem derived_metadata_bounded policy headers status now m :
  derive_cache_metadata header_value_ok parse_http_date policy headers status now = Some (Some m) →
  HttpCacheMetadata_validate m = Ok tt ∧ m.(stored_at) = now ∧ now < HttpCacheMetadata_expires_at m ∧
  (policy.(default_ttl_secs) ≤ policy.(max_ttl_secs) → m.(fresh_until) ≤ now + from_secs policy.(max_ttl_secs)) ∧
  (∀ d, m.(stale_while_revalidate_until) = Some d →
        m.(fresh_until) < d ≤ m.(fresh_until) + from_secs policy.(stale_while_revalidate_secs)) ∧
  (∀ d, m.(stale_if_error_until) = Some d →
        m.(fresh_until) < d ≤ m.(fresh_until) + from_secs policy.(stale_if_error_secs)).
Proof.
  clear header_name to_str_ok status_ok metadata_size. intros H. split; [by eapply derived_metadata_valid|].
  destruct (derive_cache_metadata_inv _ _ _ _ _ _ _ H) as (w & Hw & Hst & _ & Hf & Hswr & Hsie & Hnz).
  destruct (freshness_windows_within _ _ _ _ Hw) as (Hmax & H1 & H2).
  unfold HttpCacheMetadata_expires_at, window_within in *. rewrite Hswr, Hsie, Hst.
  destruct (stale_while_revalidate_for w), (stale_if_error_for w); simpl in *;
    split_and!; try done; try lia; intros; simplify_eq; try lia.
  assert (fresh_for w ≠ 0) by (intros E; by apply Hnz). lia.
Qed.

(** A response marked [no-store], [private] or [no-cache] in any [Cache-Control] field, or
    [Pragma: no-cache], is never stored by a policy that honours the origin, whatever other
    directives it carries. *)
Theorem forbidden_response_not_stored fuel policy request response headers limits now s :
  policy.(honor_cache_control) = true →
  existsb forbids_storage (cache_directives headers) || has_pragma_no_cache headers = true →
  build_cacheable_response_entry header_name header_value_ok status_ok parse_http_date fuel policy request response
    headers limits now s = Some (Ok CacheFillAttempt_skipped, s).
Proof.
  intros Hh Hf.
  assert (Hd : derive_cache_metadata header_value_ok parse_http_date policy headers (rs_status response) now = Some None).
  { unfold derive_cache_metadata, freshness_windows, derive_freshness_windows_from_origin. rewrite Hh.
    destruct (parse_cache_control headers) as [d|] eqn:E; [|done]. cbn.
    pose proof (parse_directives_blocked _ _ _ E) as Hb. unfold blocked in Hb. cbn in Hb.
    by rewrite Hb, Hf. }
  unfold build_cacheable_response_entry. destruct (_ || negb (response_is_cacheable _ _ _)); [done|].
  destruct (negb (status_ok _)); [done|]. by rewrite Hd.
Qed.

(** C14: what the cache serves without asking the upstream is usable: a hit returns the entry
    stored under the key of the request, which is fresh, or within its stale-while-revalidate
    window and without a validator to revalidate it by; such a request carries no body, no cookie
    and, unless the policy partitions by them, no credentials. *)
Theorem cache_hit_usable cache request now cache' entry outcome reason :
  resolve_cache_request (Some cache) request now = (cache', Some (CacheHit entry outcome reason)) →
  ∃ key, request_storage_key cache.(rc_policy) request = inl key ∧
    contents cache.(rc_store) !! key = Some entry ∧
    (now < entry.(ce_metadata).(fresh_until) ∨
     HttpCacheMetadata_allows_stale_while_revalidate entry.(ce_metadata) now = true ∧
     should_revalidate_entry cache.(rc_policy) entry = false) ∧
    request.(rq_body_kind) = Body_None ∧ existsb (named "cookie") request.(rq_headers) = false ∧
    (existsb (named "authorization") request.(rq_headers) = true →
       cache.(rc_policy).(cp_authorization) = AuthorizationPartition).
Proof.
  unfold resolve_cache_request. destruct (negb _); [done|]. case_decide as Hbody; [done|].
  destruct (request_storage_key _ request) as [key|] eqn:Ek; [|done].
  destruct (HttpCacheStore_lookup _ now key) as [store found] eqn:El. intros [= _ Hout].
  exists key. split; [done|]. destruct found as [found|]; [|done].
  destruct (lookup_found (rc_store cache) now key found) as (r & Hr & Hre & Hf); [by rewrite El|].
  destruct (storage_key_shareable _ _ _ Ek) as [Hcookie Hauth].
  destruct (hit_outcome _ _ _ _ _ _ Hout) as (<- & Hfresh).
  split; [apply contents_lookup; eauto|]. split; [|done].
  destruct Hfresh as [Hx|[Hx Hv]]; rewrite Hx in Hf.
  - left. by apply freshness_fresh in Hf.
  - right. split; [|done]. by apply freshness_swr in Hf.
Qed.

(** What the cache stores for a response, from its derived metadata, its headers and its body. *)
Definition stored_entry (m : HttpCacheMetadata) (cached : list HttpCacheHeader) (body : list N) : HttpCacheEntry :=
  {| ce_metadata := m; ce_headers := cached; ce_body := of_bytes body |}.

(** The response is one that the proxy stores: a cacheable [GET] response with a content length
    within the limits, whose metadata and headers can be derived. *)
Record storable (policy : HttpCachePolicyConfig) (limits : Http1Limits) (request : Http1RequestHead)
    (response : Http1ResponseHead) (headers : list HttpHeader) (now : Duration) (n : N) (m : HttpCacheMetadata)
    (cached : list HttpCacheHeader) : Prop := {
  st_get : eq_ignore_ascii_case request.(rq_method) "GET" = true;
  st_cacheable : response_is_cacheable policy response headers = true;
  st_status : status_ok response.(rs_status) = true;
  st_length : response.(rs_body_kind) = ContentLength n;
  st_object : n ≤ policy.(cp_max_object_bytes);
  st_limit : n ≤ limits.(max_body_bytes);
  st_metadata : derive_cache_metadata header_value_ok parse_http_date policy headers response.(rs_status) now =
                  Some (Some m);
  st_headers : to_cache_headers header_name header_value_ok headers = Some cached
}.

Lemma storable_built policy limits request response headers now n m cached s :
  storable policy limits request response headers now n m cached → clean s → n ≤ N.of_nat (length (avail s)) →
  ∃ s', build_cacheable_response_entry header_name header_value_ok status_ok parse_http_date (work_for s) policy
          request response headers limits now s =
        Some (Ok {| fa_entry := Some (stored_entry m cached (take (N.to_nat n) (avail s))); fa_body_relayed := true |}, s') ∧
    written s' = written s ++ take (N.to_nat n) (avail s) ∧ avail s' = drop (N.to_nat n) (avail s).
Proof.
  intros [Hget Hc Hst Hlen Hobj Hlim Hm Hh] Hcl Hn. destruct (collect_exact s n Hcl Hn) as (s' & Hcol & Hw & Ha).
  exists s'. split; [|done]. unfold build_cacheable_response_entry. rewrite Hget, Hc, Hst. cbn [negb orb].
  unfold bind, or_panic. rewrite Hm, Hh, Hlen, !bool_decide_false by lia. cbn [orb]. by rewrite Hcol.
Qed.

Lemma served_entry method keep_alive entry transform d :
  eq_ignore_ascii_case method "GET" = true → clean d →
  ∃ d', write_cached_response to_str_ok method keep_alive entry transform d = Some (Ok (), d') ∧
    written d' = written d ++ cached_response_head to_str_ok keep_alive entry transform ++ bytes entry.(ce_body).
Proof.
  intros Hget Hd. unfold write_cached_response, bind. rewrite (get_not_head _ Hget). cbn [negb].
  destruct (write_all_ok (cached_response_head to_str_ok keep_alive entry transform) d Hd) as (d1 & -> & Hw1 & Hd1).
  destruct (write_all_ok (bytes entry.(ce_body)) d1 Hd1) as (d2 & -> & Hw2 & _).
  exists d2. by rewrite Hw2, Hw1, app_assoc.
Qed.

(** C13: a stored response is served again, byte for byte.  When a storable response with a
    content length comes in over well-behaved connections, its body goes to the client and into
    the cache; from then on, as long as the entry is fresh and nothing else touches the cache,
    the same request is a fresh hit, and serving it writes a head and exactly that body. *)
Theorem filled_response_served_again config t cache limits request response headers now n m cached key fallback s :
  2 * config.(cf_max_bytes) ≤ u64_max → cache_reachable metadata_size config t cache.(rc_store) → t ≤ now →
  cache.(rc_store).(hs_state).(next_sequence) < u64_max →
  request_method_is_cache_lookup_eligible cache.(rc_policy) request.(rq_method) = true →
  request.(rq_body_kind) = Body_None → request_storage_key cache.(rc_policy) request = inl key →
  storable cache.(rc_policy) limits request response headers now n m cached →
  clean s → n ≤ N.of_nat (length (avail s)) → Forall (λ b, b < 256) (avail s) →
  HttpCacheEntry_estimated_size metadata_size (stored_entry m cached (take (N.to_nat n) (avail s)))
    ≤ config.(cf_max_object_bytes) →
  ∃ cache' s',
    fill_response_cache header_name header_value_ok status_ok parse_http_date metadata_size (work_for s) cache key
      request response headers limits now fallback s = Some (Ok (cache', true, true), s') ∧
    written s' = written s ++ take (N.to_nat n) (avail s) ∧
    ∀ later, later < m.(fresh_until) →
      (resolve_cache_request (Some cache') request later).2 =
        Some (CacheHit (stored_entry m cached (take (N.to_nat n) (avail s))) OutcomeHit "fresh") ∧
      ∀ keep_alive transform d, clean d →
        ∃ d', write_cached_response to_str_ok request.(rq_method) keep_alive
                (stored_entry m cached (take (N.to_nat n) (avail s))) transform d = Some (Ok (), d') ∧
          written d' = written d ++ cached_response_head to_str_ok keep_alive
            (stored_entry m cached (take (N.to_nat n) (avail s))) transform ++ take (N.to_nat n) (avail s).
Proof.
  intros Hroom Hr Hle Hseq Hel Hbody Hkey Hs Hcl Hn Hb Hsize.
  destruct (storable_built _ _ _ _ _ _ _ _ _ s Hs Hcl Hn) as (s' & Hbuild & Hw & _).
  set (entry := stored_entry m cached (take (N.to_nat n) (avail s))) in *.
  destruct (cache_reachable_ok _ _ _ _ Hroom Hr) as [Hok <-].
  assert (Hv : HttpCacheMetadata_validate m = Ok tt) by (eapply derived_metadata_valid; apply Hs).
  destruct (insert_accepted _ t now (rc_store cache) key entry Hok Hle (storage_key_nonempty _ _ _ Hkey) Hv Hsize)
    as (st & k & counts & Hi & _ & _ & _ & Hlru & Hleast).
  pose proof (insert_kept _ _ _ _ _ _ _ _ Hok Hle Hseq Hsize Hlru Hleast) as Hkept.
  exists {| rc_policy := cache.(rc_policy); rc_store := with_store_state (rc_store cache) st counts |}, s'.
  unfold fill_response_cache, bind, map_relay_err. rewrite Hbuild. cbn [fa_entry fa_body_relayed].
  unfold or_panic. rewrite Hi. split; [done|]. split; [done|]. intros later Hlater. split.
  - unfold resolve_cache_request. cbn [rc_policy rc_store]. rewrite Hel, decide_False by (by intros []).
    rewrite Hkey. unfold HttpCacheStore_lookup. cbn [with_store_state hs_state]. rewrite Hkept. cbn [new_record cr_entry].
    change (ce_metadata entry) with m. by rewrite (freshness_before _ _ Hv Hlater).
  - intros keep_alive transform d Hd.
    destruct (served_entry (rq_method request) keep_alive entry transform d (st_get _ _ _ _ _ _ _ _ _ Hs) Hd)
      as (d' & Hwr & Hwd). exists d'. split; [done|]. rewrite Hwd. unfold entry at 2. cbn [stored_entry ce_body].
    by rewrite bytes_of_bytes by by apply Forall_take.
Qed.
End properties.

(** ** Samples *)

Definition sample_header_name (s : string) : option string := Some (to_ascii_lowercase s).
Definition any_value (_ : string) : bool := true.
Definition sample_status_ok (status : N) : bool := bool_decide (100 ≤ status < 1000).
Definition no_dates (_ : string) : option N := None.

Definition sample_get : Http1RequestHead :=
  {| rq_method := "GET"; rq_target := "/a?x=1"; rq_version := Version_Http1;
     rq_headers := [{| h_name := "host"; h_value := "example.com" |}]; rq_body_kind := Body_None;
     rq_keep_alive := true; rq_route := None; rq_http10 := false |}.

Definition sample_response_headers : list HttpHeader :=
  [{| h_name := "cache-control"; h_value := "max-age=10" |}; {| h_name := "etag"; h_value := "v1" |}].

Definition sample_response : Http1ResponseHead :=
  {| rs_version := Version_Http1; rs_status := 200; rs_reason := "OK"; rs_headers := sample_response_headers;
     rs_body_kind := ContentLength 3; rs_keep_alive := true |}.

Definition sample_cache : Http1ResponseCacheConfig :=
  {| rc_policy := HttpCachePolicyConfig_default; rc_store := sample_store |}.

Definition sample_metadata : HttpCacheMetadata :=
  {| hm_status := 200; stored_at := 5000; fresh_until := 5000 + from_secs 10;
     stale_while_revalidate_until := Some (5000 + from_secs 40); stale_if_error_until := Some (5000 + from_secs 70);
     hm_etag := Some "v1"; hm_last_modified := None |}.

Definition sample_cached_headers : list HttpCacheHeader :=
  [{| ch_name := "cache-control"; ch_value := "max-age=10" |}; {| ch_name := "etag"; ch_value := "v1" |}].

Definition sample_upstream : RelayState :=
  {| rl_reader := [Some (Data [98; 99; 100])]; rl_buffer := [97]; rl_writer := {| w_written := []; w_outcomes := [] |} |}.

Definition sample_key : string := "path=/a" +:+ key_newline +:+ "host=example.com" +:+ key_newline +:+ "query=x=1".

Lemma derived_metadata_bounded_witness :
  sample_metadata.(fresh_until) ≤ 5000 + from_secs 300 ∧ 5000 < HttpCacheMetadata_expires_at sample_metadata.
Proof.
  destruct (derived_metadata_bounded any_value no_dates HttpCachePolicyConfig_default sample_response_headers 200 5000
    sample_metadata) as (_ & _ & He & Hf & _); [vm_compute; reflexivity|].
  split; [|exact He]. apply Hf. vm_compute. done.
Defined.

Lemma forbidden_response_not_stored_witness :
  build_cacheable_response_entry sample_header_name any_value sample_status_ok no_dates 9 HttpCachePolicyConfig_default
    sample_get sample_response [{| h_name := "Cache-Control"; h_value := "max-age=10, Private" |}]
    Http1Limits_default 5000 sample_upstream = Some (Ok CacheFillAttempt_skipped, sample_upstream).
Proof.
  apply (forbidden_response_not_stored sample_header_name any_value sample_status_ok no_dates);
    [reflexivity|vm_compute; reflexivity].
Defined.

(** The cache after the sample response was stored. *)
Definition sample_filled : Http1ResponseCacheConfig :=
  match fill_response_cache sample_header_name any_value sample_status_ok no_dates 100 9 sample_cache sample_key
          sample_get sample_response sample_response_headers Http1Limits_default 5000 None sample_upstream with
  | Some (Ok (cache, _, _), _) => cache
  | _ => sample_cache
  end.

Lemma cache_hit_usable_witness :
  existsb (named "cookie") sample_get.(rq_headers) = false.
Proof.
  destruct (cache_hit_usable sample_filled sample_get 6000
    (resolve_cache_request (Some sample_filled) sample_get 6000).1
    (stored_entry sample_metadata sample_cached_headers [97; 98; 99]) OutcomeHit "fresh")
    as (key & _ & _ & _ & _ & Hc & _); [vm_compute; reflexivity|exact Hc].
Defined.

Lemma sample_storable :
  storable sample_header_name any_value sample_status_ok no_dates HttpCachePolicyConfig_default Http1Limits_default
    sample_get sample_response sample_response_headers 5000 3 sample_metadata sample_cached_headers.
Proof. split; vm_compute; done. Defined.

Lemma filled_response_served_again_witness :
  ∃ cache' s',
    fill_response_cache sample_header_name any_value sample_status_ok no_dates 100 (work_for sample_upstream)
      {| rc_policy := HttpCachePolicyConfig_default; rc_store := sample_store |} sample_key sample_get sample_response
      sample_response_headers Http1Limits_default 5000 None sample_upstream = Some (Ok (cache', true, true), s') ∧
    written s' = written sample_upstream ++ take 3 (avail sample_upstream).
Proof.
  destruct (filled_response_served_again sample_header_name any_value any_value sample_status_ok no_dates 100
    sample_config 2000 sample_cache Http1Limits_default sample_get sample_response sample_response_headers 5000 3
    sample_metadata sample_cached_headers sample_key None sample_upstream) as (c & s' & Hf & Hw & _);
    [vm_compute; done|exact sample_reachable|lia|vm_compute; done|vm_compute; reflexivity|reflexivity
    |vm_compute; reflexivity|exact sample_storable|split; repeat constructor; done|vm_compute; done
    |repeat constructor|vm_compute; done|].
  exists c, s'. split; [exact Hf|exact Hw].
Defined.

(** A response that varies by a header outside the policy's [vary_headers] is stored, and the key
    does not tell requests apart by that header. *)
Example vary_outside_policy_shared :
  response_is_cacheable HttpCachePolicyConfig_default sample_response
    [{| h_name := "vary"; h_value := "accept-language" |}] = true ∧
  request_storage_key HttpCachePolicyConfig_default
    {| rq_method := "GET"; rq_target := "/a"; rq_version := Version_Http1;
       rq_headers := [{| h_name := "host"; h_value := "h" |}; {| h_name := "accept-language"; h_value := "de" |}];
       rq_body_kind := Body_None; rq_keep_alive := true; rq_route := None; rq_http10 := false |} =
  request_storage_key HttpCachePolicyConfig_default
    {| rq_method := "GET"; rq_target := "/a"; rq_version := Version_Http1;
       rq_headers := [{| h_name := "host"; h_value := "h" |}; {| h_name := "accept-language"; h_value := "fr" |}];
       rq_body_kind := Body_None; rq_keep_alive := true; rq_route := None; rq_http10 := false |}.
Proof. vm_compute. done. Qed.

(** Without a [Date], the time in [Expires] does not matter. *)
Lemma expires_without_date parse_http_date policy headers d age expires t :
  d.(shared_max_age) = None → d.(max_age) = None → header_value headers "expires" = Some expires →
  parse_http_date expires = Some t → header_value headers "date" = None →
  origin_freshness_secs parse_http_date policy headers d age = Some policy.(default_ttl_secs).
Proof. intros H1 H2 He Ht Hd. unfold origin_freshness_secs. by rewrite H1, H2, He, Ht, Hd. Qed.
