(* ===== verification/RequestClassification.v ===== *)
(** * Request classification

    Models the classification of requests in [crates/runtime/src]: the scorers of
    [header_anomaly_scoring.rs] and [request_body_inspection.rs], the provider chains of
    [reputation_adapter.rs] and [bot_signal_adapter.rs], the evaluator of
    [request_classification.rs], its mapping to an action in
    [request_classification_enforcement.rs] and the adaptation to overload in
    [request_classification_adaptive_mitigation.rs], with the configuration of
    [crates/config-model/src/request_classification.rs].

    A provider, a trait object in the source, is its name and the function that evaluates it. *)

From stdpp Require Import pretty countable.
From S2P Require Import Prelude RustStr RustText Overload RouteMatching HttpMessage BodyRelay.
Local Open Scope N_scope.

(** ** Configuration *)

Inductive RequestClassifierSensitivityConfig := SensitivityLow | SensitivityMedium | SensitivityHigh.

Record RequestClassificationSignalWeightsConfig := {
  w_header_anomaly : N; w_body_anomaly : N; w_query_anomaly : N; w_user_agent_anomaly : N; w_reputation : N;
  w_bot_signal : N
}.

Definition RequestClassificationSignalWeightsConfig_default : RequestClassificationSignalWeightsConfig :=
  {| w_header_anomaly := 25; w_body_anomaly := 20; w_query_anomaly := 20; w_user_agent_anomaly := 15;
     w_reputation := 20; w_bot_signal := 20 |}.

Record HeaderAnomalyScoringConfig := {
  hc_max_header_count : N; hc_max_header_value_length : N; hc_max_duplicate_headers_per_name : N;
  hc_suspicious_headers : list string; hc_suspicious_user_agent_patterns : list string
}.

Definition HeaderAnomalyScoringConfig_default : HeaderAnomalyScoringConfig :=
  {| hc_max_header_count := 64; hc_max_header_value_length := 2048; hc_max_duplicate_headers_per_name := 4;
     hc_suspicious_headers := ["x-original-url"; "x-rewrite-url"];
     hc_suspicious_user_agent_patterns := ["sqlmap"; "nikto"; "nmap"] |}.

Record BodyInspectionScoringConfig := {
  bi_max_inspect_bytes : N; bi_max_body_bytes : N; bi_min_suspicious_token_length : N;
  bi_suspicious_patterns : list string; bi_allowlisted_content_types : list string
}.

Definition BodyInspectionScoringConfig_default : BodyInspectionScoringConfig :=
  {| bi_max_inspect_bytes := 8 * 1024; bi_max_body_bytes := 128 * 1024; bi_min_suspicious_token_length := 6;
     bi_suspicious_patterns := ["union select"; "<script"; "../"];
     bi_allowlisted_content_types := ["application/grpc"; "application/octet-stream"] |}.

Record RequestClassificationContextConfig := {
  rx_include_method : bool; rx_include_path : bool; rx_include_source_ip : bool; rx_include_user_agent : bool;
  rx_include_headers : list string; rx_include_query_params : list string
}.

Definition RequestClassificationContextConfig_default : RequestClassificationContextConfig :=
  {| rx_include_method := true; rx_include_path := true; rx_include_source_ip := true; rx_include_user_agent := true;
     rx_include_headers := ["user-agent"; "x-forwarded-for"]; rx_include_query_params := [] |}.

Record RequestClassificationPolicyConfig := {
  rp_sensitivity : RequestClassifierSensitivityConfig; rp_challenge_threshold : N; rp_block_threshold : N;
  rp_signal_weights : RequestClassificationSignalWeightsConfig; rp_context : RequestClassificationContextConfig;
  rp_header_scoring : HeaderAnomalyScoringConfig; rp_body_scoring : BodyInspectionScoringConfig
}.

Definition RequestClassificationPolicyConfig_default : RequestClassificationPolicyConfig :=
  {| rp_sensitivity := SensitivityMedium; rp_challenge_threshold := 55; rp_block_threshold := 80;
     rp_signal_weights := RequestClassificationSignalWeightsConfig_default;
     rp_context := RequestClassificationContextConfig_default;
     rp_header_scoring := HeaderAnomalyScoringConfig_default;
     rp_body_scoring := BodyInspectionScoringConfig_default |}.

(** ** Signals *)

Inductive RequestClassifierSignalKind :=
| HeaderAnomaly | BodyAnomaly | QueryAnomaly | UserAgentAnomaly | Reputation | BotSignal.

#[export] Instance RequestClassifierSignalKind_eq_dec : EqDecision RequestClassifierSignalKind.
Proof. solve_decision. Defined.

(** The kinds in their derived order. *)
Definition all_kinds : list RequestClassifierSignalKind :=
  [HeaderAnomaly; BodyAnomaly; QueryAnomaly; UserAgentAnomaly; Reputation; BotSignal].

Definition kind_index (k : RequestClassifierSignalKind) : nat :=
  match k with
  | HeaderAnomaly => 0 | BodyAnomaly => 1 | QueryAnomaly => 2 | UserAgentAnomaly => 3 | Reputation => 4
  | BotSignal => 5
  end.

#[export] Instance RequestClassifierSignalKind_countable : Countable RequestClassifierSignalKind.
Proof. refine (inj_countable kind_index (λ n, all_kinds !! n) _). by intros []. Defined.

Record RequestClassifierSignal := { sg_kind : RequestClassifierSignalKind; sg_strength : N; sg_detail : string }.

Definition score_to_u8 (score : N) : N := N.min score 100.

(** ** Headers *)

Record HeaderAnomalyScorer := {
  hs_max_header_count : N; hs_max_header_value_length : N; hs_max_duplicate_headers_per_name : N;
  hs_suspicious_headers : list string; hs_suspicious_user_agent_patterns : list string
}.

Definition HeaderAnomalyScorer_from_config (c : HeaderAnomalyScoringConfig) : HeaderAnomalyScorer :=
  {| hs_max_header_count := c.(hc_max_header_count); hs_max_header_value_length := c.(hc_max_header_value_length);
     hs_max_duplicate_headers_per_name := c.(hc_max_duplicate_headers_per_name);
     hs_suspicious_headers := to_ascii_lowercase <$> c.(hc_suspicious_headers);
     hs_suspicious_user_agent_patterns := to_ascii_lowercase <$> c.(hc_suspicious_user_agent_patterns) |}.

(** [(value * 100) / limit.max(1)], at most 100. *)
Definition excess_strength (value limit : N) : N := score_to_u8 (value * 100 / N.max limit 1).

(** The signals of one header. *)
Definition header_signals (s : HeaderAnomalyScorer) (name value : string) : list RequestClassifierSignal :=
  let normalized := to_ascii_lowercase name in
  let value_len := N.of_nat (str_len value) in
  (if decide (s.(hs_max_header_value_length) < value_len)
   then [{| sg_kind := HeaderAnomaly; sg_strength := excess_strength value_len s.(hs_max_header_value_length);
            sg_detail := "header " +:+ normalized +:+ " value length " +:+ pretty value_len +:+
                         " exceeds max_header_value_length " +:+ pretty s.(hs_max_header_value_length) |}]
   else []) ++
  (if decide (normalized ∈ s.(hs_suspicious_headers))
   then [{| sg_kind := HeaderAnomaly; sg_strength := 100;
            sg_detail := "suspicious header " +:+ normalized +:+ " present" |}]
   else []) ++
  (if decide (normalized = "user-agent")
   then (λ pattern, {| sg_kind := UserAgentAnomaly; sg_strength := 100;
                       sg_detail := "user-agent matched suspicious pattern " +:+ pattern |}) <$>
        List.filter (λ pattern, has_text pattern (to_ascii_lowercase value)) s.(hs_suspicious_user_agent_patterns)
   else []).

Definition count_header (occurrences : gmap string N) (header : string * string) : gmap string N :=
  let normalized := to_ascii_lowercase header.1 in
  <[normalized := default 0 (occurrences !! normalized) + 1]> occurrences.

Definition duplicate_signals (s : HeaderAnomalyScorer) (occurrence : string * N) : list RequestClassifierSignal :=
  let '(name, count) := occurrence in
  if decide (s.(hs_max_duplicate_headers_per_name) < count)
  then [{| sg_kind := HeaderAnomaly; sg_strength := excess_strength count s.(hs_max_duplicate_headers_per_name);
           sg_detail := "header " +:+ name +:+ " repeated " +:+ pretty count +:+
                        " times over max_duplicate_headers_per_name " +:+
                        pretty s.(hs_max_duplicate_headers_per_name) |}]
  else [].

Definition HeaderAnomalyScorer_score_headers (s : HeaderAnomalyScorer) (headers : list (string * string)) :
    list RequestClassifierSignal :=
  let header_count := N.of_nat (length headers) in
  (if decide (s.(hs_max_header_count) < header_count)
   then [{| sg_kind := HeaderAnomaly; sg_strength := excess_strength header_count s.(hs_max_header_count);
            sg_detail := "header count " +:+ pretty header_count +:+ " exceeds max_header_count " +:+
                         pretty s.(hs_max_header_count) |}]
   else []) ++
  flat_map (λ header, header_signals s header.1 header.2) headers ++
  flat_map (duplicate_signals s) (btree_iter (foldl count_header ∅ headers)).

(** ** Bodies *)

(** [String::from_utf8_lossy]: each maximal part of an ill-formed sequence becomes U+FFFD. *)
Definition replacement_char : list N := [239; 191; 189].

(** The second byte that the lead byte allows. *)
Definition second_byte_ok (b0 b1 : N) : bool :=
  if decide (b0 = 224) then bool_decide (160 ≤ b1 ≤ 191)
  else if decide (b0 = 237) then bool_decide (128 ≤ b1 ≤ 159)
  else if decide (b0 = 240) then bool_decide (144 ≤ b1 ≤ 191)
  else if decide (b0 = 244) then bool_decide (128 ≤ b1 ≤ 143)
  else continuation b1.

Fixpoint from_utf8_lossy (l : list N) : list N :=
  match l with
  | [] => []
  | b0 :: l1 =>
      if decide (b0 < 128) then b0 :: from_utf8_lossy l1
      else if negb (bool_decide (194 ≤ b0 ≤ 244)) then replacement_char ++ from_utf8_lossy l1
      else match l1 with
      | [] => replacement_char
      | b1 :: l2 =>
          if negb (second_byte_ok b0 b1) then replacement_char ++ from_utf8_lossy l1
          else if decide (b0 ≤ 223) then b0 :: b1 :: from_utf8_lossy l2
          else match l2 with
          | [] => replacement_char
          | b2 :: l3 =>
              if negb (continuation b2) then replacement_char ++ from_utf8_lossy l2
              else if decide (b0 ≤ 239) then b0 :: b1 :: b2 :: from_utf8_lossy l3
              else match l3 with
              | [] => replacement_char
              | b3 :: l4 =>
                  if negb (continuation b3) then replacement_char ++ from_utf8_lossy l3
                  else b0 :: b1 :: b2 :: b3 :: from_utf8_lossy l4
              end
          end
      end
  end.

Record RequestBodyInspector := {
  ri_config : BodyInspectionScoringConfig; ri_suspicious_patterns : list string;
  ri_allowlisted_content_types : list string
}.

Definition normalized_entries (entries : list string) : list string :=
  List.filter (λ e, negb (is_empty e)) ((λ e, to_ascii_lowercase (trim e)) <$> entries).

Definition RequestBodyInspector_from_config (c : BodyInspectionScoringConfig) : RequestBodyInspector :=
  {| ri_config := c; ri_suspicious_patterns := normalized_entries c.(bi_suspicious_patterns);
     ri_allowlisted_content_types := normalized_entries c.(bi_allowlisted_content_types) |}.

Definition content_type_looks_textual (content_type : string) : bool :=
  starts_with "text/" content_type || has_text "json" content_type || has_text "xml" content_type ||
  has_text "form" content_type.

Definition is_non_printable (byte : N) : bool :=
  bool_decide (byte ≤ 8 ∨ byte = 11 ∨ byte = 12 ∨ 14 ≤ byte ≤ 31).

(** The patterns that are long enough and occur in the inspected text. *)
Definition pattern_matches (r : RequestBodyInspector) (inspected : list N) : list string :=
  let inspected_text := to_ascii_lowercase (of_bytes (from_utf8_lossy inspected)) in
  List.filter (λ pattern, negb (bool_decide (N.of_nat (str_len pattern) < r.(ri_config).(bi_min_suspicious_token_length))) &&
                          has_text pattern inspected_text) r.(ri_suspicious_patterns).

(** [pattern_hits], an [u8] counter that saturates. *)
Definition pattern_hits (r : RequestBodyInspector) (inspected : list N) : N :=
  N.min (N.of_nat (length (pattern_matches r inspected))) 255.

Definition body_size_signals (r : RequestBodyInspector) (body : list N) : list RequestClassifierSignal :=
  let body_len := N.of_nat (length body) in
  if decide (r.(ri_config).(bi_max_body_bytes) < body_len mod 2 ^ 32)
  then [{| sg_kind := BodyAnomaly; sg_strength := 100;
           sg_detail := "request body size " +:+ pretty body_len +:+ " exceeded configured max_body_bytes " +:+
                        pretty r.(ri_config).(bi_max_body_bytes) |}]
  else [].

Definition inspection_signals (r : RequestBodyInspector) (normalized_content_type : string) (inspected : list N) :
    list RequestClassifierSignal :=
  let inspect_len := N.of_nat (length inspected) in
  let hits := pattern_hits r inspected in
  (if decide (0 < hits)
   then [{| sg_kind := BodyAnomaly; sg_strength := N.min (saturating_add 255 25 (saturating_mul 255 hits 20)) 100;
            sg_detail := "body inspection matched " +:+ pretty hits +:+ " suspicious pattern(s) within " +:+
                         pretty inspect_len +:+ " inspected bytes" |}]
   else []) ++
  (if content_type_looks_textual normalized_content_type
   then let non_printable := N.of_nat (length (List.filter is_non_printable inspected)) in
        if decide (35 < saturating_mul u64_max non_printable 100 / inspect_len)
        then [{| sg_kind := BodyAnomaly; sg_strength := 45;
                 sg_detail := "textual request payload appears binary or highly obfuscated" |}]
        else []
   else []).

Definition RequestBodyInspector_score_body (r : RequestBodyInspector) (body : list N) (content_type : option string) :
    list RequestClassifierSignal :=
  let signals := body_size_signals r body in
  let normalized_content_type := from_option (λ v, to_ascii_lowercase (trim v)) EmptyString content_type in
  if existsb (λ prefix, starts_with prefix normalized_content_type) r.(ri_allowlisted_content_types) then signals
  else
    let inspect_len := N.min (N.of_nat (length body) mod 2 ^ 32) r.(ri_config).(bi_max_inspect_bytes) in
    if decide (inspect_len = 0) then signals
    else signals ++ inspection_signals r normalized_content_type (take (N.to_nat inspect_len) body).

(** ** Provider chains *)

Record ReputationSignalInput := {
  ru_source_ip : option string; ru_method : option string; ru_path : option string; ru_user_agent : option string
}.
Inductive ReputationVerdict := Trusted | Suspicious | Malicious | ReputationUnknown.
Record ReputationSignalProvider := {
  rv_provider_name : string; rv_evaluate : ReputationSignalInput → Result ReputationVerdict string
}.
Record ReputationAdapterChain := { ra_providers : list ReputationSignalProvider; ra_fallback_strength : option N }.

Definition ReputationAdapterChain_new : ReputationAdapterChain := {| ra_providers := []; ra_fallback_strength := None |}.
Definition ReputationAdapterChain_with_provider (c : ReputationAdapterChain) (p : ReputationSignalProvider) :
    ReputationAdapterChain :=
  {| ra_providers := c.(ra_providers) ++ [p]; ra_fallback_strength := c.(ra_fallback_strength) |}.
Definition ReputationAdapterChain_with_fallback_strength (c : ReputationAdapterChain) (fallback_strength : N) :
    ReputationAdapterChain :=
  {| ra_providers := c.(ra_providers); ra_fallback_strength := Some (N.min fallback_strength 100) |}.

(** The signal of a failed provider. *)
Definition fallback_signal (kind : RequestClassifierSignalKind) (fallback_strength : option N) (detail : string) :
    list RequestClassifierSignal :=
  match fallback_strength with
  | Some strength =>
      if decide (0 < strength) then [{| sg_kind := kind; sg_strength := strength; sg_detail := detail |}] else []
  | None => []
  end.

Definition reputation_signals (c : ReputationAdapterChain) (input : ReputationSignalInput)
    (p : ReputationSignalProvider) : list RequestClassifierSignal :=
  match p.(rv_evaluate) input with
  | Ok (Trusted | ReputationUnknown) => []
  | Ok Suspicious =>
      [{| sg_kind := Reputation; sg_strength := 45;
          sg_detail := "reputation provider " +:+ p.(rv_provider_name) +:+ " reported suspicious source" |}]
  | Ok Malicious =>
      [{| sg_kind := Reputation; sg_strength := 90;
          sg_detail := "reputation provider " +:+ p.(rv_provider_name) +:+ " reported malicious source" |}]
  | Err reason =>
      fallback_signal Reputation c.(ra_fallback_strength)
        ("reputation provider " +:+ p.(rv_provider_name) +:+ " failed (" +:+ reason +:+ "); fallback signal applied")
  end.

Definition ReputationAdapterChain_score (c : ReputationAdapterChain) (input : ReputationSignalInput) :
    list RequestClassifierSignal := flat_map (reputation_signals c input) c.(ra_providers).

Record BotSignalInput := {
  bo_source_ip : option string; bo_method : option string; bo_path : option string; bo_user_agent : option string;
  bo_header_count : N
}.
Inductive BotSignalVerdict := HumanLike | AutomationLikely | AutomationConfirmed | BotUnknown.
Record BotSignalProvider := {
  bp_provider_name : string; bp_evaluate : BotSignalInput → Result BotSignalVerdict string
}.
Record BotSignalAdapterChain := { ba_providers : list BotSignalProvider; ba_fallback_strength : option N }.

Definition BotSignalAdapterChain_new : BotSignalAdapterChain := {| ba_providers := []; ba_fallback_strength := None |}.
Definition BotSignalAdapterChain_with_provider (c : BotSignalAdapterChain) (p : BotSignalProvider) :
    BotSignalAdapterChain :=
  {| ba_providers := c.(ba_providers) ++ [p]; ba_fallback_strength := c.(ba_fallback_strength) |}.
Definition BotSignalAdapterChain_with_fallback_strength (c : BotSignalAdapterChain) (fallback_strength : N) :
    BotSignalAdapterChain :=
  {| ba_providers := c.(ba_providers); ba_fallback_strength := Some (N.min fallback_strength 100) |}.

Definition bot_signals (c : BotSignalAdapterChain) (input : BotSignalInput) (p : BotSignalProvider) :
    list RequestClassifierSignal :=
  match p.(bp_evaluate) input with
  | Ok (HumanLike | BotUnknown) => []
  | Ok AutomationLikely =>
      [{| sg_kind := BotSignal; sg_strength := 55;
          sg_detail := "bot provider " +:+ p.(bp_provider_name) +:+ " reported likely automation" |}]
  | Ok AutomationConfirmed =>
      [{| sg_kind := BotSignal; sg_strength := 85;
          sg_detail := "bot provider " +:+ p.(bp_provider_name) +:+ " reported confirmed automation" |}]
  | Err reason =>
      fallback_signal BotSignal c.(ba_fallback_strength)
        ("bot provider " +:+ p.(bp_provider_name) +:+ " failed (" +:+ reason +:+ "); fallback signal applied")
  end.

Definition BotSignalAdapterChain_score (c : BotSignalAdapterChain) (input : BotSignalInput) :
    list RequestClassifierSignal := flat_map (bot_signals c input) c.(ba_providers).

(** ** Classification *)

Inductive RequestClassificationAction := ActionAllow | ActionChallenge | ActionBlock.
#[export] Instance RequestClassificationAction_eq_dec : EqDecision RequestClassificationAction.
Proof. solve_decision. Defined.

Record RequestClassificationAdapterContext := {
  rk_source_ip : option string; rk_method : option string; rk_path : option string; rk_user_agent : option string;
  rk_content_type : option string; rk_headers : list (string * string)
}.

Record RequestClassificationResult := {
  cl_anomaly_score : N; cl_action : RequestClassificationAction;
  cl_signal_scores : gmap RequestClassifierSignalKind N
}.

Record RequestClassificationPolicyRuntime := {
  rt_challenge_threshold : N; rt_block_threshold : N; rt_weights : RequestClassificationSignalWeightsConfig;
  rt_header_anomaly_scorer : HeaderAnomalyScorer; rt_body_inspector : RequestBodyInspector;
  rt_reputation_adapter : ReputationAdapterChain; rt_bot_signal_adapter : BotSignalAdapterChain
}.

Definition RequestClassificationPolicyRuntime_from_config (c : RequestClassificationPolicyConfig) :
    RequestClassificationPolicyRuntime :=
  {| rt_challenge_threshold := c.(rp_challenge_threshold); rt_block_threshold := c.(rp_block_threshold);
     rt_weights := c.(rp_signal_weights);
     rt_header_anomaly_scorer := HeaderAnomalyScorer_from_config c.(rp_header_scoring);
     rt_body_inspector := RequestBodyInspector_from_config c.(rp_body_scoring);
     rt_reputation_adapter := ReputationAdapterChain_new; rt_bot_signal_adapter := BotSignalAdapterChain_new |}.

Definition RequestClassificationPolicyRuntime_with_reputation_adapter (r : RequestClassificationPolicyRuntime)
    (adapter : ReputationAdapterChain) : RequestClassificationPolicyRuntime :=
  {| rt_challenge_threshold := r.(rt_challenge_threshold); rt_block_threshold := r.(rt_block_threshold);
     rt_weights := r.(rt_weights); rt_header_anomaly_scorer := r.(rt_header_anomaly_scorer);
     rt_body_inspector := r.(rt_body_inspector); rt_reputation_adapter := adapter;
     rt_bot_signal_adapter := r.(rt_bot_signal_adapter) |}.

Definition RequestClassificationPolicyRuntime_with_bot_signal_adapter (r : RequestClassificationPolicyRuntime)
    (adapter : BotSignalAdapterChain) : RequestClassificationPolicyRuntime :=
  {| rt_challenge_threshold := r.(rt_challenge_threshold); rt_block_threshold := r.(rt_block_threshold);
     rt_weights := r.(rt_weights); rt_header_anomaly_scorer := r.(rt_header_anomaly_scorer);
     rt_body_inspector := r.(rt_body_inspector); rt_reputation_adapter := r.(rt_reputation_adapter);
     rt_bot_signal_adapter := adapter |}.

Definition weight_for (w : RequestClassificationSignalWeightsConfig) (kind : RequestClassifierSignalKind) : N :=
  match kind with
  | HeaderAnomaly => w.(w_header_anomaly)
  | BodyAnomaly => w.(w_body_anomaly)
  | QueryAnomaly => w.(w_query_anomaly)
  | UserAgentAnomaly => w.(w_user_agent_anomaly)
  | Reputation => w.(w_reputation)
  | BotSignal => w.(w_bot_signal)
  end.

(** [((weight as u16) * (strength as u16) / 100) as u8]. *)
Definition signal_score (w : RequestClassificationSignalWeightsConfig) (s : RequestClassifierSignal) : N :=
  (weight_for w s.(sg_kind) * s.(sg_strength) / 100) mod 256.

Definition add_signal (w : RequestClassificationSignalWeightsConfig) (weighted : gmap RequestClassifierSignalKind N)
    (s : RequestClassifierSignal) : gmap RequestClassifierSignalKind N :=
  <[s.(sg_kind) := saturating_add 255 (default 0 (weighted !! s.(sg_kind))) (signal_score w s)]> weighted.

(** [weighted.values()]: in the order of the kinds. *)
Definition kind_scores (weighted : gmap RequestClassifierSignalKind N) : list N := omap (λ k, weighted !! k) all_kinds.

Definition action_for (r : RequestClassificationPolicyRuntime) (anomaly_score : N) : RequestClassificationAction :=
  if decide (r.(rt_block_threshold) ≤ anomaly_score) then ActionBlock
  else if decide (r.(rt_challenge_threshold) ≤ anomaly_score) then ActionChallenge
  else ActionAllow.

Definition RequestClassificationPolicyRuntime_classify (r : RequestClassificationPolicyRuntime)
    (signals : list RequestClassifierSignal) : RequestClassificationResult :=
  let weighted := foldl (add_signal r.(rt_weights)) ∅ signals in
  let anomaly_score := N.min (foldl (saturating_add 65535) 0 (kind_scores weighted)) 100 in
  {| cl_anomaly_score := anomaly_score; cl_action := action_for r anomaly_score; cl_signal_scores := weighted |}.

Definition RequestClassificationPolicyRuntime_classify_headers (r : RequestClassificationPolicyRuntime)
    (headers : list (string * string)) : RequestClassificationResult :=
  RequestClassificationPolicyRuntime_classify r
    (HeaderAnomalyScorer_score_headers r.(rt_header_anomaly_scorer) headers).

(** The signals of all scorers. *)
Definition request_signals (r : RequestClassificationPolicyRuntime) (context : RequestClassificationAdapterContext)
    (body : list N) : list RequestClassifierSignal :=
  HeaderAnomalyScorer_score_headers r.(rt_header_anomaly_scorer) context.(rk_headers) ++
  RequestBodyInspector_score_body r.(rt_body_inspector) body context.(rk_content_type) ++
  ReputationAdapterChain_score r.(rt_reputation_adapter)
    {| ru_source_ip := context.(rk_source_ip); ru_method := context.(rk_method); ru_path := context.(rk_path);
       ru_user_agent := context.(rk_user_agent) |} ++
  BotSignalAdapterChain_score r.(rt_bot_signal_adapter)
    {| bo_source_ip := context.(rk_source_ip); bo_method := context.(rk_method); bo_path := context.(rk_path);
       bo_user_agent := context.(rk_user_agent);
       bo_header_count := N.of_nat (length context.(rk_headers)) mod 65536 |}.

Definition RequestClassificationPolicyRuntime_classify_with_adapters_and_body (r : RequestClassificationPolicyRuntime)
    (context : RequestClassificationAdapterContext) (body : list N) : RequestClassificationResult :=
  RequestClassificationPolicyRuntime_classify r (request_signals r context body).

Definition RequestClassificationPolicyRuntime_classify_with_adapters (r : RequestClassificationPolicyRuntime)
    (context : RequestClassificationAdapterContext) : RequestClassificationResult :=
  RequestClassificationPolicyRuntime_classify_with_adapters_and_body r context [].

(** ** Enforcement *)

Record RequestClassificationAuthContext := {
  ax_principal : option string; ax_context_headers : gmap string string; ax_external_auth_fail_open_applied : bool
}.

Inductive RequestClassificationEnforcementAction :=
| EnforceAllow | EnforceTag | EnforceChallenge | EnforceThrottle | EnforceBlock.
#[export] Instance RequestClassificationEnforcementAction_eq_dec : EqDecision RequestClassificationEnforcementAction.
Proof. solve_decision. Defined.

Record RequestClassificationAuditRecord := {
  au_anomaly_score : N; au_classifier_action : RequestClassificationAction;
  au_enforcement_action : RequestClassificationEnforcementAction;
  au_signal_scores : gmap RequestClassifierSignalKind N; au_principal : option string;
  au_external_auth_fail_open_applied : bool; au_reasons : list string
}.

Record RequestClassificationEnforcementDecision := {
  ed_action : RequestClassificationEnforcementAction; ed_audit : RequestClassificationAuditRecord
}.

Record RequestClassificationEnforcementPolicy := { tag_min_anomaly_score : N; trusted_principals : gset string }.
Definition RequestClassificationEnforcementPolicy_default : RequestClassificationEnforcementPolicy :=
  {| tag_min_anomaly_score := 35; trusted_principals := ∅ |}.

Definition enforcement_decision (action : RequestClassificationEnforcementAction) (c : RequestClassificationResult)
    (auth : RequestClassificationAuthContext) (reasons : list string) : RequestClassificationEnforcementDecision :=
  {| ed_action := action;
     ed_audit := {| au_anomaly_score := c.(cl_anomaly_score); au_classifier_action := c.(cl_action);
                    au_enforcement_action := action; au_signal_scores := c.(cl_signal_scores);
                    au_principal := auth.(ax_principal);
                    au_external_auth_fail_open_applied := auth.(ax_external_auth_fail_open_applied);
                    au_reasons := reasons |} |}.

Definition block_disposition (auth : RequestClassificationAuthContext) : bool :=
  bool_decide (auth.(ax_context_headers) !! "x-way-balancer-abuse-disposition" = Some "block").

Definition is_trusted (policy : RequestClassificationEnforcementPolicy) (auth : RequestClassificationAuthContext) : bool :=
  match auth.(ax_principal) with
  | Some principal => bool_decide (principal ∈ policy.(trusted_principals))
  | None => false
  end.

Definition risky_tier (auth : RequestClassificationAuthContext) : bool :=
  match auth.(ax_context_headers) !! "x-way-balancer-risk-tier" with
  | Some tier => bool_decide (tier = "elevated") || bool_decide (tier = "high")
  | None => false
  end.

Definition RequestClassificationEnforcer_evaluate (policy : RequestClassificationEnforcementPolicy)
    (c : RequestClassificationResult) (auth : RequestClassificationAuthContext) :
    RequestClassificationEnforcementDecision :=
  if bool_decide (c.(cl_action) = ActionBlock) || block_disposition auth then
    enforcement_decision EnforceBlock c auth
      ((if decide (c.(cl_action) = ActionBlock) then ["classifier suggested block"] else []) ++
       (if block_disposition auth then ["auth context requested block disposition"] else []))
  else if is_trusted policy auth then
    enforcement_decision EnforceAllow c auth ["trusted principal exception applied"]
  else if bool_decide (c.(cl_action) = ActionChallenge) && auth.(ax_external_auth_fail_open_applied) then
    enforcement_decision EnforceThrottle c auth
      ["classifier suggested challenge with external auth fail-open; enforcing throttle"]
  else if decide (c.(cl_action) = ActionChallenge) then
    enforcement_decision EnforceChallenge c auth ["classifier suggested challenge"]
  else if bool_decide (policy.(tag_min_anomaly_score) ≤ c.(cl_anomaly_score)) || risky_tier auth then
    enforcement_decision EnforceTag c auth ["allow-path request tagged for abuse monitoring"]
  else enforcement_decision EnforceAllow c auth ["classifier suggested allow"].

(** ** Adaptation to overload *)

Record RequestClassificationAdaptiveMitigationPolicy := {
  escalate_tag_to_challenge_when_shedding : bool; escalate_challenge_to_throttle_when_brownout : bool
}.
Definition RequestClassificationAdaptiveMitigationPolicy_default : RequestClassificationAdaptiveMitigationPolicy :=
  {| escalate_tag_to_challenge_when_shedding := true; escalate_challenge_to_throttle_when_brownout := true |}.

Record RequestClassificationAdaptiveMitigationDecision := {
  am_action : RequestClassificationEnforcementAction; am_overload_state : OverloadState;
  am_shedding_action : SheddingAction; am_reasons : list string
}.

Definition trusted_exception (enforcement : RequestClassificationEnforcementDecision) : bool :=
  existsb (has_text "trusted principal exception") enforcement.(ed_audit).(au_reasons).

Definition RequestClassificationAdaptiveMitigator_adapt (policy : RequestClassificationAdaptiveMitigationPolicy)
    (enforcement : RequestClassificationEnforcementDecision) (shedding : SheddingDecision) :
    RequestClassificationAdaptiveMitigationDecision :=
  let decision action reasons :=
    {| am_action := action; am_overload_state := shedding.(sd_state); am_shedding_action := shedding.(sd_action);
       am_reasons := reasons |} in
  let action := enforcement.(ed_action) in
  if trusted_exception enforcement then
    decision action ["adaptive mitigation skipped because trusted principal exception is active"]
  else
    let '(action, reasons) :=
      if bool_decide (shedding.(sd_action) = Shed) && policy.(escalate_tag_to_challenge_when_shedding) &&
         bool_decide (action = EnforceTag)
      then (EnforceChallenge, ["overload shedding escalated tag action to challenge"]) else (action, []) in
    let '(action, reasons) :=
      if bool_decide (shedding.(sd_state) = Brownout) && bool_decide (shedding.(sd_action) = Shed) &&
         policy.(escalate_challenge_to_throttle_when_brownout) && bool_decide (action = EnforceChallenge)
      then (EnforceThrottle, reasons ++ ["brownout shedding escalated challenge action to throttle"])
      else (action, reasons) in
    decision action
      (match reasons with [] => ["adaptive mitigation kept enforcement action unchanged"] | _ => reasons end).

Definition RequestClassificationPolicyRuntime_classify_and_enforce_with_adapters
    (r : RequestClassificationPolicyRuntime) (context : RequestClassificationAdapterContext)
    (auth : RequestClassificationAuthContext) (enforcement_policy : RequestClassificationEnforcementPolicy) :
    RequestClassificationEnforcementDecision :=
  RequestClassificationEnforcer_evaluate enforcement_policy
    (RequestClassificationPolicyRuntime_classify_with_adapters_and_body r context []) auth.

Definition RequestClassificationPolicyRuntime_classify_enforce_and_adapt_with_overload
    (r : RequestClassificationPolicyRuntime) (context : RequestClassificationAdapterContext) (body : list N)
    (auth : RequestClassificationAuthContext) (enforcement_policy : RequestClassificationEnforcementPolicy)
    (adaptive_policy : RequestClassificationAdaptiveMitigationPolicy) (shedding_decision : SheddingDecision) :
    RequestClassificationAdaptiveMitigationDecision :=
  let classification := RequestClassificationPolicyRuntime_classify_with_adapters_and_body r context body in
  let enforcement := RequestClassificationEnforcer_evaluate enforcement_policy classification auth in
  RequestClassificationAdaptiveMitigator_adapt adaptive_policy enforcement shedding_decision.

(** ** Scores *)

Definition sumN (l : list N) : N := foldr N.add 0 l.

(** The sum of the scores of one kind. *)
Definition kind_total (w : RequestClassificationSignalWeightsConfig) (signals : list RequestClassifierSignal)
    (k : RequestClassifierSignalKind) : N :=
  sumN ((λ s, if decide (s.(sg_kind) = k) then signal_score w s else 0) <$> signals).

#[export] Instance sumN_proper : Proper ((≡ₚ) ==> (=)) sumN.
Proof. intros l l'. induction 1; unfold sumN in *; simpl; lia. Qed.

Lemma sumN_app l l' : sumN (l ++ l') = sumN l + sumN l'.
Proof. induction l as [|x l IH]; simpl; lia. Qed.

Lemma kind_total_app w l l' k : kind_total w (l ++ l') k = kind_total w l k + kind_total w l' k.
Proof. unfold kind_total. by rewrite fmap_app, sumN_app. Qed.

Lemma kind_total_single w s k : kind_total w [s] k = if decide (s.(sg_kind) = k) then signal_score w s else 0.
Proof. unfold kind_total. simpl. lia. Qed.

Lemma weighted_lookup w signals k :
  default 0 (foldl (add_signal w) ∅ signals !! k) = N.min 255 (kind_total w signals k).
Proof.
  induction signals as [|s signals IH] using rev_ind; [done|].
  rewrite foldl_snoc, kind_total_app, kind_total_single. unfold add_signal at 1.
  destruct (decide (s.(sg_kind) = k)) as [<-|Hne].
  - rewrite lookup_insert_eq, IH. unfold saturating_add. simpl. lia.
  - rewrite lookup_insert_ne, IH by done. lia.
Qed.

Lemma foldl_saturating l acc : acc ≤ 65535 → foldl (saturating_add 65535) acc l = N.min 65535 (acc + sumN l).
Proof.
  revert acc. induction l as [|x l IH]; intros acc H; simpl; [lia|]. rewrite IH; unfold saturating_add; lia.
Qed.

Lemma kind_scores_sum (m : gmap RequestClassifierSignalKind N) :
  sumN (kind_scores m) = sumN ((λ k, default 0 (m !! k)) <$> all_kinds).
Proof.
  unfold kind_scores. induction all_kinds as [|k l IH]; [done|]. unfold sumN in *. csimpl.
  destruct (m !! k); csimpl; rewrite IH; lia.
Qed.

(** The anomaly score: kinds are capped one by one, then together. *)
Definition reference_score (w : RequestClassificationSignalWeightsConfig) (signals : list RequestClassifierSignal) : N :=
  N.min 100 (sumN ((λ k, N.min 255 (kind_total w signals k)) <$> all_kinds)).

Lemma classify_score r signals :
  (RequestClassificationPolicyRuntime_classify r signals).(cl_anomaly_score) = reference_score r.(rt_weights) signals.
Proof.
  unfold RequestClassificationPolicyRuntime_classify, reference_score. cbn [cl_anomaly_score].
  rewrite foldl_saturating, kind_scores_sum by lia.
  rewrite (list_fmap_ext (λ k, default 0 (foldl (add_signal r.(rt_weights)) ∅ signals !! k))
             (λ k, N.min 255 (kind_total r.(rt_weights) signals k)) all_kinds) by (intros; apply weighted_lookup).
  lia.
Qed.

(** ** Strengths *)

Definition strength_ok (s : RequestClassifierSignal) : Prop := s.(sg_strength) ≤ 100.

(** The fallback strength of a chain, as [with_fallback_strength] sets it. *)
Definition fallback_ok (fallback : option N) : Prop := from_option (λ s, s ≤ 100) True fallback.

Lemma excess_strength_ok v l : excess_strength v l ≤ 100.
Proof. unfold excess_strength, score_to_u8. lia. Qed.

Lemma Forall_if {A} (P : A → Prop) (Q : Prop) `{!Decision Q} (l : list A) :
  Forall P l → Forall P (if decide Q then l else []).
Proof. intros. by case_decide. Qed.

Lemma score_headers_ok s headers : Forall strength_ok (HeaderAnomalyScorer_score_headers s headers).
Proof.
  unfold HeaderAnomalyScorer_score_headers. rewrite !Forall_app. split_and!.
  - apply Forall_if, Forall_singleton, excess_strength_ok.
  - apply Forall_flat_map. apply Forall_true. intros [name value]. unfold header_signals. rewrite !Forall_app.
    split_and!; apply Forall_if; [apply Forall_singleton, excess_strength_ok|by apply Forall_singleton|].
    apply Forall_fmap, Forall_true. intros p. unfold compose, strength_ok. simpl. lia.
  - apply Forall_flat_map, Forall_true. intros [name count]. apply Forall_if, Forall_singleton, excess_strength_ok.
Qed.

Lemma score_body_ok r body content_type : Forall strength_ok (RequestBodyInspector_score_body r body content_type).
Proof.
  assert (Hs : Forall strength_ok (body_size_signals r body)) by (apply Forall_if; by apply Forall_singleton).
  unfold RequestBodyInspector_score_body. destruct (existsb _ _); [done|]. case_decide; [done|].
  apply Forall_app. split; [done|]. unfold inspection_signals. apply Forall_app. split.
  - apply Forall_if, Forall_singleton. unfold strength_ok. simpl. lia.
  - destruct (content_type_looks_textual _); [|constructor]. apply Forall_if. by apply Forall_singleton.
Qed.

Lemma fallback_signal_ok kind fallback detail : fallback_ok fallback → Forall strength_ok (fallback_signal kind fallback detail).
Proof. destruct fallback as [s|]; simpl; intros H; [|constructor]. apply Forall_if. by apply Forall_singleton. Qed.

Lemma reputation_score_ok c input :
  fallback_ok c.(ra_fallback_strength) → Forall strength_ok (ReputationAdapterChain_score c input).
Proof.
  intros H. apply Forall_flat_map, Forall_true. intros p. unfold reputation_signals.
  destruct (rv_evaluate p input) as [[]|]; try (by apply fallback_signal_ok); by repeat constructor.
Qed.

Lemma bot_score_ok c input :
  fallback_ok c.(ba_fallback_strength) → Forall strength_ok (BotSignalAdapterChain_score c input).
Proof.
  intros H. apply Forall_flat_map, Forall_true. intros p. unfold bot_signals.
  destruct (bp_evaluate p input) as [[]|]; try (by apply fallback_signal_ok); by repeat constructor.
Qed.

Lemma request_signals_ok r context body :
  fallback_ok r.(rt_reputation_adapter).(ra_fallback_strength) → fallback_ok r.(rt_bot_signal_adapter).(ba_fallback_strength) →
  Forall strength_ok (request_signals r context body).
Proof.
  intros H1 H2. unfold request_signals. rewrite !Forall_app.
  split_and!; [apply score_headers_ok|apply score_body_ok|by apply reputation_score_ok|by apply bot_score_ok].
Qed.

(** A signal within its range scores its weighted strength: the conversion to [u8] loses nothing. *)
Definition width_ok (w : RequestClassificationSignalWeightsConfig) : Prop := ∀ k, weight_for w k ≤ 255.

Lemma signal_score_exact w s :
  width_ok w → strength_ok s → signal_score w s = weight_for w s.(sg_kind) * s.(sg_strength) / 100.
Proof.
  intros Hw Hs. unfold signal_score, strength_ok in *. specialize (Hw s.(sg_kind)). apply N.mod_small.
  apply (N.le_lt_trans _ (255 * 100 / 100)); [|by vm_compute]. apply N.Div0.div_le_mono. nia.
Qed.

(** ** Severity *)

Definition severity (a : RequestClassificationEnforcementAction) : nat :=
  match a with EnforceAllow => 0 | EnforceTag => 1 | EnforceChallenge => 2 | EnforceThrottle => 3 | EnforceBlock => 4 end.

Definition suggested (a : RequestClassificationAction) : RequestClassificationEnforcementAction :=
  match a with ActionAllow => EnforceAllow | ActionChallenge => EnforceChallenge | ActionBlock => EnforceBlock end.

Lemma kind_total_perm w l l' k : l ≡ₚ l' → kind_total w l k = kind_total w l' k.
Proof. intros H. unfold kind_total. by rewrite H. Qed.

Lemma kind_total_submseteq w l l' k : l ⊆+ l' → kind_total w l k ≤ kind_total w l' k.
Proof. intros [m Hm]%submseteq_Permutation. rewrite (kind_total_perm _ _ _ _ Hm), kind_total_app. lia. Qed.

Lemma reference_score_mono w l l' : l ⊆+ l' → reference_score w l ≤ reference_score w l'.
Proof.
  intros H. unfold reference_score. apply N.min_le_compat_l.
  induction all_kinds as [|k ks IH]; [done|]. unfold sumN in *. csimpl.
  pose proof (kind_total_submseteq w l l' k H). lia.
Qed.

Lemma action_for_mono r a b : a ≤ b → (severity (suggested (action_for r a)) ≤ severity (suggested (action_for r b)))%nat.
Proof. intros H. unfold action_for. repeat case_decide; simpl; lia. Qed.

(** The enforcement blocks exactly on demand, excepts trusted principals, and gives the others at
    least what the classifier suggests. *)
Lemma evaluate_action policy c auth :
  let e := RequestClassificationEnforcer_evaluate policy c auth in
  (e.(ed_action) = EnforceBlock ↔ c.(cl_action) = ActionBlock ∨ block_disposition auth = true) ∧
  (c.(cl_action) ≠ ActionBlock → block_disposition auth = false → is_trusted policy auth = true →
     e.(ed_action) = EnforceAllow ∧ trusted_exception e = true) ∧
  (is_trusted policy auth = false → (severity (suggested c.(cl_action)) ≤ severity e.(ed_action))%nat).
Proof.
  cbv zeta. unfold RequestClassificationEnforcer_evaluate. destruct (cl_action c) eqn:Ec.
  3: { case_bool_decide; [|done]. cbn. split_and!; [split; auto|done|intros _; lia]. }
  all: case_bool_decide; [done|]; cbn [orb].
  all: destruct (block_disposition auth); [cbn; split_and!; [split; auto|done|intros _; lia]|].
  all: destruct (is_trusted policy auth); [cbn; split_and!; [split; [done|intros [|]; done]|done|done]|].
  all: case_bool_decide; try done; case_decide; try done; cbn [andb].
  all: try destruct (ax_external_auth_fail_open_applied auth); try destruct (_ || risky_tier auth); cbn;
    (split_and!; [split; [done|intros [|]; done]|done|intros _; lia]).
Qed.

(** The adaptation keeps a trusted exception and otherwise moves at most from a tag to a throttle. *)
Lemma adapt_action policy e shedding :
  let d := RequestClassificationAdaptiveMitigator_adapt policy e shedding in
  (severity e.(ed_action) ≤ severity d.(am_action))%nat ∧
  (d.(am_action) = e.(ed_action) ∨
   shedding.(sd_action) = Shed ∧ trusted_exception e = false ∧
   (e.(ed_action) = EnforceTag ∨ e.(ed_action) = EnforceChallenge) ∧
   (d.(am_action) = EnforceChallenge ∨ d.(am_action) = EnforceThrottle)).
Proof.
  unfold RequestClassificationAdaptiveMitigator_adapt. destruct (trusted_exception e); simpl; [auto|].
  destruct (decide (sd_action shedding = Shed)) as [->|Hs].
  2: { rewrite (bool_decide_false (sd_action shedding = Shed)) by done. simpl. rewrite andb_false_r. simpl. auto. }
  destruct (escalate_tag_to_challenge_when_shedding policy), (escalate_challenge_to_throttle_when_brownout policy),
    (bool_decide (sd_state shedding = Brownout)), (ed_action e); simpl; split; (lia || auto 10).
Qed.

(** ** Properties *)

Definition sample_runtime : RequestClassificationPolicyRuntime :=
  RequestClassificationPolicyRuntime_with_bot_signal_adapter
    (RequestClassificationPolicyRuntime_with_reputation_adapter
       (RequestClassificationPolicyRuntime_from_config RequestClassificationPolicyConfig_default)
       (ReputationAdapterChain_with_fallback_strength
          (ReputationAdapterChain_with_provider ReputationAdapterChain_new
             {| rv_provider_name := "feed"; rv_evaluate := λ _, Err "timeout" |}) 200))
    BotSignalAdapterChain_new.

Definition sample_context : RequestClassificationAdapterContext :=
  {| rk_source_ip := Some "192.0.2.1"; rk_method := Some "GET"; rk_path := Some "/"; rk_user_agent := None;
     rk_content_type := Some "text/plain"; rk_headers := [("User-Agent", "sqlmap/1.7"); ("X-Rewrite-Url", "/admin")] |}.

(** The classification of a request is exact.  Every scorer and provider chain yields signals
    of a strength up to 100, for all headers, bodies and providers; the anomaly score is the sum
    over the kinds of signal of the weighted strengths, each kind capped at 255 and the sum at
    100, without loss in the narrow integers of the code; and the action is the one of the
    thresholds. *)
Theorem request_classification_exact r context body :
  width_ok r.(rt_weights) → fallback_ok r.(rt_reputation_adapter).(ra_fallback_strength) →
  fallback_ok r.(rt_bot_signal_adapter).(ba_fallback_strength) →
  let signals := request_signals r context body in
  let c := RequestClassificationPolicyRuntime_classify_with_adapters_and_body r context body in
  Forall strength_ok signals ∧
  c.(cl_anomaly_score) =
    N.min 100 (sumN ((λ k, N.min 255 (sumN ((λ s, if decide (s.(sg_kind) = k)
                                              then weight_for r.(rt_weights) k * s.(sg_strength) / 100 else 0)
                                            <$> signals))) <$> all_kinds)) ∧
  c.(cl_action) = action_for r c.(cl_anomaly_score).
Proof.
  intros Hw H1 H2. cbv zeta. pose proof (request_signals_ok r context body H1 H2) as Hok.
  split; [done|]. split; [|done].
  unfold RequestClassificationPolicyRuntime_classify_with_adapters_and_body. rewrite classify_score.
  unfold reference_score, kind_total. do 2 f_equal. apply list_fmap_ext. intros _ k _. do 2 f_equal.
  apply list_fmap_ext. intros i s Hs. case_decide as Hk; [|done]. subst k.
  apply signal_score_exact; [done|]. by eapply Forall_lookup_1.
Qed.

Lemma request_classification_exact_witness :
  Forall strength_ok (request_signals sample_runtime sample_context [104; 105]).
Proof.
  apply (request_classification_exact sample_runtime sample_context [104; 105]);
    [intros []; vm_compute; done|vm_compute; done|vm_compute; done].
Defined.

(** More evidence never helps the client: adding signals, in any order, lowers neither the
    anomaly score nor the severity of the action. *)
Theorem classification_monotone r signals more :
  signals ⊆+ more →
  (RequestClassificationPolicyRuntime_classify r signals).(cl_anomaly_score) ≤
    (RequestClassificationPolicyRuntime_classify r more).(cl_anomaly_score) ∧
  (severity (suggested (RequestClassificationPolicyRuntime_classify r signals).(cl_action)) ≤
    severity (suggested (RequestClassificationPolicyRuntime_classify r more).(cl_action)))%nat.
Proof.
  intros H. assert (Hs : (RequestClassificationPolicyRuntime_classify r signals).(cl_anomaly_score) ≤
    (RequestClassificationPolicyRuntime_classify r more).(cl_anomaly_score)).
  { rewrite !classify_score. by apply reference_score_mono. }
  split; [done|]. by apply action_for_mono.
Qed.

Lemma classification_monotone_witness :
  (RequestClassificationPolicyRuntime_classify sample_runtime []).(cl_anomaly_score) ≤
  (RequestClassificationPolicyRuntime_classify sample_runtime
     [{| sg_kind := BotSignal; sg_strength := 85; sg_detail := "d" |}]).(cl_anomaly_score).
Proof. apply (classification_monotone sample_runtime); apply submseteq_nil_l. Defined.

(** The final decision on a request.  It is blocked exactly when the classifier or the
    authentication asks for it, whatever the load; a trusted principal passes otherwise, also
    under overload; any other request gets at least what the classifier suggests; and overload
    only raises the action, never beyond a throttle. *)
Theorem mitigation_sound r context body auth enforcement adaptive shedding :
  let c := RequestClassificationPolicyRuntime_classify_with_adapters_and_body r context body in
  let e := RequestClassificationEnforcer_evaluate enforcement c auth in
  let d := RequestClassificationPolicyRuntime_classify_enforce_and_adapt_with_overload r context body auth enforcement
             adaptive shedding in
  (d.(am_action) = EnforceBlock ↔ c.(cl_action) = ActionBlock ∨ block_disposition auth = true) ∧
  (c.(cl_action) ≠ ActionBlock → block_disposition auth = false → is_trusted enforcement auth = true →
     d.(am_action) = EnforceAllow) ∧
  (is_trusted enforcement auth = false → (severity (suggested c.(cl_action)) ≤ severity d.(am_action))%nat) ∧
  (severity e.(ed_action) ≤ severity d.(am_action))%nat ∧
  (shedding.(sd_action) ≠ Shed → d.(am_action) = e.(ed_action)).
Proof.
  cbv zeta. unfold RequestClassificationPolicyRuntime_classify_enforce_and_adapt_with_overload. cbv zeta.
  set (c := RequestClassificationPolicyRuntime_classify_with_adapters_and_body r context body).
  set (e := RequestClassificationEnforcer_evaluate enforcement c auth).
  destruct (evaluate_action enforcement c auth) as (Hblock & Htrust & Hmin). fold e in Hblock, Htrust, Hmin.
  destruct (adapt_action adaptive e shedding) as [Hge Hcase].
  set (d := RequestClassificationAdaptiveMitigator_adapt adaptive e shedding) in *. clearbody e d. split_and!.
  - rewrite <- Hblock. destruct Hcase as [->|(_ & _ & [->| ->] & [->| ->])]; done.
  - intros Hc Hb Ht. destruct (Htrust Hc Hb Ht) as [Ha Hx].
    destruct Hcase as [->|(_ & Hx' & _)]; [done|congruence].
  - intros Ht. specialize (Hmin Ht). lia.
  - done.
  - intros Hs. by destruct Hcase as [->|(? & _)].
Qed.

(** A block threshold above 100, which its documentation excludes and no check rejects, is never
    reached. *)
Lemma block_threshold_unreachable r signals :
  100 < r.(rt_block_threshold) → (RequestClassificationPolicyRuntime_classify r signals).(cl_action) ≠ ActionBlock.
Proof.
  intros H. unfold RequestClassificationPolicyRuntime_classify, action_for. cbn [cl_action].
  rewrite decide_False by lia. by case_decide.
Qed.

(** The default pattern for path traversal is shorter than the default minimum length of a
    pattern, so it never matches. *)
Lemma default_traversal_pattern_dead inspected :
  "../" ∈ BodyInspectionScoringConfig_default.(bi_suspicious_patterns) ∧
  "../" ∉ pattern_matches (RequestBodyInspector_from_config BodyInspectionScoringConfig_default) inspected.
Proof.
  split; [by repeat constructor|]. unfold pattern_matches. rewrite list_elem_of_In, filter_In. intros [_ H].
  by apply andb_true_iff in H as [H _].
Qed.
