(* ===== verification/Discovery.v ===== *)
(** * Service discovery

    Models [crates/runtime/src/discovery.rs]: discovery sources and snapshots, the
    refresh timing of a source, and the reconciler that keeps the endpoints of the
    health registry in step with what the sources advertise, draining withdrawn
    endpoints for a grace period.  A method that takes [&mut self] and the registry
    works on the pair of both; an early return keeps the changes made before it.
    The telemetry the reconciler writes to is represented by the calls it receives
    ([dm_traces]).  The jitter hashes with [DefaultHasher], whose algorithm the
    standard library leaves unspecified: it is the parameter [hash]. *)

From stdpp Require Import pretty.
From S2P Require Import Prelude RustStr NetCore EndpointRegistry UpstreamHealth Lifecycle.
Local Open Scope N_scope.
Local Open Scope rust_scope.

(** ** Sources, endpoints and snapshots *)

Inductive DiscoveryProviderKind := DnsAaaa | DnsSrv | KubernetesEndpointSlice | ConsulLike.
#[export] Instance DiscoveryProviderKind_eq_dec : EqDecision DiscoveryProviderKind.
Proof. solve_decision. Defined.

(** The position of the variant, by which the derived [Ord] compares. *)
Definition DiscoveryProviderKind_rank (p : DiscoveryProviderKind) : N :=
  match p with DnsAaaa => 0 | DnsSrv => 1 | KubernetesEndpointSlice => 2 | ConsulLike => 3 end.

#[export] Instance DiscoveryProviderKind_countable : Countable DiscoveryProviderKind.
Proof.
  apply (inj_countable' DiscoveryProviderKind_rank
    (λ n, match n with 0 => DnsAaaa | 1 => DnsSrv | 2 => KubernetesEndpointSlice | _ => ConsulLike end)).
  by intros [].
Defined.

Definition has_monotonic_generations (p : DiscoveryProviderKind) : bool :=
  match p with KubernetesEndpointSlice => false | _ => true end.

Definition DiscoveryProviderKind_as_str (p : DiscoveryProviderKind) : string :=
  match p with
  | DnsAaaa => "dns_aaaa"
  | DnsSrv => "dns_srv"
  | KubernetesEndpointSlice => "k8s_endpoint_slice"
  | ConsulLike => "consul_like"
  end.

Record DiscoverySourceId := {
  ds_provider : DiscoveryProviderKind;
  ds_source_name : string;
  ds_cluster_name : string
}.
#[export] Instance DiscoverySourceId_eq_dec : EqDecision DiscoverySourceId.
Proof. solve_decision. Defined.
#[export] Instance DiscoverySourceId_countable : Countable DiscoverySourceId.
Proof.
  apply (inj_countable' (λ s, (s.(ds_provider), s.(ds_source_name), s.(ds_cluster_name)))
    (λ '(p, n, c), {| ds_provider := p; ds_source_name := n; ds_cluster_name := c |})).
  by intros [].
Defined.

(** The derived [Ord]: lexicographic in the order of the fields. *)
Definition DiscoverySourceId_key (s : DiscoverySourceId) : N * (string * string) :=
  (DiscoveryProviderKind_rank s.(ds_provider), (s.(ds_source_name), s.(ds_cluster_name))).
Definition DiscoverySourceId_cmp : N * (string * string) → N * (string * string) → comparison :=
  lex_cmp N.compare (lex_cmp String.compare String.compare).

Definition DiscoverySourceId_new (provider : DiscoveryProviderKind)
    (source_name cluster_name : string) : Result DiscoverySourceId UpstreamModelError :=
  let? cluster_name := UpstreamClusterName_new cluster_name in
  Ok {| ds_provider := provider; ds_source_name := source_name; ds_cluster_name := cluster_name |}.

Record DiscoveryEndpoint := {
  de_endpoint_id : string;
  de_address : SocketAddr;
  de_zone : option string;
  de_locality : option string;
  de_weight : N
}.
#[export] Instance DiscoveryEndpoint_eq_dec : EqDecision DiscoveryEndpoint.
Proof. solve_decision. Defined.

Definition DiscoveryEndpoint_new (endpoint_id : string) (address : SocketAddr)
    (zone locality : option string) (weight : N) : Result DiscoveryEndpoint UpstreamModelError :=
  let? endpoint_id := UpstreamEndpointId_new endpoint_id in
  Ok {| de_endpoint_id := endpoint_id; de_address := address; de_zone := zone;
        de_locality := locality; de_weight := weight |}.

Definition into_upstream_endpoint (e : DiscoveryEndpoint) (state : EndpointState) :
    Result UpstreamEndpoint UpstreamModelError :=
  UpstreamEndpoint_new e.(de_endpoint_id) e.(de_address) state
    {| zone := e.(de_zone); locality := e.(de_locality); weight := e.(de_weight) |}.

Record DiscoverySnapshot := {
  sn_source : DiscoverySourceId;
  sn_generation : N;
  sn_valid_for : Duration;
  sn_endpoints : list DiscoveryEndpoint
}.

(** ** Refresh timing *)

Inductive DiscoveryRefreshHealth := Refresh_Fresh | Refresh_Stale | Refresh_Backoff.

Record DiscoveryRefreshState := {
  rf_health : DiscoveryRefreshHealth;
  rf_valid_for : Duration;
  rf_next_refresh_in : Duration;
  rf_consecutive_failures : N;
  rf_last_error : option string
}.

(** [hash seed attempt] is the [finish()] of a new hasher fed with both.  The
    window is a [u128] number of milliseconds cast to [u64]; [None] is the panic of
    the remainder by zero. *)
Definition jittered_refresh_delay (hash : N → N → N) (valid_for : Duration) (attempt seed : N) :
    option Duration :=
  let base := if decide (valid_for = 0) then from_secs 1 else valid_for in
  let jitter_window_ms := N.max (as_millis base / 5) 1 mod (u64_max + 1) in
  if decide (jitter_window_ms = 0) then None
  else Some (base - from_millis (hash seed attempt mod jitter_window_ms)).

Definition failure_backoff_delay (consecutive_failures : N) : Duration :=
  let bounded := N.min consecutive_failures 6 in
  from_secs (N.shiftl 1 bounded).

Definition DiscoveryRefreshState_fresh (hash : N → N → N) (valid_for : Duration) :
    option DiscoveryRefreshState :=
  next_refresh_in ← jittered_refresh_delay hash valid_for 0 1234;
  Some {| rf_health := Refresh_Fresh; rf_valid_for := valid_for;
          rf_next_refresh_in := next_refresh_in; rf_consecutive_failures := 0;
          rf_last_error := None |}.

Definition DiscoveryRefreshState_on_failure (s : DiscoveryRefreshState) (error : string) :
    DiscoveryRefreshState :=
  let consecutive_failures := saturating_add u32_max s.(rf_consecutive_failures) 1 in
  {| rf_health := Refresh_Backoff; rf_valid_for := s.(rf_valid_for);
     rf_next_refresh_in := failure_backoff_delay consecutive_failures;
     rf_consecutive_failures := consecutive_failures; rf_last_error := Some error |}.

Definition DiscoveryRefreshState_on_expired (s : DiscoveryRefreshState) : DiscoveryRefreshState :=
  {| rf_health := Refresh_Stale; rf_valid_for := s.(rf_valid_for);
     rf_next_refresh_in := from_secs 0;
     rf_consecutive_failures := s.(rf_consecutive_failures);
     rf_last_error := s.(rf_last_error) |}.

(** ** Outcomes and errors *)

(** The counters are [usize]; each counts entries of a map held in memory. *)
Record DiscoveryReconcileOutcome := {
  oc_inserted : N;
  oc_updated : N;
  oc_marked_draining : N;
  oc_removed_after_drain : N;
  oc_lifecycle_warming : N;
  oc_lifecycle_active : N;
  oc_lifecycle_draining : N;
  oc_lifecycle_drained : N;
  oc_lifecycle_removed : N;
  oc_stale_generation_rejected : bool
}.

Definition DiscoveryReconcileOutcome_default : DiscoveryReconcileOutcome :=
  {| oc_inserted := 0; oc_updated := 0; oc_marked_draining := 0; oc_removed_after_drain := 0;
     oc_lifecycle_warming := 0; oc_lifecycle_active := 0; oc_lifecycle_draining := 0;
     oc_lifecycle_drained := 0; oc_lifecycle_removed := 0;
     oc_stale_generation_rejected := false |}.

(** Componentwise increments. *)
Definition outcome_add (o : DiscoveryReconcileOutcome)
    (inserted updated marked_draining removed_after_drain warming active draining drained removed : N) :
    DiscoveryReconcileOutcome :=
  {| oc_inserted := o.(oc_inserted) + inserted;
     oc_updated := o.(oc_updated) + updated;
     oc_marked_draining := o.(oc_marked_draining) + marked_draining;
     oc_removed_after_drain := o.(oc_removed_after_drain) + removed_after_drain;
     oc_lifecycle_warming := o.(oc_lifecycle_warming) + warming;
     oc_lifecycle_active := o.(oc_lifecycle_active) + active;
     oc_lifecycle_draining := o.(oc_lifecycle_draining) + draining;
     oc_lifecycle_drained := o.(oc_lifecycle_drained) + drained;
     oc_lifecycle_removed := o.(oc_lifecycle_removed) + removed;
     oc_stale_generation_rejected := o.(oc_stale_generation_rejected) |}.

Definition outcome_stale (o : DiscoveryReconcileOutcome) : DiscoveryReconcileOutcome :=
  {| oc_inserted := o.(oc_inserted); oc_updated := o.(oc_updated);
     oc_marked_draining := o.(oc_marked_draining);
     oc_removed_after_drain := o.(oc_removed_after_drain);
     oc_lifecycle_warming := o.(oc_lifecycle_warming);
     oc_lifecycle_active := o.(oc_lifecycle_active);
     oc_lifecycle_draining := o.(oc_lifecycle_draining);
     oc_lifecycle_drained := o.(oc_lifecycle_drained);
     oc_lifecycle_removed := o.(oc_lifecycle_removed); oc_stale_generation_rejected := true |}.

Inductive DiscoveryReconcileError :=
| HealthRegistry (error : UpstreamHealthError)
| InvalidEndpoint (error : UpstreamModelError).

Definition ignore_missing_endpoint {T} (result : Result T UpstreamHealthError) :
    Result unit UpstreamHealthError :=
  match result with
  | Ok _
  | Err (EndpointNotTracked _ _)
  | Err (Registry (EndpointNotFound _ _ | ClusterNotFound _)) => Ok tt
  | Err error => Err error
  end.

(** ** The reconciler *)

(** A call of [RuntimeTelemetry::record_decision_trace] with kind
    [DiscoveryUpdate] and no route, destination or policy. *)
Record DiscoveryTrace := {
  tr_scope : string; tr_result : string; tr_cluster : string; tr_detail : string }.

(** [dm_scope] is [Some] when both [telemetry_scope] and [telemetry] are, which
    [with_telemetry] sets together. *)
Record DiscoveryMembershipReconciler := {
  dm_drain_grace : Duration;
  dm_now : Duration;
  dm_active : gmap DiscoverySourceId (gmap string DiscoveryEndpoint);
  dm_deadlines : gmap EndpointKey Duration;
  dm_lifecycle : gmap EndpointKey LifecycleStateMachine;
  dm_generations : gmap DiscoverySourceId N;
  dm_scope : option string;
  dm_traces : list DiscoveryTrace
}.

Definition DiscoveryMembershipReconciler_new (drain_grace : Duration) :
    DiscoveryMembershipReconciler :=
  {| dm_drain_grace := drain_grace; dm_now := 0; dm_active := ∅; dm_deadlines := ∅;
     dm_lifecycle := ∅; dm_generations := ∅; dm_scope := None; dm_traces := [] |}.

Section reconciler_setters.
Variable m : DiscoveryMembershipReconciler.

Definition with_telemetry (scope : string) : DiscoveryMembershipReconciler :=
  {| dm_drain_grace := m.(dm_drain_grace); dm_now := m.(dm_now); dm_active := m.(dm_active);
     dm_deadlines := m.(dm_deadlines); dm_lifecycle := m.(dm_lifecycle);
     dm_generations := m.(dm_generations); dm_scope := Some scope; dm_traces := m.(dm_traces) |}.
Definition dm_set_now (now : Duration) : DiscoveryMembershipReconciler :=
  {| dm_drain_grace := m.(dm_drain_grace); dm_now := now; dm_active := m.(dm_active);
     dm_deadlines := m.(dm_deadlines); dm_lifecycle := m.(dm_lifecycle);
     dm_generations := m.(dm_generations); dm_scope := m.(dm_scope); dm_traces := m.(dm_traces) |}.
Definition dm_set_deadlines (d : gmap EndpointKey Duration) : DiscoveryMembershipReconciler :=
  {| dm_drain_grace := m.(dm_drain_grace); dm_now := m.(dm_now); dm_active := m.(dm_active);
     dm_deadlines := d; dm_lifecycle := m.(dm_lifecycle);
     dm_generations := m.(dm_generations); dm_scope := m.(dm_scope); dm_traces := m.(dm_traces) |}.
Definition dm_set_lifecycle (l : gmap EndpointKey LifecycleStateMachine) :
    DiscoveryMembershipReconciler :=
  {| dm_drain_grace := m.(dm_drain_grace); dm_now := m.(dm_now); dm_active := m.(dm_active);
     dm_deadlines := m.(dm_deadlines); dm_lifecycle := l;
     dm_generations := m.(dm_generations); dm_scope := m.(dm_scope); dm_traces := m.(dm_traces) |}.
(** The two insertions that record an applied snapshot. *)
Definition dm_apply (source : DiscoverySourceId) (endpoints : gmap string DiscoveryEndpoint)
    (generation : N) : DiscoveryMembershipReconciler :=
  {| dm_drain_grace := m.(dm_drain_grace); dm_now := m.(dm_now);
     dm_active := <[source := endpoints]> m.(dm_active);
     dm_deadlines := m.(dm_deadlines); dm_lifecycle := m.(dm_lifecycle);
     dm_generations := <[source := generation]> m.(dm_generations);
     dm_scope := m.(dm_scope); dm_traces := m.(dm_traces) |}.

Definition emit_discovery_event (result cluster_name detail : string) :
    DiscoveryMembershipReconciler :=
  match m.(dm_scope) with
  | None => m
  | Some scope =>
      {| dm_drain_grace := m.(dm_drain_grace); dm_now := m.(dm_now); dm_active := m.(dm_active);
         dm_deadlines := m.(dm_deadlines); dm_lifecycle := m.(dm_lifecycle);
         dm_generations := m.(dm_generations); dm_scope := m.(dm_scope);
         dm_traces := m.(dm_traces) ++ [{| tr_scope := scope; tr_result := result;
                                           tr_cluster := cluster_name; tr_detail := detail |}] |}
  end.

(** Iteration over the [BTreeMap] of the sources. *)
Definition sources_iter : list (DiscoverySourceId * gmap string DiscoveryEndpoint) :=
  sort_by (DiscoverySourceId_key ∘ fst) DiscoverySourceId_cmp (map_to_list m.(dm_active)).

Definition other_source_definition (source : DiscoverySourceId) (endpoint_id : string) :
    option DiscoveryEndpoint :=
  head (omap (λ entry, entry.2 !! endpoint_id)
    (filter (λ entry, entry.1 ≠ source ∧ entry.1.(ds_cluster_name) = source.(ds_cluster_name))
      sources_iter)).

(** ** Lifecycle bookkeeping *)

Definition record_endpoint_activated (key : EndpointKey) (outcome : DiscoveryReconcileOutcome) :
    DiscoveryMembershipReconciler * DiscoveryReconcileOutcome :=
  let machine := default LifecycleStateMachine_new_warming (m.(dm_lifecycle) !! key) in
  let outcome := outcome_add outcome 0 0 0 0 1 0 0 0 0 in
  let machine := match LifecycleStateMachine_activate machine with
                 | (machine, Ok _) => machine
                 | (_, Err _) => LifecycleStateMachine_new_active
                 end in
  (dm_set_lifecycle (<[key := machine]> m.(dm_lifecycle)),
   outcome_add outcome 0 0 0 0 0 1 0 0 0).

Definition record_endpoint_draining (key : EndpointKey) (outcome : DiscoveryReconcileOutcome) :
    DiscoveryMembershipReconciler * DiscoveryReconcileOutcome :=
  let machine := default LifecycleStateMachine_new_active (m.(dm_lifecycle) !! key) in
  let machine := match LifecycleStateMachine_start_draining machine with
                 | (machine, Ok _) => machine
                 | (machine, Err _) => LifecycleStateMachine_force_remove machine
                 end in
  (dm_set_lifecycle (<[key := machine]> m.(dm_lifecycle)),
   outcome_add outcome 0 0 0 0 0 0 1 0 0).

Definition record_endpoint_drained (key : EndpointKey) (outcome : DiscoveryReconcileOutcome) :
    DiscoveryMembershipReconciler * DiscoveryReconcileOutcome :=
  match m.(dm_lifecycle) !! key with
  | None => (m, outcome)
  | Some machine =>
      match LifecycleStateMachine_mark_drained machine with
      | (machine, Err _) =>
          (dm_set_lifecycle (<[key := LifecycleStateMachine_force_remove machine]> m.(dm_lifecycle)),
           outcome)
      | (machine, Ok _) =>
          (dm_set_lifecycle (<[key := machine]> m.(dm_lifecycle)),
           outcome_add outcome 0 0 0 0 0 0 0 1 0)
      end
  end.

(** The machine is taken out of the map, so its last transition is not kept. *)
Definition record_endpoint_removed (key : EndpointKey) (outcome : DiscoveryReconcileOutcome) :
    DiscoveryMembershipReconciler * DiscoveryReconcileOutcome :=
  match m.(dm_lifecycle) !! key with
  | None => (m, outcome)
  | Some _ =>
      (dm_set_lifecycle (delete key m.(dm_lifecycle)), outcome_add outcome 0 0 0 0 0 0 0 0 1)
  end.
End reconciler_setters.

(** ** Applying a snapshot *)

(** A [for] loop whose body may leave the function with an error. *)
Fixpoint for_each {X S E} (body : S → X → S * Result unit E) (l : list X) (s : S) :
    S * Result unit E :=
  match l with
  | [] => (s, Ok tt)
  | x :: l => match body s x with
              | (s, Ok _) => for_each body l s
              | (s, Err error) => (s, Err error)
              end
  end.

(** The locals of [reconcile_snapshot] that its loops change. *)
Record ReconcileState := {
  rs_reconciler : DiscoveryMembershipReconciler;
  rs_registry : UpstreamHealthRegistry;
  rs_activated : list string;
  rs_draining : list string;
  rs_outcome : DiscoveryReconcileOutcome
}.

(** [registry.remove_endpoint] with a missing endpoint ignored, under [?]. *)
Definition remove_if_present (h : UpstreamHealthRegistry) (cluster id : string) :
    UpstreamHealthRegistry * Result unit DiscoveryReconcileError :=
  let '(h, r) := UpstreamHealthRegistry_remove_endpoint h cluster id in
  (h, match ignore_missing_endpoint r with Ok _ => Ok tt | Err e => Err (HealthRegistry e) end).

(** [registry.insert_endpoint] under [?]. *)
Definition insert_or_fail (h : UpstreamHealthRegistry) (cluster : string) (e : UpstreamEndpoint) :
    UpstreamHealthRegistry * Result unit DiscoveryReconcileError :=
  let '(h, r) := UpstreamHealthRegistry_insert_endpoint h cluster e in
  (h, match r with Ok _ => Ok tt | Err e => Err (HealthRegistry e) end).

(** Removal, when the endpoint is in the registry, and insertion. *)
Definition reinstall (h : UpstreamHealthRegistry) (cluster id : string) (in_registry : bool)
    (e : UpstreamEndpoint) : UpstreamHealthRegistry * Result unit DiscoveryReconcileError :=
  let '(h, r) := if in_registry then remove_if_present h cluster id else (h, Ok tt) in
  match r with
  | Err error => (h, Err error)
  | Ok _ => insert_or_fail h cluster e
  end.

(** The validation loop: a later definition of an id replaces an earlier one. *)
Definition next_endpoints_of (endpoints : list DiscoveryEndpoint) :
    Result (gmap string (DiscoveryEndpoint * UpstreamEndpoint)) DiscoveryReconcileError :=
  foldl (λ acc e,
    let? next := acc in
    match into_upstream_endpoint e EndpointState_Ready with
    | Ok u => Ok (<[e.(de_endpoint_id) := (e, u)]> next)
    | Err error => Err (InvalidEndpoint error)
    end) (Ok ∅) endpoints.

(** Body of the loop over the advertised endpoints. *)
Definition install_endpoint (source : DiscoverySourceId) (previous : gmap string DiscoveryEndpoint)
    (st : ReconcileState) (entry : string * (DiscoveryEndpoint * UpstreamEndpoint)) :
    ReconcileState * Result unit DiscoveryReconcileError :=
  let '(endpoint_id, (endpoint, upstream_endpoint)) := entry in
  if decide (previous !! endpoint_id = Some endpoint) then (st, Ok tt)
  else
    let m := st.(rs_reconciler) in
    let cluster := source.(ds_cluster_name) in
    let key := (cluster, endpoint_id) in
    let was_draining := bool_decide (is_Some (m.(dm_deadlines) !! key)) in
    let m := dm_set_deadlines m (delete key m.(dm_deadlines)) in
    let other_definition := other_source_definition m source endpoint_id in
    let in_previous := bool_decide (is_Some (previous !! endpoint_id)) in
    let in_registry := was_draining || in_previous || bool_decide (is_Some other_definition) in
    let tracked_only := bool_decide (other_definition = Some endpoint) && negb was_draining &&
                        negb in_previous in
    let '(h, r) := if tracked_only then (st.(rs_registry), Ok tt)
                   else reinstall st.(rs_registry) cluster endpoint_id in_registry upstream_endpoint in
    match r with
    | Err error =>
        ({| rs_reconciler := m; rs_registry := h; rs_activated := st.(rs_activated);
            rs_draining := st.(rs_draining); rs_outcome := st.(rs_outcome) |}, Err error)
    | Ok _ =>
        ({| rs_reconciler := m; rs_registry := h;
            rs_activated := if tracked_only then st.(rs_activated)
                            else st.(rs_activated) ++ [endpoint_id];
            rs_draining := st.(rs_draining);
            rs_outcome := if in_previous then outcome_add st.(rs_outcome) 0 1 0 0 0 0 0 0 0
                          else outcome_add st.(rs_outcome) 1 0 0 0 0 0 0 0 0 |}, Ok tt)
    end.

(** Body of the loop over the withdrawn endpoints. *)
Definition withdraw_endpoint (source : DiscoverySourceId) (st : ReconcileState)
    (entry : string * DiscoveryEndpoint) : ReconcileState * Result unit DiscoveryReconcileError :=
  let '(removed_id, removed) := entry in
  let m := st.(rs_reconciler) in
  let cluster := source.(ds_cluster_name) in
  let with_registry h activated :=
    {| rs_reconciler := m; rs_registry := h; rs_activated := activated;
       rs_draining := st.(rs_draining); rs_outcome := st.(rs_outcome) |} in
  match other_source_definition m source removed_id with
  | Some other =>
      if decide (other = removed) then (st, Ok tt)
      else match into_upstream_endpoint other EndpointState_Ready with
           | Err error => (st, Err (InvalidEndpoint error))
           | Ok adopted =>
               match reinstall st.(rs_registry) cluster removed_id true adopted with
               | (h, Err error) => (with_registry h st.(rs_activated), Err error)
               | (h, Ok _) => (with_registry h (st.(rs_activated) ++ [removed_id]), Ok tt)
               end
           end
  | None =>
      let '(h, r) := UpstreamHealthRegistry_set_endpoint_state st.(rs_registry) cluster removed_id
                       EndpointState_Draining in
      match ignore_missing_endpoint r with
      | Err error => (with_registry h st.(rs_activated), Err (HealthRegistry error))
      | Ok _ =>
          ({| rs_reconciler := dm_set_deadlines m
                (<[(cluster, removed_id) :=
                     Duration_saturating_add m.(dm_now) m.(dm_drain_grace)]> m.(dm_deadlines));
              rs_registry := h; rs_activated := st.(rs_activated);
              rs_draining := st.(rs_draining) ++ [removed_id];
              rs_outcome := outcome_add st.(rs_outcome) 0 0 1 0 0 0 0 0 0 |}, Ok tt)
      end
  end.

Definition record_all
    (record : DiscoveryMembershipReconciler → EndpointKey → DiscoveryReconcileOutcome →
              DiscoveryMembershipReconciler * DiscoveryReconcileOutcome)
    (cluster : string) (ids : list string)
    (acc : DiscoveryMembershipReconciler * DiscoveryReconcileOutcome) :
    DiscoveryMembershipReconciler * DiscoveryReconcileOutcome :=
  foldl (λ acc id, record acc.1 (cluster, id) acc.2) acc ids.

(** The generation already applied, if it makes the snapshot stale. *)
Definition stale_against (m : DiscoveryMembershipReconciler) (snapshot : DiscoverySnapshot) :
    option N :=
  applied ← m.(dm_generations) !! snapshot.(sn_source);
  if has_monotonic_generations snapshot.(sn_source).(ds_provider) &&
     (snapshot.(sn_generation) <? applied) then Some applied else None.

Definition accepted_detail (snapshot : DiscoverySnapshot) (count : nat)
    (outcome : DiscoveryReconcileOutcome) : string :=
  "source " +:+ snapshot.(sn_source).(ds_source_name) +:+ " applied generation " +:+
  pretty snapshot.(sn_generation) +:+ " with " +:+ pretty (N.of_nat count) +:+
  " endpoints (inserted=" +:+ pretty outcome.(oc_inserted) +:+ ", updated=" +:+
  pretty outcome.(oc_updated) +:+ ", draining=" +:+ pretty outcome.(oc_marked_draining) +:+ ")".

(** The part of [reconcile_snapshot] after the loops. *)
Definition finish_reconcile (snapshot : DiscoverySnapshot)
    (next : gmap string (DiscoveryEndpoint * UpstreamEndpoint)) (st : ReconcileState) :
    DiscoveryMembershipReconciler * DiscoveryReconcileOutcome :=
  let source := snapshot.(sn_source) in
  let cluster := source.(ds_cluster_name) in
  let m := dm_apply st.(rs_reconciler) source (fst <$> next) snapshot.(sn_generation) in
  let '(m, outcome) := record_all record_endpoint_activated cluster st.(rs_activated)
                         (m, st.(rs_outcome)) in
  let '(m, outcome) := record_all record_endpoint_draining cluster st.(rs_draining) (m, outcome) in
  (emit_discovery_event m "accepted" cluster (accepted_detail snapshot (size next) outcome), outcome).

Definition reconcile_snapshot (m : DiscoveryMembershipReconciler) (h : UpstreamHealthRegistry)
    (snapshot : DiscoverySnapshot) :
    (DiscoveryMembershipReconciler * UpstreamHealthRegistry) *
    Result DiscoveryReconcileOutcome DiscoveryReconcileError :=
  let source := snapshot.(sn_source) in
  match stale_against m snapshot with
  | Some applied =>
      (emit_discovery_event m "rejected" source.(ds_cluster_name)
         ("source " +:+ source.(ds_source_name) +:+ " ignored stale generation " +:+
          pretty snapshot.(sn_generation) +:+ " (applied generation " +:+ pretty applied +:+ ")"),
       h, Ok (outcome_stale DiscoveryReconcileOutcome_default))
  | None =>
      match next_endpoints_of snapshot.(sn_endpoints) with
      | Err error => (m, h, Err error)
      | Ok next =>
          let previous := default ∅ (m.(dm_active) !! source) in
          let st := {| rs_reconciler := m; rs_registry := h; rs_activated := []; rs_draining := [];
                       rs_outcome := DiscoveryReconcileOutcome_default |} in
          match for_each (install_endpoint source previous) (btree_iter next) st with
          | (st, Err error) => (st.(rs_reconciler), st.(rs_registry), Err error)
          | (st, Ok _) =>
              match for_each (withdraw_endpoint source)
                      (filter (λ entry, next !! entry.1 = None) (btree_iter previous)) st with
              | (st, Err error) => (st.(rs_reconciler), st.(rs_registry), Err error)
              | (st, Ok _) =>
                  let '(m, outcome) := finish_reconcile snapshot next st in
                  (m, st.(rs_registry), Ok outcome)
              end
          end
      end
  end.

(** ** Passing time *)

(** The expired keys, in the order of the map. *)
Definition expired_keys (m : DiscoveryMembershipReconciler) : list EndpointKey :=
  fst <$> filter (λ entry, entry.2 ≤ m.(dm_now))
            (sort_by fst EndpointKey_cmp (map_to_list m.(dm_deadlines))).

(** Body of the loop over the expired keys. *)
Definition remove_drained
    (acc : DiscoveryMembershipReconciler * UpstreamHealthRegistry * DiscoveryReconcileOutcome)
    (key : EndpointKey) :
    (DiscoveryMembershipReconciler * UpstreamHealthRegistry * DiscoveryReconcileOutcome) *
    Result unit DiscoveryReconcileError :=
  let '(m, h, outcome) := acc in
  let m := dm_set_deadlines m (delete key m.(dm_deadlines)) in
  let '(m, outcome) := record_endpoint_drained m key outcome in
  let '(h, r) := remove_if_present h key.1 key.2 in
  match r with
  | Err error => ((m, h, outcome), Err error)
  | Ok _ =>
      let '(m, outcome) := record_endpoint_removed m key outcome in
      let outcome := outcome_add outcome 0 0 0 1 0 0 0 0 0 in
      ((emit_discovery_event m "drained" key.1
          ("endpoint " +:+ key.2 +:+ " fully removed after drain window"), h, outcome), Ok tt)
  end.

Definition DiscoveryMembershipReconciler_advance_time (m : DiscoveryMembershipReconciler)
    (h : UpstreamHealthRegistry) (elapsed : Duration) :
    (DiscoveryMembershipReconciler * UpstreamHealthRegistry) *
    Result DiscoveryReconcileOutcome DiscoveryReconcileError :=
  let m := dm_set_now m (Duration_saturating_add m.(dm_now) elapsed) in
  match for_each remove_drained (expired_keys m) (m, h, DiscoveryReconcileOutcome_default) with
  | ((m, h, _), Err error) => (m, h, Err error)
  | ((m, h, outcome), Ok _) => (m, h, Ok outcome)
  end.

(** ** Theorems: timing *)

Lemma failure_backoff_bounds n :
  from_secs 1 ≤ failure_backoff_delay n ≤ from_secs 64 ∧
  (∀ n', n ≤ n' → failure_backoff_delay n ≤ failure_backoff_delay n').
Proof.
  unfold failure_backoff_delay, from_secs. cbv zeta.
  assert (Hpow : ∀ a b, a ≤ b → N.shiftl 1 a ≤ N.shiftl 1 b).
  { intros a b Hab. rewrite !N.shiftl_1_l. by apply N.pow_le_mono_r. }
  pose proof (Hpow 0 (N.min n 6) ltac:(lia)) as H1. pose proof (Hpow (N.min n 6) 6 ltac:(lia)) as H2.
  change (N.shiftl 1 0) with 1 in H1. change (N.shiftl 1 6) with 64 in H2.
  split; [lia|]. intros n' Hn. apply N.mul_le_mono_r, Hpow. lia.
Qed.

Lemma jittered_delay_bounds hash valid_for attempt seed :
  as_millis valid_for / 5 ≤ u64_max →
  let base := if decide (valid_for = 0) then from_secs 1 else valid_for in
  ∃ delay, jittered_refresh_delay hash valid_for attempt seed = Some delay ∧
           0 < delay ≤ base ∧ 4 * base ≤ 5 * delay.
Proof.
  intros Hfit base. unfold jittered_refresh_delay. fold base. cbv zeta.
  assert (Hb : 0 < base) by (unfold base, from_secs; case_decide; lia).
  assert (Hw : as_millis base / 5 ≤ u64_max) by (unfold base; case_decide; [by vm_compute|done]).
  set (w := N.max (as_millis base / 5) 1).
  rewrite (N.mod_small w) by (unfold w, u64_max in *; lia). rewrite decide_False by (unfold w; lia).
  eexists. split; [done|].
  assert (Hj : hash seed attempt mod w < w) by (apply N.mod_lt; unfold w; lia).
  assert (Hm : 1000000 * as_millis base ≤ base).
  { unfold as_millis. apply N.Div0.mul_div_le. }
  assert (H5 : 5 * (as_millis base / 5) ≤ as_millis base) by apply N.Div0.mul_div_le.
  unfold from_millis. destruct (N.le_gt_cases (as_millis base / 5) 1); unfold w in *; lia.
Qed.

(** The timing of refreshes: for any validity up to [5 * u64::MAX] milliseconds a
    fresh state waits between four fifths of the validity (one second when it is
    zero) and the validity, never zero; after failures the delay is the power of
    two of their number, capped at the sixth, so between two and 64 seconds, and does
    not shrink with further failures; an expired state is refreshed at once and keeps its error and
    failure count. *)
Theorem refresh_timing_bounded (hash : N → N → N) (valid_for : Duration) (error : string)
  (s : DiscoveryRefreshState) (Hfit : as_millis valid_for / 5 ≤ u64_max) :
  let base := if decide (valid_for = 0) then from_secs 1 else valid_for in
  (∃ f, DiscoveryRefreshState_fresh hash valid_for = Some f ∧
        0 < f.(rf_next_refresh_in) ≤ base ∧ 4 * base ≤ 5 * f.(rf_next_refresh_in)) ∧
  (let f := DiscoveryRefreshState_on_failure s error in
   f.(rf_next_refresh_in) = from_secs (2 ^ N.min f.(rf_consecutive_failures) 6) ∧
   from_secs 2 ≤ f.(rf_next_refresh_in) ≤ from_secs 64 ∧
   f.(rf_next_refresh_in) ≤ (DiscoveryRefreshState_on_failure f error).(rf_next_refresh_in) ∧
   (s.(rf_consecutive_failures) ≤ u32_max → f.(rf_consecutive_failures) ≤ u32_max)) ∧
  (let x := DiscoveryRefreshState_on_expired s in
   x.(rf_next_refresh_in) = 0 ∧ x.(rf_consecutive_failures) = s.(rf_consecutive_failures) ∧
   x.(rf_last_error) = s.(rf_last_error)).
Proof.
  intros base. split_and!.
  - destruct (jittered_delay_bounds hash valid_for 0 1234 Hfit) as (d & Hd & Hb & H5).
    unfold DiscoveryRefreshState_fresh. rewrite Hd. by eexists.
  - cbn [DiscoveryRefreshState_on_failure rf_next_refresh_in rf_consecutive_failures].
    assert (H1 : 1 ≤ saturating_add u32_max s.(rf_consecutive_failures) 1)
      by (unfold saturating_add, u32_max; lia).
    split_and!.
    + unfold failure_backoff_delay. cbv zeta. by rewrite N.shiftl_1_l.
    + exact (proj2 (failure_backoff_bounds 1) _ H1).
    + apply failure_backoff_bounds.
    + apply failure_backoff_bounds. unfold saturating_add, u32_max. lia.
    + unfold saturating_add, u32_max. lia.
  - done.
Qed.

Lemma refresh_timing_bounded_witness :
  ∃ f, DiscoveryRefreshState_fresh (λ seed attempt, seed + attempt) (from_secs 30) = Some f ∧
       0 < f.(rf_next_refresh_in) ≤ from_secs 30 ∧
       4 * from_secs 30 ≤ 5 * f.(rf_next_refresh_in).
Proof.
  apply (refresh_timing_bounded (λ seed attempt, seed + attempt) (from_secs 30) "timeout"
    {| rf_health := Refresh_Fresh; rf_valid_for := 0; rf_next_refresh_in := 0;
       rf_consecutive_failures := 0; rf_last_error := None |}).
  by vm_compute.
Defined.

(** The bound is needed: at [5 * 2^64] milliseconds the cast of the window to
    [u64] is zero, and the remainder panics. *)
Example jitter_window_vanishes hash attempt seed :
  jittered_refresh_delay hash (from_millis (5 * 2 ^ 64)) attempt seed = None ∧
  from_millis (5 * 2 ^ 64) ≤ Duration_MAX.
Proof. split; [reflexivity | by vm_compute]. Qed.

(** ** Loops over independent keys *)

Lemma foldl_count {O X} (g : O → X → O) (proj : O → N) (P : X → Prop) `{!∀ x, Decision (P x)} l :
  (∀ o x, proj (g o x) = proj o + (if decide (P x) then 1 else 0)) →
  ∀ o, proj (foldl g o l) = proj o + N.of_nat (length (filter P l)).
Proof.
  intros Hg. induction l as [|x l IH]; intros o; simpl; [lia|].
  rewrite IH, Hg, filter_cons. case_decide; simpl; lia.
Qed.

(** A loop whose body looks at and changes only what the state holds under the key
    of its item: each item is transformed by [f], everything else is framed, and the
    outcome is folded. *)
Section for_each_independent.
Context {X S E K V O : Type} (body : S → X → S * Result unit E) (key : X → K)
  (view : S → K → V) (out : S → O) (I : S → Prop) (pre : X → V → Prop) (f : X → V → V)
  (g : O → X → O).

Definition independent_body : Prop := ∀ s x,
  I s → pre x (view s (key x)) →
  ∃ s', body s x = (s', Ok tt) ∧ I s' ∧ out s' = g (out s) x ∧
        view s' (key x) = f x (view s (key x)) ∧ ∀ k, k ≠ key x → view s' k = view s k.

Lemma for_each_independent l : independent_body → ∀ s,
  NoDup (key <$> l) → I s → (∀ x, x ∈ l → pre x (view s (key x))) →
  ∃ s', for_each body l s = (s', Ok tt) ∧ I s' ∧ out s' = foldl g (out s) l ∧
        (∀ x, x ∈ l → view s' (key x) = f x (view s (key x))) ∧
        (∀ k, k ∉ key <$> l → view s' k = view s k).
Proof.
  intros Hbody. induction l as [|x l IH]; intros s Hnd Hs Hpre; simpl.
  { exists s. split_and!; try done. by intros x ?%elem_of_nil. }
  rewrite fmap_cons in Hnd. apply NoDup_cons in Hnd as [Hx Hnd].
  destruct (Hbody s x Hs (Hpre x ltac:(left))) as (s1 & -> & Hs1 & Ho & Hv & Hframe).
  assert (Hne : ∀ y, y ∈ l → key y ≠ key x).
  { intros y Hy E1. apply Hx. rewrite <- E1. by apply list_elem_of_fmap_2. }
  destruct (IH s1 Hnd Hs1) as (s2 & H2 & Hs2 & Ho2 & Hin & Hout).
  { intros y Hy. rewrite Hframe by auto. apply Hpre. by right. }
  exists s2. split_and!; [done | done | by rewrite Ho2, Ho | |].
  - intros y [->|Hy]%elem_of_cons; [by rewrite Hout, Hv|].
    by rewrite Hin, Hframe by auto.
  - intros k [Hk1 Hk2]%not_elem_of_cons. by rewrite Hout, Hframe.
Qed.
End for_each_independent.

(** ** The registry under single operations *)

(** [h'] is [h] with [o] under [k], and the same clusters. *)
Record reg_update (h h' : UpstreamHealthRegistry) (k : EndpointKey) (o : option UpstreamEndpoint) :
    Prop := {
  ru_inv : health_inv h';
  ru_clusters : dom (directory h'.(uh_registry)) = dom (directory h.(uh_registry));
  ru_registered k' : registered h'.(uh_registry) k' =
                     if decide (k' = k) then o else registered h.(uh_registry) k'
}.

Definition known_cluster (h : UpstreamHealthRegistry) (name : string) : Prop :=
  name ∈ dom (directory h.(uh_registry)).
#[export] Instance known_cluster_dec h name : Decision (known_cluster h name).
Proof. unfold known_cluster. apply _. Defined.

Lemma registered_update r r' name (id : string) (v w : gmap string UpstreamEndpoint) o :
  directory r !! name = Some v → directory r' = <[name := w]> (directory r) →
  (∀ i, w !! i = if decide (i = id) then o else v !! i) →
  dom (directory r') = dom (directory r) ∧
  ∀ k, registered r' k = if decide (k = (name, id)) then o else registered r k.
Proof.
  intros Hv Hd Hw. split.
  { rewrite Hd, dom_insert_L. apply elem_of_dom_2 in Hv. set_solver. }
  intros [n i]. unfold registered. simpl. rewrite Hd.
  destruct (decide (n = name)) as [->|Hn].
  - rewrite lookup_insert_eq, Hv. simpl. rewrite Hw.
    repeat case_decide; simplify_eq; done.
  - rewrite lookup_insert_ne by done. rewrite decide_False by congruence. done.
Qed.

Lemma health_insert_ok h name e :
  health_inv h → endpoint_typed e → known_cluster h name → UpstreamEndpoint_validate e = Ok tt →
  registered h.(uh_registry) (name, e.(ep_id)) = None →
  ∃ h', UpstreamHealthRegistry_insert_endpoint h name e = (h', Ok tt) ∧
        reg_update h h' (name, e.(ep_id)) (Some e).
Proof.
  intros Hh Ht [v Hv]%elem_of_dom Hval Hreg. pose proof Hh as [Hwf _ _].
  pose proof (insert_endpoint_inv h name e Hh Ht) as Hinv. revert Hinv.
  destruct (registry_op_refines h.(uh_registry) (RInsertEndpoint name e) Hwf I) as (_ & Hd & Hok).
  unfold UpstreamHealthRegistry_insert_endpoint. simpl in Hd, Hok.
  unfold registered in Hreg. simpl in Hreg. rewrite Hv in Hd, Hok, Hreg. simpl in *.
  rewrite decide_True in Hd, Hok by done. simpl in Hd, Hok.
  destruct (EndpointRegistry_insert_endpoint h.(uh_registry) name e) as [r [[]|]]; [|done].
  simpl in *. intros Hinv. eexists. split; [done|].
  destruct (admit_endpoint_fields name (set_registry h r) e) as (Hr & _).
  destruct (registered_update h.(uh_registry) r name e.(ep_id) v _ (Some e) Hv Hd) as [Hdom Hlk].
  { intros i. case_decide; subst; [apply lookup_insert_eq | by rewrite lookup_insert_ne]. }
  split; [done | by rewrite Hr | by rewrite Hr].
Qed.

Lemma health_remove_ok h name id e :
  health_inv h → registered h.(uh_registry) (name, id) = Some e →
  ∃ h', UpstreamHealthRegistry_remove_endpoint h name id = (h', Ok e) ∧
        reg_update h h' (name, id) None.
Proof.
  intros Hh Hreg. pose proof Hh as [Hwf _ _].
  pose proof (remove_endpoint_inv h name id Hh) as Hinv. revert Hinv.
  destruct (registry_op_refines h.(uh_registry) (RRemoveEndpoint name id) Hwf I) as (_ & Hd & Hok).
  unfold UpstreamHealthRegistry_remove_endpoint. unfold registered in Hreg. simpl in Hd, Hok, Hreg.
  destruct (directory h.(uh_registry) !! name) as [v|] eqn:Hv; simpl in *; [|done].
  rewrite Hreg in Hd, Hok. simpl in Hd, Hok.
  assert (Hres : (EndpointRegistry_remove_endpoint h.(uh_registry) name id).2 = Ok e).
  { unfold EndpointRegistry_remove_endpoint in *. rewrite directory_lookup in Hv.
    destruct (h.(uh_registry).(clusters) !! name) as [c|] eqn:Hc; simpl in *; [|done].
    injection Hv as <-. pose proof (remove_endpoint_refines c (proj2 (Hwf name c Hc)) id) as Href.
    destruct (UpstreamCluster_remove_endpoint c id) as [c' res]. destruct Href as (_ & _ & Hop).
    simpl in Hop. rewrite Hreg in Hop. by simplify_eq. }
  destruct (EndpointRegistry_remove_endpoint h.(uh_registry) name id) as [r res].
  simpl in *. subst res. intros Hinv. eexists. split; [done|].
  destruct (registered_update h.(uh_registry) r name id v _ None Hv Hd) as [Hdom Hlk].
  { intros i. case_decide; subst; [apply lookup_delete_eq | by rewrite lookup_delete_ne]. }
  by split.
Qed.

Lemma health_set_state_ok h name id e s :
  health_inv h → registered h.(uh_registry) (name, id) = Some e → e.(ep_state) ≠ s →
  ∃ h', UpstreamHealthRegistry_set_endpoint_state h name id s = (h', Ok tt) ∧
        reg_update h h' (name, id) (Some (with_state e s)).
Proof.
  intros Hh Hreg Hs. pose proof Hh as [Hwf _ _].
  pose proof (set_endpoint_state_inv h name id s Hh) as Hinv. revert Hinv.
  destruct (registry_op_refines h.(uh_registry) (RSetState name id s) Hwf I) as (_ & Hd & Hok).
  unfold UpstreamHealthRegistry_set_endpoint_state. unfold registered in Hreg.
  simpl in Hd, Hok, Hreg.
  destruct (directory h.(uh_registry) !! name) as [v|] eqn:Hv; simpl in *; [|done].
  rewrite Hreg in Hd, Hok. simpl in Hd, Hok. rewrite decide_False in Hd, Hok by done. simpl in *.
  destruct (EndpointRegistry_set_endpoint_state h.(uh_registry) name id s) as [r [[]|]]; [|done].
  simpl in *. intros Hinv. eexists. split; [done|].
  destruct (registered_update h.(uh_registry) r name id v _ (Some (with_state e s)) Hv Hd)
    as [Hdom Hlk].
  { intros i. case_decide; subst; [apply lookup_insert_eq | by rewrite lookup_insert_ne]. }
  by split.
Qed.

Lemma reg_update_trans h1 h2 h3 k o1 o2 :
  reg_update h1 h2 k o1 → reg_update h2 h3 k o2 → reg_update h1 h3 k o2.
Proof.
  intros [_ Hc1 H1] [Hi Hc2 H2]. split; [done | by rewrite Hc2|].
  intros k'. rewrite H2. case_decide; [done|]. by rewrite H1, decide_False.
Qed.

Lemma reinstall_ok h name id in_registry e :
  health_inv h → endpoint_typed e → known_cluster h name → UpstreamEndpoint_validate e = Ok tt →
  e.(ep_id) = id → in_registry = bool_decide (is_Some (registered h.(uh_registry) (name, id))) →
  ∃ h', reinstall h name id in_registry e = (h', Ok tt) ∧ reg_update h h' (name, id) (Some e).
Proof.
  intros Hh Ht Hk Hv <- ->. unfold reinstall, insert_or_fail, remove_if_present.
  destruct (registered h.(uh_registry) (name, e.(ep_id))) as [e0|] eqn:Hreg.
  - rewrite bool_decide_eq_true_2 by eauto.
    destruct (health_remove_ok h name e.(ep_id) e0 Hh Hreg) as (h1 & -> & Hu1). simpl.
    destruct (health_insert_ok h1 name e) as (h2 & -> & Hu2); try done.
    + apply Hu1.
    + unfold known_cluster. by rewrite (ru_clusters _ _ _ _ Hu1).
    + by rewrite (ru_registered _ _ _ _ Hu1), decide_True.
    + exists h2. split; [done|]. by eapply reg_update_trans.
  - rewrite bool_decide_eq_false_2 by (by intros []).
    destruct (health_insert_ok h name e) as (h2 & -> & Hu2); by eauto.
Qed.

(** ** What the sources advertise *)

Definition advertised (m : DiscoveryMembershipReconciler) (k : EndpointKey) (e : DiscoveryEndpoint) :
    Prop :=
  ∃ source eps, m.(dm_active) !! source = Some eps ∧ source.(ds_cluster_name) = k.1 ∧
                eps !! k.2 = Some e.

(** The ready endpoint a definition stands for. *)
Definition upstream_of (e : DiscoveryEndpoint) : UpstreamEndpoint :=
  {| ep_id := e.(de_endpoint_id); ep_address := e.(de_address); ep_state := EndpointState_Ready;
     ep_metadata := {| zone := e.(de_zone); locality := e.(de_locality); weight := e.(de_weight) |} |}.

Definition valid_definition (e : DiscoveryEndpoint) : Prop :=
  UpstreamEndpoint_validate (upstream_of e) = Ok tt.

(** Valid, and with a weight that fits its [u16]. *)
Definition deliverable (e : DiscoveryEndpoint) : Prop :=
  valid_definition e ∧ e.(de_weight) ≤ u16_max.

Lemma into_upstream_endpoint_spec e :
  match into_upstream_endpoint e EndpointState_Ready with
  | Ok u => u = upstream_of e ∧ valid_definition e
  | Err _ => ¬ valid_definition e
  end.
Proof.
  unfold into_upstream_endpoint, UpstreamEndpoint_new, valid_definition, UpstreamEndpoint_validate.
  cbn [ep_address ep_metadata upstream_of].
  destruct (validate_endpoint_address _) as [[]|]; [|done].
  by destruct (EndpointMetadata_validate _) as [[]|].
Qed.

Lemma into_upstream_endpoint_valid e :
  valid_definition e → into_upstream_endpoint e EndpointState_Ready = Ok (upstream_of e).
Proof.
  intros Hv. pose proof (into_upstream_endpoint_spec e) as Hs.
  by destruct (into_upstream_endpoint e _) as [u|]; [destruct Hs as [-> _]|].
Qed.

(** The definitions of a snapshot by id, the last of an id winning. *)
Definition defs_of (endpoints : list DiscoveryEndpoint) : gmap string DiscoveryEndpoint :=
  foldl (λ acc e, <[e.(de_endpoint_id) := e]> acc) ∅ endpoints.

Definition with_upstream (d : gmap string DiscoveryEndpoint) :
    gmap string (DiscoveryEndpoint * UpstreamEndpoint) := (λ e, (e, upstream_of e)) <$> d.

Lemma next_endpoints_of_spec endpoints :
  match next_endpoints_of endpoints with
  | Ok next => Forall valid_definition endpoints ∧ next = with_upstream (defs_of endpoints)
  | Err error => ¬ Forall valid_definition endpoints ∧ ∃ e, error = InvalidEndpoint e
  end.
Proof.
  unfold next_endpoints_of, defs_of. induction endpoints as [|e eps IH] using rev_ind.
  { split; [constructor|]. symmetry. apply fmap_empty. }
  rewrite !foldl_app. cbn [foldl].
  assert (Hf : Forall valid_definition (eps ++ [e]) ↔
               Forall valid_definition eps ∧ valid_definition e)
    by (by rewrite Forall_app, Forall_singleton).
  destruct (foldl _ (Ok ∅) eps) as [next|error]; [|naive_solver].
  destruct IH as [Hv ->]. pose proof (into_upstream_endpoint_spec e) as Hs.
  destruct (into_upstream_endpoint e _) as [u|error].
  - destruct Hs as [-> Hs]. split; [by apply Hf|]. unfold with_upstream. by rewrite fmap_insert.
  - split; [naive_solver|by eexists].
Qed.

Lemma defs_of_lookup endpoints id e :
  defs_of endpoints !! id = Some e → e ∈ endpoints ∧ e.(de_endpoint_id) = id.
Proof.
  unfold defs_of. induction endpoints as [|x eps IH] using rev_ind; [done|].
  rewrite foldl_app. cbn [foldl]. rewrite lookup_insert_Some, elem_of_app, list_elem_of_singleton.
  naive_solver.
Qed.

Lemma defs_of_dom endpoints id : is_Some (defs_of endpoints !! id) ↔ id ∈ de_endpoint_id <$> endpoints.
Proof.
  unfold defs_of. induction endpoints as [|x eps IH] using rev_ind.
  { cbn [foldl fmap list_fmap]. rewrite lookup_empty. split; [by intros []|by intros ?%elem_of_nil]. }
  rewrite foldl_app, fmap_app, elem_of_app. cbn [foldl fmap list_fmap].
  rewrite list_elem_of_singleton, lookup_insert_is_Some', IH. naive_solver.
Qed.

Lemma other_source_definition_spec m source id :
  match other_source_definition m source id with
  | Some e => ∃ s eps, s ≠ source ∧ m.(dm_active) !! s = Some eps ∧
                       s.(ds_cluster_name) = source.(ds_cluster_name) ∧ eps !! id = Some e
  | None => ∀ s eps, s ≠ source → m.(dm_active) !! s = Some eps →
                     s.(ds_cluster_name) = source.(ds_cluster_name) → eps !! id = None
  end.
Proof.
  unfold other_source_definition, sources_iter.
  set (l := filter _ _).
  assert (Hl : ∀ s eps, (s, eps) ∈ l ↔
    (s ≠ source ∧ s.(ds_cluster_name) = source.(ds_cluster_name)) ∧ m.(dm_active) !! s = Some eps).
  { intros s eps. unfold l. by rewrite list_elem_of_filter, elem_of_sort_by, elem_of_map_to_list. }
  destruct (head _) as [e|] eqn:Hh.
  - apply head_Some_elem_of in Hh. apply list_elem_of_omap in Hh as ([s eps] & Hin & He).
    apply Hl in Hin as [[]]. by exists s, eps.
  - apply head_None in Hh. intros s eps Hs Ha Hc.
    destruct (eps !! id) as [e|] eqn:He; [|done].
    assert (Hin : e ∈ omap (λ entry, entry.2 !! id) l)
      by (apply list_elem_of_omap; exists (s, eps); by rewrite Hl).
    rewrite Hh in Hin. by apply elem_of_nil in Hin.
Qed.

(** Only the sources matter for [other_source_definition]. *)
Lemma other_source_definition_ext m m' source id :
  m'.(dm_active) = m.(dm_active) →
  other_source_definition m' source id = other_source_definition m source id.
Proof. intros H. unfold other_source_definition, sources_iter. by rewrite H. Qed.

(** ** The membership invariant *)

(** Where an endpoint key stands: served under a definition some source advertises,
    draining until a deadline with no source advertising it, or absent. *)
Inductive key_status (m : DiscoveryMembershipReconciler) (h : UpstreamHealthRegistry)
    (k : EndpointKey) : Prop :=
| Key_serving e :
    registered h.(uh_registry) k = Some (upstream_of e) → advertised m k e →
    m.(dm_deadlines) !! k = None → m.(dm_lifecycle) !! k = Some LifecycleStateMachine_new_active →
    key_status m h k
| Key_draining u d :
    registered h.(uh_registry) k = Some u → u.(ep_state) = EndpointState_Draining →
    (∀ e, ¬ advertised m k e) → m.(dm_deadlines) !! k = Some d →
    m.(dm_lifecycle) !! k = Some {| lm_state := Draining |} → key_status m h k
| Key_absent :
    registered h.(uh_registry) k = None → (∀ e, ¬ advertised m k e) →
    m.(dm_deadlines) !! k = None → m.(dm_lifecycle) !! k = None → key_status m h k.

Record discovery_inv (m : DiscoveryMembershipReconciler) (h : UpstreamHealthRegistry) : Prop := {
  di_health : health_inv h;
  di_keys k : key_status m h k;
  di_defs source eps id e :
    m.(dm_active) !! source = Some eps → eps !! id = Some e →
    e.(de_endpoint_id) = id ∧ deliverable e;
  di_deadlines k d :
    m.(dm_deadlines) !! k = Some d → d ≤ Duration_saturating_add m.(dm_now) m.(dm_drain_grace);
  di_now : m.(dm_now) ≤ Duration_MAX
}.

(** Equal up to telemetry. *)
Record same_core (m m' : DiscoveryMembershipReconciler) : Prop := {
  core_grace : m'.(dm_drain_grace) = m.(dm_drain_grace);
  core_now : m'.(dm_now) = m.(dm_now);
  core_active : m'.(dm_active) = m.(dm_active);
  core_deadlines : m'.(dm_deadlines) = m.(dm_deadlines);
  core_lifecycle : m'.(dm_lifecycle) = m.(dm_lifecycle);
  core_generations : m'.(dm_generations) = m.(dm_generations)
}.

Lemma emit_same_core m result cluster detail :
  same_core m (emit_discovery_event m result cluster detail).
Proof. unfold emit_discovery_event. by case_match; split. Qed.

Lemma advertised_ext m m' k e :
  m'.(dm_active) = m.(dm_active) → advertised m' k e ↔ advertised m k e.
Proof. unfold advertised. by intros ->. Qed.

Lemma discovery_inv_ext m m' h h' :
  same_core m m' → health_inv h' →
  (∀ k, registered h'.(uh_registry) k = registered h.(uh_registry) k) →
  discovery_inv m h → discovery_inv m' h'.
Proof.
  intros [Hg Hn Ha Hd Hl _] Hh Hr [_ Hk Hdef Hdl Hmax]. split.
  - done.
  - assert (Hadv : ∀ k e, advertised m' k e ↔ advertised m k e) by eauto using advertised_ext.
    intros k. destruct (Hk k) as [e ? ?%Hadv|u d|? Hna].
    + by eapply Key_serving; rewrite ?Hr, ?Hd, ?Hl.
    + eapply Key_draining; rewrite ?Hr, ?Hd, ?Hl; try done. naive_solver.
    + apply Key_absent; rewrite ?Hr, ?Hd, ?Hl; try done. naive_solver.
  - rewrite Ha. apply Hdef.
  - rewrite Hd, Hn, Hg. apply Hdl.
  - by rewrite Hn.
Qed.

(** ** The two loops of a reconciliation *)

Section reconcile_loops.
Context (m0 : DiscoveryMembershipReconciler) (h0 : UpstreamHealthRegistry)
  (source : DiscoverySourceId).
Let cluster := source.(ds_cluster_name).
Let previous := default ∅ (m0.(dm_active) !! source).
Let other := other_source_definition m0 source.

(** What the loops see and change of a key: endpoint, deadline, and whether it is to
    be recorded as activated or as draining. *)
Definition loop_view (st : ReconcileState) (k : EndpointKey) :
    option UpstreamEndpoint * option Duration * bool * bool :=
  (registered st.(rs_registry).(uh_registry) k, st.(rs_reconciler).(dm_deadlines) !! k,
   bool_decide (k.1 = cluster ∧ k.2 ∈ st.(rs_activated)),
   bool_decide (k.1 = cluster ∧ k.2 ∈ st.(rs_draining))).

Definition loop_inv (st : ReconcileState) : Prop :=
  health_inv st.(rs_registry) ∧
  dom (directory st.(rs_registry).(uh_registry)) = dom (directory h0.(uh_registry)) ∧
  st.(rs_reconciler) = dm_set_deadlines m0 st.(rs_reconciler).(dm_deadlines) ∧
  NoDup st.(rs_activated) ∧ NoDup st.(rs_draining).

Definition tracked_only (id : string) (e : DiscoveryEndpoint) (d : option Duration) : bool :=
  bool_decide (other id = Some e) && negb (bool_decide (is_Some d)) &&
  negb (bool_decide (is_Some (previous !! id))).

Definition install_view (x : string * (DiscoveryEndpoint * UpstreamEndpoint))
    (v : option UpstreamEndpoint * option Duration * bool * bool) :
    option UpstreamEndpoint * option Duration * bool * bool :=
  let '(id, (e, u)) := x in
  let '(r, d, act, dr) := v in
  if decide (previous !! id = Some e) then v
  else if tracked_only id e d then (r, None, act, dr) else (Some u, None, true, dr).

Definition install_pre (x : string * (DiscoveryEndpoint * UpstreamEndpoint))
    (v : option UpstreamEndpoint * option Duration * bool * bool) : Prop :=
  let '(id, (e, u)) := x in
  let '(r, d, act, _) := v in
  u = upstream_of e ∧ e.(de_endpoint_id) = id ∧ deliverable e ∧ act = false ∧
  (is_Some r ↔ is_Some d ∨ is_Some (previous !! id) ∨ is_Some (other id)).

Definition install_outcome (o : DiscoveryReconcileOutcome)
    (x : string * (DiscoveryEndpoint * UpstreamEndpoint)) : DiscoveryReconcileOutcome :=
  if decide (previous !! x.1 = Some x.2.1) then o
  else if decide (is_Some (previous !! x.1)) then outcome_add o 0 1 0 0 0 0 0 0 0
  else outcome_add o 1 0 0 0 0 0 0 0 0.

Lemma recorded_snoc (ids : list string) id :
  bool_decide (cluster = cluster ∧ id ∈ ids ++ [id]) = true.
Proof. apply bool_decide_eq_true_2. split; [done|]. set_solver. Qed.

Lemma recorded_snoc_ne (ids : list string) id k :
  k ≠ (cluster, id) →
  bool_decide (k.1 = cluster ∧ k.2 ∈ ids ++ [id]) = bool_decide (k.1 = cluster ∧ k.2 ∈ ids).
Proof.
  intros Hk. apply bool_decide_ext. destruct k as [n i]. simpl.
  rewrite elem_of_app, list_elem_of_singleton. naive_solver.
Qed.

Lemma recorded_NoDup (ids : list string) id :
  bool_decide (cluster = cluster ∧ id ∈ ids) = false → NoDup ids → NoDup (ids ++ [id]).
Proof.
  intros Hid%bool_decide_eq_false Hnd. apply NoDup_app. split_and!; [done| |apply NoDup_singleton].
  intros x Hx ->%list_elem_of_singleton. by apply Hid.
Qed.

Lemma install_endpoint_independent :
  known_cluster h0 cluster →
  independent_body (install_endpoint source previous) (λ x, (cluster, x.1)) loop_view rs_outcome
    loop_inv install_pre install_view install_outcome.
Proof.
  intros Hknown st [id [e u]] (Hh & Hdom & Hm & Hna & Hnd) Hpre. cbn [fst] in *.
  unfold install_endpoint, install_view, install_outcome. cbn [loop_view fst snd].
  case_decide as Hkeep; [by exists st|].
  unfold loop_view in Hpre. destruct Hpre as (-> & Hid & [Hv Hw] & Hact & Hreg).
  set (m := dm_set_deadlines st.(rs_reconciler) _).
  assert (Hother : other_source_definition m source id = other id)
    by (apply other_source_definition_ext; unfold m; by rewrite Hm).
  rewrite Hother. fold cluster. unfold tracked_only.
  assert (Hm' : m = dm_set_deadlines m0 m.(dm_deadlines)) by (unfold m; by rewrite Hm).
  destruct (_ && _ && _) eqn:Htr.
  - eexists. split; [reflexivity|]. split; [by split_and!|].
    split; [cbn; by repeat case_decide; repeat case_bool_decide|].
    split; [unfold loop_view; cbn; by rewrite lookup_delete_eq|].
    intros k Hk. unfold loop_view. cbn. by rewrite lookup_delete_ne by done.
  - destruct (reinstall_ok st.(rs_registry) cluster id
      (bool_decide (is_Some (st.(rs_reconciler).(dm_deadlines) !! (cluster, id))) ||
       bool_decide (is_Some (previous !! id)) || bool_decide (is_Some (other id)))
      (upstream_of e)) as (h' & -> & Hu); try done.
    { unfold known_cluster. by rewrite Hdom. }
    { rewrite <- !bool_decide_or. apply bool_decide_ext. rewrite Hreg. tauto. }
    eexists. split; [reflexivity|].
    split; [split_and!; [apply Hu | by rewrite <- Hdom; apply Hu | done | by apply recorded_NoDup | done]|].
    split; [cbn; by repeat case_decide; repeat case_bool_decide|].
    split.
    + unfold loop_view. cbn. rewrite (ru_registered _ _ _ _ Hu), decide_True by done.
      by rewrite lookup_delete_eq, recorded_snoc.
    + intros k Hk. unfold loop_view. cbn.
      rewrite (ru_registered _ _ _ _ Hu), decide_False by done.
      by rewrite lookup_delete_ne, recorded_snoc_ne by done.
Qed.

Definition withdraw_view (x : string * DiscoveryEndpoint)
    (v : option UpstreamEndpoint * option Duration * bool * bool) :
    option UpstreamEndpoint * option Duration * bool * bool :=
  let '(id, removed) := x in
  let '(r, d, act, dr) := v in
  match other id with
  | Some o => if decide (o = removed) then v else (Some (upstream_of o), d, true, dr)
  | None =>
      ((λ u, with_state u EndpointState_Draining) <$> r,
       Some (Duration_saturating_add m0.(dm_now) m0.(dm_drain_grace)), act, true)
  end.

Definition withdraw_pre (x : string * DiscoveryEndpoint)
    (v : option UpstreamEndpoint * option Duration * bool * bool) : Prop :=
  let '(r, _, act, dr) := v in
  act = false ∧ dr = false ∧
  ∃ u, r = Some u ∧ u.(ep_state) = EndpointState_Ready ∧
  ∀ o, other x.1 = Some o → o.(de_endpoint_id) = x.1 ∧ deliverable o.

Definition withdraw_outcome (o : DiscoveryReconcileOutcome) (x : string * DiscoveryEndpoint) :
    DiscoveryReconcileOutcome :=
  if decide (other x.1 = None) then outcome_add o 0 0 1 0 0 0 0 0 0 else o.

Lemma withdraw_endpoint_independent :
  known_cluster h0 cluster →
  independent_body (withdraw_endpoint source) (λ x, (cluster, x.1)) loop_view rs_outcome
    loop_inv withdraw_pre withdraw_view withdraw_outcome.
Proof.
  intros Hknown st [id removed] (Hh & Hdom & Hm & Hna & Hnd) Hpre. cbn [fst] in *.
  unfold withdraw_endpoint, withdraw_view, withdraw_outcome. cbn [loop_view fst snd].
  unfold loop_view in Hpre. destruct Hpre as (Hact & Hdr & u & Hu0 & Hs & Ho). cbn [fst] in Ho.
  assert (Hother : other_source_definition st.(rs_reconciler) source id = other id)
    by (apply other_source_definition_ext; by rewrite Hm).
  rewrite Hother. fold cluster. destruct (other id) as [o|].
  - destruct (decide (o = removed)) as [Heq|Heq]; [by exists st|]. destruct (Ho o eq_refl) as [Hid [Hv Hw]].
    rewrite into_upstream_endpoint_valid by done.
    destruct (reinstall_ok st.(rs_registry) cluster id true (upstream_of o)) as (h' & -> & Hu);
      try done.
    { unfold known_cluster. by rewrite Hdom. }
    { rewrite Hu0. by rewrite bool_decide_eq_true_2. }
    eexists. split; [reflexivity|].
    split; [split_and!; [apply Hu | by rewrite <- Hdom; apply Hu | done | by apply recorded_NoDup | done]|].
    split; [done|]. split.
    + unfold loop_view. cbn. rewrite (ru_registered _ _ _ _ Hu), decide_True by done.
      by rewrite recorded_snoc.
    + intros k Hk. unfold loop_view. cbn.
      rewrite (ru_registered _ _ _ _ Hu), decide_False by done. by rewrite recorded_snoc_ne.
  - destruct (health_set_state_ok st.(rs_registry) cluster id u EndpointState_Draining)
      as (h' & -> & Hu); [done | done | by rewrite Hs |].
    cbn [ignore_missing_endpoint]. eexists. split; [reflexivity|].
    split; [split_and!; [apply Hu | by rewrite <- Hdom; apply Hu | cbn; by rewrite Hm | done | by apply recorded_NoDup]|].
    split; [done|]. split.
    + unfold loop_view. cbn. rewrite (ru_registered _ _ _ _ Hu), decide_True by done.
      rewrite recorded_snoc, lookup_insert_eq, Hu0. by rewrite Hm.
    + intros k Hk. unfold loop_view. cbn.
      rewrite (ru_registered _ _ _ _ Hu), decide_False by done.
      by rewrite lookup_insert_ne, recorded_snoc_ne by done.
Qed.
End reconcile_loops.

Lemma install_outcome_counts m source o x :
  let previous := default ∅ (m.(dm_active) !! source) in
  (install_outcome m source o x).(oc_inserted) =
    o.(oc_inserted) + (if decide (previous !! x.1 = None) then 1 else 0) ∧
  (install_outcome m source o x).(oc_updated) =
    o.(oc_updated) +
    (if decide (is_Some (previous !! x.1) ∧ previous !! x.1 ≠ Some x.2.1) then 1 else 0) ∧
  (install_outcome m source o x).(oc_marked_draining) = o.(oc_marked_draining) ∧
  (install_outcome m source o x).(oc_stale_generation_rejected) = o.(oc_stale_generation_rejected).
Proof.
  intros previous. unfold install_outcome. fold previous.
  destruct (previous !! x.1) as [p|].
  - case_decide as Hp; [|rewrite (decide_True (P := is_Some (Some p))) by eauto].
    + rewrite decide_False by done. rewrite decide_False by (by intros [_ []]).
      split_and!; [lia | lia | done | done].
    + rewrite decide_False by done. rewrite decide_True by eauto. split_and!; cbn; [lia.. | done].
  - rewrite decide_False by done. rewrite decide_False by (by intros []).
    rewrite decide_True by done. rewrite decide_False by (by intros [[] _]).
    split_and!; cbn; [lia.. | done].
Qed.

Lemma NoDup_btree_keys {V} (c : string) (m : gmap string V) :
  NoDup ((λ x, (c, x.1)) <$> btree_iter m).
Proof.
  apply (NoDup_fmap_2_strong (λ x, (c, x.1))).
  - intros [i x] [j y] Hx Hy [= ->]. apply elem_of_btree_iter in Hx, Hy. naive_solver.
  - rewrite btree_iter_perm. apply NoDup_map_to_list.
Qed.

Lemma NoDup_filter_keys {V} (c : string) (P : string * V → Prop) `{!∀ x, Decision (P x)} l :
  NoDup ((λ x, (c, x.1)) <$> l) → NoDup ((λ x, (c, x.1)) <$> filter P l).
Proof.
  intros Hnd. eapply sublist_NoDup; [exact Hnd|]. apply fmap_sublist, sublist_filter.
Qed.

Lemma length_filter_entries `{Countable K} {V} (P : K * V → Prop) `{!∀ x, Decision (P x)}
  (m : gmap K V) : length (filter P (map_to_list m)) = size (filter P m).
Proof.
  rewrite map_filter_alt, <- length_map_to_list, map_to_list_to_map; [done|].
  apply sublist_NoDup with (map_to_list m).*1; [apply NoDup_fst_map_to_list|].
  apply fmap_sublist, sublist_filter.
Qed.

Lemma length_filter_btree {V} (P : string * V → Prop) `{!∀ x, Decision (P x)} (m : gmap string V) :
  length (filter P (btree_iter m)) = size (filter P m).
Proof. rewrite (btree_iter_perm m). apply length_filter_entries. Qed.

Lemma install_outcomes_rest m source l :
  let o := foldl (install_outcome m source) DiscoveryReconcileOutcome_default l in
  o.(oc_marked_draining) = 0 ∧ o.(oc_stale_generation_rejected) = false.
Proof.
  cbv zeta. induction l as [|x l IH] using rev_ind; [done|]. rewrite foldl_app. simpl.
  destruct (install_outcome_counts m source
    (foldl (install_outcome m source) DiscoveryReconcileOutcome_default l) x) as (_ & _ & -> & ->).
  done.
Qed.

(** ** Recording the lifecycle *)

(** Recording sets the machines of the keys, provided they start in a state from
    which the transition leads to [target]. *)
Lemma record_all_lifecycle record (ok : option LifecycleStateMachine → Prop) target cluster ids :
  (∀ m k o, ok (m.(dm_lifecycle) !! k) →
            (record m k o).1 = dm_set_lifecycle m (<[k := target]> m.(dm_lifecycle))) →
  ok (Some target) →
  ∀ m o, (∀ id, id ∈ ids → ok (m.(dm_lifecycle) !! (cluster, id))) →
  ∃ l, (record_all record cluster ids (m, o)).1 = dm_set_lifecycle m l ∧
  ∀ k, l !! k = if decide (k.1 = cluster ∧ k.2 ∈ ids) then Some target else m.(dm_lifecycle) !! k.
Proof.
  intros Hrec Hok. induction ids as [|id ids IH]; intros m o Hids.
  { exists m.(dm_lifecycle). split; [by destruct m|]. intros k.
    rewrite decide_False; [done|]. by intros [_ ?%elem_of_nil]. }
  unfold record_all. cbn [foldl fst snd]. pose proof (Hrec m (cluster, id) o (Hids id ltac:(left))) as Hacc.
  destruct (record m (cluster, id) o) as [m1 o1]. cbn [fst] in Hacc. subst m1.
  destruct (IH (dm_set_lifecycle m (<[(cluster, id) := target]> m.(dm_lifecycle))) o1)
    as (l & Hl & Hlk).
  { intros i Hi. cbn. destruct (decide (i = id)) as [->|]; [by rewrite lookup_insert_eq|].
    rewrite lookup_insert_ne by congruence. apply Hids. by right. }
  exists l. split; [exact Hl|]. intros [n i]. rewrite Hlk. cbn [fst snd dm_lifecycle dm_set_lifecycle].
  destruct (decide ((n, i) = (cluster, id))) as [[= -> ->]|Hne].
  - rewrite lookup_insert_eq, (decide_True (P := cluster = cluster ∧ id ∈ id :: ids))
      by (split; [done|left]). by case_decide.
  - rewrite lookup_insert_ne by congruence.
    by apply decide_ext; rewrite elem_of_cons; naive_solver.
Qed.

Lemma record_activated m k o :
  (record_endpoint_activated m k o).1 =
  dm_set_lifecycle m (<[k := LifecycleStateMachine_new_active]> m.(dm_lifecycle)).
Proof.
  unfold record_endpoint_activated. cbn [fst]. do 2 f_equal.
  by destruct (m.(dm_lifecycle) !! k) as [[[]]|].
Qed.

(** From these states draining succeeds. *)
Definition may_drain (x : option LifecycleStateMachine) : Prop :=
  x = Some LifecycleStateMachine_new_active ∨ x = Some {| lm_state := Draining |}.

Lemma record_draining m k o :
  may_drain (m.(dm_lifecycle) !! k) →
  (record_endpoint_draining m k o).1 =
  dm_set_lifecycle m (<[k := {| lm_state := Draining |}]> m.(dm_lifecycle)).
Proof. unfold record_endpoint_draining. by intros [-> | ->]. Qed.

Lemma record_all_outcome {T} record cluster ids (proj : DiscoveryReconcileOutcome → T) :
  (∀ m k o, proj (record m k o).2 = proj o) →
  ∀ acc, proj (record_all record cluster ids acc).2 = proj acc.2.
Proof.
  intros Hp. unfold record_all. induction ids as [|id ids IH]; intros acc; simpl; [done|].
  by rewrite IH, Hp.
Qed.

Lemma record_all_count record cluster ids (proj : DiscoveryReconcileOutcome → N) n :
  (∀ m k o, proj (record m k o).2 = proj o + n) →
  ∀ acc, proj (record_all record cluster ids acc).2 = proj acc.2 + n * N.of_nat (length ids).
Proof.
  intros Hp. unfold record_all. induction ids as [|id ids IH]; intros acc; cbn [foldl length]; [lia|].
  rewrite IH, Hp. lia.
Qed.

(** ** Reconciling a snapshot *)

Section reconcile.
Context (m : DiscoveryMembershipReconciler) (h : UpstreamHealthRegistry) (snapshot : DiscoverySnapshot).
Hypothesis Hinv : discovery_inv m h.
Let source := snapshot.(sn_source).
Let cluster := source.(ds_cluster_name).
Hypothesis Hknown : known_cluster h cluster.
Hypothesis Hdel : Forall deliverable snapshot.(sn_endpoints).
Let previous := default ∅ (m.(dm_active) !! source).
Let other := other_source_definition m source.
Let defs := defs_of snapshot.(sn_endpoints).

Lemma previous_advertised id e : previous !! id = Some e → advertised m (cluster, id) e.
Proof.
  unfold previous. destruct (m.(dm_active) !! source) as [eps|] eqn:Hs; simpl; [|done].
  intros He. by exists source, eps.
Qed.

Lemma other_advertised id e : other id = Some e → advertised m (cluster, id) e.
Proof.
  intros Ho. pose proof (other_source_definition_spec m source id) as Hs. unfold other in Ho.
  rewrite Ho in Hs. destruct Hs as (s & eps & _ & ? & ? & ?). by exists s, eps.
Qed.

(** What is advertised under a key of the cluster comes from the source or another. *)
Lemma advertised_cases id e :
  advertised m (cluster, id) e → previous !! id = Some e ∨
  (is_Some (other id) ∧ ∃ s eps, s ≠ source ∧ m.(dm_active) !! s = Some eps ∧
     s.(ds_cluster_name) = cluster ∧ eps !! id = Some e).
Proof.
  intros (s & eps & Hs & Hc & He). simpl in *. destruct (decide (s = source)) as [->|Hne].
  - left. unfold previous. by rewrite Hs.
  - right. split; [|by exists s, eps].
    pose proof (other_source_definition_spec m source id) as Hspec. fold other in Hspec.
    destruct (other id); [done|]. by rewrite (Hspec s eps) in He.
Qed.

Lemma defs_deliverable id e : defs !! id = Some e → e.(de_endpoint_id) = id ∧ deliverable e.
Proof.
  intros [He Hid]%defs_of_lookup. split; [done|]. by eapply Forall_forall in He.
Qed.

(** The view of a key before the loops. *)
Let view0 (k : EndpointKey) : option UpstreamEndpoint * option Duration * bool * bool :=
  (registered h.(uh_registry) k, m.(dm_deadlines) !! k, false, false).

(** And after them. *)
Let view2 (k : EndpointKey) : option UpstreamEndpoint * option Duration * bool * bool :=
  if decide (k.1 = cluster) then
    match defs !! k.2 with
    | Some e => install_view m source (k.2, (e, upstream_of e)) (view0 k)
    | None => match previous !! k.2 with
              | Some r => withdraw_view m source (k.2, r) (view0 k)
              | None => view0 k
              end
    end
  else view0 k.

Lemma install_pre_holds id e :
  defs !! id = Some e → install_pre m source (id, (e, upstream_of e)) (view0 (cluster, id)).
Proof.
  intros [Hid Hd]%defs_deliverable. split_and!; try done. fold previous other.
  destruct (di_keys _ _ Hinv (cluster, id)) as [e0 -> Hadv -> _|u d -> _ Hna -> _| -> Hna -> _].
  - apply advertised_cases in Hadv as [Hp|[Ho _]]; split; eauto.
  - split; eauto.
  - split; [by intros []|]. intros [[]|[[e' H]|[e' H]]]; [done| |]; exfalso.
    + by apply (Hna e'), previous_advertised.
    + by apply (Hna e'), other_advertised.
Qed.

Lemma withdraw_pre_holds id r :
  previous !! id = Some r → withdraw_pre m source (id, r) (view0 (cluster, id)).
Proof.
  intros Hp. pose proof (previous_advertised _ _ Hp) as Hadv.
  destruct (di_keys _ _ Hinv (cluster, id)) as [e0 Hr _ _ _|u d _ _ Hna _ _|_ Hna _ _];
    [|by destruct (Hna r)..].
  split; [done|]. split; [done|]. exists (upstream_of e0). split_and!; [done | done|]. fold other. simpl. intros o Ho.
  destruct (other_advertised _ _ Ho) as (s & eps & Hs & _ & He). by eapply (di_defs _ _ Hinv).
Qed.

Let start : ReconcileState :=
  {| rs_reconciler := m; rs_registry := h; rs_activated := []; rs_draining := [];
     rs_outcome := DiscoveryReconcileOutcome_default |}.

Lemma start_view k : loop_view source start k = view0 k.
Proof.
  unfold loop_view, view0, start. cbn.
  by rewrite !bool_decide_eq_false_2 by (by intros [_ ?%elem_of_nil]).
Qed.

Lemma start_inv : loop_inv m h start.
Proof. split_and!; [apply Hinv | done | by destruct m | constructor | constructor]. Qed.

Let withdrawn : list (string * DiscoveryEndpoint) :=
  filter (λ entry, with_upstream defs !! entry.1 = None) (btree_iter previous).

Lemma elem_of_withdrawn id r :
  (id, r) ∈ withdrawn ↔ previous !! id = Some r ∧ defs !! id = None.
Proof.
  unfold withdrawn, with_upstream. rewrite list_elem_of_filter, elem_of_btree_iter. simpl.
  rewrite lookup_fmap, fmap_None. tauto.
Qed.

Lemma elem_of_next id e u :
  (id, (e, u)) ∈ btree_iter (with_upstream defs) ↔ defs !! id = Some e ∧ u = upstream_of e.
Proof.
  rewrite elem_of_btree_iter. unfold with_upstream. rewrite lookup_fmap.
  destruct (defs !! id); simpl; naive_solver.
Qed.

Lemma key_in_next (k : EndpointKey) :
  k ∈ (λ x, (cluster, x.1)) <$> btree_iter (with_upstream defs) ↔
  k.1 = cluster ∧ is_Some (defs !! k.2).
Proof.
  destruct k as [n i]. cbn [fst snd]. rewrite list_elem_of_fmap. split.
  - intros ([id [e u]] & [= -> ->] & Hin). apply elem_of_next in Hin as [Hd _]. simpl. eauto.
  - intros [-> [e He]]. exists (i, (e, upstream_of e)). by rewrite elem_of_next.
Qed.

Lemma key_in_withdrawn (k : EndpointKey) :
  k ∈ (λ x, (cluster, x.1)) <$> withdrawn ↔
  k.1 = cluster ∧ is_Some (previous !! k.2) ∧ defs !! k.2 = None.
Proof.
  destruct k as [n i]. cbn [fst snd]. rewrite list_elem_of_fmap. split.
  - intros ([id r] & [= -> ->] & Hin). apply elem_of_withdrawn in Hin as [Hp Hd]. simpl. eauto.
  - intros (-> & [r Hr] & Hd). exists (i, r). by rewrite elem_of_withdrawn.
Qed.

Lemma reconcile_loops :
  ∃ st1 st2,
    for_each (install_endpoint source previous) (btree_iter (with_upstream defs)) start
      = (st1, Ok tt) ∧
    for_each (withdraw_endpoint source) withdrawn st1 = (st2, Ok tt) ∧
    loop_inv m h st2 ∧ (∀ k, loop_view source st2 k = view2 k) ∧
    st2.(rs_outcome) = foldl (withdraw_outcome m source)
      (foldl (install_outcome m source) DiscoveryReconcileOutcome_default
         (btree_iter (with_upstream defs))) withdrawn.
Proof.
  destruct (for_each_independent _ _ _ _ _ _ _ _ (btree_iter (with_upstream defs))
    (install_endpoint_independent m h source Hknown) start) as (st1 & H1 & Hi1 & Ho1 & Hin1 & Hout1).
  { apply NoDup_btree_keys. }
  { apply start_inv. }
  { intros [id [e u]] [Hd ->]%elem_of_next. rewrite start_view. by apply install_pre_holds. }
  assert (Hfr : ∀ k, k.1 ≠ cluster ∨ defs !! k.2 = None → loop_view source st1 k = view0 k).
  { intros k Hk. rewrite Hout1; [apply start_view|].
    intros [? [? ?]]%key_in_next. destruct Hk; congruence. }
  destruct (for_each_independent _ _ _ _ _ _ _ _ withdrawn
    (withdraw_endpoint_independent m h source Hknown) st1) as (st2 & H2 & Hi2 & Ho2 & Hin2 & Hout2).
  { apply NoDup_filter_keys, NoDup_btree_keys. }
  { done. }
  { intros [id r] [Hp Hd]%elem_of_withdrawn. rewrite Hfr by auto. by apply withdraw_pre_holds. }
  exists st1, st2. split_and!; [done | done | done | | by rewrite Ho2, Ho1].
  intros [n i]. unfold view2. cbn [fst snd].
  destruct (decide (n = cluster)) as [->|Hn].
  - destruct (defs !! i) as [e|] eqn:He.
    + rewrite Hout2 by (intros (_ & _ & Hd)%key_in_withdrawn; simpl in Hd; congruence).
      rewrite <- start_view. apply (Hin1 (i, (e, upstream_of e))). by apply elem_of_next.
    + destruct (previous !! i) as [r|] eqn:Hr.
      * rewrite <- Hfr by auto. apply (Hin2 (i, r)). by apply elem_of_withdrawn.
      * rewrite Hout2, Hfr; [done | by auto|].
        intros (_ & [? Hp] & _)%key_in_withdrawn. simpl in Hp. congruence.
  - rewrite Hout2, Hfr; [done | by auto|]. by intros [? _]%key_in_withdrawn.
Qed.

(** *** The state after the loops *)

Section after.
Context (m' : DiscoveryMembershipReconciler) (h' : UpstreamHealthRegistry).
Hypothesis Hactive : m'.(dm_active) = <[source := defs]> m.(dm_active).
Hypothesis Hview : ∀ k, ∃ act dr,
  view2 k = (registered h'.(uh_registry) k, m'.(dm_deadlines) !! k, act, dr) ∧
  m'.(dm_lifecycle) !! k =
    if dr then Some {| lm_state := Draining |}
    else if act then Some LifecycleStateMachine_new_active else m.(dm_lifecycle) !! k.

Lemma advertised_after k e :
  advertised m' k e ↔ (k.1 = cluster ∧ defs !! k.2 = Some e) ∨
    ∃ s eps, s ≠ source ∧ m.(dm_active) !! s = Some eps ∧ s.(ds_cluster_name) = k.1 ∧
             eps !! k.2 = Some e.
Proof.
  unfold advertised. rewrite Hactive. split.
  - intros (s & eps & [[<- <-]|[Hne Hs]]%lookup_insert_Some & Hc & He); [by left|].
    right. by exists s, eps.
  - intros [[Hk He]|(s & eps & Hne & Hs & Hc & He)].
    + exists source, defs. by rewrite lookup_insert_eq.
    + exists s, eps. by rewrite lookup_insert_ne.
Qed.

Lemma other_None_after id : other id = None → defs !! id = None →
  ∀ e, ¬ advertised m' (cluster, id) e.
Proof.
  intros Ho Hd e [[_ He]|(s & eps & Hne & Hs & Hc & He)]%advertised_after; simpl in *; [congruence|].
  pose proof (other_source_definition_spec m source id) as Hspec. fold other in Hspec.
  rewrite Ho in Hspec. by rewrite (Hspec s eps) in He.
Qed.

(** A definition served before and advertised by another source still is. *)
Lemma advertised_kept id e : advertised m (cluster, id) e →
  (previous !! id = Some e → defs !! id = Some e ∨ other id = Some e) →
  advertised m' (cluster, id) e.
Proof.
  intros [Hp|[_ Ho]]%advertised_cases Hk; apply advertised_after; [|by right].
  destruct (Hk Hp) as [Hd|Ho]; [by left|]. right.
  pose proof (other_source_definition_spec m source id) as Hspec. fold other in Hspec.
  rewrite Ho in Hspec. destruct Hspec as (s & eps & ? & ? & ? & ?). by exists s, eps.
Qed.

Lemma status_installed id e : defs !! id = Some e → key_status m' h' (cluster, id).
Proof.
  intros Hd. destruct (Hview (cluster, id)) as (act & dr & Hv & Hl).
  unfold view2 in Hv. cbn [fst snd] in Hv. rewrite decide_True, Hd in Hv by done.
  unfold install_view, view0 in Hv. fold previous in Hv.
  destruct (decide (previous !! id = Some e)) as [Hp|Hp].
  - injection Hv as Hr' Hdl' <- <-. pose proof (previous_advertised _ _ Hp) as Hadv.
    destruct (di_keys _ _ Hinv (cluster, id)) as [e0 Hr He0 Hdl Hlc|u d _ _ Hna _ _|_ Hna _ _];
      [|by destruct (Hna e)..].
    apply (Key_serving _ _ _ e0); [congruence | | congruence | congruence].
    apply advertised_kept; [done|]. intros Hp'. left. congruence.
  - destruct (tracked_only m source id e _) eqn:Ht; injection Hv as Hr' Hdl' <- <-.
    + unfold tracked_only in Ht. fold previous other in Ht.
      apply andb_true_iff in Ht as [[Ho _]%andb_true_iff Hn]. apply bool_decide_eq_true in Ho.
      destruct (previous !! id) eqn:Hp'; [done|].
      pose proof (other_advertised _ _ Ho) as Hadv.
      destruct (di_keys _ _ Hinv (cluster, id)) as [e0 Hr He0 Hdl Hlc|u d _ _ Hna _ _|_ Hna _ _];
        [|by destruct (Hna e)..].
      apply (Key_serving _ _ _ e0); [congruence | | congruence | congruence].
      apply advertised_kept; [done|]. by rewrite Hp'.
    + eapply Key_serving; [by symmetry | | done | done]. apply advertised_after. by left.
Qed.

Lemma status_withdrawn id r :
  defs !! id = None → previous !! id = Some r → key_status m' h' (cluster, id).
Proof.
  intros Hd Hp. destruct (Hview (cluster, id)) as (act & dr & Hv & Hl).
  unfold view2 in Hv. cbn [fst snd] in Hv. rewrite decide_True, Hd, Hp in Hv by done.
  unfold withdraw_view, view0 in Hv. fold other in Hv.
  pose proof (previous_advertised _ _ Hp) as Hadv.
  destruct (di_keys _ _ Hinv (cluster, id)) as [e0 Hr He0 Hdl Hlc|u d _ _ Hna _ _|_ Hna _ _];
    [|by destruct (Hna r)..].
  destruct (other id) as [o|] eqn:Ho.
  - case_decide as Heq; injection Hv as Hr' Hdl' <- <-.
    + apply (Key_serving _ _ _ e0); [congruence | | congruence | congruence].
      apply advertised_kept; [done|]. intros Hp'. right. congruence.
    + eapply Key_serving; [by symmetry | | congruence | done].
      apply advertised_kept; [by apply other_advertised|]. by right.
  - rewrite Hr in Hv. simpl in Hv. injection Hv as Hr' Hdl' _ <-.
    eapply Key_draining; [by symmetry | done | | by symmetry | done].
    by apply other_None_after.
Qed.

Lemma status_untouched k :
  k.1 ≠ cluster ∨ (defs !! k.2 = None ∧ previous !! k.2 = None) → key_status m' h' k.
Proof.
  intros Hk. destruct (Hview k) as (act & dr & Hv & Hl).
  assert (Hv0 : view2 k = view0 k).
  { unfold view2. case_decide as Hc; [|done]. destruct Hk as [Hk|[-> ->]]; done. }
  rewrite Hv0 in Hv. unfold view0 in Hv. injection Hv as Hr Hd <- <-.
  assert (Hadv : ∀ e, advertised m' k e ↔ advertised m k e).
  { intros e. rewrite advertised_after. unfold advertised. split.
    - intros [[Hc He]|(s & eps & ? & ? & ? & ?)]; [|by exists s, eps].
      destruct Hk as [|[Hd' _]]; [done|congruence].
    - intros (s & eps & Hs & Hc & He). right. exists s, eps. split_and!; try done. intros ->.
      destruct Hk as [Hk|[_ Hp]]; [by apply Hk; symmetry|].
      unfold previous in Hp. rewrite Hs in Hp. simpl in Hp. congruence. }
  destruct (di_keys _ _ Hinv k) as [e ? ?%Hadv|u d|? Hna].
  - apply (Key_serving _ _ _ e); [congruence | done | congruence | congruence].
  - apply (Key_draining _ _ _ u d); [congruence | done | naive_solver | congruence | congruence].
  - apply Key_absent; [congruence | naive_solver | congruence | congruence].
Qed.

Lemma status_after k : key_status m' h' k.
Proof.
  destruct k as [n i]. destruct (decide (n = cluster)) as [->|Hn];
    [|apply status_untouched; by left].
  destruct (defs !! i) as [e|] eqn:Hd; [by eapply status_installed|].
  destruct (previous !! i) as [r|] eqn:Hp; [by eapply status_withdrawn|].
  apply status_untouched. by right.
Qed.
End after.

Lemma view2_draining k :
  (view2 k).2 = true → m.(dm_lifecycle) !! k = Some LifecycleStateMachine_new_active.
Proof.
  destruct k as [n id]. unfold view2. cbn [fst snd]. case_decide as Hc; [|done]. subst n.
  destruct (defs !! id) as [e|].
  { unfold install_view, view0. by destruct (decide _); [|destruct (tracked_only _ _ _ _ _)]. }
  destruct (previous !! id) as [r|] eqn:Hp; [|done].
  intros _. pose proof (previous_advertised _ _ Hp) as Hadv.
  destruct (di_keys _ _ Hinv (cluster, id)) as [e0 _ _ _ Hl|u d _ _ Hna _ _|_ Hna _ _];
    [done|by destruct (Hna r)..].
Qed.

Lemma view2_deadline k d :
  (view2 k).1.1.2 = Some d → d ≤ Duration_saturating_add m.(dm_now) m.(dm_drain_grace).
Proof.
  destruct k as [n id]. unfold view2, view0. cbn [fst snd]. pose proof (di_deadlines _ _ Hinv) as Hd.
  case_decide; [|apply Hd]. destruct (defs !! id) as [e|].
  { unfold install_view. destruct (decide _); [apply Hd|]. by destruct (tracked_only _ _ _ _ _). }
  destruct (previous !! id) as [r|]; [|apply Hd]. unfold withdraw_view.
  destruct (other_source_definition m source id) as [o|].
  - destruct (decide _); apply Hd.
  - intros [= <-]. done.
Qed.

Lemma defs_of_upstream : fst <$> with_upstream defs = defs.
Proof. unfold with_upstream. rewrite <- map_fmap_compose. apply map_fmap_id. Qed.

(** The counters of an applied snapshot. *)
Definition outcome_counts (outcome : DiscoveryReconcileOutcome) : Prop :=
  outcome.(oc_inserted) = N.of_nat (size (filter (λ x, previous !! x.1 = None) defs)) ∧
  outcome.(oc_updated) = N.of_nat (size (filter
    (λ x, is_Some (previous !! x.1) ∧ previous !! x.1 ≠ Some x.2) defs)) ∧
  outcome.(oc_marked_draining) = N.of_nat (size (filter
    (λ x, defs !! x.1 = None ∧ other x.1 = None) previous)) ∧
  outcome.(oc_stale_generation_rejected) = false.

Lemma loops_outcome_counts :
  outcome_counts (foldl (withdraw_outcome m source)
    (foldl (install_outcome m source) DiscoveryReconcileOutcome_default
       (btree_iter (with_upstream defs))) withdrawn).
Proof.
  set (o1 := foldl (install_outcome m source) _ _).
  assert (Hw : ∀ (proj : DiscoveryReconcileOutcome → N),
    (∀ o, proj (outcome_add o 0 0 1 0 0 0 0 0 0) = proj o) →
    proj (foldl (withdraw_outcome m source) o1 withdrawn) = proj o1).
  { intros proj Hp. generalize o1. induction withdrawn as [|x l IH]; intros o; simpl; [done|].
    rewrite IH. unfold withdraw_outcome. by case_decide. }
  split_and!.
  - rewrite Hw by (intros o; cbn; lia). unfold o1.
    rewrite (foldl_count _ oc_inserted (λ x, previous !! x.1 = None)).
    + rewrite length_filter_btree. unfold with_upstream. rewrite map_filter_fmap, map_size_fmap.
      cbn. do 2 f_equal.
    + intros o x. apply install_outcome_counts.
  - rewrite Hw by (intros o; cbn; lia). unfold o1.
    rewrite (foldl_count _ oc_updated (λ x, is_Some (previous !! x.1) ∧ previous !! x.1 ≠ Some x.2.1)).
    + rewrite length_filter_btree. unfold with_upstream. rewrite map_filter_fmap, map_size_fmap.
      cbn. do 2 f_equal.
    + intros o x. apply install_outcome_counts.
  - rewrite (foldl_count _ oc_marked_draining (λ x, other x.1 = None)).
    + unfold o1. rewrite (proj1 (install_outcomes_rest m source _)). unfold withdrawn. rewrite list_filter_filter, length_filter_btree.
      rewrite N.add_0_l. do 2 f_equal. apply map_filter_ext. intros i x _. simpl.
      unfold with_upstream. rewrite lookup_fmap, fmap_None. tauto.
    + intros o x. unfold withdraw_outcome. fold other. case_decide; cbn; lia.
  - generalize withdrawn. intros l. induction l as [|x l IH] using rev_ind.
    + apply install_outcomes_rest.
    + rewrite foldl_app. simpl. unfold withdraw_outcome at 1. by case_decide.
Qed.

(** The ids that are installed again: new and changed definitions, except those that another
    source already serves, and the definitions adopted from another source on withdrawal. *)
Definition activated_count : nat :=
  size (filter (λ x, previous !! x.1 ≠ Some x.2 ∧ ¬ (previous !! x.1 = None ∧ other x.1 = Some x.2)) defs) +
  size (filter (λ x, defs !! x.1 = None ∧ other x.1 ≠ None ∧ other x.1 ≠ Some x.2) previous).

Definition lifecycle_counts (outcome : DiscoveryReconcileOutcome) : Prop :=
  outcome.(oc_lifecycle_warming) = N.of_nat activated_count ∧
  outcome.(oc_lifecycle_active) = N.of_nat activated_count ∧
  outcome.(oc_lifecycle_draining) = N.of_nat (size (filter
    (λ x, defs !! x.1 = None ∧ other x.1 = None) previous)) ∧
  outcome.(oc_lifecycle_drained) = 0 ∧ outcome.(oc_lifecycle_removed) = 0 ∧
  outcome.(oc_removed_after_drain) = 0.

(** What another source advertises has no drain deadline. *)
Lemma other_no_deadline id e : other id = Some e → m.(dm_deadlines) !! (cluster, id) = None.
Proof.
  intros Hadv%other_advertised.
  by destruct (di_keys _ _ Hinv (cluster, id)) as [? _ _ ? _|? ? _ _ Hna _ _|_ Hna _ _]; [|destruct (Hna e)..].
Qed.

Lemma tracked_only_iff id e :
  tracked_only m source id e (m.(dm_deadlines) !! (cluster, id)) = true ↔
  previous !! id = None ∧ other id = Some e.
Proof.
  unfold tracked_only. fold previous other. rewrite !andb_true_iff, !negb_true_iff, bool_decide_eq_true.
  rewrite !bool_decide_eq_false, !eq_None_not_Some. split; [tauto|]. intros [Hp Ho].
  split_and!; [done| |done]. rewrite (other_no_deadline _ _ Ho). by intros [].
Qed.

(** What happens to an advertised id. *)
Lemma applied_installed id e v :
  defs !! id = Some e → v = (view2 (cluster, id)).1.1 →
  v = if decide (previous !! id = Some e ∨ (previous !! id = None ∧ other id = Some e))
      then (registered h.(uh_registry) (cluster, id), m.(dm_deadlines) !! (cluster, id))
      else (Some (upstream_of e), None).
Proof.
  intros Hd ->. unfold view2, view0. cbn [fst snd]. rewrite decide_True, Hd by done.
  unfold install_view. fold previous. pose proof (tracked_only_iff id e) as Ht.
  destruct (decide (previous !! id = Some e)) as [Hp|Hp]; [by rewrite decide_True by auto|].
  destruct (tracked_only _ _ _ _ _); cbn [fst].
  - destruct Ht as [Ht _]. specialize (Ht eq_refl). rewrite decide_True by auto. f_equal.
    symmetry. apply (other_no_deadline id e), Ht.
  - rewrite decide_False; [done|]. intros [?|H]; [done|]. by apply Ht in H.
Qed.

(** Which ids the loops record. *)
Lemma view2_recorded id :
  ((view2 (cluster, id)).1.2 = true ↔
     (∃ e, defs !! id = Some e ∧ previous !! id ≠ Some e ∧ ¬ (previous !! id = None ∧ other id = Some e)) ∨
     (∃ r, previous !! id = Some r ∧ defs !! id = None ∧ other id ≠ None ∧ other id ≠ Some r)) ∧
  ((view2 (cluster, id)).2 = true ↔ ∃ r, previous !! id = Some r ∧ defs !! id = None ∧ other id = None).
Proof.
  unfold view2, view0. cbn [fst snd]. rewrite decide_True by done.
  destruct (defs !! id) as [e|] eqn:Hd.
  - unfold install_view. fold previous. pose proof (tracked_only_iff id e) as Ht.
    destruct (decide (previous !! id = Some e)); [naive_solver|].
    destruct (tracked_only _ _ _ _ _); cbn [fst snd]; naive_solver.
  - destruct (previous !! id) as [r|] eqn:Hp; [|naive_solver].
    unfold withdraw_view. fold other. destruct (other id) as [o|]; [|naive_solver].
    case_decide; cbn [fst snd]; naive_solver.
Qed.

Lemma loops_recorded st :
  loop_inv m h st → (∀ k, loop_view source st k = view2 k) →
  length st.(rs_activated) = activated_count ∧
  length st.(rs_draining) = size (filter (λ x, defs !! x.1 = None ∧ other x.1 = None) previous).
Proof.
  intros (_ & _ & _ & Hna & Hnd) Hv.
  assert (Hact : ∀ id, id ∈ st.(rs_activated) ↔ (view2 (cluster, id)).1.2 = true).
  { intros id. rewrite <- Hv. unfold loop_view. cbn [fst snd]. rewrite bool_decide_eq_true. by unfold cluster; tauto. }
  assert (Hdr : ∀ id, id ∈ st.(rs_draining) ↔ (view2 (cluster, id)).2 = true).
  { intros id. rewrite <- Hv. unfold loop_view. cbn [fst snd]. rewrite bool_decide_eq_true. by unfold cluster; tauto. }
  rewrite <- (size_list_to_set (C := gset string) _ Hna), <- (size_list_to_set (C := gset string) _ Hnd).
  unfold activated_count. rewrite <- !(size_dom (D := gset string)). rewrite <- size_union.
  - split; f_equal; apply set_eq; intros id; rewrite elem_of_list_to_set.
    + rewrite Hact, (proj1 (view2_recorded id)), elem_of_union, !elem_of_dom. unfold is_Some.
      setoid_rewrite map_lookup_filter_Some. naive_solver.
    + rewrite Hdr, (proj2 (view2_recorded id)), !elem_of_dom. unfold is_Some.
      setoid_rewrite map_lookup_filter_Some. naive_solver.
  - intros id. rewrite !elem_of_dom. intros [e [He _]%map_lookup_filter_Some] [r [_ [Hr _]]%map_lookup_filter_Some].
    simpl in Hr. congruence.
Qed.

(** The loops leave the counters of the lifecycle at zero. *)
Lemma loops_lifecycle_zero (proj : DiscoveryReconcileOutcome → N) l1 l2 :
  (∀ o a b c, proj (outcome_add o a b c 0 0 0 0 0 0) = proj o) →
  proj (foldl (withdraw_outcome m source)
         (foldl (install_outcome m source) DiscoveryReconcileOutcome_default l1) l2) =
  proj DiscoveryReconcileOutcome_default.
Proof.
  intros Hp. assert (Hw : ∀ o, proj (foldl (withdraw_outcome m source) o l2) = proj o).
  { induction l2 as [|x l IH]; intros o; [done|]. simpl. rewrite IH. unfold withdraw_outcome. by case_decide. }
  rewrite Hw. generalize DiscoveryReconcileOutcome_default.
  induction l1 as [|x l IH]; intros o; [done|]. simpl. rewrite IH. unfold install_outcome. by repeat case_decide.
Qed.

Lemma finish_reconcile_spec st :
  loop_inv m h st → (∀ k, loop_view source st k = view2 k) →
  ∃ m' outcome,
    finish_reconcile snapshot (with_upstream defs) st = (m', outcome) ∧
    m'.(dm_drain_grace) = m.(dm_drain_grace) ∧ m'.(dm_now) = m.(dm_now) ∧
    m'.(dm_active) = <[source := defs]> m.(dm_active) ∧
    m'.(dm_generations) = <[source := snapshot.(sn_generation)]> m.(dm_generations) ∧
    m'.(dm_deadlines) = st.(rs_reconciler).(dm_deadlines) ∧
    (∀ k, m'.(dm_lifecycle) !! k =
      if bool_decide (k.1 = cluster ∧ k.2 ∈ st.(rs_draining)) then Some {| lm_state := Draining |}
      else if bool_decide (k.1 = cluster ∧ k.2 ∈ st.(rs_activated))
      then Some LifecycleStateMachine_new_active else m.(dm_lifecycle) !! k) ∧
    (outcome_counts st.(rs_outcome) → outcome_counts outcome) ∧
    ((∀ proj : DiscoveryReconcileOutcome → N, (∀ o a b c, proj (outcome_add o a b c 0 0 0 0 0 0) = proj o) →
        proj st.(rs_outcome) = proj DiscoveryReconcileOutcome_default) → lifecycle_counts outcome).
Proof.
  intros Hli Hv. pose proof (loops_recorded st Hli Hv) as [Hlen1 Hlen2]. destruct Hli as (_ & _ & Hm & _). unfold finish_reconcile. fold source cluster.
  rewrite defs_of_upstream. set (m1 := dm_apply _ _ _ _).
  destruct (record_all_lifecycle record_endpoint_activated (λ _, True)
    LifecycleStateMachine_new_active cluster st.(rs_activated)) with (m := m1) (o := st.(rs_outcome))
    as (l1 & Hm2 & Hl1); [by intros; apply record_activated | done | done |].
  pose proof (λ T proj H, record_all_outcome (T := T) record_endpoint_activated cluster
    st.(rs_activated) proj H    (m1, st.(rs_outcome))) as Ho1.
  pose proof (λ proj n H, record_all_count record_endpoint_activated cluster
    st.(rs_activated) proj n H (m1, st.(rs_outcome))) as Hc1.
  destruct (record_all record_endpoint_activated _ _ _) as [m2 o2]. cbn [fst snd] in Hm2, Ho1, Hc1.
  assert (Hm1l : m1.(dm_lifecycle) = m.(dm_lifecycle)) by (unfold m1; by rewrite Hm).
  destruct (record_all_lifecycle record_endpoint_draining may_drain {| lm_state := Draining |}
    cluster st.(rs_draining) record_draining) with (m := m2) (o := o2)
    as (l2 & Hm3 & Hl2); [by right | |].
  { intros id Hid. left. rewrite Hm2. cbn. rewrite Hl1, Hm1l. case_decide; [done|].
    apply view2_draining. rewrite <- Hv. unfold loop_view. cbn [snd fst].
    by apply bool_decide_eq_true_2. }
  pose proof (λ T proj H, record_all_outcome (T := T) record_endpoint_draining cluster
    st.(rs_draining) proj H    (m2, o2)) as Ho2.
  pose proof (λ proj n H, record_all_count record_endpoint_draining cluster
    st.(rs_draining) proj n H (m2, o2)) as Hc2.
  destruct (record_all record_endpoint_draining _ _ _) as [m3 o3]. cbn [fst snd] in Hm3, Ho2, Hc2.
  destruct (emit_same_core m3 "accepted" cluster (accepted_detail snapshot (size (with_upstream defs)) o3))
    as [Hg Hn Ha Hd Hl Hgen].
  eexists _, o3. split; [reflexivity|].
  rewrite Hg, Hn, Ha, Hd, Hl, Hgen, Hm3, Hm2. unfold m1. cbn. rewrite Hm. split_and!; try done.
  - intros k. rewrite Hl2, Hm2. cbn. rewrite Hl1, Hm1l.
    repeat case_decide; repeat case_bool_decide; done.
  - unfold outcome_counts. rewrite !Ho2, !Ho1 by (intros; cbn; lia || done). done.
  - intros Hz. unfold lifecycle_counts. rewrite <- Hlen1, <- Hlen2.
    rewrite (Hc2 oc_lifecycle_warming 0), (Hc1 oc_lifecycle_warming 1), (Hz oc_lifecycle_warming),
      (Hc2 oc_lifecycle_active 0), (Hc1 oc_lifecycle_active 1), (Hz oc_lifecycle_active),
      (Hc2 oc_lifecycle_draining 1), (Hc1 oc_lifecycle_draining 0), (Hz oc_lifecycle_draining),
      (Hc2 oc_lifecycle_drained 0), (Hc1 oc_lifecycle_drained 0), (Hz oc_lifecycle_drained),
      (Hc2 oc_lifecycle_removed 0), (Hc1 oc_lifecycle_removed 0), (Hz oc_lifecycle_removed),
      (Hc2 oc_removed_after_drain 0), (Hc1 oc_removed_after_drain 0), (Hz oc_removed_after_drain)
      by (intros; cbn; lia).
    split_and!; cbn; lia.
Qed.

Hypothesis Hfresh : stale_against m snapshot = None.

(** A snapshot that is not stale, of deliverable endpoints for a known cluster, is
    always applied. *)
Lemma reconcile_applied :
  ∃ m' h' outcome,
    reconcile_snapshot m h snapshot = (m', h', Ok outcome) ∧ discovery_inv m' h' ∧
    dom (directory h'.(uh_registry)) = dom (directory h.(uh_registry)) ∧
    m'.(dm_drain_grace) = m.(dm_drain_grace) ∧ m'.(dm_now) = m.(dm_now) ∧
    m'.(dm_active) = <[source := defs]> m.(dm_active) ∧
    m'.(dm_generations) = <[source := snapshot.(sn_generation)]> m.(dm_generations) ∧
    (∀ k, (registered h'.(uh_registry) k, m'.(dm_deadlines) !! k) = (view2 k).1.1) ∧
    outcome_counts outcome ∧ lifecycle_counts outcome.
Proof.
  destruct reconcile_loops as (st1 & st2 & H1 & H2 & Hi & Hv & Ho).
  destruct (finish_reconcile_spec st2 Hi Hv)
    as (m' & outcome & Hf & Hg & Hn & Ha & Hgen & Hd & Hl & Hc & Hlc).
  exists m', st2.(rs_registry), outcome. split.
  { unfold reconcile_snapshot. rewrite Hfresh.
    pose proof (next_endpoints_of_spec snapshot.(sn_endpoints)) as Hnext.
    destruct (next_endpoints_of _) as [next|err].
    - destruct Hnext as [_ ->]. fold source previous defs. fold start. rewrite H1.
      fold withdrawn. by rewrite H2, Hf.
    - destruct Hnext as [Hbad _]. destruct Hbad. eapply Forall_impl; [exact Hdel|]. by intros e []. }
  assert (Hv2 : ∀ k, (registered st2.(rs_registry).(uh_registry) k, m'.(dm_deadlines) !! k) =
                     (view2 k).1.1) by (intros k; by rewrite <- Hv, Hd).
  split; [|split_and!; [apply Hi | done..| apply Hc; rewrite Ho; apply loops_outcome_counts|]].
  2: { apply Hlc. intros proj Hp. rewrite Ho. by apply loops_lifecycle_zero. }
  split.
  - apply Hi.
  - apply status_after; [done|]. intros k. rewrite <- Hv, Hd, Hl. unfold loop_view. eauto.
  - rewrite Ha. intros s eps id e [[<- <-]|[_ Hs]]%lookup_insert_Some He.
    + by apply defs_deliverable.
    + by eapply (di_defs _ _ Hinv).
  - intros k d Hk. rewrite Hn, Hg. apply (view2_deadline k). rewrite <- Hv2. done.
  - rewrite Hn. apply Hinv.
Qed.
End reconcile.

(** ** Refused snapshots *)

Section refused.
Context (m : DiscoveryMembershipReconciler) (h : UpstreamHealthRegistry) (snapshot : DiscoverySnapshot).

Lemma stale_snapshot_ignored applied :
  stale_against m snapshot = Some applied →
  ∃ m', reconcile_snapshot m h snapshot =
          (m', h, Ok (outcome_stale DiscoveryReconcileOutcome_default)) ∧ same_core m m'.
Proof.
  intros Hs. unfold reconcile_snapshot. rewrite Hs. eexists. split; [reflexivity|].
  apply emit_same_core.
Qed.

Lemma invalid_snapshot_ignored :
  stale_against m snapshot = None → ¬ Forall valid_definition snapshot.(sn_endpoints) →
  ∃ e, reconcile_snapshot m h snapshot = (m, h, Err (InvalidEndpoint e)).
Proof.
  intros Hs Hv. unfold reconcile_snapshot. rewrite Hs.
  pose proof (next_endpoints_of_spec snapshot.(sn_endpoints)) as Hn.
  destruct (next_endpoints_of _) as [next|err]; [by destruct Hn|].
  destruct Hn as [_ [e ->]]. by exists e.
Qed.

Hypothesis Hinv : discovery_inv m h.
Let cluster := snapshot.(sn_source).(ds_cluster_name).
Hypothesis Hunknown : ¬ known_cluster h cluster.

Lemma unknown_not_registered id : registered h.(uh_registry) (cluster, id) = None.
Proof.
  apply registered_None_cluster. by apply not_elem_of_dom.
Qed.

Lemma unknown_not_advertised id e : ¬ advertised m (cluster, id) e.
Proof.
  pose proof (unknown_not_registered id) as Hr.
  destruct (di_keys _ _ Hinv (cluster, id)); [congruence | congruence | done].
Qed.

Lemma unknown_previous : default ∅ (m.(dm_active) !! snapshot.(sn_source)) = ∅.
Proof.
  apply map_eq. intros id. rewrite lookup_empty.
  destruct (_ !! id) as [e|] eqn:He; [|done]. destruct (unknown_not_advertised id e).
  destruct (m.(dm_active) !! snapshot.(sn_source)) as [eps|] eqn:Hs; [|done].
  by exists snapshot.(sn_source), eps.
Qed.

Lemma unknown_other id : other_source_definition m snapshot.(sn_source) id = None.
Proof.
  pose proof (other_source_definition_spec m snapshot.(sn_source) id) as Hs.
  destruct (other_source_definition _ _ _) as [e|]; [|done].
  destruct Hs as (s & eps & _ & ? & ? & ?). destruct (unknown_not_advertised id e).
  by exists s, eps.
Qed.

(** A snapshot with endpoints for a cluster the registry does not have fails at the
    first of them and changes nothing. *)
Lemma unknown_cluster_refused :
  stale_against m snapshot = None → Forall valid_definition snapshot.(sn_endpoints) →
  snapshot.(sn_endpoints) ≠ [] →
  reconcile_snapshot m h snapshot = (m, h, Err (HealthRegistry (Registry (ClusterNotFound cluster)))).
Proof.
  intros Hs Hv Hne. unfold reconcile_snapshot. rewrite Hs.
  pose proof (next_endpoints_of_spec snapshot.(sn_endpoints)) as Hn.
  destruct (next_endpoints_of _) as [next|err]; [|by destruct Hn].
  destruct Hn as [_ ->]. rewrite unknown_previous.
  destruct (btree_iter (with_upstream (defs_of snapshot.(sn_endpoints)))) as [|[id [e u]] l] eqn:Hl.
  { apply btree_iter_nil, fmap_empty_inv in Hl. destruct snapshot.(sn_endpoints) as [|x eps] eqn:He; [done|].
    destruct (proj2 (defs_of_dom (x :: eps) x.(de_endpoint_id))) as [y Hy]; [left|].
    by rewrite Hl in Hy. }
  cbn [for_each]. unfold install_endpoint. rewrite decide_False by done.
  fold cluster. destruct (di_keys _ _ Hinv (cluster, id)) as [? Hr|? ? Hr|_ _ Hd _];
    [by rewrite unknown_not_registered in Hr..|].
  assert (Hm : dm_set_deadlines m (delete (cluster, id) m.(dm_deadlines)) = m)
    by (rewrite delete_id by done; by destruct m).
  cbn [rs_reconciler rs_registry rs_activated rs_draining rs_outcome].
  rewrite Hm, Hd, unknown_other, lookup_empty. cbn.
  unfold reinstall, insert_or_fail, UpstreamHealthRegistry_insert_endpoint, EndpointRegistry_insert_endpoint.
  assert (Hc : h.(uh_registry).(clusters) !! cluster = None).
  { apply not_elem_of_dom in Hunknown. rewrite directory_lookup, fmap_None in Hunknown. done. }
  rewrite Hc. by destruct h.
Qed.

(** An empty snapshot for such a cluster is applied. *)
Lemma unknown_cluster_empty :
  stale_against m snapshot = None → snapshot.(sn_endpoints) = [] →
  ∃ m', reconcile_snapshot m h snapshot = (m', h, Ok DiscoveryReconcileOutcome_default) ∧
        discovery_inv m' h ∧ m'.(dm_drain_grace) = m.(dm_drain_grace) ∧
        m'.(dm_generations) = <[snapshot.(sn_source) := snapshot.(sn_generation)]> m.(dm_generations).
Proof.
  intros Hs He. unfold reconcile_snapshot. rewrite Hs, He, unknown_previous. cbn.
  eexists. split; [reflexivity|].
  rewrite fmap_empty. match goal with |- context [emit_discovery_event ?m ?r ?c ?d] =>
    pose proof (emit_same_core m r c d) as Hcore end.
  split; [|by rewrite (core_grace _ _ Hcore), (core_generations _ _ Hcore)].
  eapply discovery_inv_ext; [exact Hcore | apply Hinv | done|].
  assert (Hadv : ∀ k e, advertised (dm_apply m snapshot.(sn_source) ∅ snapshot.(sn_generation)) k e ↔
                        advertised m k e).
  { intros [n id] e. unfold advertised. cbn. split.
    - intros (s & eps & [[<- <-]|[_ ?]]%lookup_insert_Some & ? & ?); [done|]. by exists s, eps.
    - intros (s & eps & Hs' & Hc & He'). exists s, eps. rewrite lookup_insert_ne; [done|].
      intros <-. simpl in Hc. subst n. destruct (unknown_not_advertised id e).
      by exists snapshot.(sn_source), eps. }
  destruct Hinv as [Hh Hk Hdefs Hdl Hmax]. split; [done | | | done | done].
  - intros k. destruct (Hk k) as [e ? ?%Hadv|u d|? Hna].
    + by apply (Key_serving _ _ _ e).
    + apply (Key_draining _ _ _ u d); try done. by setoid_rewrite Hadv.
    + apply Key_absent; try done. by setoid_rewrite Hadv.
  - cbn. intros s eps id e [[<- <-]|[_ ?]]%lookup_insert_Some; [done|]. by apply (Hdefs s).
Qed.
End refused.

(** ** Passing time *)

Section advance.
Context (m0 : DiscoveryMembershipReconciler) (h0 : UpstreamHealthRegistry).

Definition drain_view
    (acc : DiscoveryMembershipReconciler * UpstreamHealthRegistry * DiscoveryReconcileOutcome)
    (k : EndpointKey) : option UpstreamEndpoint * option Duration * option LifecycleStateMachine :=
  (registered acc.1.2.(uh_registry) k, acc.1.1.(dm_deadlines) !! k, acc.1.1.(dm_lifecycle) !! k).

Definition drain_inv
    (acc : DiscoveryMembershipReconciler * UpstreamHealthRegistry * DiscoveryReconcileOutcome) :
    Prop :=
  health_inv acc.1.2 ∧
  dom (directory acc.1.2.(uh_registry)) = dom (directory h0.(uh_registry)) ∧
  acc.1.1.(dm_drain_grace) = m0.(dm_drain_grace) ∧ acc.1.1.(dm_now) = m0.(dm_now) ∧
  acc.1.1.(dm_active) = m0.(dm_active) ∧ acc.1.1.(dm_generations) = m0.(dm_generations).

Definition drain_pre (k : EndpointKey)
    (v : option UpstreamEndpoint * option Duration * option LifecycleStateMachine) : Prop :=
  ∃ u d, v = (Some u, Some d, Some {| lm_state := Draining |}).

(** Drained, removed, and removed after its drain window. *)
Definition drain_outcome (o : DiscoveryReconcileOutcome) (k : EndpointKey) :
    DiscoveryReconcileOutcome :=
  outcome_add (outcome_add (outcome_add o 0 0 0 0 0 0 0 1 0) 0 0 0 0 0 0 0 0 1) 0 0 0 1 0 0 0 0 0.

Lemma remove_drained_independent :
  independent_body remove_drained id drain_view snd drain_inv drain_pre
    (λ _ _, (None, None, None)) drain_outcome.
Proof.
  intros [[m h] o] k (Hh & Hdom & Hg & Hn & Ha & Hgen) (u & d & Hpre). cbn in *.
  injection Hpre as Hr Hd Hl. unfold remove_drained, record_endpoint_drained.
  cbn [dm_set_deadlines dm_lifecycle]. rewrite Hl. cbn [LifecycleStateMachine_mark_drained lm_state].
  unfold remove_if_present. destruct k as [n i].
  destruct (health_remove_ok h n i u Hh Hr) as (h' & Hrm & Hu). cbn [fst snd].
  rewrite Hrm. cbn [ignore_missing_endpoint].
  unfold record_endpoint_removed. cbn [dm_set_lifecycle dm_lifecycle]. rewrite lookup_insert_eq.
  match goal with |- context [emit_discovery_event ?x ?r ?c ?e] =>
    destruct (emit_same_core x r c e) as [Eg En Ea Ed El Egen] end.
  eexists. split; [reflexivity|]. split_and!.
  - unfold drain_inv. cbn [fst snd]. rewrite Eg, En, Ea, Egen.
    split_and!; [apply Hu | by rewrite <- Hdom; apply Hu | done..].
  - done.
  - unfold drain_view. cbn [fst snd]. rewrite Ed, El, (ru_registered _ _ _ _ Hu), decide_True by done.
    cbn. by rewrite !lookup_delete_eq.
  - intros k Hk. unfold drain_view. cbn [fst snd].
    rewrite Ed, El, (ru_registered _ _ _ _ Hu), decide_False by done. cbn.
    by rewrite !lookup_delete_ne, lookup_insert_ne by done.
Qed.
End advance.

Lemma elem_of_expired m k :
  k ∈ expired_keys m ↔ ∃ d, m.(dm_deadlines) !! k = Some d ∧ d ≤ m.(dm_now).
Proof.
  unfold expired_keys. rewrite list_elem_of_fmap. split.
  - intros ([k' d] & -> & [Hd Hin]%list_elem_of_filter). apply elem_of_sort_by, elem_of_map_to_list in Hin.
    by exists d.
  - intros (d & Hk & Hd). exists (k, d). split; [done|]. apply list_elem_of_filter. split; [done|].
    by apply elem_of_sort_by, elem_of_map_to_list.
Qed.

Lemma NoDup_expired m : NoDup (expired_keys m).
Proof.
  unfold expired_keys. eapply sublist_NoDup; [|apply fmap_sublist, sublist_filter].
  rewrite (sort_by_perm fst EndpointKey_cmp). apply NoDup_fst_map_to_list.
Qed.

Lemma drain_outcomes l :
  let o := foldl drain_outcome DiscoveryReconcileOutcome_default l in
  o.(oc_removed_after_drain) = N.of_nat (length l) ∧ o.(oc_lifecycle_drained) = N.of_nat (length l) ∧
  o.(oc_lifecycle_removed) = N.of_nat (length l).
Proof.
  cbv zeta. induction l as [|k l IH] using rev_ind; [done|].
  rewrite foldl_app, length_app. cbn [foldl drain_outcome outcome_add length
    oc_removed_after_drain oc_lifecycle_drained oc_lifecycle_removed]. lia.
Qed.

(** Removing the expired keys keeps the invariant. *)
Lemma drained_inv m h m' h' now (expired : EndpointKey → Prop) :
  discovery_inv m h → health_inv h' → m.(dm_now) ≤ now ≤ Duration_MAX →
  (∀ k, expired k ∨ ¬ expired k) → (∀ k, expired k → is_Some (m.(dm_deadlines) !! k)) →
  m'.(dm_now) = now → m'.(dm_drain_grace) = m.(dm_drain_grace) → m'.(dm_active) = m.(dm_active) →
  (∀ k, expired k → registered h'.(uh_registry) k = None ∧ m'.(dm_deadlines) !! k = None ∧
                    m'.(dm_lifecycle) !! k = None) →
  (∀ k, ¬ expired k → registered h'.(uh_registry) k = registered h.(uh_registry) k ∧
    m'.(dm_deadlines) !! k = m.(dm_deadlines) !! k ∧ m'.(dm_lifecycle) !! k = m.(dm_lifecycle) !! k) →
  discovery_inv m' h'.
Proof.
  intros [_ Hkeys Hdefs Hdl _] Hh Hnow Hdec Hexp Hn Hg Ha H1 H2.
  assert (Hadv : ∀ k e, advertised m' k e ↔ advertised m k e) by eauto using advertised_ext.
  split; [done| | by rewrite Ha | | rewrite Hn; apply Hnow].
  - intros k. destruct (Hdec k) as [Hk|Hk].
    + destruct (H1 k Hk) as (Hr & Hd & Hl). apply Key_absent; try done. intros e. rewrite Hadv.
      destruct (Hexp k Hk) as [d Hd']. destruct (Hkeys k) as [? _ _ Hd0|u d0 _ _ Hna|_ _ Hd0];
        [congruence | apply Hna | congruence].
    + destruct (H2 k Hk) as (Hr & Hd & Hl). destruct (Hkeys k) as [e ? ?%Hadv|u d|? Hna].
      * apply (Key_serving _ _ _ e); [congruence | done | congruence | congruence].
      * apply (Key_draining _ _ _ u d); [congruence | done | | congruence | congruence].
        by setoid_rewrite Hadv.
      * apply Key_absent; [congruence | | congruence | congruence]. by setoid_rewrite Hadv.
  - intros k d Hd. rewrite Hn, Hg. destruct (Hdec k) as [Hk|Hk].
    + destruct (H1 k Hk) as (_ & Hd' & _). congruence.
    + destruct (H2 k Hk) as (_ & Hd' & _). rewrite Hd' in Hd. apply Hdl in Hd.
      unfold Duration_saturating_add, saturating_add in *. lia.
Qed.

(** The endpoints whose drain window has ended are removed; nothing else changes. *)
Lemma advance_time_ok m h elapsed :
  discovery_inv m h →
  let now := Duration_saturating_add m.(dm_now) elapsed in
  let expired k := ∃ d, m.(dm_deadlines) !! k = Some d ∧ d ≤ now in
  ∃ m' h' outcome,
    DiscoveryMembershipReconciler_advance_time m h elapsed = (m', h', Ok outcome) ∧
    discovery_inv m' h' ∧ m'.(dm_now) = now ∧ m'.(dm_drain_grace) = m.(dm_drain_grace) ∧
    m'.(dm_active) = m.(dm_active) ∧ m'.(dm_generations) = m.(dm_generations) ∧
    dom (directory h'.(uh_registry)) = dom (directory h.(uh_registry)) ∧
    (∀ k, expired k → registered h'.(uh_registry) k = None ∧ m'.(dm_deadlines) !! k = None) ∧
    (∀ k, ¬ expired k → registered h'.(uh_registry) k = registered h.(uh_registry) k ∧
                        m'.(dm_deadlines) !! k = m.(dm_deadlines) !! k) ∧
    let n := N.of_nat (length (expired_keys (dm_set_now m now))) in
    outcome.(oc_removed_after_drain) = n ∧ outcome.(oc_lifecycle_drained) = n ∧
    outcome.(oc_lifecycle_removed) = n.
Proof.
  intros Hinv now expired. unfold DiscoveryMembershipReconciler_advance_time. fold now.
  set (m0 := dm_set_now m now). cbv zeta.
  assert (Hexp : ∀ k, k ∈ expired_keys m0 ↔ expired k) by (intros k; apply elem_of_expired).
  destruct (for_each_independent _ _ _ _ _ _ _ _ (expired_keys m0)
    (remove_drained_independent m0 h) (m0, h, DiscoveryReconcileOutcome_default))
    as ([[m' h'] o] & -> & (Hh & Hdom & Hg & Hn & Ha & Hgen) & Ho & Hin & Hout); cbn [fst snd] in *.
  { rewrite list_fmap_id. apply NoDup_expired. }
  { split_and!; try done. apply Hinv. }
  { intros k (d & Hd & _)%Hexp. unfold drain_view, id. cbn [fst snd]. unfold m0. cbn.
    destruct (di_keys _ _ Hinv k) as [? _ _ Hd'|u d' Hr _ _ Hd' Hl|_ _ Hd']; [congruence| |congruence].
    exists u, d'. by rewrite Hr, Hd', Hl. }
  rewrite list_fmap_id in Hout. unfold drain_view, id in Hin, Hout. cbn [fst snd] in Hin, Hout.
  assert (H1 : ∀ k, expired k → registered h'.(uh_registry) k = None ∧ m'.(dm_deadlines) !! k = None ∧
                                m'.(dm_lifecycle) !! k = None).
  { intros k Hk%Hexp%Hin. by simplify_eq. }
  assert (H2 : ∀ k, ¬ expired k → registered h'.(uh_registry) k = registered h.(uh_registry) k ∧
    m'.(dm_deadlines) !! k = m.(dm_deadlines) !! k ∧ m'.(dm_lifecycle) !! k = m.(dm_lifecycle) !! k).
  { intros k Hk. rewrite <- Hexp in Hk. apply Hout in Hk. unfold m0 in Hk. cbn in Hk. by simplify_eq. }
  exists m', h', o. split; [done|].
  split; [|split; [done|]; split; [done|]; split; [done|]; split; [done|]; split; [done|]].
  - apply (drained_inv m h m' h' now expired); try done.
    + pose proof (di_now _ _ Hinv). unfold now, Duration_saturating_add, saturating_add. lia.
    + intros k. rewrite <- Hexp. by destruct (decide (k ∈ expired_keys m0)); [left|right].
    + intros k (d & -> & _). done.
  - split; [by intros k (? & ? & _)%H1|]. split; [by intros k (? & ? & _)%H2|].
    rewrite Ho. apply drain_outcomes.
Qed.

(** ** Runs *)

(** What happens to a reconciler and its registry: a snapshot arrives, time passes
    for the reconciler, and the registry hears of health signals and time. *)
Inductive DiscoveryEvent :=
| Advertise (snapshot : DiscoverySnapshot)
| Elapse (elapsed : Duration)
| Report (name id : string) (signal : HealthSignal)
| HealthElapse (elapsed : Duration).

Abbreviation DiscoveryWorld := (DiscoveryMembershipReconciler * UpstreamHealthRegistry)%type
  (only parsing).

Definition discovery_step (w : DiscoveryWorld) (event : DiscoveryEvent) : DiscoveryWorld :=
  let '(m, h) := w in
  match event with
  | Advertise snapshot => (reconcile_snapshot m h snapshot).1
  | Elapse elapsed => (DiscoveryMembershipReconciler_advance_time m h elapsed).1
  | Report name id signal => (m, health_op h (HSignal name id signal))
  | HealthElapse elapsed => (m, health_op h (HAdvance elapsed))
  end.

Definition discovery_run : DiscoveryWorld → list DiscoveryEvent → DiscoveryWorld :=
  foldl discovery_step.

(** Weights are [u16]. *)
Definition snapshot_typed (s : DiscoverySnapshot) : Prop :=
  Forall (λ e, e.(de_weight) ≤ u16_max) s.(sn_endpoints).

Definition event_typed (event : DiscoveryEvent) : Prop :=
  match event with Advertise s => snapshot_typed s | _ => True end.

(** A registry of empty clusters, whose endpoints are left to discovery. *)
Definition discovery_registry (policy : EndpointHealthPolicy) (names : list string) :
    UpstreamHealthRegistry :=
  health_run (UpstreamHealthRegistry_new policy)
    ((λ name, HInsertCluster {| cluster_name := name; endpoints := [] |}) <$> names).

Definition discovery_start (policy : EndpointHealthPolicy) (names : list string)
    (drain_grace : Duration) : DiscoveryWorld :=
  (DiscoveryMembershipReconciler_new drain_grace, discovery_registry policy names).

Lemma empty_clusters_wf names :
  Forall health_op_wf
    ((λ name, HInsertCluster {| cluster_name := name; endpoints := [] |}) <$> names).
Proof. apply Forall_fmap, Forall_true. intros name. split; [|done]. by split; [constructor|]. Qed.

Lemma discovery_registry_empty policy names k :
  registered (discovery_registry policy names).(uh_registry) k = None.
Proof.
  unfold discovery_registry. induction names as [|name names IH] using rev_ind.
  { by destruct k. }
  rewrite fmap_app. unfold health_run in *. rewrite foldl_app. cbn [fmap list_fmap foldl].
  set (h := foldl _ _ _) in *. cbn [health_op]. unfold UpstreamHealthRegistry_insert_cluster.
  unfold EndpointRegistry_insert_cluster. cbn [cluster_name].
  destruct (h.(uh_registry).(clusters) !! name) eqn:Hc; cbn; [done|].
  destruct k as [n i]. unfold registered in *. cbn [fst snd] in *. rewrite directory_insert.
  destruct (decide (n = name)) as [->|Hn]; [by rewrite lookup_insert_eq|].
  by rewrite lookup_insert_ne.
Qed.

Lemma discovery_start_inv policy names drain_grace :
  discovery_inv (discovery_start policy names drain_grace).1
                (discovery_start policy names drain_grace).2.
Proof.
  split.
  - apply health_run_inv; [apply health_new_inv | apply empty_clusters_wf].
  - intros k. apply Key_absent; [apply discovery_registry_empty | | done..].
    intros e (s & eps & Hs & _). done.
  - done.
  - done.
  - cbn. unfold Duration_MAX. lia.
Qed.

Lemma deliverable_snapshot s :
  snapshot_typed s → Forall valid_definition s.(sn_endpoints) → Forall deliverable s.(sn_endpoints).
Proof. unfold snapshot_typed, deliverable. rewrite !Forall_forall. naive_solver. Qed.

Lemma health_signal_registry h name id signal :
  (health_op h (HSignal name id signal)).(uh_registry) = h.(uh_registry).
Proof.
  cbn [health_op]. unfold note_signal, apply_signal. simpl. case_match; [|done].
  cbv zeta. case_decide; [done|]. by destruct (event_for_transition _ _).
Qed.

(** What a step keeps: the invariant, the clusters, the grace period, and the order
    of the generations of sources whose provider orders them. *)
Record step_keeps (m : DiscoveryMembershipReconciler) (h : UpstreamHealthRegistry)
    (w : DiscoveryWorld) : Prop := {
  sk_inv : discovery_inv w.1 w.2;
  sk_clusters : dom (directory w.2.(uh_registry)) = dom (directory h.(uh_registry));
  sk_grace : w.1.(dm_drain_grace) = m.(dm_drain_grace);
  sk_generations source g :
    has_monotonic_generations source.(ds_provider) = true →
    m.(dm_generations) !! source = Some g →
    ∃ g', w.1.(dm_generations) !! source = Some g' ∧ g ≤ g'
}.

Lemma fresh_generation m s source g :
  stale_against m s = None → has_monotonic_generations source.(ds_provider) = true →
  m.(dm_generations) !! source = Some g →
  ∃ g', <[s.(sn_source) := s.(sn_generation)]> m.(dm_generations) !! source = Some g' ∧ g ≤ g'.
Proof.
  intros Hs Hp Hg. destruct (decide (s.(sn_source) = source)) as [<-|Hne].
  - rewrite lookup_insert_eq. eexists. split; [done|]. unfold stale_against in Hs.
    rewrite Hg, Hp in Hs. cbn in Hs. destruct (N.ltb_spec s.(sn_generation) g); [done|lia].
  - rewrite lookup_insert_ne by done. by exists g.
Qed.

Lemma same_core_keeps m m' h :
  discovery_inv m h → same_core m m' → step_keeps m h (m', h).
Proof.
  intros Hinv Hcore. split; cbn [fst snd].
  - eapply discovery_inv_ext; [done | apply Hinv | done | done].
  - done.
  - apply Hcore.
  - intros source g _ Hg. exists g. by rewrite (core_generations _ _ Hcore).
Qed.

Lemma reconcile_keeps m h s :
  discovery_inv m h → snapshot_typed s → step_keeps m h (reconcile_snapshot m h s).1.
Proof.
  intros Hinv Ht. destruct (stale_against m s) as [applied|] eqn:Hs.
  { destruct (stale_snapshot_ignored m h s applied Hs) as (m' & -> & Hcore).
    by apply same_core_keeps. }
  destruct (decide (Forall valid_definition s.(sn_endpoints))) as [Hv|Hv].
  2: { destruct (invalid_snapshot_ignored m h s Hs Hv) as (e & ->). by apply same_core_keeps. }
  destruct (decide (known_cluster h s.(sn_source).(ds_cluster_name))) as [Hk|Hk].
  - destruct (reconcile_applied m h s Hinv Hk (deliverable_snapshot s Ht Hv) Hs)
      as (m' & h' & o & -> & Hinv' & Hdom & Hg & _ & _ & Hgen & _).
    split; cbn [fst snd]; [done.. |]. rewrite Hgen. intros source g. by apply fresh_generation.
  - destruct (decide (s.(sn_endpoints) = [])) as [He|He].
    + destruct (unknown_cluster_empty m h s Hinv Hk Hs He) as (m' & Hr & Hinv' & Hg & Hgen).
      rewrite Hr. split; cbn [fst snd]; [done.. |]. rewrite Hgen. intros source g. by apply fresh_generation.
    + rewrite (unknown_cluster_refused m h s Hinv Hk Hs Hv He). by apply same_core_keeps.
Qed.

Lemma health_keeps m h h' :
  discovery_inv m h → health_inv h' → h'.(uh_registry) = h.(uh_registry) → step_keeps m h (m, h').
Proof.
  intros Hinv Hh Hr. split; cbn [fst snd].
  - eapply discovery_inv_ext; [by split | done | by rewrite Hr | done].
  - by rewrite Hr.
  - done.
  - eauto using N.le_refl.
Qed.

Lemma discovery_step_keeps m h event :
  discovery_inv m h → event_typed event → step_keeps m h (discovery_step (m, h) event).
Proof.
  intros Hinv Ht. destruct event as [s|elapsed|name id signal|elapsed]; cbn [discovery_step].
  - by apply reconcile_keeps.
  - destruct (advance_time_ok m h elapsed Hinv)
      as (m' & h' & o & -> & Hinv' & _ & Hg & _ & Hgen & Hdom & _).
    split; cbn [fst snd]; [done.. |]. rewrite Hgen. eauto using N.le_refl.
  - apply health_keeps; [done | | apply health_signal_registry]. apply health_op_inv; [apply Hinv | done].
  - apply health_keeps; [done | | apply advance_time_registry]. apply health_op_inv; [apply Hinv | done].
Qed.

Lemma discovery_run_keeps events : ∀ m h,
  discovery_inv m h → Forall event_typed events → step_keeps m h (discovery_run (m, h) events).
Proof.
  induction events as [|event events IH] using rev_ind; intros m h Hinv Ht.
  { apply health_keeps; [done | apply Hinv | done]. }
  apply Forall_app in Ht as [Ht [Ht1 _]%Forall_cons].
  unfold discovery_run in *. rewrite foldl_app. cbn [foldl].
  destruct (IH m h Hinv Ht) as [Hi1 Hc1 Hg1 Hgen1].
  destruct (foldl discovery_step (m, h) events) as [m1 h1]. cbn [fst snd] in *.
  destruct (discovery_step_keeps m1 h1 event Hi1 Ht1) as [Hi2 Hc2 Hg2 Hgen2].
  split; [done | congruence | congruence |].
  intros source g Hp Hg. destruct (Hgen1 source g Hp Hg) as (g1 & Hg1' & Hle1).
  destruct (Hgen2 source g1 Hp Hg1') as (g2 & Hg2' & Hle2). exists g2. split; [done|lia].
Qed.

Lemma stale_against_spec m s :
  is_Some (stale_against m s) ↔
  has_monotonic_generations s.(sn_source).(ds_provider) = true ∧
  ∃ applied, m.(dm_generations) !! s.(sn_source) = Some applied ∧ s.(sn_generation) < applied.
Proof.
  unfold stale_against. destruct (m.(dm_generations) !! s.(sn_source)) as [g|]; cbn.
  - destruct (has_monotonic_generations _), (N.ltb_spec s.(sn_generation) g); cbn;
      (split; [intros [] | intros (? & ? & [= <-] & ?)]); eauto; try done; lia.
  - split; [by intros [] | by intros (_ & ? & ? & _)].
Qed.

Lemma length_expired m :
  length (expired_keys m) = size (filter (λ kd, kd.2 ≤ m.(dm_now)) m.(dm_deadlines)).
Proof.
  unfold expired_keys. rewrite length_fmap, (sort_by_perm fst EndpointKey_cmp).
  apply length_filter_entries.
Qed.

(** ** Theorems: membership *)

(** C31: The registry is in step with the sources: after any sequence of snapshots
    (stale, invalid and for unknown clusters included), of time and of health
    signals, starting with empty clusters, every key of the registry either serves a
    definition that some source of its cluster advertises, ready and without a drain
    deadline, or is draining with a deadline at most the grace period away while no
    source advertises it, or is absent and advertised by none; its lifecycle machine
    is active, draining or gone accordingly.  No step adds or removes a cluster. *)
Theorem discovery_membership_exact (policy : EndpointHealthPolicy) (names : list string)
  (drain_grace : Duration) (events : list DiscoveryEvent) (Hevents : Forall event_typed events) :
  let '(m, h) := discovery_run (discovery_start policy names drain_grace) events in
  (∀ k, key_status m h k) ∧
  (∀ k d, m.(dm_deadlines) !! k = Some d → d ≤ Duration_saturating_add m.(dm_now) drain_grace) ∧
  (∀ k, is_Some (h.(uh_records) !! k) ↔ is_Some (registered h.(uh_registry) k)) ∧
  dom (directory h.(uh_registry)) = dom (directory (discovery_registry policy names).(uh_registry)).
Proof.
  destruct (discovery_run_keeps events _ _ (discovery_start_inv policy names drain_grace) Hevents)
    as [[Hh Hk _ Hd _] Hc Hg _].
  unfold discovery_start in *. cbn [fst snd] in *. destruct (discovery_run _ _) as [m h].
  cbn [fst snd] in *. split_and!; [done | by rewrite Hg in Hd | | done].
  intros k. pose proof (inv_tracked _ Hh k) as Ht.
  inversion Ht; split; intros []; try done; eauto.
Qed.

(** C32: Applying a snapshot.  In any reachable state a snapshot that is not stale, whose
    endpoints are valid and whose cluster is registered, is applied without error, and
    everything it does is determined.  The source then advertises exactly the snapshot's
    definitions (the last of an id).  A new or changed definition is served and no longer
    drains, also when other sources advertise the id, except that a new id for which
    another source already advertises the same definition stays as it is served.  A
    withdrawn id that no other source advertises drains until the grace period from now;
    one that another source still advertises is kept, under that source's definition if it
    differs from the withdrawn one.  An unchanged definition, an id the source neither
    advertises nor advertised, and the other clusters are untouched.  The outcome counts the
    new, changed and withdrawn ids, and its lifecycle counters the ids installed again and
    those set draining. *)
Theorem snapshot_applied_exactly (policy : EndpointHealthPolicy) (names : list string)
  (drain_grace : Duration) (events : list DiscoveryEvent) (snapshot : DiscoverySnapshot)
  (Hevents : Forall event_typed events) (Htyped : snapshot_typed snapshot) :
  let '(m, h) := discovery_run (discovery_start policy names drain_grace) events in
  let source := snapshot.(sn_source) in
  let cluster := source.(ds_cluster_name) in
  let previous := default ∅ (m.(dm_active) !! source) in
  let defs := defs_of snapshot.(sn_endpoints) in
  let other := other_source_definition m source in
  stale_against m snapshot = None → Forall valid_definition snapshot.(sn_endpoints) →
  known_cluster h cluster →
  ∃ m' h' outcome,
    let served id := registered h'.(uh_registry) (cluster, id) in
    let deadline id := m'.(dm_deadlines) !! (cluster, id) in
    let untouched k := registered h'.(uh_registry) k = registered h.(uh_registry) k ∧
                       m'.(dm_deadlines) !! k = m.(dm_deadlines) !! k in
    reconcile_snapshot m h snapshot = (m', h', Ok outcome) ∧
    m'.(dm_active) = <[source := defs]> m.(dm_active) ∧
    m'.(dm_generations) = <[source := snapshot.(sn_generation)]> m.(dm_generations) ∧
    (∀ id e, defs !! id = Some e →
       if decide (previous !! id = Some e ∨ (previous !! id = None ∧ other id = Some e))
       then untouched (cluster, id) ∧ (ep_state <$> served id) = Some EndpointState_Ready ∧ deadline id = None
       else served id = Some (upstream_of e) ∧ deadline id = None) ∧
    (∀ id r, previous !! id = Some r → defs !! id = None →
       match other id with
       | None =>
           served id = ((λ u, with_state u EndpointState_Draining) <$>
                          registered h.(uh_registry) (cluster, id)) ∧
           (ep_state <$> served id) = Some EndpointState_Draining ∧
           deadline id = Some (Duration_saturating_add m.(dm_now) drain_grace)
       | Some o =>
           if decide (o = r) then untouched (cluster, id)
           else served id = Some (upstream_of o) ∧ deadline id = None
       end) ∧
    (∀ k, k.1 ≠ cluster ∨ (defs !! k.2 = None ∧ previous !! k.2 = None) → untouched k) ∧
    outcome_counts m snapshot outcome ∧ lifecycle_counts m snapshot outcome.
Proof.
  destruct (discovery_run_keeps events _ _ (discovery_start_inv policy names drain_grace) Hevents)
    as [Hinv _ Hg _].
  unfold discovery_start in *. cbn [fst snd] in *. destruct (discovery_run _ _) as [m h].
  cbn [fst snd] in *. intros Hfresh Hv Hk.
  pose proof (deliverable_snapshot _ Htyped Hv) as Hdel.
  destruct (reconcile_applied m h snapshot Hinv Hk Hdel Hfresh)
    as (m' & h' & o & Hr & [_ Hkeys _ _ _] & _ & _ & _ & Ha & Hgen & Hview & Hcounts & Hlife).
  exists m', h', o. cbv zeta. change (m.(dm_drain_grace) = drain_grace) in Hg. rewrite <- Hg.
  set (source := snapshot.(sn_source)) in *. set (cluster := source.(ds_cluster_name)) in *.
  set (previous := default ∅ (m.(dm_active) !! source)) in *. set (defs := defs_of snapshot.(sn_endpoints)) in *.
  set (other := other_source_definition m source) in *. split_and!; try done.
  - intros id e Hd. pose proof (applied_installed m h snapshot Hinv id e _ Hd (Hview (cluster, id))) as H.
    fold source cluster previous other in H. case_decide as Hsame; [|by injection H].
    injection H as Hreg Hdl. split; [done|]. specialize (Hkeys (cluster, id)).
    destruct Hkeys as [e0 -> _ Hn _|? ? _ _ Hna _ _|_ Hna _ _]; [done|..]; exfalso; apply (Hna e);
      exists source, defs; by rewrite Ha, lookup_insert_eq.
  - intros id r Hp Hd. specialize (Hview (cluster, id)). cbn [fst snd] in Hview.
    fold source cluster defs previous in Hview. rewrite decide_True, Hd, Hp in Hview by done.
    unfold withdraw_view in Hview. fold other in Hview. destruct (other id) as [d|] eqn:Ho.
    + case_decide; [by injection Hview|]. cbn [fst] in Hview. injection Hview as Hreg Hdl.
      split; [done|]. rewrite Hdl. exact (other_no_deadline m h snapshot Hinv id d Ho).
    + cbn [fst] in Hview. injection Hview as Hreg Hdl. split; [done|]. split; [|done].
      destruct (Hkeys (cluster, id)) as [? _ _ Hn _|u d Hru Hs _ _ _|_ _ Hn _];
        [congruence | by rewrite Hru; simpl; rewrite Hs | congruence].
  - intros k Hne. specialize (Hview k). fold source cluster defs previous in Hview.
    destruct (decide (k.1 = cluster)) as [Hc|Hc]; [|by injection Hview].
    destruct Hne as [|[Hd Hp]]; [done|]. rewrite Hd, Hp in Hview. by injection Hview.
Qed.

(** C33: Reconciliation is atomic.  In any state reachable with clusters that only discovery
    fills, a snapshot either succeeds or leaves reconciler and registry exactly as they were,
    and it fails only for an invalid endpoint or a cluster the registry does not have.  It is
    reported stale exactly when its provider orders its generations (all but Kubernetes
    endpoint slices) and a strictly newer generation of the source was applied, and then
    changes nothing but the telemetry.  An equal generation is applied again, although the
    comment on the outcome's field says it is ignored ([equal_generation_applied]). *)
Theorem reconcile_atomic (policy : EndpointHealthPolicy) (names : list string)
  (drain_grace : Duration) (events : list DiscoveryEvent) (snapshot : DiscoverySnapshot)
  (Hevents : Forall event_typed events) (Htyped : snapshot_typed snapshot) :
  let '(m, h) := discovery_run (discovery_start policy names drain_grace) events in
  let cluster := snapshot.(sn_source).(ds_cluster_name) in
  match reconcile_snapshot m h snapshot with
  | (w, Err error) =>
      w = (m, h) ∧
      (((∃ e, error = InvalidEndpoint e) ∧ ¬ Forall valid_definition snapshot.(sn_endpoints)) ∨
       (error = HealthRegistry (Registry (ClusterNotFound cluster)) ∧ ¬ known_cluster h cluster))
  | (m', h', Ok outcome) =>
      (outcome.(oc_stale_generation_rejected) = true ↔
       has_monotonic_generations snapshot.(sn_source).(ds_provider) = true ∧
       ∃ applied, m.(dm_generations) !! snapshot.(sn_source) = Some applied ∧
                  snapshot.(sn_generation) < applied) ∧
      (outcome.(oc_stale_generation_rejected) = true → same_core m m' ∧ h' = h)
  end.
Proof.
  destruct (discovery_run_keeps events _ _ (discovery_start_inv policy names drain_grace) Hevents)
    as [Hinv _ _ _].
  unfold discovery_start in *. cbn [fst snd] in *. destruct (discovery_run _ _) as [m h].
  cbn [fst snd] in *. pose proof (stale_against_spec m snapshot) as Hiff. cbv zeta.
  destruct (stale_against m snapshot) as [applied|] eqn:Hs.
  { destruct (stale_snapshot_ignored m h snapshot applied Hs) as (m' & -> & Hcore).
    split; [|done]. rewrite <- Hiff. split; [by eauto|done]. }
  assert (Hns : ∀ b, b = false → (b = true ↔ has_monotonic_generations snapshot.(sn_source).(ds_provider)
    = true ∧ ∃ applied, m.(dm_generations) !! snapshot.(sn_source) = Some applied ∧
                  snapshot.(sn_generation) < applied)).
  { intros b ->. rewrite <- Hiff. split; [done|by intros []]. }
  destruct (decide (Forall valid_definition snapshot.(sn_endpoints))) as [Hv|Hv].
  2: { destruct (invalid_snapshot_ignored m h snapshot Hs Hv) as (e & ->). eauto. }
  destruct (decide (known_cluster h snapshot.(sn_source).(ds_cluster_name))) as [Hk|Hk].
  - destruct (reconcile_applied m h snapshot Hinv Hk (deliverable_snapshot _ Htyped Hv) Hs)
      as (m' & h' & o & -> & _ & _ & _ & _ & _ & _ & _ & (_ & _ & _ & Ho) & _).
    split; [by apply Hns|]. by rewrite Ho.
  - destruct (decide (snapshot.(sn_endpoints) = [])) as [He|He].
    + destruct (unknown_cluster_empty m h snapshot Hinv Hk Hs He) as (m' & Hr & _).
      rewrite Hr. split; [by apply Hns|done].
    + rewrite (unknown_cluster_refused m h snapshot Hinv Hk Hs Hv He). eauto.
Qed.

(** Draining ends, and only in time.  In any reachable state the passing of time
    succeeds, removes exactly the draining endpoints whose deadline has come, and
    counts them; every other endpoint stays as it is.  Once the grace period has
    passed in one step, nothing drains any more: the registry then serves exactly the
    keys that some source advertises. *)
Theorem drain_window_ends (policy : EndpointHealthPolicy) (names : list string)
  (drain_grace : Duration) (events : list DiscoveryEvent) (elapsed : Duration)
  (Hevents : Forall event_typed events) :
  let '(m, h) := discovery_run (discovery_start policy names drain_grace) events in
  let now := Duration_saturating_add m.(dm_now) elapsed in
  ∃ m' h' outcome,
    DiscoveryMembershipReconciler_advance_time m h elapsed = (m', h', Ok outcome) ∧
    (∀ k, registered h'.(uh_registry) k =
          match m.(dm_deadlines) !! k with
          | Some d => if decide (d ≤ now) then None else registered h.(uh_registry) k
          | None => registered h.(uh_registry) k
          end) ∧
    outcome.(oc_removed_after_drain) =
      N.of_nat (size (filter (λ kd, kd.2 ≤ now) m.(dm_deadlines))) ∧
    (drain_grace ≤ elapsed →
       m'.(dm_deadlines) = ∅ ∧
       ∀ k, is_Some (registered h'.(uh_registry) k) ↔ ∃ e, advertised m k e).
Proof.
  destruct (discovery_run_keeps events _ _ (discovery_start_inv policy names drain_grace) Hevents)
    as [Hinv _ Hg _].
  unfold discovery_start in *. cbn [fst snd] in *. destruct (discovery_run _ _) as [m h].
  cbn [fst snd dm_drain_grace DiscoveryMembershipReconciler_new] in *. cbv zeta.
  set (now := Duration_saturating_add m.(dm_now) elapsed).
  destruct (advance_time_ok m h elapsed Hinv)
    as (m' & h' & o & Hr & [_ Hkeys _ _ _] & _ & _ & Ha & _ & _ & Hex & Hnex & Ho & _).
  fold now in Hex, Hnex, Ho. exists m', h', o. split; [done|]. split; [|split].
  - intros k. destruct (m.(dm_deadlines) !! k) as [d|] eqn:Hd.
    + case_decide; [apply Hex; eauto|]. apply Hnex. rewrite Hd. naive_solver.
    + apply Hnex. rewrite Hd. naive_solver.
  - rewrite Ho, length_expired. done.
  - intros Hle. assert (Hempty : m'.(dm_deadlines) = ∅).
    { apply map_eq. intros k. rewrite lookup_empty. destruct (m.(dm_deadlines) !! k) as [d|] eqn:Hd.
      - apply Hex. exists d. split; [done|]. apply (di_deadlines _ _ Hinv) in Hd. rewrite Hg in Hd.
        unfold now, Duration_saturating_add, saturating_add in *. lia.
      - destruct (Hnex k) as [_ ->]; [|done]. rewrite Hd. naive_solver. }
    split; [done|]. intros k. assert (Hadv : ∀ e, advertised m' k e ↔ advertised m k e)
      by eauto using advertised_ext.
    destruct (Hkeys k) as [e -> ?%Hadv|u d _ _ _ Hd| -> Hna].
    + split; eauto.
    + by rewrite Hempty in Hd.
    + split; [by intros []|]. by intros [e []%Hadv%Hna].
Qed.

(** Generations do not go back: while a reconciler runs, the generation applied for
    a source whose provider orders them never decreases. *)
Theorem applied_generations_monotone (policy : EndpointHealthPolicy) (names : list string)
  (drain_grace : Duration) (before after : list DiscoveryEvent) (source : DiscoverySourceId) (g : N)
  (Hevents : Forall event_typed (before ++ after))
  (Hordered : has_monotonic_generations source.(ds_provider) = true) :
  let start := discovery_start policy names drain_grace in
  (discovery_run start before).1.(dm_generations) !! source = Some g →
  ∃ g', (discovery_run start (before ++ after)).1.(dm_generations) !! source = Some g' ∧ g ≤ g'.
Proof.
  apply Forall_app in Hevents as [Hb Ha]. intros start Hg.
  destruct (discovery_run_keeps before _ _ (discovery_start_inv policy names drain_grace) Hb)
    as [Hinv _ _ _].
  unfold discovery_run. rewrite foldl_app. fold discovery_run. revert Hinv Hg. unfold start.
  rewrite <- (surjective_pairing (discovery_start policy names drain_grace)).
  fold (discovery_run (discovery_start policy names drain_grace) before).
  destruct (discovery_run _ before) as [m h]. intros Hinv Hg.
  destruct (discovery_run_keeps after m h Hinv Ha) as [_ _ _ Hgen]. by apply Hgen.
Qed.

(** ** Concrete runs *)

Section samples.
Let address (port : N) : SocketAddr := {| sa_ip := IpAddr_V4 2130706433; sa_port := port |}.

Definition sample_definition (id : string) (port : N) : DiscoveryEndpoint :=
  {| de_endpoint_id := id; de_address := address port; de_zone := None; de_locality := None;
     de_weight := 1 |}.
End samples.

Definition sample_source (name : string) : DiscoverySourceId :=
  {| ds_provider := DnsAaaa; ds_source_name := name; ds_cluster_name := "payments" |}.

Definition sample_advertisement (name : string) (generation : N) (endpoints : list DiscoveryEndpoint) :
    DiscoverySnapshot :=
  {| sn_source := sample_source name; sn_generation := generation; sn_valid_for := from_secs 30;
     sn_endpoints := endpoints |}.

Definition sample_events : list DiscoveryEvent :=
  [Advertise (sample_advertisement "dns" 1 [sample_definition "a" 8080; sample_definition "b" 8081]);
   Advertise (sample_advertisement "dns" 2 [sample_definition "a" 8080]); Elapse (from_secs 4)].

Lemma sample_events_typed : Forall event_typed sample_events.
Proof.
  assert (H : 1 ≤ u16_max) by (unfold u16_max; lia).
  repeat constructor; exact H.
Qed.

Lemma sample_advertisement_typed : snapshot_typed (sample_advertisement "dns" 3 [sample_definition "b" 9090]).
Proof.
  assert (H : 1 ≤ u16_max) by (unfold u16_max; lia). repeat constructor; exact H.
Qed.

Abbreviation sample_world := (discovery_run
  (discovery_start EndpointHealthPolicy_default ["payments"] (from_secs 5)) sample_events).

Lemma discovery_membership_exact_witness :
  key_status sample_world.1 sample_world.2 ("payments", "b").
Proof.
  pose proof (discovery_membership_exact EndpointHealthPolicy_default ["payments"] (from_secs 5)
    sample_events sample_events_typed) as H.
  destruct sample_world as [m h]. apply H.
Defined.

(** The endpoint withdrawn in the sample run is draining, four seconds into its
    window of five. *)
Example sample_draining :
  (ep_state <$> registered sample_world.2.(uh_registry) ("payments", "b")) =
    Some EndpointState_Draining ∧
  sample_world.1.(dm_deadlines) !! ("payments", "b") = Some (from_secs 5) ∧
  sample_world.1.(dm_now) = from_secs 4.
Proof. by vm_compute. Qed.

Lemma snapshot_applied_exactly_witness :
  ∃ m' h' outcome,
    reconcile_snapshot sample_world.1 sample_world.2
      (sample_advertisement "dns" 3 [sample_definition "b" 9090]) = (m', h', Ok outcome) ∧
    registered h'.(uh_registry) ("payments", "b") = Some (upstream_of (sample_definition "b" 9090)).
Proof.
  pose proof (snapshot_applied_exactly EndpointHealthPolicy_default ["payments"] (from_secs 5)
    sample_events (sample_advertisement "dns" 3 [sample_definition "b" 9090])
    sample_events_typed sample_advertisement_typed) as H.
  assert (H0 : stale_against sample_world.1 (sample_advertisement "dns" 3 [sample_definition "b" 9090]) = None ∧
    default ∅ (sample_world.1.(dm_active) !! sample_source "dns") !! "b" = None ∧
    other_source_definition sample_world.1 (sample_source "dns") "b" = None ∧
    bool_decide (known_cluster sample_world.2 "payments") = true)
    by (vm_compute; repeat split).
  destruct sample_world as [m h]. cbn [fst snd] in *.
  destruct H0 as (H1 & H2 & H3 & H4%bool_decide_eq_true).
  destruct H as (m' & h' & o & Hr & _ & _ & Hin & _); [exact H1 | | exact H4 |].
  { constructor; [vm_compute; reflexivity | constructor]. }
  exists m', h', o. split; [exact Hr|].
  specialize (Hin "b" (sample_definition "b" 9090) eq_refl). cbn [sn_source sample_advertisement] in Hin.
  rewrite H2, H3 in Hin. rewrite decide_False in Hin by (intros [?|[_ ?]]; discriminate). apply Hin.
Defined.

Lemma reconcile_atomic_witness :
  match reconcile_snapshot sample_world.1 sample_world.2
          (sample_advertisement "dns" 3 [sample_definition "b" 9090]) with
  | (w, Err _) => w = sample_world
  | (_, Ok outcome) => outcome.(oc_stale_generation_rejected) = true → 3 < 2
  end.
Proof.
  pose proof (reconcile_atomic EndpointHealthPolicy_default ["payments"] (from_secs 5)
    sample_events (sample_advertisement "dns" 3 [sample_definition "b" 9090])
    sample_events_typed sample_advertisement_typed) as H.
  assert (Hg : sample_world.1.(dm_generations) !! sample_source "dns" = Some 2)
    by (vm_compute; reflexivity).
  destruct sample_world as [m h]. cbn [fst snd] in *.
  destruct (reconcile_snapshot m h _) as [[m' h'] [o|e]]; [|apply H].
  intros Ho. apply H in Ho as (_ & applied & Ha & Hlt). cbn [sn_source sample_advertisement] in Ha.
  rewrite Hg in Ha. injection Ha as <-. exact Hlt.
Defined.

Lemma drain_window_ends_witness :
  ∃ m' h' outcome,
    DiscoveryMembershipReconciler_advance_time sample_world.1 sample_world.2 (from_secs 1) =
      (m', h', Ok outcome) ∧ registered h'.(uh_registry) ("payments", "b") = None.
Proof.
  pose proof (drain_window_ends EndpointHealthPolicy_default ["payments"] (from_secs 5)
    sample_events (from_secs 1) sample_events_typed) as H.
  assert (H0 : sample_world.1.(dm_deadlines) !! ("payments", "b") = Some (from_secs 5) ∧
               sample_world.1.(dm_now) = from_secs 4) by (vm_compute; repeat split).
  destruct sample_world as [m h]. cbn [fst snd] in *. destruct H0 as [H1 H2].
  destruct H as (m' & h' & o & Hr & Hk & _). exists m', h', o. split; [exact Hr|].
  rewrite (Hk ("payments", "b")), H1, H2. reflexivity.
Defined.

Lemma applied_generations_monotone_witness :
  ∃ g', sample_world.1.(dm_generations) !! sample_source "dns" = Some g' ∧ 1 ≤ g'.
Proof.
  apply (applied_generations_monotone EndpointHealthPolicy_default ["payments"] (from_secs 5)
    (take 1 sample_events) (drop 1 sample_events) (sample_source "dns") 1).
  - exact sample_events_typed.
  - reflexivity.
  - vm_compute. reflexivity.
Defined.

(** An endpoint configured in the cluster outside discovery breaks atomicity: a
    snapshot that collides with it fails after part of it was installed, the source
    is not recorded as advertising that part, and from then on a snapshot with the
    part alone fails too and an empty one leaves it serving. *)
Example collision_half_applied :
  let static := upstream_of (sample_definition "b" 7000) in
  let h := health_op (UpstreamHealthRegistry_new EndpointHealthPolicy_default)
             (HInsertCluster {| cluster_name := "payments"; endpoints := [static] |}) in
  let m := DiscoveryMembershipReconciler_new (from_secs 5) in
  let a := sample_definition "a" 8080 in
  let '(m1, h1, r1) := reconcile_snapshot m h (sample_advertisement "dns" 1 [a; sample_definition "b" 8081]) in
  let '(m2, h2, r2) := reconcile_snapshot m1 h1 (sample_advertisement "dns" 2 [a]) in
  let '(m3, h3, r3) := reconcile_snapshot m2 h2 (sample_advertisement "dns" 3 []) in
  r1 = Err (HealthRegistry (Registry (DuplicateEndpoint "payments" "b"))) ∧
  r2 = Err (HealthRegistry (Registry (DuplicateEndpoint "payments" "a"))) ∧
  is_ok r3 = true ∧ registered h3.(uh_registry) ("payments", "a") = Some (upstream_of a) ∧
  m3.(dm_deadlines) = ∅.
Proof. vm_compute. repeat split. Qed.

(** A cluster that is removed and created again stays empty while its sources keep
    advertising what they did before. *)
Example recreated_cluster_stays_empty :
  let '(m, h) := discovery_run
    (discovery_start EndpointHealthPolicy_default ["payments"] (from_secs 5))
    [Advertise (sample_advertisement "dns" 1 [sample_definition "a" 8080])] in
  let h := health_run h [HRemoveCluster "payments";
             HInsertCluster {| cluster_name := "payments"; endpoints := [] |}] in
  let '(_, h', r) := reconcile_snapshot m h (sample_advertisement "dns" 2 [sample_definition "a" 8080]) in
  is_ok r = true ∧ registered h'.(uh_registry) ("payments", "a") = None.
Proof. vm_compute. repeat split. Qed.

(** A snapshot with the generation already applied is applied again. *)
Example equal_generation_applied :
  let '(m, h) := discovery_run
    (discovery_start EndpointHealthPolicy_default ["payments"] (from_secs 5))
    [Advertise (sample_advertisement "dns" 1 [sample_definition "a" 8080])] in
  let '(_, h', r) := reconcile_snapshot m h (sample_advertisement "dns" 1 [sample_definition "b" 8081]) in
  (oc_stale_generation_rejected <$> match r with Ok o => Some o | Err _ => None end) = Some false ∧
  is_Some (registered h'.(uh_registry) ("payments", "b")).
Proof. vm_compute. split; [reflexivity|]. by eexists. Qed.
