(* ===== verification/SnapshotDiff.v ===== *)
(** * Differences between snapshots

    Models the diff of compiled snapshots of [crates/config-model/src/compiler.rs]
    ([WorkspaceSnapshot::diff] and what it calls, with the route types of [route.rs],
    [policy.rs] and [upgrade.rs]) and the analysis of its impact of
    [crates/admin-api/src/control.rs].  Resources are compared by a fingerprint, the
    hash of their serialisation: serialiser and hash are third-party code and so
    parameters.  Listeners and upstream clusters are only compared by name and
    fingerprint, as the generic [diff_named_resources] does. *)

From stdpp Require Import pretty.
From S2P Require Import Prelude RustStr RustText ArtifactSecurity.
Local Open Scope N_scope.
Local Open Scope rust_scope.

(** ** Resources of a snapshot *)

Record PolicyBindingConfig := {
  pb_local_rate_limits : list string;
  pb_local_concurrency_limits : list string;
  pb_hostile_edge_protection : option string;
  pb_retry_budget : option string;
  pb_timeout_hierarchy : option string;
  pb_circuit_breaker : option string;
  pb_overload_response : option string;
  pb_cache_policy : option string;
  pb_transform_policy : option string;
  pb_traffic_mirror : option string;
  pb_fault_injection : option string;
  pb_jwt_auth_policy : option string;
  pb_external_auth_policy : option string;
  pb_authorization_policy : option string;
  pb_upstream_identity_policy : option string;
  pb_request_classification_policy : option string
}.
#[export] Instance PolicyBindingConfig_eq_dec : EqDecision PolicyBindingConfig.
Proof. solve_decision. Defined.

Definition PolicyBindingConfig_default : PolicyBindingConfig :=
  {| pb_local_rate_limits := []; pb_local_concurrency_limits := [];
     pb_hostile_edge_protection := None; pb_retry_budget := None; pb_timeout_hierarchy := None;
     pb_circuit_breaker := None; pb_overload_response := None; pb_cache_policy := None;
     pb_transform_policy := None; pb_traffic_mirror := None; pb_fault_injection := None;
     pb_jwt_auth_policy := None; pb_external_auth_policy := None; pb_authorization_policy := None;
     pb_upstream_identity_policy := None; pb_request_classification_policy := None |}.

Inductive RouteHeaderMatchConfig :=
| HeaderMatch_Exact (name value : string)
| HeaderMatch_Present (name : string)
| HeaderMatch_Absent (name : string).
#[export] Instance RouteHeaderMatchConfig_eq_dec : EqDecision RouteHeaderMatchConfig.
Proof. solve_decision. Defined.

Inductive RouteQueryMatchConfig :=
| QueryMatch_Exact (name value : string)
| QueryMatch_Present (name : string)
| QueryMatch_Absent (name : string).
#[export] Instance RouteQueryMatchConfig_eq_dec : EqDecision RouteQueryMatchConfig.
Proof. solve_decision. Defined.

Record RouteDestinationConfig := {
  rd_upstream_cluster : string;
  rd_weight : N;
  rd_policies : PolicyBindingConfig
}.
#[export] Instance RouteDestinationConfig_eq_dec : EqDecision RouteDestinationConfig.
Proof. solve_decision. Defined.

Inductive RouteMatchConfig :=
| MatchPathPrefix (prefix : string) (hostnames methods : list string)
    (headers : list RouteHeaderMatchConfig) (query_params : list RouteQueryMatchConfig)
    (content_types grpc_services grpc_methods source_cidrs : list string).
#[export] Instance RouteMatchConfig_eq_dec : EqDecision RouteMatchConfig.
Proof. solve_decision. Defined.

Inductive UpgradeProtocolConfig := Websocket.
#[export] Instance UpgradeProtocolConfig_eq_dec : EqDecision UpgradeProtocolConfig.
Proof. solve_decision. Defined.

Record UpgradePolicyConfig := { ug_protocols : list UpgradeProtocolConfig }.
#[export] Instance UpgradePolicyConfig_eq_dec : EqDecision UpgradePolicyConfig.
Proof. solve_decision. Defined.

Record RouteSnapshot := {
  rt_name : string;
  rt_match_rule : RouteMatchConfig;
  rt_destinations : list RouteDestinationConfig;
  rt_policies : PolicyBindingConfig;
  rt_upgrade : UpgradePolicyConfig
}.
#[export] Instance RouteSnapshot_eq_dec : EqDecision RouteSnapshot.
Proof. solve_decision. Defined.

(** SHA-256, of which the code needs that it yields 32 bytes. *)
Class Sha256 := {
  sha256 : list N → list N;
  sha256_bytes l : length (sha256 l) = 32%nat ∧ Forall (λ b, b < 256) (sha256 l)
}.

(** A named resource with its JSON serialisation ([serde_json::to_vec]). *)
Class NamedSnapshotResource (T : Type) := {
  resource_name : T → string;
  resource_to_vec : T → option (list N)
}.

Definition hex_char (nibble : N) : N := if decide (nibble < 10) then 48 + nibble else 87 + nibble.

(** [encode_hex] of the compiler; [format!("{:x}")] prints the same digits. *)
Definition compiler_encode_hex (l : list N) : string :=
  of_bytes (flat_map (λ byte, [hex_char (N.shiftr byte 4); hex_char (N.land byte 15)]) l).

Definition resource_fingerprint `{Sha256} {T} `{NamedSnapshotResource T} (resource : T) : string :=
  match resource_to_vec resource with
  | Some payload => compiler_encode_hex (sha256 payload)
  | None => EmptyString
  end.

(** ** The diff *)

Inductive SnapshotChangeKind := Change_Added | Change_Removed | Change_Updated.
#[export] Instance SnapshotChangeKind_eq_dec : EqDecision SnapshotChangeKind.
Proof. solve_decision. Defined.

Record SnapshotResourceChange := {
  ch_name : string; ch_kind : SnapshotChangeKind; ch_detail : option string }.

Record WorkspaceSnapshotDiff := {
  df_previous_digest_sha256 : string;
  df_next_digest_sha256 : string;
  df_listener_changes : list SnapshotResourceChange;
  df_route_changes : list SnapshotResourceChange;
  df_upstream_cluster_changes : list SnapshotResourceChange
}.

(** [collect] into a [BTreeMap]: a later entry replaces an earlier one. *)
Definition collect_map {V} (l : list (string * V)) : gmap string V :=
  foldl (λ m kv, <[kv.1 := kv.2]> m) ∅ l.

(** The loop over the names of both sides: [update] is what it does with a resource
    that is on both. *)
Definition diff_entries {V} (update : string → V → V → list SnapshotResourceChange)
    (previous_by_name next_by_name : gmap string V) : list SnapshotResourceChange :=
  flat_map (λ name,
    match previous_by_name !! name, next_by_name !! name with
    | None, Some _ => [{| ch_name := name; ch_kind := Change_Added; ch_detail := None |}]
    | Some _, None => [{| ch_name := name; ch_kind := Change_Removed; ch_detail := None |}]
    | Some previous, Some next => update name previous next
    | None, None => []
    end) (btree_set_iter (dom previous_by_name ∪ dom next_by_name)).

Definition diff_named_resources `{Sha256} {T} `{NamedSnapshotResource T} (previous next : list T) :
    list SnapshotResourceChange :=
  let by_name l := collect_map ((λ r, (resource_name r, resource_fingerprint r)) <$> l) in
  diff_entries (λ name previous_fingerprint next_fingerprint,
    if decide (previous_fingerprint ≠ next_fingerprint)
    then [{| ch_name := name; ch_kind := Change_Updated; ch_detail := None |}] else [])
    (by_name previous) (by_name next).

Definition format_route_destinations (destinations : list RouteDestinationConfig) : string :=
  match destinations with
  | [] => "<none>"
  | _ => join ", " ((λ d, d.(rd_upstream_cluster) +:+ ":" +:+ pretty d.(rd_weight)) <$> destinations)
  end.

Definition describe_route_change (previous next : RouteSnapshot) : option string :=
  let parts :=
    (if decide (previous.(rt_destinations) ≠ next.(rt_destinations))
     then ["destinations " +:+ format_route_destinations previous.(rt_destinations) +:+ " -> " +:+
           format_route_destinations next.(rt_destinations)] else []) ++
    (if decide (previous.(rt_match_rule) ≠ next.(rt_match_rule)) then ["match rule changed"] else []) ++
    (if decide (previous.(rt_policies) ≠ next.(rt_policies)) then ["policies changed"] else []) in
  match parts with [] => None | _ => Some (join "; " parts) end.

Definition diff_route_resources `{Sha256, !NamedSnapshotResource RouteSnapshot}
    (previous next : list RouteSnapshot) : list SnapshotResourceChange :=
  let by_name l := collect_map ((λ r, (resource_name r, r)) <$> l) in
  diff_entries (λ name previous_route next_route,
    if decide (resource_fingerprint previous_route ≠ resource_fingerprint next_route)
    then [{| ch_name := name; ch_kind := Change_Updated;
             ch_detail := describe_route_change previous_route next_route |}] else [])
    (by_name previous) (by_name next).

(** What the snapshots of [ArtifactSecurity] contain for the diff. *)
Class SnapshotResources `{SnapshotContents} := {
  ListenerSnapshot : Type;
  UpstreamClusterSnapshot : Type;
  listener_named :: NamedSnapshotResource ListenerSnapshot;
  cluster_named :: NamedSnapshotResource UpstreamClusterSnapshot;
  listener_eq_dec :: EqDecision ListenerSnapshot;
  cluster_eq_dec :: EqDecision UpstreamClusterSnapshot;
  route_to_vec : RouteSnapshot → option (list N);
  content_listeners : SnapshotContent → list ListenerSnapshot;
  content_routes : SnapshotContent → list RouteSnapshot;
  content_upstream_clusters : SnapshotContent → list UpstreamClusterSnapshot
}.

#[export] Instance route_named `{SnapshotResources} : NamedSnapshotResource RouteSnapshot :=
  {| resource_name := rt_name; resource_to_vec := route_to_vec |}.

Definition WorkspaceSnapshot_diff `{Sha256, SnapshotResources} (previous next : WorkspaceSnapshot) :
    WorkspaceSnapshotDiff :=
  {| df_previous_digest_sha256 := previous.(ws_digest_sha256);
     df_next_digest_sha256 := next.(ws_digest_sha256);
     df_listener_changes := diff_named_resources (content_listeners previous.(ws_content))
                                                 (content_listeners next.(ws_content));
     df_route_changes := diff_route_resources (content_routes previous.(ws_content))
                                              (content_routes next.(ws_content));
     df_upstream_cluster_changes :=
       diff_named_resources (content_upstream_clusters previous.(ws_content))
                            (content_upstream_clusters next.(ws_content)) |}.

(** ** The impact of a diff *)

Inductive SnapshotImpactSeverity := Severity_Low | Severity_Medium | Severity_High.

Record SnapshotResourceImpactSummary := { im_added : N; im_removed : N; im_updated : N }.

(** Plain [+] on [u32]. *)
Definition SnapshotResourceImpactSummary_total (s : SnapshotResourceImpactSummary) : N :=
  (s.(im_added) + s.(im_removed) + s.(im_updated)) mod (u32_max + 1).

Record SnapshotImpactAnalysis := {
  ia_listeners : SnapshotResourceImpactSummary;
  ia_routes : SnapshotResourceImpactSummary;
  ia_upstream_clusters : SnapshotResourceImpactSummary;
  ia_total_changes : N;
  ia_severity : SnapshotImpactSeverity;
  ia_reasons : list string
}.

Definition summarize_change_counts (changes : list SnapshotResourceChange) :
    SnapshotResourceImpactSummary :=
  foldl (λ s change,
    let add n := saturating_add u32_max n 1 in
    match change.(ch_kind) with
    | Change_Added => {| im_added := add s.(im_added); im_removed := s.(im_removed);
                         im_updated := s.(im_updated) |}
    | Change_Removed => {| im_added := s.(im_added); im_removed := add s.(im_removed);
                           im_updated := s.(im_updated) |}
    | Change_Updated => {| im_added := s.(im_added); im_removed := s.(im_removed);
                           im_updated := add s.(im_updated) |}
    end) {| im_added := 0; im_removed := 0; im_updated := 0 |} changes.

Definition analyze_snapshot_impact (diff : WorkspaceSnapshotDiff) : SnapshotImpactAnalysis :=
  let listeners := summarize_change_counts diff.(df_listener_changes) in
  let routes := summarize_change_counts diff.(df_route_changes) in
  let upstream_clusters := summarize_change_counts diff.(df_upstream_cluster_changes) in
  let total := SnapshotResourceImpactSummary_total in
  let total_changes :=
    saturating_add u32_max (saturating_add u32_max (total listeners) (total routes))
      (total upstream_clusters) in
  let has_disruptive_change :=
    (0 <? listeners.(im_removed)) || (0 <? listeners.(im_updated)) || (0 <? routes.(im_removed)) ||
    (0 <? upstream_clusters.(im_removed)) in
  let has_behavior_change :=
    (0 <? routes.(im_updated)) || (0 <? upstream_clusters.(im_updated)) ||
    (0 <? listeners.(im_added)) in
  let '(severity, reason) :=
    if has_disruptive_change then
      (Severity_High,
       "listener/route/upstream removals or listener updates may disrupt active traffic")
    else if has_behavior_change || (6 <=? total_changes) then
      (Severity_Medium,
       "routing or upstream behavior changes detected; use staged promotion/canary gates")
    else (Severity_Low, "limited additive changes; low operational risk") in
  {| ia_listeners := listeners; ia_routes := routes; ia_upstream_clusters := upstream_clusters;
     ia_total_changes := total_changes; ia_severity := severity; ia_reasons := [reason] |}.

(** ** The description of a publication *)

Definition summarize_resource_change (change : SnapshotResourceChange) : string :=
  let kind := match change.(ch_kind) with
              | Change_Added => "added" | Change_Removed => "removed" | Change_Updated => "updated"
              end in
  match change.(ch_detail) with
  | Some detail => change.(ch_name) +:+ " " +:+ kind +:+ " (" +:+ detail +:+ ")"
  | None => change.(ch_name) +:+ " " +:+ kind
  end.

Definition summarize_resource_changes (kind_label : string) (changes : list SnapshotResourceChange) :
    string :=
  match changes with
  | [] => EmptyString
  | _ =>
      let entries := summarize_resource_change <$> take 4 changes in
      let entries := if decide (4 < length changes)%nat
                     then entries ++ ["and " +:+ pretty (N.of_nat (length changes - 4)) +:+ " more"]
                     else entries in
      kind_label +:+ " changes: " +:+ join ", " entries
  end.

Definition summarize_snapshot_diff (diff : WorkspaceSnapshotDiff) : string :=
  let part label changes :=
    let summary := summarize_resource_changes label changes in
    if is_empty summary then [] else [summary] in
  join "; " (part "listener" diff.(df_listener_changes) ++ part "route" diff.(df_route_changes) ++
             part "upstream cluster" diff.(df_upstream_cluster_changes)).

Definition format_publish_detail (previous_version : option string)
    (snapshot_diff : option WorkspaceSnapshotDiff) : string :=
  "snapshot version published" +:+
  match previous_version with
  | Some previous_version => "; previous version " +:+ previous_version
  | None => EmptyString
  end +:+
  match snapshot_diff with
  | Some snapshot_diff =>
      let summary := summarize_snapshot_diff snapshot_diff in
      if is_empty summary then EmptyString else "; " +:+ summary
  | None => EmptyString
  end.

(** ** Theorems: the diff *)

Lemma collect_map_lookup {T V} (name : T → string) (f : T → V) l n v :
  NoDup (name <$> l) →
  collect_map ((λ r, (name r, f r)) <$> l) !! n = Some v ↔ ∃ r, r ∈ l ∧ name r = n ∧ f r = v.
Proof.
  unfold collect_map. induction l as [|r l IH] using rev_ind; intros Hnd.
  { split; [done|]. by intros (r & ?%elem_of_nil & _). }
  rewrite fmap_app in Hnd. apply NoDup_app in Hnd as (Hnd & Hni & _).
  rewrite fmap_app, foldl_app. cbn [fmap list_fmap foldl fst snd].
  rewrite lookup_insert_Some, (IH Hnd). setoid_rewrite elem_of_app.
  setoid_rewrite list_elem_of_singleton. split.
  - intros [[<- <-]|[Hne (r' & ? & ? & ?)]]; [by exists r; auto | by exists r'; auto].
  - intros (r' & [Hin| ->] & <- & <-); [|by left]. right. split; [|by exists r'].
    intros E. apply (Hni (name r')); [by apply list_elem_of_fmap_2|]. rewrite <- E. left.
Qed.

Lemma collect_map_None {T V} (name : T → string) (f : T → V) l n :
  NoDup (name <$> l) →
  collect_map ((λ r, (name r, f r)) <$> l) !! n = None ↔ n ∉ name <$> l.
Proof.
  intros Hnd. rewrite eq_None_not_Some. apply not_iff_compat. rewrite list_elem_of_fmap. split.
  - intros [v (r & Hr & Hn & _)%collect_map_lookup]; [|done]. by exists r.
  - intros (r & -> & Hr). exists (f r). apply collect_map_lookup; [done|]. by exists r.
Qed.

Lemma NoDup_key_inj {T K} (key : T → K) l a b :
  NoDup (key <$> l) → a ∈ l → b ∈ l → key a = key b → a = b.
Proof.
  intros Hnd [i Hi]%list_elem_of_lookup [j Hj]%list_elem_of_lookup E.
  assert (i = j) as ->; [|congruence].
  eapply (NoDup_lookup _ _ _ (key a)); [exact Hnd | |]; rewrite list_lookup_fmap, ?Hi, ?Hj; simpl; congruence.
Qed.

(** The change of a name: what the lists say about it. *)
Definition change_of {T} `{NamedSnapshotResource T} (previous next : list T) (name : string)
    (kind : SnapshotChangeKind) : Prop :=
  match kind with
  | Change_Added => name ∉ resource_name <$> previous ∧ name ∈ resource_name <$> next
  | Change_Removed => name ∈ resource_name <$> previous ∧ name ∉ resource_name <$> next
  | Change_Updated => ∃ a b, a ∈ previous ∧ b ∈ next ∧ resource_name a = name ∧
                             resource_name b = name ∧ a ≠ b
  end.

(** One change for each name that differs, in the order of the names. *)
Definition changes_exact {T} `{NamedSnapshotResource T} (previous next : list T)
    (changes : list SnapshotResourceChange) : Prop :=
  StronglySorted str_lt (ch_name <$> changes) ∧
  ∀ name kind, (∃ change, change ∈ changes ∧ change.(ch_name) = name ∧ change.(ch_kind) = kind) ↔
               change_of previous next name kind.

Lemma flat_map_sorted (f : string → list SnapshotResourceChange) l :
  (∀ n, f n = [] ∨ ∃ x, f n = [x] ∧ x.(ch_name) = n) → StronglySorted str_lt l →
  StronglySorted str_lt (ch_name <$> flat_map f l).
Proof.
  intros Hf. induction 1 as [|n l Hl IH Hn]; simpl; [constructor|].
  destruct (Hf n) as [-> | (x & -> & Hx)]; simpl; [done|]. constructor; [done|]. rewrite Hx.
  apply Forall_fmap, Forall_forall. intros y Hy. simpl.
  apply list_elem_of_In, in_flat_map in Hy as (n' & Hn' & Hy).
  destruct (Hf n') as [E|(x' & E & Hx')]; rewrite E in Hy; [done|]. destruct Hy as [<-|[]].
  rewrite Hx'. rewrite Forall_forall in Hn. apply Hn. by apply list_elem_of_In.
Qed.

Section diff_exact.
Context `{EqDecision T, NamedSnapshotResource T} {V : Type} (value : T → V)
  (update : string → V → V → list SnapshotResourceChange) (previous next : list T).
Hypothesis Hprevious : NoDup (resource_name <$> previous).
Hypothesis Hnext : NoDup (resource_name <$> next).
(** Two versions of a resource give one change of their name when they differ. *)
Hypothesis Hupdate : ∀ a b, a ∈ previous → b ∈ next → resource_name a = resource_name b →
  (a = b → update (resource_name a) (value a) (value b) = []) ∧
  (a ≠ b → ∃ d, update (resource_name a) (value a) (value b) =
                [{| ch_name := resource_name a; ch_kind := Change_Updated; ch_detail := d |}]).
Let by_name l := collect_map ((λ r, (resource_name r, value r)) <$> l).

Lemma diff_entry_cases n :
  let entry := match by_name previous !! n, by_name next !! n with
    | None, Some _ => [{| ch_name := n; ch_kind := Change_Added; ch_detail := None |}]
    | Some _, None => [{| ch_name := n; ch_kind := Change_Removed; ch_detail := None |}]
    | Some p, Some q => update n p q
    | None, None => []
    end in
  (entry = [] ∧ ∀ kind, ¬ change_of previous next n kind) ∨
  (∃ kind d, entry = [{| ch_name := n; ch_kind := kind; ch_detail := d |}] ∧
             ∀ kind', change_of previous next n kind' ↔ kind' = kind).
Proof.
  assert (Hin : ∀ l, NoDup (resource_name <$> l) →
    (by_name l !! n = None ∧ n ∉ resource_name <$> l) ∨
    (∃ r, by_name l !! n = Some (value r) ∧ r ∈ l ∧ resource_name r = n ∧
          ∀ r', r' ∈ l → resource_name r' = n → r' = r)).
  { intros l Hnd. destruct (by_name l !! n) as [v|] eqn:E.
    - right. apply collect_map_lookup in E as (r & Hr & Hn & <-); [|done]. exists r. split_and!; try done.
      intros r' Hr' Hn'. apply (NoDup_key_inj resource_name l); [done..|congruence].
    - left. split; [done|]. by apply collect_map_None in E. }
  cbv zeta. destruct (Hin previous Hprevious) as [[-> Hp]|(a & -> & Ha & Hna & Hua)],
    (Hin next Hnext) as [[-> Hq]|(b & -> & Hb & Hnb & Hub)].
  - left. split; [done|]. intros []; simpl; [tauto | tauto |].
    intros (a & b & Ha & _ & Hna & _). apply Hp. rewrite <- Hna. by apply list_elem_of_fmap_2.
  - right. exists Change_Added, None. split; [done|]. intros []; simpl; split; try done.
    + intros _. split; [done|]. rewrite <- Hnb. by apply list_elem_of_fmap_2.
    + intros [? _]. done.
    + intros (a & b' & Ha & _ & Hna & _). destruct Hp. rewrite <- Hna. by apply list_elem_of_fmap_2.
  - right. exists Change_Removed, None. split; [done|]. intros []; simpl; split; try done.
    + intros [_ ?]. done.
    + intros _. split; [|done]. rewrite <- Hna. by apply list_elem_of_fmap_2.
    + intros (a' & b & _ & Hb & _ & Hnb & _). destruct Hq. rewrite <- Hnb. by apply list_elem_of_fmap_2.
  - assert (Hnp : n ∈ resource_name <$> previous) by (rewrite <- Hna; by apply list_elem_of_fmap_2).
    assert (Hnq : n ∈ resource_name <$> next) by (rewrite <- Hnb; by apply list_elem_of_fmap_2).
    destruct (Hupdate a b Ha Hb ltac:(congruence)) as [Hsame Hdiff]. rewrite Hna in Hsame, Hdiff.
    destruct (decide (a = b)) as [->|Hne].
    + left. split; [auto|]. intros []; simpl; [tauto | tauto |].
      intros (a' & b' & Ha' & Hb' & Hna' & Hnb' & Hne). apply Hne.
      by rewrite (Hua a'), (Hub b').
    + right. destruct (Hdiff Hne) as [d Hd]. exists Change_Updated, d. split; [done|].
      intros []; simpl; split; try done; [tauto | tauto |]. intros _. by exists a, b.
Qed.

Lemma diff_entries_exact : changes_exact previous next (diff_entries update (by_name previous) (by_name next)).
Proof.
  split.
  - apply flat_map_sorted; [|apply btree_set_iter_sorted]. intros n.
    destruct (diff_entry_cases n) as [[-> _]|(kind & d & -> & _)]; [by left|]. right. by eexists.
  - intros n kind. unfold diff_entries. setoid_rewrite list_elem_of_In.
    setoid_rewrite in_flat_map. split.
    + intros (change & (n' & _ & Hin) & <- & <-). revert Hin.
      destruct (diff_entry_cases n') as [[-> _]|(kind & d & -> & Hk)]; [done|].
      intros [<-|[]]. by apply Hk.
    + intros Hc. destruct (diff_entry_cases n) as [[_ Hno]|(kind' & d & E & Hk)]; [by destruct (Hno kind)|].
      apply Hk in Hc as ->. exists {| ch_name := n; ch_kind := kind'; ch_detail := d |}.
      split; [|done].
      exists n. split; [|rewrite E; by left].
      apply list_elem_of_In, elem_of_btree_set_iter, elem_of_union. rewrite !elem_of_dom.
      destruct (by_name previous !! n), (by_name next !! n); eauto. done.
Qed.
End diff_exact.

(** Different versions of a resource have different fingerprints. *)
Definition fingerprints_distinguish `{Sha256} {T} `{NamedSnapshotResource T} (previous next : list T) : Prop :=
  ∀ a b, a ∈ previous → b ∈ next → resource_name a = resource_name b →
         resource_fingerprint a = resource_fingerprint b → a = b.

Lemma diff_named_resources_exact `{Sha256} `{EqDecision T, NamedSnapshotResource T} (previous next : list T) :
  NoDup (resource_name <$> previous) → NoDup (resource_name <$> next) →
  fingerprints_distinguish previous next →
  changes_exact previous next (diff_named_resources previous next).
Proof.
  intros Hp Hn Hd. apply diff_entries_exact; try done. intros a b Ha Hb Hab. split.
  - intros ->. by rewrite decide_False by naive_solver.
  - intros Hne. exists None. by rewrite decide_True by eauto.
Qed.

Lemma diff_route_resources_exact `{Sha256, !NamedSnapshotResource RouteSnapshot} (previous next : list RouteSnapshot) :
  NoDup (resource_name <$> previous) → NoDup (resource_name <$> next) →
  fingerprints_distinguish previous next →
  changes_exact previous next (diff_route_resources previous next).
Proof.
  intros Hp Hn Hd. apply (diff_entries_exact (λ r, r)); try done. intros a b Ha Hb Hab. split.
  - intros ->. by rewrite decide_False by naive_solver.
  - intros Hne. eexists. by rewrite decide_True by eauto.
Qed.

Lemma no_change_same `{NamedSnapshotResource T} (previous next : list T) changes :
  NoDup (resource_name <$> previous) → NoDup (resource_name <$> next) →
  (∀ a b : T, Decision (a = b)) → changes_exact previous next changes →
  changes = [] ↔ previous ≡ₚ next.
Proof.
  intros Hp Hn Hdec [_ Hc]. split.
  - intros ->. assert (Hno : ∀ n k, ¬ change_of previous next n k).
    { intros n k Hk. apply Hc in Hk as (? & ?%elem_of_nil & _). done. }
    apply NoDup_Permutation; [by eapply NoDup_fmap_1..|]. intros x. split; intros Hx.
    + destruct (decide (resource_name x ∈ resource_name <$> next)) as [Hin|Hin].
      * apply list_elem_of_fmap in Hin as (b & E & Hb). destruct (Hdec x b) as [->|Hne]; [done|].
        destruct (Hno (resource_name x) Change_Updated). by exists x, b.
      * destruct (Hno (resource_name x) Change_Removed). split; [by apply list_elem_of_fmap_2|done].
    + destruct (decide (resource_name x ∈ resource_name <$> previous)) as [Hin|Hin].
      * apply list_elem_of_fmap in Hin as (a & E & Ha). destruct (Hdec a x) as [->|Hne]; [done|].
        destruct (Hno (resource_name x) Change_Updated). by exists a, x.
      * destruct (Hno (resource_name x) Change_Added). split; [done|by apply list_elem_of_fmap_2].
  - intros HP. destruct changes as [|[n k d] changes]; [done|]. exfalso.
    assert (Hk : change_of previous next n k) by (apply Hc; eexists; split; [left|done]).
    destruct k; simpl in Hk; rewrite ?HP in Hk; [tauto | tauto |].
    destruct Hk as (a & b & Ha & Hb & Hna & Hnb & Hne). apply Hne.
    apply (NoDup_key_inj resource_name next); [done | by rewrite <- HP | done | congruence].
Qed.

(** ** Theorems: the impact *)

Lemma summarize_change_counts_spec changes :
  let count kind := N.of_nat (length (filter (λ c, c.(ch_kind) = kind) changes)) in
  summarize_change_counts changes =
    {| im_added := N.min u32_max (count Change_Added); im_removed := N.min u32_max (count Change_Removed);
       im_updated := N.min u32_max (count Change_Updated) |}.
Proof.
  cbv zeta. unfold summarize_change_counts. induction changes as [|c changes IH] using rev_ind; [done|].
  rewrite foldl_app, IH. cbn [foldl im_added im_removed im_updated].
  rewrite !filter_app, !length_app. unfold saturating_add.
  destruct (ch_kind c) eqn:E; cbn [filter list_filter]; rewrite E;
    rewrite ?(decide_True (P := Change_Added = Change_Added)), ?(decide_True (P := Change_Removed = Change_Removed)),
      ?(decide_True (P := Change_Updated = Change_Updated)) by done; rewrite !decide_False by done;
    cbn [length]; f_equal; lia.
Qed.

(** A change of a kind in one of the lists of a diff. *)
Definition has_change (kind : SnapshotChangeKind) (changes : list SnapshotResourceChange) : Prop :=
  ∃ c, c ∈ changes ∧ c.(ch_kind) = kind.

Lemma count_positive kind changes :
  (0 <? N.min u32_max (N.of_nat (length (filter (λ c, c.(ch_kind) = kind) changes)))) = true ↔
  has_change kind changes.
Proof.
  rewrite N.ltb_lt. unfold has_change.
  assert (Hin : ∀ c, c ∈ filter (λ c, c.(ch_kind) = kind) changes ↔ c.(ch_kind) = kind ∧ c ∈ changes)
    by (intros c; by rewrite list_elem_of_filter).
  destruct (filter _ changes) as [|c l].
  - split; [simpl; lia|]. intros (c & Hc & Hk). 
    assert (Hn : c ∈ []) by (by apply Hin). by apply elem_of_nil in Hn.
  - split; [|unfold u32_max; simpl; lia]. intros _. exists c. destruct (proj1 (Hin c)) as [? ?]; [left|done].
Qed.

(** C30: the diff of two snapshots is exact.  When the resources of each kind have
    distinct names and fingerprints tell versions of a resource apart, the changes of
    each kind are listed once per name in the order of the names: added and removed
    resources are those named on one side only, updated ones those that differ; and a
    list of changes is empty exactly when the resources are the same. *)
Theorem snapshot_diff_exact `{Sha256, SnapshotResources} (previous next : WorkspaceSnapshot)
  (Hlisteners : NoDup (resource_name <$> content_listeners previous.(ws_content)) ∧
                NoDup (resource_name <$> content_listeners next.(ws_content)) ∧
                fingerprints_distinguish (content_listeners previous.(ws_content))
                                         (content_listeners next.(ws_content)))
  (Hroutes : NoDup (resource_name <$> content_routes previous.(ws_content)) ∧
             NoDup (resource_name <$> content_routes next.(ws_content)) ∧
             fingerprints_distinguish (content_routes previous.(ws_content))
                                      (content_routes next.(ws_content)))
  (Hclusters : NoDup (resource_name <$> content_upstream_clusters previous.(ws_content)) ∧
               NoDup (resource_name <$> content_upstream_clusters next.(ws_content)) ∧
               fingerprints_distinguish (content_upstream_clusters previous.(ws_content))
                                        (content_upstream_clusters next.(ws_content))) :
  let diff := WorkspaceSnapshot_diff previous next in
  changes_exact (content_listeners previous.(ws_content)) (content_listeners next.(ws_content))
    diff.(df_listener_changes) ∧
  changes_exact (content_routes previous.(ws_content)) (content_routes next.(ws_content))
    diff.(df_route_changes) ∧
  changes_exact (content_upstream_clusters previous.(ws_content))
    (content_upstream_clusters next.(ws_content)) diff.(df_upstream_cluster_changes) ∧
  (diff.(df_listener_changes) = [] ∧ diff.(df_route_changes) = [] ∧
   diff.(df_upstream_cluster_changes) = [] ↔
   content_listeners previous.(ws_content) ≡ₚ content_listeners next.(ws_content) ∧
   content_routes previous.(ws_content) ≡ₚ content_routes next.(ws_content) ∧
   content_upstream_clusters previous.(ws_content) ≡ₚ content_upstream_clusters next.(ws_content)).
Proof.
  destruct Hlisteners as (Hl1 & Hl2 & Hl3), Hroutes as (Hr1 & Hr2 & Hr3), Hclusters as (Hc1 & Hc2 & Hc3).
  pose proof (diff_named_resources_exact _ _ Hl1 Hl2 Hl3) as El.
  pose proof (diff_route_resources_exact _ _ Hr1 Hr2 Hr3) as Er.
  pose proof (diff_named_resources_exact _ _ Hc1 Hc2 Hc3) as Ec.
  cbv zeta. unfold WorkspaceSnapshot_diff. cbn [df_listener_changes df_route_changes df_upstream_cluster_changes].
  split; [exact El|]. split; [exact Er|]. split; [exact Ec|].
  rewrite (no_change_same _ _ _ Hl1 Hl2 _ El), (no_change_same _ _ _ Hr1 Hr2 _ Er).
  by rewrite (no_change_same _ _ _ Hc1 Hc2 _ Ec).
Qed.

(** How many changes of a kind there are. *)
Definition count_kind (kind : SnapshotChangeKind) (changes : list SnapshotResourceChange) : N :=
  N.of_nat (length (filter (λ c, c.(ch_kind) = kind) changes)).

Lemma count_kind_cons kind c changes :
  count_kind kind (c :: changes) = (if decide (c.(ch_kind) = kind) then 1 else 0) + count_kind kind changes.
Proof. unfold count_kind. rewrite filter_cons. case_decide; cbn [length]; lia. Qed.

Lemma count_kinds changes :
  N.of_nat (length changes) =
  count_kind Change_Added changes + count_kind Change_Removed changes + count_kind Change_Updated changes.
Proof.
  induction changes as [|c changes IH]; [done|]. rewrite !count_kind_cons. cbn [length].
  destruct (ch_kind c); repeat case_decide; try done; lia.
Qed.

Lemma count_kind_has kind changes : has_change kind changes ↔ 0 < count_kind kind changes.
Proof.
  rewrite <- count_positive. fold (count_kind kind changes). rewrite N.ltb_lt. unfold u32_max. lia.
Qed.

Lemma count_kind_added changes :
  Forall (λ c, c.(ch_kind) = Change_Added) changes ↔
  count_kind Change_Removed changes = 0 ∧ count_kind Change_Updated changes = 0.
Proof.
  induction changes as [|c changes IH]; [split; [done|constructor]|].
  rewrite Forall_cons, IH, !count_kind_cons.
  destruct (ch_kind c); repeat case_decide; try done; split; try lia; naive_solver lia.
Qed.

Lemma summary_exact changes :
  N.of_nat (length changes) ≤ u32_max →
  let s := {| im_added := count_kind Change_Added changes; im_removed := count_kind Change_Removed changes;
              im_updated := count_kind Change_Updated changes |} in
  summarize_change_counts changes = s ∧
  SnapshotResourceImpactSummary_total s = N.of_nat (length changes).
Proof.
  intros Hlen s. pose proof (count_kinds changes) as Hc. split.
  - rewrite summarize_change_counts_spec. unfold s, count_kind in *. f_equal; lia.
  - unfold SnapshotResourceImpactSummary_total, s. cbn [im_added im_removed im_updated].
    rewrite <- Hc. apply N.mod_small. lia.
Qed.

Lemma has_change_app kind l1 l2 : has_change kind (l1 ++ l2) ↔ has_change kind l1 ∨ has_change kind l2.
Proof. unfold has_change. setoid_rewrite elem_of_app. naive_solver. Qed.

(** The severity of a diff is that of its changes: it is high exactly when
    something was removed or a listener updated; otherwise medium exactly when a route
    or cluster was updated, a listener added, or there are at least six changes; a low
    severity therefore means fewer than six changes, all of them added routes and
    clusters. *)
Theorem impact_severity_exact (diff : WorkspaceSnapshotDiff)
  (Hsize : N.of_nat (length diff.(df_listener_changes) + length diff.(df_route_changes) +
                     length diff.(df_upstream_cluster_changes)) ≤ u32_max) :
  let analysis := analyze_snapshot_impact diff in
  let disruptive :=
    has_change Change_Removed (diff.(df_listener_changes) ++ diff.(df_route_changes) ++
                               diff.(df_upstream_cluster_changes)) ∨
    has_change Change_Updated diff.(df_listener_changes) in
  let total := N.of_nat (length diff.(df_listener_changes) + length diff.(df_route_changes) +
                         length diff.(df_upstream_cluster_changes)) in
  analysis.(ia_total_changes) = total ∧
  (analysis.(ia_severity) = Severity_High ↔ disruptive) ∧
  (analysis.(ia_severity) = Severity_Low ↔
     total < 6 ∧ diff.(df_listener_changes) = [] ∧
     Forall (λ c, c.(ch_kind) = Change_Added)
       (diff.(df_route_changes) ++ diff.(df_upstream_cluster_changes))).
Proof.
  cbv zeta. unfold analyze_snapshot_impact.
  set (L := df_listener_changes diff) in *. set (R := df_route_changes diff) in *.
  set (U := df_upstream_cluster_changes diff) in *.
  destruct (summary_exact L ltac:(lia)) as [-> HL], (summary_exact R ltac:(lia)) as [-> HR],
    (summary_exact U ltac:(lia)) as [-> HU].
  cbv zeta. rewrite HL, HR, HU. cbn [im_added im_removed im_updated].
  replace (saturating_add u32_max (saturating_add u32_max (N.of_nat (length L)) (N.of_nat (length R)))
    (N.of_nat (length U))) with (N.of_nat (length L + length R + length U))
    by (unfold saturating_add; lia).
  assert (Hnil : L = [] ↔ N.of_nat (length L) = 0) by (destruct L; simpl; split; (done || lia)).
  rewrite !has_change_app, !count_kind_has, Forall_app, !count_kind_added, Hnil.
  pose proof (count_kinds L) as CL. pose proof (count_kinds R) as CR. pose proof (count_kinds U) as CU.
  clear HL HR HU Hnil.
  repeat match goal with |- context [if ?b then _ else _] => destruct b eqn:? end;
    cbn [ia_total_changes ia_severity]; (split; [done|]); split; split; try done; intros; lia.
Qed.

(** ** Sample snapshots *)

Definition sample_sha256 : Sha256.
Proof.
  refine {| sha256 l := take 32 (((λ b, b mod 256) <$> l) ++ repeat 0 32) |}.
  intros l. split.
  - rewrite length_take, length_app, repeat_length. lia.
  - apply Forall_take, Forall_app. split.
    + apply Forall_fmap, Forall_true. intros b. simpl. by apply N.mod_lt.
    + apply Forall_forall. intros x Hx. apply list_elem_of_In, repeat_spec in Hx. subst. lia.
Defined.

Definition route_contents : SnapshotContents := {| SnapshotContent := list RouteSnapshot |}.

Definition nothing_named : NamedSnapshotResource Empty_set :=
  {| resource_name (x : Empty_set) := match x with end;
     resource_to_vec (x : Empty_set) := match x with end |}.

(** Snapshots with routes only, which differ in their destinations. *)
Definition route_resources : @SnapshotResources route_contents :=
  @Build_SnapshotResources route_contents Empty_set Empty_set
    nothing_named nothing_named
    _ _ (λ r, Some (bytes (format_route_destinations r.(rt_destinations))))
    (λ _, []) (λ routes, routes) (λ _, []).

Definition sample_route (name cluster : string) : RouteSnapshot :=
  {| rt_name := name; rt_match_rule := MatchPathPrefix "/" [] [] [] [] [] [] [] [];
     rt_destinations := [{| rd_upstream_cluster := cluster; rd_weight := 1;
                            rd_policies := PolicyBindingConfig_default |}];
     rt_policies := PolicyBindingConfig_default; rt_upgrade := {| ug_protocols := [] |} |}.

Definition routes_snapshot (digest : string) (routes : list RouteSnapshot) :
    @WorkspaceSnapshot route_contents :=
  @Build_WorkspaceSnapshot route_contents digest "edge" WorkspaceSecurityConfig_default routes.

Definition routes_before := routes_snapshot "d1" [sample_route "api" "a"; sample_route "old" "a"].
Definition routes_after := routes_snapshot "d2" [sample_route "new" "a"; sample_route "api" "b"].

(** The changes between the two, in the order of the names. *)
Example sample_diff :
  @df_route_changes (@WorkspaceSnapshot_diff sample_sha256 route_contents route_resources
    routes_before routes_after) =
  [{| ch_name := "api"; ch_kind := Change_Updated; ch_detail := Some "destinations a:1 -> b:1" |};
   {| ch_name := "new"; ch_kind := Change_Added; ch_detail := None |};
   {| ch_name := "old"; ch_kind := Change_Removed; ch_detail := None |}].
Proof. vm_compute. reflexivity. Qed.

#[local] Existing Instances sample_sha256 route_contents route_resources.

Lemma snapshot_diff_exact_witness :
  ∃ change, change ∈ df_route_changes (@WorkspaceSnapshot_diff sample_sha256 route_contents
                       route_resources routes_before routes_after) ∧
            change.(ch_name) = "old" ∧ change.(ch_kind) = Change_Removed.
Proof.
  destruct (@snapshot_diff_exact sample_sha256 route_contents route_resources routes_before routes_after)
    as (_ & [_ Hr] & _ & _).
  - split; [constructor|]. split; [constructor|]. intros a. destruct a.
  - split; [apply (bool_decide_unpack _); vm_compute; exact I|].
    split; [apply (bool_decide_unpack _); vm_compute; exact I|].
    assert (H : Forall (λ a, Forall (λ b, resource_name a = resource_name b →
      resource_fingerprint a = resource_fingerprint b → a = b)
      (content_routes (ws_content routes_after))) (content_routes (ws_content routes_before))).
    { apply (bool_decide_unpack _). vm_compute. exact I. }
    intros a b Ha Hb. rewrite Forall_forall in H. specialize (H a Ha). rewrite Forall_forall in H.
    exact (H b Hb).
  - split; [constructor|]. split; [constructor|]. intros a. destruct a.
  - apply Hr. split.
    + apply (bool_decide_unpack _). vm_compute. exact I.
    + apply (bool_decide_unpack _). vm_compute. exact I.
Defined.

Lemma impact_severity_exact_witness :
  (analyze_snapshot_impact (@WorkspaceSnapshot_diff sample_sha256 route_contents route_resources
     routes_before routes_after)).(ia_severity) = Severity_High.
Proof.
  apply (impact_severity_exact (@WorkspaceSnapshot_diff sample_sha256 route_contents route_resources
     routes_before routes_after)).
  - rewrite <- N.leb_le. vm_compute. reflexivity.
  - left. apply count_kind_has. rewrite <- N.ltb_lt. vm_compute. reflexivity.
Defined.
