(* ===== verification/SnapshotControl.v ===== *)
(** * Publication of snapshots

    Models [crates/admin-api/src/control.rs]: the registry of published snapshot
    versions with its audit log and counters, backup and restore, the durable state
    and the preview of a diff.  The clock is an argument.  Parameters are the
    signature library and the hash, the JSON serialiser of the durable state, and the
    view of a compiled snapshot with the compiler that reads it back. *)

From S2P Require Import Prelude RustStr RustText ArtifactSecurity ConfigApplication SnapshotDiff.
Local Open Scope N_scope.
Local Open Scope rust_scope.

Definition MAX_REASON_LEN : nat := 256.
Definition SNAPSHOT_REGISTRY_STATE_VERSION : N := 1.
Definition DEFAULT_MAX_PERSISTED_AUDIT_EVENTS : nat := 128.

(** ** Requests, events and errors *)

Inductive PublishResponseKind := Response_Published | Response_Unchanged.

Inductive PublishEventKind := Event_Published | Event_Unchanged | Event_Rejected.

Record PublishEvent := {
  pe_kind : PublishEventKind; pe_version : string; pe_digest_sha256 : option string;
  pe_occurred_at_unix_ms : N; pe_detail : string }.

Record SnapshotRegistryMetrics := {
  published_versions_count : N; idempotent_publish_count : N; publish_invalid_count : N;
  publish_conflict_count : N; publish_internal_failure_count : N; backup_export_count : N;
  restore_success_count : N; restore_failure_count : N; active_registry_size : N }.

Definition SnapshotRegistryMetrics_default : SnapshotRegistryMetrics :=
  {| published_versions_count := 0; idempotent_publish_count := 0; publish_invalid_count := 0;
     publish_conflict_count := 0; publish_internal_failure_count := 0; backup_export_count := 0;
     restore_success_count := 0; restore_failure_count := 0; active_registry_size := 0 |}.

(** The counters the operations add one to. *)
Inductive RegistryCounter :=
| Count_published | Count_idempotent | Count_invalid | Count_conflict
| Count_export | Count_restored | Count_restore_failed.

#[export] Instance RegistryCounter_eq_dec : EqDecision RegistryCounter.
Proof. solve_decision. Defined.

Inductive InvalidPublishRequest :=
| Publish_EmptyVersion | Publish_InvalidVersionFormat | Publish_VersionTooLong
| Publish_InvalidSnapshotDigest | Publish_InvalidExpectedDigestFormat | Publish_DigestMismatch
| Publish_ArtifactIntegrity (error : ArtifactIntegrityError)
| EmptyPublishedBy | PublishedByTooLong | Publish_EmptyReason | Publish_ReasonTooLong.

Definition InvalidPublishRequest_fmt (e : InvalidPublishRequest) : string :=
  match e with
  | Publish_EmptyVersion => "snapshot version must not be empty"
  | Publish_InvalidVersionFormat => "snapshot version contains unsupported characters"
  | Publish_VersionTooLong => "snapshot version exceeds max length"
  | Publish_InvalidSnapshotDigest => "snapshot digest must be a lowercase sha256 hex string"
  | Publish_InvalidExpectedDigestFormat => "expected digest must be a lowercase sha256 hex string"
  | Publish_DigestMismatch => "expected digest does not match snapshot digest"
  | Publish_ArtifactIntegrity error => ArtifactIntegrityError_fmt error
  | EmptyPublishedBy => "published_by must not be empty"
  | PublishedByTooLong => "published_by exceeds max length"
  | Publish_EmptyReason => "publish reason must not be empty"
  | Publish_ReasonTooLong => "publish reason exceeds max length"
  end.

Inductive PublishConflict :=
| VersionAlreadyExists (version existing_digest_sha256 : string)
| DigestAlreadyPublished (digest_sha256 existing_version : string).

Definition PublishConflict_fmt (e : PublishConflict) : string :=
  match e with
  | VersionAlreadyExists version existing_digest_sha256 =>
      "snapshot version '" +:+ version +:+ "' already exists with digest " +:+ existing_digest_sha256
  | DigestAlreadyPublished digest_sha256 existing_version =>
      "snapshot digest " +:+ digest_sha256 +:+ " is already published as version '" +:+
      existing_version +:+ "'"
  end.

Inductive SnapshotPublicationError :=
| Publication_InvalidRequest (error : InvalidPublishRequest)
| Publication_Conflict (error : PublishConflict)
| Publication_Internal (error : Duration).

Inductive SnapshotLookupError :=
| VersionNotFound (version : string)
| DigestNotFound (digest_sha256 : string).

Inductive SnapshotDiffPreviewError :=
| NoBaselineVersion
| Lookup (error : SnapshotLookupError).

Inductive SnapshotBackupError := Backup_Internal (error : Duration).

Inductive SnapshotRestoreError := Restore_Publication (error : SnapshotPublicationError).

Definition SnapshotLookupError_fmt (e : SnapshotLookupError) : string :=
  match e with
  | VersionNotFound version => "snapshot version '" +:+ version +:+ "' was not found"
  | DigestNotFound digest_sha256 => "snapshot digest " +:+ digest_sha256 +:+ " was not found"
  end.

Definition SnapshotDiffPreviewError_fmt (e : SnapshotDiffPreviewError) : string :=
  match e with
  | NoBaselineVersion => "snapshot diff preview requires at least one published baseline"
  | Lookup error => "snapshot diff preview failed: " +:+ SnapshotLookupError_fmt error
  end.

Record SnapshotRegistryRetentionPolicy := { max_audit_events : nat }.

Definition SnapshotRegistryRetentionPolicy_default : SnapshotRegistryRetentionPolicy :=
  {| max_audit_events := DEFAULT_MAX_PERSISTED_AUDIT_EVENTS |}.

(** [check_text] is the shape of the checks of optional names and reasons. *)
Definition check_text {E} (value : option string) (max_len : nat) (empty too_long : E) :
    Result unit E :=
  match value with
  | Some value =>
      let value := trim value in
      if is_empty value then Err empty
      else if decide (max_len < length (bytes value))%nat then Err too_long else Ok tt
  | None => Ok tt
  end.

(** And of a version. *)
Definition check_version {E} (version : string) (empty too_long invalid : E) : Result unit E :=
  let version := trim version in
  if is_empty version then Err empty
  else if decide (MAX_VERSION_LEN < length (bytes version))%nat then Err too_long
  else if negb (forallb is_version_byte (bytes version)) then Err invalid else Ok tt.

Definition prune_publish_events (events : list PublishEvent) (keep : nat) :
    list PublishEvent :=
  if decide (keep = 0)%nat then [] else drop (length events - keep) events.

Record SnapshotDiffPreview := {
  dp_base_version : string; dp_base_digest_sha256 : string; dp_candidate_digest_sha256 : string;
  dp_snapshot_diff : WorkspaceSnapshotDiff; dp_impact_analysis : SnapshotImpactAnalysis }.

Section control.
Context {Crypto : Ed25519} {Hash : Sha256} {Contents : SnapshotContents}
  {Resources : SnapshotResources}.

Record SnapshotPublishRequest := {
  pr_version : string; pr_snapshot : WorkspaceSnapshot;
  pr_artifact_attestation : option ArtifactAttestation;
  pr_expected_digest_sha256 : option string; pr_published_by : option string;
  pr_reason : option string }.

Record PublishedSnapshotRecord := {
  ps_version : string; ps_workspace_name : string; ps_digest_sha256 : string;
  ps_artifact_attestation : option ArtifactAttestation; ps_published_at_unix_ms : N;
  ps_published_by : option string; ps_reason : option string; ps_snapshot : WorkspaceSnapshot }.

Record PublishedSnapshotSummary := {
  pm_version : string; pm_workspace_name : string; pm_digest_sha256 : string;
  pm_published_at_unix_ms : N; pm_published_by : option string }.

Definition PublishedSnapshotSummary_from (r : PublishedSnapshotRecord) : PublishedSnapshotSummary :=
  {| pm_version := r.(ps_version); pm_workspace_name := r.(ps_workspace_name);
     pm_digest_sha256 := r.(ps_digest_sha256);
     pm_published_at_unix_ms := r.(ps_published_at_unix_ms);
     pm_published_by := r.(ps_published_by) |}.

Record PublishResponse := {
  pp_kind : PublishResponseKind; pp_record : PublishedSnapshotRecord;
  pp_previous_version : option string; pp_snapshot_diff : option WorkspaceSnapshotDiff }.

Record SnapshotBackupBundle := {
  bb_exported_at_unix_ms : N; bb_records : list PublishedSnapshotRecord }.

Record SnapshotControlService := {
  sc_records_by_version : gmap string PublishedSnapshotRecord;
  sc_version_by_digest : gmap string string;
  sc_history : list string;
  sc_audit_events : list PublishEvent;
  sc_metrics : SnapshotRegistryMetrics }.

Definition SnapshotControlService_new : SnapshotControlService :=
  {| sc_records_by_version := ∅; sc_version_by_digest := ∅; sc_history := [];
     sc_audit_events := []; sc_metrics := SnapshotRegistryMetrics_default |}.

Definition validate_publish_request (request : SnapshotPublishRequest) :
    Result unit InvalidPublishRequest :=
  let? _ := check_version request.(pr_version) Publish_EmptyVersion Publish_VersionTooLong
              Publish_InvalidVersionFormat in
  let digest_sha256 := request.(pr_snapshot).(ws_digest_sha256) in
  if negb (is_lower_hex_digest digest_sha256) then Err Publish_InvalidSnapshotDigest
  else
    let? _ := match request.(pr_expected_digest_sha256) with
              | Some expected =>
                  if negb (is_lower_hex_digest expected) then Err Publish_InvalidExpectedDigestFormat
                  else if decide (expected ≠ digest_sha256) then Err Publish_DigestMismatch else Ok tt
              | None => Ok tt
              end in
    let? _ := match verify_snapshot_artifact_integrity request.(pr_snapshot)
                      request.(pr_artifact_attestation) with
              | Ok _ => Ok tt
              | Err error => Err (Publish_ArtifactIntegrity error)
              end in
    let? _ := check_text request.(pr_published_by) MAX_ACTOR_LEN EmptyPublishedBy PublishedByTooLong in
    check_text request.(pr_reason) MAX_REASON_LEN Publish_EmptyReason Publish_ReasonTooLong.

(** The counters, changed by the function. *)
Definition sc_set_metrics (s : SnapshotControlService)
    (f : SnapshotRegistryMetrics → SnapshotRegistryMetrics) : SnapshotControlService :=
  {| sc_records_by_version := s.(sc_records_by_version);
     sc_version_by_digest := s.(sc_version_by_digest); sc_history := s.(sc_history);
     sc_audit_events := s.(sc_audit_events); sc_metrics := f s.(sc_metrics) |}.

Definition count_metric (c : RegistryCounter) (m : SnapshotRegistryMetrics) :
    SnapshotRegistryMetrics :=
  let bump c' n := if decide (c = c') then saturating_add u64_max n 1 else n in
  {| published_versions_count := bump Count_published m.(published_versions_count);
     idempotent_publish_count := bump Count_idempotent m.(idempotent_publish_count);
     publish_invalid_count := bump Count_invalid m.(publish_invalid_count);
     publish_conflict_count := bump Count_conflict m.(publish_conflict_count);
     publish_internal_failure_count := m.(publish_internal_failure_count);
     backup_export_count := bump Count_export m.(backup_export_count);
     restore_success_count := bump Count_restored m.(restore_success_count);
     restore_failure_count := bump Count_restore_failed m.(restore_failure_count);
     active_registry_size := m.(active_registry_size) |}.

Definition set_registry_size (n : N) (m : SnapshotRegistryMetrics) : SnapshotRegistryMetrics :=
  {| published_versions_count := m.(published_versions_count);
     idempotent_publish_count := m.(idempotent_publish_count);
     publish_invalid_count := m.(publish_invalid_count);
     publish_conflict_count := m.(publish_conflict_count);
     publish_internal_failure_count := m.(publish_internal_failure_count);
     backup_export_count := m.(backup_export_count);
     restore_success_count := m.(restore_success_count);
     restore_failure_count := m.(restore_failure_count); active_registry_size := n |}.

Definition set_published_versions (n : N) (m : SnapshotRegistryMetrics) : SnapshotRegistryMetrics :=
  {| published_versions_count := n;
     idempotent_publish_count := m.(idempotent_publish_count);
     publish_invalid_count := m.(publish_invalid_count);
     publish_conflict_count := m.(publish_conflict_count);
     publish_internal_failure_count := m.(publish_internal_failure_count);
     backup_export_count := m.(backup_export_count);
     restore_success_count := m.(restore_success_count);
     restore_failure_count := m.(restore_failure_count);
     active_registry_size := m.(active_registry_size) |}.

Definition registry_size (s : SnapshotControlService) : N := N.of_nat (size s.(sc_records_by_version)).

Definition SnapshotControlService_push_event (s : SnapshotControlService) (kind : PublishEventKind)
    (version : string) (digest_sha256 : option string) (occurred_at_unix_ms : N) (detail : string) :
    SnapshotControlService :=
  {| sc_records_by_version := s.(sc_records_by_version);
     sc_version_by_digest := s.(sc_version_by_digest); sc_history := s.(sc_history);
     sc_audit_events := s.(sc_audit_events) ++
       [{| pe_kind := kind; pe_version := version; pe_digest_sha256 := digest_sha256;
           pe_occurred_at_unix_ms := occurred_at_unix_ms; pe_detail := detail |}];
     sc_metrics := set_registry_size (registry_size s) s.(sc_metrics) |}.

(** The three insertions that add a record. *)
Definition add_record (s : SnapshotControlService) (record : PublishedSnapshotRecord) :
    SnapshotControlService :=
  {| sc_records_by_version := <[record.(ps_version) := record]> s.(sc_records_by_version);
     sc_version_by_digest := <[record.(ps_digest_sha256) := record.(ps_version)]>
                               s.(sc_version_by_digest);
     sc_history := s.(sc_history) ++ [record.(ps_version)];
     sc_audit_events := s.(sc_audit_events); sc_metrics := s.(sc_metrics) |}.

Definition latest_record (s : SnapshotControlService) : option PublishedSnapshotRecord :=
  version ← last s.(sc_history); s.(sc_records_by_version) !! version.

(** The acceptance of a new version. *)
Definition publish_new (s : SnapshotControlService) (request : SnapshotPublishRequest)
    (published_at_unix_ms : N) : SnapshotControlService * PublishResponse :=
  let digest_sha256 := request.(pr_snapshot).(ws_digest_sha256) in
  let previous_record := latest_record s in
  let record := {| ps_version := request.(pr_version);
                   ps_workspace_name := request.(pr_snapshot).(ws_workspace_name);
                   ps_digest_sha256 := digest_sha256;
                   ps_artifact_attestation := request.(pr_artifact_attestation);
                   ps_published_at_unix_ms := published_at_unix_ms;
                   ps_published_by := request.(pr_published_by); ps_reason := request.(pr_reason);
                   ps_snapshot := request.(pr_snapshot) |} in
  let previous_version := ps_version <$> previous_record in
  let snapshot_diff :=
    (λ previous, WorkspaceSnapshot_diff previous.(ps_snapshot) record.(ps_snapshot)) <$>
      previous_record in
  let s := add_record s record in
  let s := sc_set_metrics s (λ m, set_registry_size (registry_size s) (count_metric Count_published m)) in
  let s := SnapshotControlService_push_event s Event_Published request.(pr_version)
             (Some digest_sha256) published_at_unix_ms
             (format_publish_detail previous_version snapshot_diff) in
  (s, {| pp_kind := Response_Published; pp_record := record; pp_previous_version := previous_version;
         pp_snapshot_diff := snapshot_diff |}).

Definition SnapshotControlService_publish_at (s : SnapshotControlService)
    (request : SnapshotPublishRequest) (published_at_unix_ms : N) :
    SnapshotControlService * Result PublishResponse SnapshotPublicationError :=
  let digest_sha256 := request.(pr_snapshot).(ws_digest_sha256) in
  let reject s detail :=
    SnapshotControlService_push_event s Event_Rejected request.(pr_version) (Some digest_sha256)
      published_at_unix_ms detail in
  let conflict error :=
    (reject (sc_set_metrics s (count_metric Count_conflict)) (PublishConflict_fmt error),
     Err (Publication_Conflict error)) in
  match validate_publish_request request with
  | Err error =>
      (reject (sc_set_metrics s (count_metric Count_invalid)) (InvalidPublishRequest_fmt error),
       Err (Publication_InvalidRequest error))
  | Ok _ =>
      match s.(sc_records_by_version) !! request.(pr_version) with
      | Some existing =>
          if decide (existing.(ps_digest_sha256) = digest_sha256) then
            (SnapshotControlService_push_event (sc_set_metrics s (count_metric Count_idempotent))
               Event_Unchanged request.(pr_version) (Some digest_sha256) published_at_unix_ms
               "idempotent duplicate publish ignored",
             Ok {| pp_kind := Response_Unchanged; pp_record := existing;
                   pp_previous_version := None; pp_snapshot_diff := None |})
          else conflict (VersionAlreadyExists existing.(ps_version) existing.(ps_digest_sha256))
      | None =>
          match s.(sc_version_by_digest) !! digest_sha256 with
          | Some existing_version => conflict (DigestAlreadyPublished digest_sha256 existing_version)
          | None => let '(s, response) := publish_new s request published_at_unix_ms in (s, Ok response)
          end
      end
  end.

Definition SnapshotControlService_publish (s : SnapshotControlService)
    (request : SnapshotPublishRequest) (clock : Result Duration Duration) :
    SnapshotControlService * Result PublishResponse SnapshotPublicationError :=
  match current_unix_ms clock with
  | Err error => (s, Err (Publication_Internal error))
  | Ok published_at_unix_ms => SnapshotControlService_publish_at s request published_at_unix_ms
  end.

(** ** Backup *)

(** The records in the order of their publication. *)
Definition records_in_order (s : SnapshotControlService) : list PublishedSnapshotRecord :=
  omap (λ version, s.(sc_records_by_version) !! version) s.(sc_history).

Definition SnapshotControlService_export_backup_at (s : SnapshotControlService)
    (exported_at_unix_ms : N) : SnapshotControlService * SnapshotBackupBundle :=
  (sc_set_metrics s (count_metric Count_export),
   {| bb_exported_at_unix_ms := exported_at_unix_ms; bb_records := records_in_order s |}).

Definition SnapshotControlService_export_backup (s : SnapshotControlService)
    (clock : Result Duration Duration) :
    SnapshotControlService * Result SnapshotBackupBundle SnapshotBackupError :=
  match current_unix_ms clock with
  | Err error => (s, Err (Backup_Internal error))
  | Ok exported_at_unix_ms =>
      let '(s, bundle) := SnapshotControlService_export_backup_at s exported_at_unix_ms in (s, Ok bundle)
  end.

(** The request that [restore_backup] and [restore_record] make of a record. *)
Definition request_of_record (r : PublishedSnapshotRecord) : SnapshotPublishRequest :=
  {| pr_version := r.(ps_version); pr_snapshot := r.(ps_snapshot);
     pr_artifact_attestation := r.(ps_artifact_attestation);
     pr_expected_digest_sha256 := Some r.(ps_digest_sha256);
     pr_published_by := r.(ps_published_by); pr_reason := r.(ps_reason) |}.

Fixpoint restore_records (s : SnapshotControlService) (records : list PublishedSnapshotRecord) :
    SnapshotControlService * Result unit SnapshotRestoreError :=
  match records with
  | [] => (sc_set_metrics s (count_metric Count_restored), Ok tt)
  | record :: records =>
      match SnapshotControlService_publish_at s (request_of_record record)
              record.(ps_published_at_unix_ms) with
      | (s, Err error) => (sc_set_metrics s (count_metric Count_restore_failed), Err (Restore_Publication error))
      | (s, Ok _) => restore_records s records
      end
  end.

Definition SnapshotControlService_restore_backup (s : SnapshotControlService)
    (backup : SnapshotBackupBundle) : SnapshotControlService * Result unit SnapshotRestoreError :=
  restore_records s backup.(bb_records).

Definition SnapshotControlService_restore_from_backup (backup : SnapshotBackupBundle) :
    Result SnapshotControlService SnapshotRestoreError :=
  let '(service, r) := SnapshotControlService_restore_backup SnapshotControlService_new backup in
  let? _ := r in Ok service.

(** ** Queries *)

Definition SnapshotControlService_list_versions (s : SnapshotControlService) :
    list PublishedSnapshotSummary :=
  PublishedSnapshotSummary_from <$>
    omap (λ version, s.(sc_records_by_version) !! version) (rev s.(sc_history)).

Definition SnapshotControlService_get_version (s : SnapshotControlService) (version : string) :
    Result PublishedSnapshotRecord SnapshotLookupError :=
  match s.(sc_records_by_version) !! version with
  | Some record => Ok record
  | None => Err (VersionNotFound version)
  end.

Definition SnapshotControlService_get_digest (s : SnapshotControlService) (digest_sha256 : string) :
    Result PublishedSnapshotRecord SnapshotLookupError :=
  match s.(sc_version_by_digest) !! digest_sha256 with
  | None => Err (DigestNotFound digest_sha256)
  | Some version => SnapshotControlService_get_version s version
  end.

Definition SnapshotControlService_preview_diff (s : SnapshotControlService)
    (base_version : option string) (candidate : WorkspaceSnapshot) :
    Result SnapshotDiffPreview SnapshotDiffPreviewError :=
  let? baseline := match base_version with
                   | Some version =>
                       match SnapshotControlService_get_version s version with
                       | Ok record => Ok record
                       | Err error => Err (Lookup error)
                       end
                   | None =>
                       match latest_record s with
                       | Some record => Ok record
                       | None => Err NoBaselineVersion
                       end
                   end in
  let snapshot_diff := WorkspaceSnapshot_diff baseline.(ps_snapshot) candidate in
  Ok {| dp_base_version := baseline.(ps_version);
        dp_base_digest_sha256 := baseline.(ps_digest_sha256);
        dp_candidate_digest_sha256 := candidate.(ws_digest_sha256);
        dp_snapshot_diff := snapshot_diff;
        dp_impact_analysis := analyze_snapshot_impact snapshot_diff |}.

(** ** Durable state *)

(** The view of a snapshot and the compiler that reads it back, of the configuration model:
    any functions, of which nothing is assumed. *)
Class SnapshotViews := {
  WorkspaceSnapshotView : Type;
  SnapshotCompileError : Type;
  snapshot_view : WorkspaceSnapshot → WorkspaceSnapshotView;
  snapshot_from_view : WorkspaceSnapshotView → Result WorkspaceSnapshot SnapshotCompileError
}.
Context {Views : SnapshotViews}.

Record PublishedSnapshotRecordDurable := {
  pd_version : string; pd_workspace_name : string; pd_digest_sha256 : string;
  pd_artifact_attestation : option ArtifactAttestation; pd_published_at_unix_ms : N;
  pd_published_by : option string; pd_reason : option string; pd_snapshot : WorkspaceSnapshotView }.

Definition PublishedSnapshotRecordDurable_from (r : PublishedSnapshotRecord) :
    PublishedSnapshotRecordDurable :=
  {| pd_version := r.(ps_version); pd_workspace_name := r.(ps_workspace_name);
     pd_digest_sha256 := r.(ps_digest_sha256);
     pd_artifact_attestation := r.(ps_artifact_attestation);
     pd_published_at_unix_ms := r.(ps_published_at_unix_ms);
     pd_published_by := r.(ps_published_by); pd_reason := r.(ps_reason);
     pd_snapshot := snapshot_view r.(ps_snapshot) |}.

Record SnapshotRegistryDurableState := {
  ds_records : list PublishedSnapshotRecordDurable; ds_audit_events : list PublishEvent }.

(** The serialiser of the durable state, with its errors. *)
Class DurableJson := {
  JsonError : Type;
  to_string_pretty : SnapshotRegistryDurableState → Result string JsonError;
  from_json_str : string → Result SnapshotRegistryDurableState JsonError
}.
Context {Json : DurableJson}.

Record SnapshotRegistryDurableEnvelope := {
  en_version : N; en_payload_json : string; en_payload_sha256 : string }.

Inductive SnapshotRegistryStateError :=
| State_Serialize (error : JsonError)
| State_Deserialize (error : JsonError)
| State_UnsupportedVersion (version : N)
| State_ChecksumMismatch
| State_SnapshotCompile (error : SnapshotCompileError)
| State_Publication (error : SnapshotPublicationError).

Definition sha256_hex (l : list N) : string := compiler_encode_hex (sha256 l).

Definition try_into_record (r : PublishedSnapshotRecordDurable) :
    Result PublishedSnapshotRecord SnapshotRegistryStateError :=
  match snapshot_from_view r.(pd_snapshot) with
  | Err error => Err (State_SnapshotCompile error)
  | Ok snapshot =>
      Ok {| ps_version := r.(pd_version); ps_workspace_name := r.(pd_workspace_name);
            ps_digest_sha256 := r.(pd_digest_sha256);
            ps_artifact_attestation := r.(pd_artifact_attestation);
            ps_published_at_unix_ms := r.(pd_published_at_unix_ms);
            ps_published_by := r.(pd_published_by); ps_reason := r.(pd_reason);
            ps_snapshot := snapshot |}
  end.

Definition export_durable_state_with_retention (s : SnapshotControlService)
    (retention : SnapshotRegistryRetentionPolicy) :
    Result SnapshotRegistryDurableEnvelope SnapshotRegistryStateError :=
  let payload := {| ds_records := PublishedSnapshotRecordDurable_from <$> records_in_order s;
                    ds_audit_events := prune_publish_events s.(sc_audit_events) retention.(max_audit_events) |} in
  match to_string_pretty payload with
  | Err error => Err (State_Serialize error)
  | Ok payload_json =>
      Ok {| en_version := SNAPSHOT_REGISTRY_STATE_VERSION; en_payload_json := payload_json;
            en_payload_sha256 := sha256_hex (bytes payload_json) |}
  end.

Definition restore_record (s : SnapshotControlService) (record : PublishedSnapshotRecord) :
    Result SnapshotControlService SnapshotPublicationError :=
  match validate_publish_request (request_of_record record) with
  | Err error => Err (Publication_InvalidRequest error)
  | Ok _ =>
      match s.(sc_records_by_version) !! record.(ps_version) with
      | Some existing =>
          Err (Publication_Conflict
                 (VersionAlreadyExists existing.(ps_version) existing.(ps_digest_sha256)))
      | None =>
          match s.(sc_version_by_digest) !! record.(ps_digest_sha256) with
          | Some existing_version =>
              Err (Publication_Conflict
                     (DigestAlreadyPublished record.(ps_digest_sha256) existing_version))
          | None =>
              let s := add_record s record in
              Ok (sc_set_metrics s (λ m, set_registry_size (registry_size s)
                    (set_published_versions (N.min u64_max (registry_size s)) m)))
          end
      end
  end.

Fixpoint restore_durable_records (s : SnapshotControlService)
    (records : list PublishedSnapshotRecordDurable) :
    Result SnapshotControlService SnapshotRegistryStateError :=
  match records with
  | [] => Ok s
  | record :: records =>
      let? record := try_into_record record in
      match restore_record s record with
      | Err error => Err (State_Publication error)
      | Ok s => restore_durable_records s records
      end
  end.

Definition restore_durable_state_with_retention (envelope : SnapshotRegistryDurableEnvelope)
    (retention : SnapshotRegistryRetentionPolicy) : Result SnapshotControlService SnapshotRegistryStateError :=
  if decide (envelope.(en_version) ≠ SNAPSHOT_REGISTRY_STATE_VERSION)
  then Err (State_UnsupportedVersion envelope.(en_version))
  else if decide (sha256_hex (bytes envelope.(en_payload_json)) ≠ envelope.(en_payload_sha256))
  then Err State_ChecksumMismatch
  else
    match from_json_str envelope.(en_payload_json) with
    | Err error => Err (State_Deserialize error)
    | Ok payload =>
        let? service := restore_durable_records SnapshotControlService_new payload.(ds_records) in
        let service :=
          {| sc_records_by_version := service.(sc_records_by_version);
             sc_version_by_digest := service.(sc_version_by_digest);
             sc_history := service.(sc_history);
             sc_audit_events := prune_publish_events payload.(ds_audit_events) retention.(max_audit_events);
             sc_metrics := service.(sc_metrics) |} in
        Ok (sc_set_metrics service (λ m, set_registry_size (registry_size service)
              (count_metric Count_restored m)))
    end.

Definition export_durable_state (s : SnapshotControlService) :
    Result SnapshotRegistryDurableEnvelope SnapshotRegistryStateError :=
  export_durable_state_with_retention s SnapshotRegistryRetentionPolicy_default.

Definition restore_durable_state (envelope : SnapshotRegistryDurableEnvelope) :
    Result SnapshotControlService SnapshotRegistryStateError :=
  restore_durable_state_with_retention envelope SnapshotRegistryRetentionPolicy_default.

(** ** Abstract registry: an append-only log of records *)

Definition record_of_publish (request : SnapshotPublishRequest) (at_ms : N) : PublishedSnapshotRecord :=
  {| ps_version := request.(pr_version);
     ps_workspace_name := request.(pr_snapshot).(ws_workspace_name);
     ps_digest_sha256 := request.(pr_snapshot).(ws_digest_sha256);
     ps_artifact_attestation := request.(pr_artifact_attestation);
     ps_published_at_unix_ms := at_ms; ps_published_by := request.(pr_published_by);
     ps_reason := request.(pr_reason); ps_snapshot := request.(pr_snapshot) |}.

Definition log_version (log : list PublishedSnapshotRecord) (version : string) :=
  List.find (λ r, bool_decide (r.(ps_version) = version)) log.

Definition log_digest (log : list PublishedSnapshotRecord) (digest : string) :=
  List.find (λ r, bool_decide (r.(ps_digest_sha256) = digest)) log.

Definition log_publish (log : list PublishedSnapshotRecord) (request : SnapshotPublishRequest)
    (at_ms : N) : list PublishedSnapshotRecord * Result PublishResponse SnapshotPublicationError :=
  let record := record_of_publish request at_ms in
  match validate_publish_request request, log_version log request.(pr_version),
        log_digest log record.(ps_digest_sha256) with
  | Err error, _, _ => (log, Err (Publication_InvalidRequest error))
  | Ok _, Some r, _ =>
      (log, if decide (r.(ps_digest_sha256) = record.(ps_digest_sha256))
            then Ok {| pp_kind := Response_Unchanged; pp_record := r; pp_previous_version := None;
                       pp_snapshot_diff := None |}
            else Err (Publication_Conflict
                        (VersionAlreadyExists r.(ps_version) r.(ps_digest_sha256))))
  | Ok _, None, Some r =>
      (log, Err (Publication_Conflict
                   (DigestAlreadyPublished record.(ps_digest_sha256) r.(ps_version))))
  | Ok _, None, None =>
      (log ++ [record],
       Ok {| pp_kind := Response_Published; pp_record := record;
             pp_previous_version := ps_version <$> last log;
             pp_snapshot_diff := (λ r, WorkspaceSnapshot_diff r.(ps_snapshot) request.(pr_snapshot))
                                   <$> last log |})
  end.

Definition PublishOutcome := Result PublishResponse SnapshotPublicationError.

Fixpoint publish_all (s : SnapshotControlService) (calls : list (SnapshotPublishRequest * N)) :
    SnapshotControlService * list PublishOutcome :=
  match calls with
  | [] => (s, [])
  | (request, at_ms) :: calls =>
      let '(s, r) := SnapshotControlService_publish_at s request at_ms in
      let '(s, rs) := publish_all s calls in (s, r :: rs)
  end.

Fixpoint log_publish_all (log : list PublishedSnapshotRecord)
    (calls : list (SnapshotPublishRequest * N)) :
    list PublishedSnapshotRecord * list PublishOutcome :=
  match calls with
  | [] => (log, [])
  | (request, at_ms) :: calls =>
      let '(log, r) := log_publish log request at_ms in
      let '(log, rs) := log_publish_all log calls in (log, r :: rs)
  end.

(** A record as a publication leaves it. *)
Definition published_ok (r : PublishedSnapshotRecord) : Prop :=
  validate_publish_request (request_of_record r) = Ok tt ∧
  record_of_publish (request_of_record r) r.(ps_published_at_unix_ms) = r.

(** The three indexes hold the log. *)
Record registry_is (s : SnapshotControlService) (log : list PublishedSnapshotRecord) : Prop := {
  ri_history : s.(sc_history) = ps_version <$> log;
  ri_records : ∀ v, s.(sc_records_by_version) !! v = log_version log v;
  ri_digests : ∀ d, s.(sc_version_by_digest) !! d = ps_version <$> log_digest log d;
  ri_versions : NoDup (ps_version <$> log);
  ri_distinct : NoDup (ps_digest_sha256 <$> log);
  ri_ok : Forall published_ok log
}.

(** What an audit event says about the outcome of its call. *)
Definition event_kind_of (r : PublishOutcome) : PublishEventKind :=
  match r with
  | Ok response => match response.(pp_kind) with
                   | Response_Published => Event_Published | Response_Unchanged => Event_Unchanged
                   end
  | Err _ => Event_Rejected
  end.

(** ** Theorems *)

Lemma find_snoc {A} (f : A → bool) l x :
  List.find f (l ++ [x]) = match List.find f l with Some y => Some y | None => if f x then Some x else None end.
Proof. induction l as [|y l IH]; cbn; [done|]. by destruct (f y). Qed.

Lemma find_key_None {A} (key : A → string) l k :
  List.find (λ r, bool_decide (key r = k)) l = None ↔ k ∉ key <$> l.
Proof.
  induction l as [|r l IH]; cbn; [set_solver|]. case_bool_decide as E; [set_solver|].
  rewrite IH, not_elem_of_cons. naive_solver.
Qed.

Lemma find_key_Some {A} (key : A → string) l k r :
  List.find (λ r, bool_decide (key r = k)) l = Some r → r ∈ l ∧ key r = k.
Proof.
  intros H. apply List.find_some in H as [Hin Hk].
  split; [by apply list_elem_of_In | by apply bool_decide_eq_true in Hk].
Qed.

Lemma find_key_NoDup {A} (key : A → string) l r :
  NoDup (key <$> l) → r ∈ l → List.find (λ r', bool_decide (key r' = key r)) l = Some r.
Proof.
  induction l as [|r' l IH]; cbn; intros Hnd Hin; [set_solver|].
  apply NoDup_cons in Hnd as [Hni Hnd]. apply elem_of_cons in Hin as [-> |Hin].
  { by rewrite bool_decide_true. }
  rewrite bool_decide_false; [by apply IH|]. intros E. apply Hni. rewrite E.
  by apply list_elem_of_fmap_2.
Qed.

Lemma validate_ok request :
  validate_publish_request request = Ok tt →
  is_lower_hex_digest request.(pr_snapshot).(ws_digest_sha256) = true ∧
  validate_publish_request
    {| pr_version := request.(pr_version); pr_snapshot := request.(pr_snapshot);
       pr_artifact_attestation := request.(pr_artifact_attestation);
       pr_expected_digest_sha256 := Some request.(pr_snapshot).(ws_digest_sha256);
       pr_published_by := request.(pr_published_by); pr_reason := request.(pr_reason) |} = Ok tt.
Proof.
  unfold validate_publish_request. cbn. destruct (check_version _ _ _ _) as [[]|]; [|done].
  destruct (is_lower_hex_digest (ws_digest_sha256 _)) eqn:E; cbn; [|done].
  rewrite decide_False by (intros F; by apply F). intros H. split; [done|].
  destruct (pr_expected_digest_sha256 request) as [e|]; [|done].
  destruct (is_lower_hex_digest e); cbn in H; [|done]. by case_decide.
Qed.

Lemma record_of_publish_ok request at_ms :
  validate_publish_request request = Ok tt → published_ok (record_of_publish request at_ms).
Proof. intros [_ H]%validate_ok. by split. Qed.

Lemma registry_is_new : registry_is SnapshotControlService_new [].
Proof. split; try done; try constructor; intros; by rewrite lookup_empty. Qed.

(** Only the three indexes matter. *)
Lemma registry_is_indexes s s' log :
  s'.(sc_history) = s.(sc_history) → s'.(sc_records_by_version) = s.(sc_records_by_version) →
  s'.(sc_version_by_digest) = s.(sc_version_by_digest) → registry_is s log → registry_is s' log.
Proof. intros E1 E2 E3 []. by split; rewrite ?E1, ?E2, ?E3. Qed.

(** The indexes hold the records, whatever these contain. *)
Record indexes_hold (s : SnapshotControlService) (log : list PublishedSnapshotRecord) : Prop := {
  ih_history : s.(sc_history) = ps_version <$> log;
  ih_records : ∀ v, s.(sc_records_by_version) !! v = log_version log v;
  ih_digests : ∀ d, s.(sc_version_by_digest) !! d = ps_version <$> log_digest log d
}.

Lemma indexes_hold_add s log r :
  indexes_hold s log → log_version log r.(ps_version) = None →
  log_digest log r.(ps_digest_sha256) = None → indexes_hold (add_record s r) (log ++ [r]).
Proof.
  intros [] Hv Hd. split; cbn; unfold log_version, log_digest in *.
  - by rewrite fmap_app, ih_history0.
  - intros v. rewrite find_snoc. case_bool_decide as E.
    + subst v. by rewrite lookup_insert_eq, Hv.
    + rewrite lookup_insert_ne by done. rewrite ih_records0. by case_match.
  - intros d. rewrite find_snoc. case_bool_decide as E.
    + subst d. by rewrite lookup_insert_eq, Hd.
    + rewrite lookup_insert_ne by done. rewrite ih_digests0. by case_match.
Qed.

Lemma registry_indexes s log : registry_is s log → indexes_hold s log.
Proof. intros []. by split. Qed.

Lemma registry_is_add s log r :
  registry_is s log → published_ok r → log_version log r.(ps_version) = None →
  log_digest log r.(ps_digest_sha256) = None → registry_is (add_record s r) (log ++ [r]).
Proof.
  intros Hs Hok Hv Hd. destruct (indexes_hold_add s log r (registry_indexes _ _ Hs) Hv Hd) as [??].
  unfold log_version, log_digest in Hv, Hd.
  apply (find_key_None ps_version) in Hv. apply (find_key_None ps_digest_sha256) in Hd.
  destruct Hs. split; try done.
  - rewrite fmap_app. apply NoDup_app. split_and!; [done| |apply NoDup_singleton]. cbn. set_solver.
  - rewrite fmap_app. apply NoDup_app. split_and!; [done| |apply NoDup_singleton]. cbn. set_solver.
  - apply Forall_app. split; [done|]. by apply Forall_singleton.
Qed.

Lemma registry_latest s log : registry_is s log → latest_record s = last log.
Proof.
  intros []. unfold latest_record. rewrite ri_history0, fmap_last.
  destruct (last log) as [r|] eqn:E; [|done]. cbn. rewrite ri_records0.
  apply find_key_NoDup; [done|]. by apply last_Some_elem_of.
Qed.

(** One publication: the same answer as the log, one event that tells it, the size. *)
Lemma publish_at_refines s log request at_ms s' r log' r' :
  registry_is s log →
  SnapshotControlService_publish_at s request at_ms = (s', r) →
  log_publish log request at_ms = (log', r') →
  r = r' ∧ registry_is s' log' ∧ (∃ new, log' = log ++ new) ∧
  s'.(sc_metrics).(active_registry_size) = registry_size s' ∧
  ∃ detail, s'.(sc_audit_events) = s.(sc_audit_events) ++
    [{| pe_kind := event_kind_of r; pe_version := request.(pr_version);
        pe_digest_sha256 := Some request.(pr_snapshot).(ws_digest_sha256);
        pe_occurred_at_unix_ms := at_ms; pe_detail := detail |}].
Proof.
  intros Hs. unfold SnapshotControlService_publish_at, log_publish. cbn [ps_digest_sha256 record_of_publish].
  rewrite (ri_records _ _ Hs), (ri_digests _ _ Hs).
  assert (Hnil : ∃ new, log = log ++ new) by (exists []; by rewrite app_nil_r).
  destruct (validate_publish_request request) as [[]|e] eqn:Ev.
  2:{ intros [= <- <-] [= <- <-]. split_and!; eauto. by eapply registry_is_indexes; [..|exact Hs]. }
  destruct (log_version log _) as [x|] eqn:Ex.
  { case_decide; intros [= <- <-] [= <- <-]; (split_and!; eauto);
      by eapply registry_is_indexes; [..|exact Hs]. }
  destruct (log_digest log _) as [x|] eqn:Ed; cbn [fmap option_fmap option_map].
  { intros [= <- <-] [= <- <-]. split_and!; eauto. by eapply registry_is_indexes; [..|exact Hs]. }
  unfold publish_new. rewrite (registry_latest _ _ Hs).
  intros [= <- <-] [= <- <-]. split_and!; eauto.
  eapply registry_is_indexes, (registry_is_add s log (record_of_publish request at_ms)); try done.
  by apply record_of_publish_ok.
Qed.

Lemma publish_all_refines calls : ∀ s log s' rs log' rs',
  registry_is s log → s.(sc_metrics).(active_registry_size) = registry_size s →
  publish_all s calls = (s', rs) → log_publish_all log calls = (log', rs') →
  rs = rs' ∧ registry_is s' log' ∧ (∃ new, log' = log ++ new) ∧
  s'.(sc_metrics).(active_registry_size) = registry_size s' ∧
  ∃ events, s'.(sc_audit_events) = s.(sc_audit_events) ++ events ∧
    pe_kind <$> events = event_kind_of <$> rs ∧
    pe_version <$> events = (λ call, call.1.(pr_version)) <$> calls.
Proof.
  induction calls as [|[request at_ms] calls IH]; intros s log s' rs log' rs' Hs Hsize; cbn.
  { intros [= <- <-] [= <- <-]. split_and!; try done; exists []; by rewrite app_nil_r. }
  destruct (SnapshotControlService_publish_at _ _ _) as [s1 r] eqn:E1.
  destruct (log_publish _ _ _) as [log1 r1] eqn:E2.
  destruct (publish_all s1 calls) as [s2 rs2] eqn:E3.
  destruct (log_publish_all log1 calls) as [log2 rs2'] eqn:E4.
  intros [= <- <-] [= <- <-].
  destruct (publish_at_refines _ _ _ _ _ _ _ _ Hs E1 E2) as (-> & Hs1 & [n1 ->] & Hz & d & Hd).
  destruct (IH _ _ _ _ _ _ Hs1 Hz E3 E4) as (-> & Hs2 & [n2 ->] & Hz2 & ev & Hev & Hk & Hv).
  split_and!; try done; [exists (n1 ++ n2); by rewrite app_assoc|].
  eexists (_ :: ev). rewrite Hev, Hd, <- app_assoc. cbn. rewrite Hk, Hv. by split_and!.
Qed.

(** C22: any sequence of publications answers as an append-only log of records does:
    a request is refused as invalid, answered as a repetition, refused for its version
    or its digest, or appended, in this order of checks; versions and digests of the
    log are distinct, the three indexes hold it, each call leaves one audit event of
    the kind of its answer, and the size reported is the number of versions. *)
Theorem registry_refines_log (calls : list (SnapshotPublishRequest * N)) :
  let '(s, rs) := publish_all SnapshotControlService_new calls in
  let '(log, rs') := log_publish_all [] calls in
  rs = rs' ∧ registry_is s log ∧
  s.(sc_metrics).(active_registry_size) = registry_size s ∧
  pe_kind <$> s.(sc_audit_events) = event_kind_of <$> rs ∧
  pe_version <$> s.(sc_audit_events) = (λ call, call.1.(pr_version)) <$> calls.
Proof.
  destruct (publish_all _ calls) as [s rs] eqn:E1, (log_publish_all _ calls) as [log rs'] eqn:E2.
  destruct (publish_all_refines calls _ _ _ _ _ _ registry_is_new eq_refl E1 E2)
    as (? & ? & _ & ? & ev & -> & ? & ?). by split_and!.
Qed.

Lemma log_version_app log new v r : log_version log v = Some r → log_version (log ++ new) v = Some r.
Proof. unfold log_version. induction log as [|x log IH]; cbn; [done|]. by case_bool_decide; auto. Qed.

Lemma log_digest_app log new d r : log_digest log d = Some r → log_digest (log ++ new) d = Some r.
Proof. unfold log_digest. induction log as [|x log IH]; cbn; [done|]. by case_bool_decide; auto. Qed.

Lemma registry_get_digest s log d :
  registry_is s log → SnapshotControlService_get_digest s d =
    match log_digest log d with Some r => Ok r | None => Err (DigestNotFound d) end.
Proof.
  intros Hs. unfold SnapshotControlService_get_digest, SnapshotControlService_get_version.
  rewrite (ri_digests _ _ Hs). destruct (log_digest log d) as [r|] eqn:E; [|done]. cbn.
  rewrite (ri_records _ _ Hs). unfold log_version.
  rewrite (find_key_NoDup ps_version); [done|apply Hs|].
  by apply (find_key_Some ps_digest_sha256) in E as [??].
Qed.

(** A version or digest that resolves to a record resolves to the same record after
    any further publications, and its place in the history does not change. *)
Theorem published_versions_immutable (before after : list (SnapshotPublishRequest * N)) :
  let s := (publish_all SnapshotControlService_new before).1 in
  let s' := (publish_all s after).1 in
  (∀ v r, SnapshotControlService_get_version s v = Ok r →
          SnapshotControlService_get_version s' v = Ok r) ∧
  (∀ d r, SnapshotControlService_get_digest s d = Ok r →
          SnapshotControlService_get_digest s' d = Ok r) ∧
  s.(sc_history) `prefix_of` s'.(sc_history).
Proof.
  intros s s'. subst s'.
  destruct (publish_all SnapshotControlService_new before) as [s0 rs] eqn:E1,
    (log_publish_all [] before) as [log rs'] eqn:E2.
  destruct (publish_all_refines before _ _ _ _ _ _ registry_is_new eq_refl E1 E2)
    as (_ & Hs & _ & Hz & _). subst s. cbn [fst].
  destruct (publish_all s0 after) as [s1 rs1] eqn:E3, (log_publish_all log after) as [log1 rs1'] eqn:E4.
  destruct (publish_all_refines after _ _ _ _ _ _ Hs Hz E3 E4) as (_ & Hs1 & [new ->] & _).
  cbn [fst]. split_and!.
  - intros v r. unfold SnapshotControlService_get_version.
    rewrite (ri_records _ _ Hs), (ri_records _ _ Hs1).
    destruct (log_version log v) eqn:E; [|done]. by rewrite (log_version_app _ _ _ _ E).
  - intros d r. rewrite (registry_get_digest _ _ _ Hs), (registry_get_digest _ _ _ Hs1).
    destruct (log_digest log d) eqn:E; [|done]. by rewrite (log_digest_app _ _ _ _ E).
  - rewrite (ri_history _ _ Hs), (ri_history _ _ Hs1), fmap_app. by eexists.
Qed.

(** ** Theorems: backup and durable state *)

Definition same_registry (s s' : SnapshotControlService) : Prop :=
  s'.(sc_records_by_version) = s.(sc_records_by_version) ∧
  s'.(sc_version_by_digest) = s.(sc_version_by_digest) ∧ s'.(sc_history) = s.(sc_history).

Lemma registry_is_same s s' log : registry_is s log → registry_is s' log → same_registry s s'.
Proof.
  intros [] []. split_and!; [apply map_eq; intros; congruence..|congruence].
Qed.

Lemma indexes_records s log :
  indexes_hold s log → NoDup (ps_version <$> log) → records_in_order s = log.
Proof.
  intros Hs Hnd. unfold records_in_order. rewrite (ih_history _ _ Hs).
  assert (H : ∀ l : list PublishedSnapshotRecord, (∀ r, r ∈ l → r ∈ log) →
    omap (λ v, s.(sc_records_by_version) !! v) (ps_version <$> l) = l); [|by apply H].
  induction l as [|r l IH]; intros Hl; [done|]. cbn. rewrite (ih_records _ _ Hs). unfold log_version.
  rewrite (find_key_NoDup ps_version) by (done || apply Hl; left).
  f_equal. apply IH. intros. apply Hl. by right.
Qed.

Lemma registry_records s log : registry_is s log → records_in_order s = log.
Proof. intros Hs. apply indexes_records; [by apply registry_indexes|apply Hs]. Qed.

(** What lets the next record of a log be added. *)
Lemma next_record log r rest :
  NoDup (ps_version <$> log ++ r :: rest) → NoDup (ps_digest_sha256 <$> log ++ r :: rest) →
  log_version log r.(ps_version) = None ∧ log_digest log r.(ps_digest_sha256) = None.
Proof.
  rewrite !fmap_app, !NoDup_app. intros (_ & H1 & _) (_ & H2 & _).
  split; [apply (find_key_None ps_version)|apply (find_key_None ps_digest_sha256)];
    intros Hin; [apply (H1 _ Hin)|apply (H2 _ Hin)]; left.
Qed.

Lemma restore_records_log rest : ∀ s log,
  registry_is s log → Forall published_ok rest →
  NoDup (ps_version <$> log ++ rest) → NoDup (ps_digest_sha256 <$> log ++ rest) →
  ∃ s', restore_records s rest = (s', Ok tt) ∧ registry_is s' (log ++ rest).
Proof.
  induction rest as [|r rest IH]; intros s log Hs Hok Hv Hd; cbn.
  { rewrite app_nil_r. eexists. split; [done|]. by eapply registry_is_indexes; [..|exact Hs]. }
  apply Forall_cons in Hok as [Hr Hok]. destruct (next_record _ _ _ Hv Hd) as [Nv Nd].
  destruct (SnapshotControlService_publish_at _ _ _) as [s1 r1] eqn:E1.
  destruct (log_publish log (request_of_record r) r.(ps_published_at_unix_ms)) as [log1 r1'] eqn:E2.
  destruct (publish_at_refines _ _ _ _ _ _ _ _ Hs E1 E2) as (-> & Hs1 & _).
  unfold log_publish in E2. destruct Hr as [Hval Hrec]. rewrite Hval, Hrec in E2.
  cbn [pr_version request_of_record] in E2. rewrite Nv, Nd in E2. injection E2 as <- <-.
  rewrite (cons_middle r log rest), (app_assoc log [r] rest) in *. by apply IH.
Qed.

Lemma restore_records_self rest : ∀ s log,
  registry_is s log → (∀ r, r ∈ rest → r ∈ log) →
  ∃ s', restore_records s rest = (s', Ok tt) ∧ registry_is s' log.
Proof.
  induction rest as [|r rest IH]; intros s log Hs Hin; cbn.
  { eexists. split; [done|]. by eapply registry_is_indexes; [..|exact Hs]. }
  assert (Hr : r ∈ log) by (apply Hin; left).
  destruct (proj1 (Forall_forall _ _) (ri_ok _ _ Hs) _ Hr) as [Hval Hrec].
  destruct (SnapshotControlService_publish_at _ _ _) as [s1 r1] eqn:E1.
  destruct (log_publish log (request_of_record r) r.(ps_published_at_unix_ms)) as [log1 r1'] eqn:E2.
  destruct (publish_at_refines _ _ _ _ _ _ _ _ Hs E1 E2) as (-> & Hs1 & _).
  unfold log_publish in E2. rewrite Hval, Hrec in E2. cbn [pr_version request_of_record] in E2.
  unfold log_version in E2. rewrite (find_key_NoDup ps_version) in E2 by (done || apply Hs).
  rewrite decide_True in E2 by done. injection E2 as <- <-.
  apply IH; [done|]. intros. apply Hin. by right.
Qed.

(** The registry after any publications holds some log. *)
Lemma reachable_registry calls :
  ∃ log, registry_is (publish_all SnapshotControlService_new calls).1 log.
Proof.
  destruct (publish_all _ calls) as [s rs] eqn:E1, (log_publish_all [] calls) as [log rs'] eqn:E2.
  exists log. by destruct (publish_all_refines calls _ _ _ _ _ _ registry_is_new eq_refl E1 E2) as (_ & ? & _).
Qed.

(** C23: The backup of a registry restores to a registry with the same records, digests
    and history, whatever was published; restoring it over the registry itself
    succeeds too and changes none of them. *)
Theorem backup_restores_registry (calls : list (SnapshotPublishRequest * N)) (at_ms : N) :
  let s := (publish_all SnapshotControlService_new calls).1 in
  let bundle := (SnapshotControlService_export_backup_at s at_ms).2 in
  (∃ s', SnapshotControlService_restore_from_backup bundle = Ok s' ∧ same_registry s s') ∧
  (∃ s', SnapshotControlService_restore_backup s bundle = (s', Ok tt) ∧ same_registry s s').
Proof.
  destruct (reachable_registry calls) as [log Hs]. cbn zeta.
  set (s := (publish_all _ calls).1) in *. cbn [snd SnapshotControlService_export_backup_at].
  unfold SnapshotControlService_restore_from_backup, SnapshotControlService_restore_backup.
  cbn [bb_records]. rewrite (registry_records _ _ Hs). split.
  - destruct (restore_records_log log SnapshotControlService_new []) as (s' & -> & Hs');
      [apply registry_is_new|apply Hs..|].
    exists s'. split; [done|]. by eapply registry_is_same.
  - destruct (restore_records_self log s log) as (s' & -> & Hs'); [done..|].
    exists s'. split; [done|]. by eapply registry_is_same.
Qed.

Lemma prune_idemp events n :
  prune_publish_events (prune_publish_events events n) n = prune_publish_events events n.
Proof.
  unfold prune_publish_events. case_decide; [done|]. rewrite length_drop.
  replace (length events - (length events - n) - n)%nat with 0%nat by lia. done.
Qed.

(** What becomes of a record on its way through the durable state: its snapshot is compiled
    from its view, and the record is validated with it. *)
Definition recompiled_record (r : PublishedSnapshotRecord) :
    Result PublishedSnapshotRecord SnapshotRegistryStateError :=
  match snapshot_from_view (snapshot_view r.(ps_snapshot)) with
  | Err error => Err (State_SnapshotCompile error)
  | Ok snapshot =>
      let r' := {| ps_version := r.(ps_version); ps_workspace_name := r.(ps_workspace_name);
                   ps_digest_sha256 := r.(ps_digest_sha256);
                   ps_artifact_attestation := r.(ps_artifact_attestation);
                   ps_published_at_unix_ms := r.(ps_published_at_unix_ms);
                   ps_published_by := r.(ps_published_by); ps_reason := r.(ps_reason);
                   ps_snapshot := snapshot |} in
      match validate_publish_request (request_of_record r') with
      | Err error => Err (State_Publication (Publication_InvalidRequest error))
      | Ok _ => Ok r'
      end
  end.

(** All records, or the error of the first that fails. *)
Fixpoint recompiled_records (log : list PublishedSnapshotRecord) :
    Result (list PublishedSnapshotRecord) SnapshotRegistryStateError :=
  match log with
  | [] => Ok []
  | r :: log =>
      let? r' := recompiled_record r in
      let? log' := recompiled_records log in
      Ok (r' :: log')
  end.

Lemma recompiled_record_keys r r' :
  recompiled_record r = Ok r' →
  ps_version r' = ps_version r ∧ ps_digest_sha256 r' = ps_digest_sha256 r ∧
  snapshot_from_view (snapshot_view r.(ps_snapshot)) = Ok r'.(ps_snapshot).
Proof.
  unfold recompiled_record. destruct (snapshot_from_view _) as [sn|]; [|done].
  destruct (validate_publish_request _) as [[]|]; [|done]. by intros [= <-].
Qed.

Lemma recompiled_records_keys log : ∀ log',
  recompiled_records log = Ok log' →
  ps_version <$> log' = ps_version <$> log ∧ ps_digest_sha256 <$> log' = ps_digest_sha256 <$> log.
Proof.
  induction log as [|r log IH]; intros log'; cbn; [by intros [= <-]|].
  destruct (recompiled_record r) as [r'|] eqn:Er; [|done].
  destruct (recompiled_records log) as [rest|]; [|done]. intros [= <-].
  destruct (recompiled_record_keys _ _ Er) as (Ev & Ed & _), (IH rest eq_refl) as [Hv Hd].
  rewrite !fmap_cons. split; f_equal; done.
Qed.

(** The records stay the same exactly when every view compiles to its snapshot. *)
Lemma recompiled_records_same log : ∀ log',
  recompiled_records log = Ok log' →
  (log' = log ↔ ∀ r, r ∈ log → snapshot_from_view (snapshot_view r.(ps_snapshot)) = Ok r.(ps_snapshot)).
Proof.
  induction log as [|r log IH]; intros log'; cbn.
  { intros [= <-]. split; [by intros _ r ?%elem_of_nil|done]. }
  destruct (recompiled_record r) as [r'|] eqn:Er; [|done].
  destruct (recompiled_records log) as [rest|]; [|done]. intros [= <-]. specialize (IH rest eq_refl).
  destruct (recompiled_record_keys _ _ Er) as (_ & _ & Hv). split.
  - intros [= -> ->] x [->|Hx]%elem_of_cons; [done|]. by apply (proj1 IH eq_refl).
  - intros Hall. f_equal; [|apply IH; intros; apply Hall; by right].
    pose proof (Hall r ltac:(left)) as Hr. unfold recompiled_record in Er. rewrite Hr in Er.
    destruct (validate_publish_request _); [|done]. injection Er as <-. by destruct r.
Qed.

Lemma restore_durable_log rest : ∀ s log,
  indexes_hold s log →
  NoDup (ps_version <$> log ++ rest) → NoDup (ps_digest_sha256 <$> log ++ rest) →
  match recompiled_records rest with
  | Err error => restore_durable_records s (PublishedSnapshotRecordDurable_from <$> rest) = Err error
  | Ok rest' => ∃ s', restore_durable_records s (PublishedSnapshotRecordDurable_from <$> rest) = Ok s' ∧
                  indexes_hold s' (log ++ rest')
  end.
Proof.
  induction rest as [|r rest IH]; intros s log Hs Hv Hd; cbn.
  { rewrite app_nil_r. by exists s. }
  destruct (next_record _ _ _ Hv Hd) as [Nv Nd].
  unfold recompiled_record, try_into_record. cbn.
  destruct (snapshot_from_view (snapshot_view r.(ps_snapshot))) as [sn|e]; [|done]. cbn.
  unfold restore_record.
  destruct (validate_publish_request _) as [[]|e]; [|done]. cbn [ps_version ps_digest_sha256].
  rewrite (ih_records _ _ Hs), (ih_digests _ _ Hs), Nv, Nd. cbn [fmap option_fmap option_map].
  set (r' := {| ps_version := _ |}).
  set (s1 := sc_set_metrics (add_record s r') _).
  assert (Hs1 : indexes_hold s1 (log ++ [r'])).
  { destruct (indexes_hold_add s log r' Hs Nv Nd). by split. }
  specialize (IH s1 (log ++ [r']) Hs1). rewrite !fmap_app, <- !app_assoc in IH. rewrite !fmap_app in Hv, Hd.
  specialize (IH Hv Hd). destruct (recompiled_records rest) as [rest'|]; [|done].
  destruct IH as (s' & -> & Hs'). exists s'. split; [done|]. by rewrite <- app_assoc in Hs'.
Qed.

(** Durable state that was written is restored as far as the compiler reads back the views of
    the published snapshots, which is all that is assumed of it here (the serialiser must read
    what it wrote).  If some view does not compile, or compiles to a snapshot with which its
    record is no longer valid, restoring fails with the error of the first such record.
    Otherwise the history, the digests and the most recent audit events are restored, each
    record with its recompiled snapshot; the registry is the same exactly when every view
    compiles to its snapshot. *)
Theorem durable_state_restores_registry (calls : list (SnapshotPublishRequest * N))
    (retention : SnapshotRegistryRetentionPolicy) (envelope : SnapshotRegistryDurableEnvelope)
    (Hjson : ∀ state text, to_string_pretty state = Ok text → from_json_str text = Ok state)
    (Hwritten : export_durable_state_with_retention
       (publish_all SnapshotControlService_new calls).1 retention = Ok envelope) :
  let s := (publish_all SnapshotControlService_new calls).1 in
  match recompiled_records (records_in_order s) with
  | Err error => restore_durable_state_with_retention envelope retention = Err error
  | Ok records =>
      ∃ s', restore_durable_state_with_retention envelope retention = Ok s' ∧
        records_in_order s' = records ∧ s'.(sc_history) = s.(sc_history) ∧
        s'.(sc_version_by_digest) = s.(sc_version_by_digest) ∧
        s'.(sc_audit_events) = prune_publish_events s.(sc_audit_events) retention.(max_audit_events) ∧
        (same_registry s s' ↔ ∀ r, r ∈ records_in_order s →
           snapshot_from_view (snapshot_view r.(ps_snapshot)) = Ok r.(ps_snapshot))
  end.
Proof.
  destruct (reachable_registry calls) as [log Hs]. cbn zeta.
  set (s := (publish_all _ calls).1) in *. unfold export_durable_state_with_retention in Hwritten.
  rewrite (registry_records _ _ Hs) in *.
  destruct (to_string_pretty _) as [text|] eqn:Et; [|done]. injection Hwritten as <-.
  unfold restore_durable_state_with_retention. cbn [en_version en_payload_json en_payload_sha256].
  rewrite !decide_False by (intros F; by apply F). rewrite (Hjson _ _ Et). cbn [ds_records ds_audit_events].
  pose proof (restore_durable_log log SnapshotControlService_new [] (registry_indexes _ _ registry_is_new)
    (ri_versions _ _ Hs) (ri_distinct _ _ Hs)) as H.
  destruct (recompiled_records log) as [log'|e] eqn:El; [|by rewrite H].
  destruct H as (s' & -> & Hs'). cbn [app] in Hs'.
  destruct (recompiled_records_keys _ _ El) as [Ev Ed].
  eexists. split; [done|]. set (s2 := sc_set_metrics _ _).
  assert (Hs2 : indexes_hold s2 log') by (destruct Hs'; by split).
  assert (Hr : records_in_order s2 = log').
  { apply (indexes_records _ _ Hs2). rewrite Ev. apply Hs. }
  assert (Hdig : s2.(sc_version_by_digest) = s.(sc_version_by_digest)).
  { apply map_eq. intros d. rewrite (ih_digests _ _ Hs2), (ri_digests _ _ Hs). clear -Ev Ed.
    unfold log_digest. revert log Ev Ed. induction log' as [|r' l' IH]; intros [|r l]; try done.
    rewrite !fmap_cons. intros [= Ev1 Ev] [= Ed1 Ed]. cbn. rewrite Ed1.
    case_bool_decide; [by cbn; rewrite Ev1|by apply IH]. }
  split_and!; [exact Hr|by rewrite (ih_history _ _ Hs2), (ri_history _ _ Hs)|exact Hdig|by cbn; rewrite prune_idemp|].
  rewrite <- (recompiled_records_same _ _ El). split.
  - intros (E & _ & Eh). rewrite <- Hr, <- (registry_records _ _ Hs). unfold records_in_order. by rewrite E, Eh.
  - intros ->. split_and!; [|done|by rewrite (ih_history _ _ Hs2), (ri_history _ _ Hs)].
    apply map_eq. intros v. by rewrite (ih_records _ _ Hs2), (ri_records _ _ Hs).
Qed.
End control.

(** ** A sample registry *)

#[local] Existing Instances sample_crypto sample_sha256 route_contents route_resources.

Definition signed_snapshot : WorkspaceSnapshot :=
  {| ws_digest_sha256 := sample_digest; ws_workspace_name := "edge"; ws_security := sample_security;
     ws_content := ([sample_route "api" "a"] : @SnapshotContent route_contents) |}.

Definition publish_sample (version : string) : SnapshotPublishRequest :=
  {| pr_version := version; pr_snapshot := signed_snapshot;
     pr_artifact_attestation := Some sample_attestation; pr_expected_digest_sha256 := None;
     pr_published_by := None; pr_reason := None |}.

(** A repetition is answered as such; the digest under another version is a conflict. *)
Example sample_publications :
  event_kind_of <$> (publish_all SnapshotControlService_new
    [(publish_sample "v1", 7); (publish_sample "v1", 8); (publish_sample "v2", 9)]).2 =
  [Event_Published; Event_Unchanged; Event_Rejected].
Proof. vm_compute. reflexivity. Qed.

(** The version is checked without its surrounding blanks and stored with them, so
    that the same name is found only as it was written. *)
Example padded_version_published :
  let s := (publish_all SnapshotControlService_new [(publish_sample " v1", 7)]).1 in
  s.(sc_history) = [" v1"] ∧
  SnapshotControlService_get_version s "v1" = Err (VersionNotFound "v1").
Proof. vm_compute. split; reflexivity. Qed.

#[local] Instance ArtifactAttestation_eq_dec : EqDecision ArtifactAttestation.
Proof. solve_decision. Defined.

Definition sample_views : @SnapshotViews route_contents :=
  @Build_SnapshotViews route_contents unit unit (λ _, tt) (λ _, Ok signed_snapshot).
#[local] Existing Instance sample_views.

Definition durable_sample (version : string) : SnapshotRegistryDurableState :=
  {| ds_records := [{| pd_version := version; pd_workspace_name := "edge";
                       pd_digest_sha256 := sample_digest;
                       pd_artifact_attestation := Some sample_attestation;
                       pd_published_at_unix_ms := 7; pd_published_by := None; pd_reason := None;
                       pd_snapshot := (tt : @WorkspaceSnapshotView _ sample_views) |}];
     ds_audit_events := [] |}.

#[local] Instance sample_view_eq_dec : EqDecision (@WorkspaceSnapshotView _ sample_views).
Proof. intros [] []. by left. Defined.
#[local] Instance PublishEventKind_eq_dec : EqDecision PublishEventKind.
Proof. solve_decision. Defined.
#[local] Instance PublishEvent_eq_dec : EqDecision PublishEvent.
Proof. solve_decision. Defined.
#[local] Instance durable_record_eq_dec : EqDecision PublishedSnapshotRecordDurable.
Proof. solve_decision. Defined.
#[local] Instance durable_state_eq_dec : EqDecision SnapshotRegistryDurableState.
Proof. solve_decision. Defined.

(** A serialiser of the states with the one record, written as its version. *)
Definition sample_json : @DurableJson route_contents sample_views.
Proof.
  refine {| JsonError := unit;
            to_string_pretty state :=
              match state.(ds_records) with
              | [r] => if decide (state = durable_sample r.(pd_version)) then Ok r.(pd_version) else Err tt
              | _ => Err tt
              end;
            from_json_str text := Ok (durable_sample text) |}.
Defined.
#[local] Existing Instance sample_json.

Lemma durable_state_restores_registry_witness :
  ∃ envelope s', export_durable_state_with_retention
      (publish_all SnapshotControlService_new [(publish_sample "v1", 7)]).1
      {| max_audit_events := 0 |} = Ok envelope ∧
    restore_durable_state_with_retention envelope {| max_audit_events := 0 |} = Ok s' ∧
    s'.(sc_history) = ["v1"].
Proof.
  eexists. pose proof (durable_state_restores_registry [(publish_sample "v1", 7)]
    {| max_audit_events := 0 |}
    {| en_version := 1; en_payload_json := "v1"; en_payload_sha256 := sha256_hex (bytes "v1") |}) as H.
  assert (Hok : is_ok (recompiled_records (records_in_order
    (publish_all SnapshotControlService_new [(publish_sample "v1", 7)]).1)) = true)
    by (vm_compute; reflexivity).
  cbv zeta in H. destruct (recompiled_records _) as [records|e]; [|discriminate].
  destruct H as (s' & Hr & _ & Hh & _).
  - intros state text. cbn. destruct (ds_records state) as [|r [|]]; try done.
    case_decide as E; [|done]. intros [= <-]. by rewrite <- E.
  - vm_compute. reflexivity.
  - exists s'. split; [|split; [exact Hr|]].
    + vm_compute. reflexivity.
    + rewrite Hh. vm_compute. reflexivity.
Defined.
