(* ===== verification/Rollout.v ===== *)
(** * Rollout and promotion of published snapshots

    Models [crates/admin-api/src/rollout.rs] and [promotion.rs]: the coordinator that
    applies published snapshots to the snapshot manager of a dataplane and rolls them
    back, with its history and counters, and the promotion that guards a rollout by
    the impact of the change.  Both work on the registry of [SnapshotControl] and the
    manager of [ConfigApplication]; the clock is an argument. *)

From S2P Require Import Prelude RustStr RustText ArtifactSecurity ConfigApplication SnapshotDiff SnapshotControl.
Local Open Scope N_scope.
Local Open Scope rust_scope.

(** ** Requests, history and errors *)

Record RolloutRequest := {
  rq_version : string; rq_requested_by : option string; rq_reason : option string }.

Record RollbackRequest := {
  rb_target_version : option string; rb_requested_by : option string; rb_reason : option string }.

Inductive RolloutActionKind := Action_Rollout | Action_Rollback.
#[export] Instance RolloutActionKind_eq_dec : EqDecision RolloutActionKind.
Proof. solve_decision. Defined.

Inductive RolloutResultKind := Result_Applied | Result_Unchanged | Result_Rejected.

Record RolloutHistoryEntry := {
  he_action : RolloutActionKind; he_result : RolloutResultKind; he_target_version : string;
  he_effective_version : option string; he_previous_active_version : option string;
  he_digest_sha256 : option string; he_actor : option string; he_reason : option string;
  he_occurred_at_unix_ms : N; he_duration_ms : N; he_detail : string }.

Record RolloutResponse := {
  rr_action : RolloutActionKind; rr_result : RolloutResultKind; rr_active_version : string;
  rr_active_digest_sha256 : string; rr_last_known_good_version : string }.

Record RolloutMetrics := {
  successful_rollout_count : N; idempotent_rollout_count : N; failed_rollout_count : N;
  rollback_count : N; audit_event_count : N; total_rollout_duration_ms : N; history_size : N }.

Definition RolloutMetrics_default : RolloutMetrics :=
  {| successful_rollout_count := 0; idempotent_rollout_count := 0; failed_rollout_count := 0;
     rollback_count := 0; audit_event_count := 0; total_rollout_duration_ms := 0;
     history_size := 0 |}.

Inductive InvalidRolloutRequest :=
| Rollout_EmptyVersion | Rollout_InvalidVersionFormat | Rollout_VersionTooLong
| EmptyRequestedBy | RequestedByTooLong | Rollout_EmptyReason | Rollout_ReasonTooLong.

Definition InvalidRolloutRequest_fmt (e : InvalidRolloutRequest) : string :=
  match e with
  | Rollout_EmptyVersion => "snapshot version must not be empty"
  | Rollout_InvalidVersionFormat => "snapshot version contains unsupported characters"
  | Rollout_VersionTooLong => "snapshot version exceeds max length"
  | EmptyRequestedBy => "requested_by must not be empty"
  | RequestedByTooLong => "requested_by exceeds max length"
  | Rollout_EmptyReason => "rollout reason must not be empty"
  | Rollout_ReasonTooLong => "rollout reason exceeds max length"
  end.

Inductive RolloutError :=
| Rollout_InvalidRequest (error : InvalidRolloutRequest)
| UnknownPublishedVersion (version : string)
| NoRollbackCandidate
| RollbackTargetNotKnownGood (version : string)
| Rollout_Apply (error : SnapshotApplyError)
| Rollout_Internal (error : Duration).

(** [SystemTimeError] of the standard library has one text. *)
Definition SnapshotApplyError_fmt (e : SnapshotApplyError) : string :=
  match e with
  | InvalidRequest error => "invalid snapshot apply request: " +:+ InvalidApplyRequest_fmt error
  | Integrity error => "snapshot integrity verification failed: " +:+ ArtifactIntegrityError_fmt error
  | Activation error => "snapshot apply failed: " +:+ SnapshotActivationError_fmt error
  | Internal _ => "snapshot apply failed internally: failed to read system time: second time provided was later than self"
  end.

Record RolloutCoordinator := {
  ro_history : list RolloutHistoryEntry; ro_successful_versions : list string;
  ro_metrics : RolloutMetrics }.

Definition RolloutCoordinator_new : RolloutCoordinator :=
  {| ro_history := []; ro_successful_versions := []; ro_metrics := RolloutMetrics_default |}.

Definition validate_rollout_request (version : string) (requested_by reason : option string) :
    Result unit InvalidRolloutRequest :=
  let? _ := check_version version Rollout_EmptyVersion Rollout_VersionTooLong
              Rollout_InvalidVersionFormat in
  let? _ := check_text requested_by MAX_ACTOR_LEN EmptyRequestedBy RequestedByTooLong in
  check_text reason MAX_REASON_LEN Rollout_EmptyReason Rollout_ReasonTooLong.

(** ** The coordinator *)

Definition RolloutCoordinator_push_history (c : RolloutCoordinator) (entry : RolloutHistoryEntry) :
    RolloutCoordinator :=
  let history := c.(ro_history) ++ [entry] in
  let x := c.(ro_metrics) in
  {| ro_history := history; ro_successful_versions := c.(ro_successful_versions);
     ro_metrics := {| successful_rollout_count := x.(successful_rollout_count);
                      idempotent_rollout_count := x.(idempotent_rollout_count);
                      failed_rollout_count := x.(failed_rollout_count);
                      rollback_count := x.(rollback_count);
                      audit_event_count := saturating_add u64_max x.(audit_event_count) 1;
                      total_rollout_duration_ms := x.(total_rollout_duration_ms);
                      history_size := N.of_nat (length history) |} |}.

Definition count_failed_rollout (c : RolloutCoordinator) : RolloutCoordinator :=
  let x := c.(ro_metrics) in
  {| ro_history := c.(ro_history); ro_successful_versions := c.(ro_successful_versions);
     ro_metrics := {| successful_rollout_count := x.(successful_rollout_count);
                      idempotent_rollout_count := x.(idempotent_rollout_count);
                      failed_rollout_count := saturating_add u64_max x.(failed_rollout_count) 1;
                      rollback_count := x.(rollback_count);
                      audit_event_count := x.(audit_event_count);
                      total_rollout_duration_ms := x.(total_rollout_duration_ms);
                      history_size := x.(history_size) |} |}.

(** The counters and known versions after the manager accepted. *)
Definition count_accepted (c : RolloutCoordinator) (action : RolloutActionKind)
    (result_kind : RolloutResultKind) (version : string) : RolloutCoordinator :=
  let x := c.(ro_metrics) in
  let add n := saturating_add u64_max n 1 in
  {| ro_history := c.(ro_history);
     ro_successful_versions :=
       match result_kind with
       | Result_Applied =>
           if decide (last c.(ro_successful_versions) ≠ Some version)
           then c.(ro_successful_versions) ++ [version] else c.(ro_successful_versions)
       | _ => c.(ro_successful_versions)
       end;
     ro_metrics :=
       {| successful_rollout_count :=
            match result_kind with Result_Applied => add x.(successful_rollout_count)
                              | _ => x.(successful_rollout_count) end;
          idempotent_rollout_count :=
            match result_kind with Result_Unchanged => add x.(idempotent_rollout_count)
                              | _ => x.(idempotent_rollout_count) end;
          failed_rollout_count := x.(failed_rollout_count);
          rollback_count := if decide (action = Action_Rollback) then add x.(rollback_count)
                            else x.(rollback_count);
          audit_event_count := x.(audit_event_count);
          total_rollout_duration_ms := x.(total_rollout_duration_ms);
          history_size := x.(history_size) |} |}.

Section rollout.
Context {Crypto : Ed25519} {Hash : Sha256} {Contents : SnapshotContents}
  {Resources : SnapshotResources} {Hook : SnapshotActivationHook}.

Definition active_version (dataplane : DataplaneSnapshotManager) : option string :=
  rc_version <$> dataplane.(dm_active).

(** The entry and the count of an action that is refused before it reaches the manager. *)
Definition reject_action (c : RolloutCoordinator) (dataplane : DataplaneSnapshotManager)
    (action : RolloutActionKind) (target_version : string) (actor reason : option string)
    (occurred_at_unix_ms : N) (detail : string) : RolloutCoordinator :=
  count_failed_rollout (RolloutCoordinator_push_history c
    {| he_action := action; he_result := Result_Rejected; he_target_version := target_version;
       he_effective_version := None; he_previous_active_version := active_version dataplane;
       he_digest_sha256 := None; he_actor := actor; he_reason := reason;
       he_occurred_at_unix_ms := occurred_at_unix_ms; he_duration_ms := 0; he_detail := detail |}).

Definition execute_action (c : RolloutCoordinator) (action : RolloutActionKind)
    (published : PublishedSnapshotRecord) (actor reason : option string)
    (dataplane : DataplaneSnapshotManager) (occurred_at_unix_ms : N) :
    RolloutCoordinator * DataplaneSnapshotManager * Result RolloutResponse RolloutError :=
  let previous_active_version := active_version dataplane in
  let '(dataplane, result) :=
    DataplaneSnapshotManager_apply_at dataplane
      {| ar_version := published.(ps_version); ar_snapshot := published.(ps_snapshot);
         ar_artifact_attestation := published.(ps_artifact_attestation);
         ar_expected_digest_sha256 := published.(ps_digest_sha256); ar_acknowledged_by := actor |}
      occurred_at_unix_ms in
  let entry result_kind effective_version digest_sha256 detail :=
    {| he_action := action; he_result := result_kind; he_target_version := published.(ps_version);
       he_effective_version := effective_version;
       he_previous_active_version := previous_active_version; he_digest_sha256 := digest_sha256;
       he_actor := actor; he_reason := reason; he_occurred_at_unix_ms := occurred_at_unix_ms;
       he_duration_ms := 0; he_detail := detail |} in
  match result with
  | Ok ack =>
      let result_kind := match ack.(ack_outcome) with
                         | Applied => Result_Applied | Unchanged => Result_Unchanged
                         end in
      let version := ack.(ack_active).(su_version) in
      let c := count_accepted c action result_kind version in
      let c := RolloutCoordinator_push_history c
                 (entry result_kind (Some version) (Some ack.(ack_active).(su_digest_sha256))
                    match action with
                    | Action_Rollout => "rollout applied to dataplane"
                    | Action_Rollback => "rollback applied to dataplane"
                    end) in
      (c, dataplane,
       Ok {| rr_action := action; rr_result := result_kind; rr_active_version := version;
             rr_active_digest_sha256 := ack.(ack_active).(su_digest_sha256);
             rr_last_known_good_version := ack.(ack_last_known_good).(su_version) |})
  | Err error =>
      let c := count_failed_rollout c in
      let c := RolloutCoordinator_push_history c
                 (entry Result_Rejected (active_version dataplane)
                    (Some published.(ps_digest_sha256)) (SnapshotApplyError_fmt error)) in
      (c, dataplane, Err (Rollout_Apply error))
  end.

Definition RolloutCoordinator_rollout_at (c : RolloutCoordinator) (control : SnapshotControlService)
    (dataplane : DataplaneSnapshotManager) (request : RolloutRequest) (occurred_at_unix_ms : N) :
    RolloutCoordinator * DataplaneSnapshotManager * Result RolloutResponse RolloutError :=
  let reject target detail :=
    reject_action c dataplane Action_Rollout target request.(rq_requested_by) request.(rq_reason)
      occurred_at_unix_ms detail in
  match validate_rollout_request request.(rq_version) request.(rq_requested_by)
          request.(rq_reason) with
  | Err error =>
      (reject request.(rq_version) (InvalidRolloutRequest_fmt error), dataplane,
       Err (Rollout_InvalidRequest error))
  | Ok _ =>
      match SnapshotControlService_get_version control request.(rq_version) with
      | Ok published =>
          execute_action c Action_Rollout published request.(rq_requested_by) request.(rq_reason)
            dataplane occurred_at_unix_ms
      | Err (VersionNotFound version) =>
          (reject version ("published snapshot version '" +:+ version +:+ "' was not found"),
           dataplane, Err (UnknownPublishedVersion version))
      | Err (DigestNotFound _) =>
          (count_failed_rollout c, dataplane, Err (UnknownPublishedVersion request.(rq_version)))
      end
  end.

Definition rollback_candidate (c : RolloutCoordinator) (dataplane : DataplaneSnapshotManager) :
    option string :=
  List.find (λ version, bool_decide (Some version ≠ active_version dataplane))
    (rev c.(ro_successful_versions)).

(** The version to go back to, or the state after a refusal with its error. *)
Definition rollback_target (c : RolloutCoordinator) (dataplane : DataplaneSnapshotManager)
    (request : RollbackRequest) (occurred_at_unix_ms : N) :
    Result string (RolloutCoordinator * RolloutError) :=
  let reject target detail :=
    reject_action c dataplane Action_Rollback target request.(rb_requested_by) request.(rb_reason)
      occurred_at_unix_ms detail in
  match request.(rb_target_version) with
  | Some version =>
      match validate_rollout_request version request.(rb_requested_by) request.(rb_reason) with
      | Err error => Err (c, Rollout_InvalidRequest error)
      | Ok _ =>
          if decide (version ∉ c.(ro_successful_versions))
          then Err (reject version ("rollback target '" +:+ version +:+
                                    "' is not a previously known-good version"),
                    RollbackTargetNotKnownGood version)
          else Ok version
      end
  | None =>
      match rollback_candidate c dataplane with
      | None => Err (reject "<previous-known-good>" "no prior known-good rollback target exists",
                     NoRollbackCandidate)
      | Some version => Ok version
      end
  end.

Definition RolloutCoordinator_rollback_at (c : RolloutCoordinator) (control : SnapshotControlService)
    (dataplane : DataplaneSnapshotManager) (request : RollbackRequest) (occurred_at_unix_ms : N) :
    RolloutCoordinator * DataplaneSnapshotManager * Result RolloutResponse RolloutError :=
  match rollback_target c dataplane request occurred_at_unix_ms with
  | Err (c, error) => (c, dataplane, Err error)
  | Ok target_version =>
      match SnapshotControlService_get_version control target_version with
      | Ok published =>
          execute_action c Action_Rollback published request.(rb_requested_by) request.(rb_reason)
            dataplane occurred_at_unix_ms
      | Err _ =>
          (reject_action c dataplane Action_Rollback target_version request.(rb_requested_by)
             request.(rb_reason) occurred_at_unix_ms
             ("published snapshot version '" +:+ target_version +:+ "' was not found"),
           dataplane, Err (UnknownPublishedVersion target_version))
      end
  end.

Definition RolloutCoordinator_rollout (c : RolloutCoordinator) (control : SnapshotControlService)
    (dataplane : DataplaneSnapshotManager) (request : RolloutRequest)
    (clock : Result Duration Duration) :
    RolloutCoordinator * DataplaneSnapshotManager * Result RolloutResponse RolloutError :=
  match current_unix_ms clock with
  | Err error => (c, dataplane, Err (Rollout_Internal error))
  | Ok now => RolloutCoordinator_rollout_at c control dataplane request now
  end.

Definition RolloutCoordinator_rollback (c : RolloutCoordinator) (control : SnapshotControlService)
    (dataplane : DataplaneSnapshotManager) (request : RollbackRequest)
    (clock : Result Duration Duration) :
    RolloutCoordinator * DataplaneSnapshotManager * Result RolloutResponse RolloutError :=
  match current_unix_ms clock with
  | Err error => (c, dataplane, Err (Rollout_Internal error))
  | Ok now => RolloutCoordinator_rollback_at c control dataplane request now
  end.

Definition recent_history (c : RolloutCoordinator) (limit : nat) : list RolloutHistoryEntry :=
  take limit (rev c.(ro_history)).

(** ** Promotion *)

Inductive PromotionExecutionStrategy := Immediate | StagedCanary.

Record PromotionPreviewRequest := {
  pv_candidate_version : string; pv_baseline_version : option string;
  pv_requested_by : option string; pv_reason : option string }.

Record PromotionApplyRequest := {
  pa_candidate_version : string; pa_baseline_version : option string;
  pa_requested_by : option string; pa_reason : option string; pa_allow_staged_apply : bool }.

Record PromotionPreviewResponse := {
  po_candidate_version : string; po_preview : SnapshotDiffPreview;
  po_recommended_strategy : PromotionExecutionStrategy; po_requires_staged_apply_ack : bool }.

Record PromotionApplyResponse := {
  px_preview : PromotionPreviewResponse; px_rollout : RolloutResponse }.

Record PromotionMetrics := {
  preview_count : N; promotion_apply_count : N; blocked_staged_apply_count : N }.

Inductive PromotionError :=
| MissingCandidateVersion
| CandidateNotPublished (version : string)
| Promotion_SnapshotLookup (error : SnapshotLookupError)
| Promotion_DiffPreview (error : SnapshotDiffPreviewError)
| StagedApplyRequired (severity : SnapshotImpactSeverity) (strategy : PromotionExecutionStrategy)
| Promotion_Rollout (error : RolloutError).

(** The coordinator is its metrics. *)
Record PromotionCoordinator := { pc_metrics : PromotionMetrics }.

Definition PromotionCoordinator_new : PromotionCoordinator :=
  {| pc_metrics := {| preview_count := 0; promotion_apply_count := 0;
                      blocked_staged_apply_count := 0 |} |}.

Definition PromotionCoordinator_preview (p : PromotionCoordinator) (control : SnapshotControlService)
    (request : PromotionPreviewRequest) :
    PromotionCoordinator * Result PromotionPreviewResponse PromotionError :=
  let candidate_version := trim request.(pv_candidate_version) in
  if is_empty candidate_version then (p, Err MissingCandidateVersion)
  else
    match SnapshotControlService_get_version control candidate_version with
    | Err (VersionNotFound version) => (p, Err (CandidateNotPublished version))
    | Err error => (p, Err (Promotion_SnapshotLookup error))
    | Ok candidate =>
        match SnapshotControlService_preview_diff control request.(pv_baseline_version)
                candidate.(ps_snapshot) with
        | Err error => (p, Err (Promotion_DiffPreview error))
        | Ok preview =>
            let recommended_strategy :=
              match preview.(dp_impact_analysis).(ia_severity) with
              | Severity_Low => Immediate
              | Severity_Medium | Severity_High => StagedCanary
              end in
            let x := p.(pc_metrics) in
            ({| pc_metrics :=
                  {| preview_count := saturating_add u64_max x.(preview_count) 1;
                     promotion_apply_count := x.(promotion_apply_count);
                     blocked_staged_apply_count := x.(blocked_staged_apply_count) |} |},
             Ok {| po_candidate_version := candidate_version; po_preview := preview;
                   po_recommended_strategy := recommended_strategy;
                   po_requires_staged_apply_ack :=
                     match recommended_strategy with Immediate => false | StagedCanary => true end |})
        end
    end.

Definition PromotionCoordinator_apply (p : PromotionCoordinator) (control : SnapshotControlService)
    (rollout : RolloutCoordinator) (dataplane : DataplaneSnapshotManager)
    (request : PromotionApplyRequest) (clock : Result Duration Duration) :
    PromotionCoordinator * RolloutCoordinator * DataplaneSnapshotManager *
    Result PromotionApplyResponse PromotionError :=
  let '(p, preview) :=
    PromotionCoordinator_preview p control
      {| pv_candidate_version := request.(pa_candidate_version);
         pv_baseline_version := request.(pa_baseline_version);
         pv_requested_by := request.(pa_requested_by); pv_reason := request.(pa_reason) |} in
  let x := p.(pc_metrics) in
  match preview with
  | Err error => (p, rollout, dataplane, Err error)
  | Ok preview =>
      if preview.(po_requires_staged_apply_ack) && negb request.(pa_allow_staged_apply) then
        ({| pc_metrics :=
              {| preview_count := x.(preview_count);
                 promotion_apply_count := x.(promotion_apply_count);
                 blocked_staged_apply_count := saturating_add u64_max x.(blocked_staged_apply_count) 1 |} |},
         rollout, dataplane,
         Err (StagedApplyRequired preview.(po_preview).(dp_impact_analysis).(ia_severity)
                preview.(po_recommended_strategy)))
      else
        match RolloutCoordinator_rollout rollout control dataplane
                {| rq_version := request.(pa_candidate_version);
                   rq_requested_by := request.(pa_requested_by); rq_reason := request.(pa_reason) |}
                clock with
        | (rollout, dataplane, Err error) => (p, rollout, dataplane, Err (Promotion_Rollout error))
        | (rollout, dataplane, Ok response) =>
            ({| pc_metrics :=
                  {| preview_count := x.(preview_count);
                     promotion_apply_count := saturating_add u64_max x.(promotion_apply_count) 1;
                     blocked_staged_apply_count := x.(blocked_staged_apply_count) |} |},
             rollout, dataplane, Ok {| px_preview := preview; px_rollout := response |})
        end
  end.

(** ** Runs of the control plane *)

Record ControlPlane := {
  cp_control : SnapshotControlService; cp_rollout : RolloutCoordinator;
  cp_dataplane : DataplaneSnapshotManager }.

Inductive plane_step (p : ControlPlane) : ControlPlane → Prop :=
| Step_publish request at_ms :
    plane_step p
      {| cp_control := (SnapshotControlService_publish_at p.(cp_control) request at_ms).1;
         cp_rollout := p.(cp_rollout); cp_dataplane := p.(cp_dataplane) |}
| Step_rollout request at_ms c m r :
    RolloutCoordinator_rollout_at p.(cp_rollout) p.(cp_control) p.(cp_dataplane) request at_ms
      = (c, m, r) →
    plane_step p {| cp_control := p.(cp_control); cp_rollout := c; cp_dataplane := m |}
| Step_rollback request at_ms c m r :
    RolloutCoordinator_rollback_at p.(cp_rollout) p.(cp_control) p.(cp_dataplane) request at_ms
      = (c, m, r) →
    plane_step p {| cp_control := p.(cp_control); cp_rollout := c; cp_dataplane := m |}.

Inductive plane_reachable (hook : HookState) : ControlPlane → Prop :=
| Reach_new :
    plane_reachable hook
      {| cp_control := SnapshotControlService_new; cp_rollout := RolloutCoordinator_new;
         cp_dataplane := DataplaneSnapshotManager_with_hook hook |}
| Reach_step p q : plane_reachable hook p → plane_step p q → plane_reachable hook q.

(** What runs is what is published under its version. *)
Definition runs_published (control : SnapshotControlService) (a : AppliedSnapshotRecord) : Prop :=
  ∃ r, SnapshotControlService_get_version control a.(rc_version) = Ok r ∧
       r.(ps_snapshot) = a.(rc_snapshot) ∧ r.(ps_digest_sha256) = a.(rc_digest_sha256).

Definition history_counted (c : RolloutCoordinator) : Prop :=
  c.(ro_metrics).(history_size) = N.of_nat (length c.(ro_history)) ∧
  c.(ro_metrics).(audit_event_count) = N.min u64_max (N.of_nat (length c.(ro_history))).

Record plane_inv (p : ControlPlane) : Prop := {
  pi_registry : ∃ log, registry_is p.(cp_control) log;
  pi_active : ∀ a, p.(cp_dataplane).(dm_active) = Some a → runs_published p.(cp_control) a;
  pi_last : last p.(cp_rollout).(ro_successful_versions) = active_version p.(cp_dataplane);
  pi_known : ∀ v, v ∈ p.(cp_rollout).(ro_successful_versions) →
               ∃ r, SnapshotControlService_get_version p.(cp_control) v = Ok r;
  pi_known_good : p.(cp_dataplane).(dm_last_known_good) = p.(cp_dataplane).(dm_active);
  pi_history : history_counted p.(cp_rollout)
}.

(** ** Theorems: rollout and rollback *)

Lemma apply_at_cases m request at_ms m' r :
  DataplaneSnapshotManager_apply_at m request at_ms = (m', r) →
  match r with
  | Ok ack =>
      ack.(ack_active).(su_version) = request.(ar_version) ∧
      match ack.(ack_outcome) with
      | Applied => m'.(dm_active) = Some (record_of request at_ms) ∧
                   m'.(dm_last_known_good) = m'.(dm_active)
      | Unchanged => m'.(dm_active) = m.(dm_active) ∧
                     m'.(dm_last_known_good) = m.(dm_last_known_good) ∧
                     rc_version <$> m.(dm_active) = Some request.(ar_version)
      end
  | Err _ => m'.(dm_active) = m.(dm_active) ∧ m'.(dm_last_known_good) = m.(dm_last_known_good)
  end.
Proof.
  unfold DataplaneSnapshotManager_apply_at.
  destruct (validate_apply_request _) as [[]|]; [|by intros [= <- <-]].
  destruct (verify_snapshot_artifact_integrity _ _) as [[]|]; [|by intros [= <- <-]].
  destruct (repeats_active _ _) as [a|] eqn:E.
  { intros [= <- <-]. unfold repeats_active in E. cbn in *.
    destruct (dm_active m) as [x|]; [|done]. cbn in E. case_decide as H; [|done].
    injection E as ->. destruct H as [Hv _]. cbn. by rewrite Hv. }
  destruct (hook_validate _ _) as [h [[]|]]; [|by intros [= <- <-]].
  destruct (hook_activate _ _) as [h' [[]|]]; [|by intros [= <- <-]].
  by intros [= <- <-].
Qed.

(** One action at the manager. *)
Lemma execute_spec c action pub actor reason m at_ms c' m' r :
  execute_action c action pub actor reason m at_ms = (c', m', r) →
  (∃ e, c'.(ro_history) = c.(ro_history) ++ [e] ∧
        (e.(he_result) = Result_Rejected ↔ ∃ x, r = Err x)) ∧
  (history_counted c → history_counted c') ∧
  match r with
  | Ok response =>
      response.(rr_active_version) = pub.(ps_version) ∧
      active_version m' = Some pub.(ps_version) ∧
      (m'.(dm_active) = m.(dm_active) ∧ m'.(dm_last_known_good) = m.(dm_last_known_good) ∧
         c'.(ro_successful_versions) = c.(ro_successful_versions) ∨
       m'.(dm_last_known_good) = m'.(dm_active) ∧
         last c'.(ro_successful_versions) = Some pub.(ps_version) ∧
         (∀ v, v ∈ c'.(ro_successful_versions) → v ∈ c.(ro_successful_versions) ∨ v = pub.(ps_version)) ∧
         ∃ a, m'.(dm_active) = Some a ∧ a.(rc_version) = pub.(ps_version) ∧
           a.(rc_snapshot) = pub.(ps_snapshot) ∧
           a.(rc_digest_sha256) = pub.(ps_snapshot).(ws_digest_sha256))
  | Err error => (∃ x, error = Rollout_Apply x) ∧ m'.(dm_active) = m.(dm_active) ∧
      m'.(dm_last_known_good) = m.(dm_last_known_good) ∧
      c'.(ro_successful_versions) = c.(ro_successful_versions)
  end.
Proof.
  unfold execute_action. destruct (DataplaneSnapshotManager_apply_at _ _ _) as [m1 r1] eqn:E.
  apply apply_at_cases in E. cbn [ar_version] in E.
  assert (Hc : history_counted c → ∀ c1 e, c1.(ro_history) = c.(ro_history) →
    c1.(ro_metrics).(audit_event_count) = c.(ro_metrics).(audit_event_count) →
    history_counted (RolloutCoordinator_push_history c1 e)).
  { intros [_ H] c1 e E1 E2. split; [done|]. cbn. rewrite E1, E2, H, length_app.
    unfold saturating_add. cbn. lia. }
  destruct r1 as [ack|e]; intros [= <- <- <-].
  - destruct E as [Hv E]. rewrite Hv. split; [|split].
    + eexists. split; [done|]. cbn. destruct (ack_outcome ack); (split; [done|by intros []]).
    + intros H. by apply Hc.
    + split; [done|]. unfold active_version. destruct (ack_outcome ack); cbn.
      * destruct E as [Ha Hl]. rewrite Ha. split; [done|]. right. rewrite Hl, Ha.
        split; [done|]. case_decide as D.
        -- rewrite last_snoc. split; [done|]. split; [|by eexists].
           intros v [?|?%list_elem_of_singleton]%elem_of_app; auto.
        -- split; [by destruct (decide (last (ro_successful_versions c) = Some (ps_version pub)))|].
           split; [auto|by eexists].
      * destruct E as (Ha & Hl & Hx). rewrite Ha. split; [done|]. by left.
  - split; [|split; [intros H; by apply Hc|]].
    + eexists. split; [done|]. split; [by eauto|done].
    + cbn. split; [by eexists|]. by destruct E.
Qed.

Lemma reject_counted c m action target actor reason at_ms detail :
  history_counted c → history_counted (reject_action c m action target actor reason at_ms detail).
Proof.
  intros [_ H]. split; [done|]. cbn. rewrite H, length_app. unfold saturating_add. cbn. lia.
Qed.

(** A request is refused, which leaves the dataplane and the known versions, or its
    action runs on the published record. *)
Definition refused (c c' : RolloutCoordinator) (m m' : DataplaneSnapshotManager) : Prop :=
  m' = m ∧ c'.(ro_successful_versions) = c.(ro_successful_versions) ∧
  (history_counted c → history_counted c').

Definition rejected_once (c c' : RolloutCoordinator) : Prop :=
  ∃ e, c'.(ro_history) = c.(ro_history) ++ [e] ∧ e.(he_result) = Result_Rejected.

Lemma rollout_at_cases c control m request at_ms c' m' r :
  RolloutCoordinator_rollout_at c control m request at_ms = (c', m', r) →
  refused c c' m m' ∧ rejected_once c c' ∧ (∃ e, r = Err e) ∨
  ∃ pub, SnapshotControlService_get_version control request.(rq_version) = Ok pub ∧
    execute_action c Action_Rollout pub request.(rq_requested_by) request.(rq_reason) m at_ms
      = (c', m', r).
Proof.
  unfold RolloutCoordinator_rollout_at, SnapshotControlService_get_version.
  destruct (validate_rollout_request _ _ _) as [[]|].
  - destruct (sc_records_by_version control !! _) as [pub|]; [intros H; right; by exists pub|].
    intros [= <- <- <-]. left. split_and!; [|by eexists|by eexists].
    split_and!; [done..|apply reject_counted].
  - intros [= <- <- <-]. left. split_and!; [|by eexists|by eexists].
    split_and!; [done..|apply reject_counted].
Qed.

Lemma rollback_at_cases c control m request at_ms c' m' r :
  RolloutCoordinator_rollback_at c control m request at_ms = (c', m', r) →
  refused c c' m m' ∧
    ((∃ v e, request.(rb_target_version) = Some v ∧ r = Err (Rollout_InvalidRequest e)) ∧ c' = c ∨
     rejected_once c c' ∧
       (r = Err NoRollbackCandidate ∧ request.(rb_target_version) = None ∧
          rollback_candidate c m = None ∨
        (∃ v, r = Err (RollbackTargetNotKnownGood v) ∧ request.(rb_target_version) = Some v ∧
           v ∉ c.(ro_successful_versions)) ∨
        ∃ v e, r = Err (UnknownPublishedVersion v) ∧ v ∈ c.(ro_successful_versions) ∧
          SnapshotControlService_get_version control v = Err e)) ∨
  ∃ v pub, SnapshotControlService_get_version control v = Ok pub ∧
    v ∈ c.(ro_successful_versions) ∧
    (request.(rb_target_version) = Some v ∨
     request.(rb_target_version) = None ∧ rollback_candidate c m = Some v) ∧
    execute_action c Action_Rollback pub request.(rb_requested_by) request.(rb_reason) m at_ms
      = (c', m', r).
Proof.
  unfold RolloutCoordinator_rollback_at, rollback_target.
  destruct (rb_target_version request) as [v|] eqn:Ev.
  - destruct (validate_rollout_request _ _ _) as [[]|e].
    2:{ intros [= <- <- <-]. left. split; [by split_and!|]. left. by split; [exists v, e|]. }
    case_decide as Hv.
    { intros [= <- <- <-]. left. split; [split_and!; [done..|apply reject_counted]|].
      right. split; [by eexists|]. right. left. by exists v. }
    destruct (SnapshotControlService_get_version control v) as [pub|e] eqn:Eg.
    { intros H. right. exists v, pub. by split_and!; auto. }
    intros [= <- <- <-]. left. split; [split_and!; [done..|apply reject_counted]|].
    right. split; [by eexists|]. right. right. by exists v, e.
  - destruct (rollback_candidate c m) as [v|] eqn:Ec.
    2:{ intros [= <- <- <-]. left. split; [split_and!; [done..|apply reject_counted]|].
        right. split; [by eexists|]. by left. }
    assert (Hv : v ∈ c.(ro_successful_versions)).
    { apply List.find_some in Ec as [Hin _]. apply list_elem_of_In. by apply in_rev. }
    destruct (SnapshotControlService_get_version control v) as [pub|e] eqn:Eg.
    { intros H. right. exists v, pub. by split_and!; auto. }
    intros [= <- <- <-]. left. split; [split_and!; [done..|apply reject_counted]|].
    right. split; [by eexists|]. right. right. by exists v, e.
Qed.

Lemma get_version_named s log v r :
  registry_is s log → SnapshotControlService_get_version s v = Ok r →
  r.(ps_version) = v ∧ r.(ps_snapshot).(ws_digest_sha256) = r.(ps_digest_sha256).
Proof.
  intros Hs. unfold SnapshotControlService_get_version. rewrite (ri_records _ _ Hs).
  destruct (log_version log v) as [x|] eqn:E; [|done]. intros [= <-].
  apply (find_key_Some ps_version) in E as [Hin Hv]. split; [done|].
  destruct (proj1 (Forall_forall _ _) (ri_ok _ _ Hs) _ Hin) as [_ H].
  by apply (f_equal ps_digest_sha256) in H.
Qed.

Lemma publish_keeps_version s log request at_ms v r :
  registry_is s log → SnapshotControlService_get_version s v = Ok r →
  SnapshotControlService_get_version (SnapshotControlService_publish_at s request at_ms).1 v = Ok r.
Proof.
  intros Hs. destruct (SnapshotControlService_publish_at s request at_ms) as [s' x] eqn:E1.
  destruct (log_publish log request at_ms) as [log' x'] eqn:E2.
  destruct (publish_at_refines _ _ _ _ _ _ _ _ Hs E1 E2) as (_ & Hs' & [new ->] & _). cbn [fst].
  unfold SnapshotControlService_get_version. rewrite (ri_records _ _ Hs), (ri_records _ _ Hs').
  destruct (log_version log v) eqn:E; [|done]. by rewrite (log_version_app _ _ _ _ E).
Qed.

Lemma publish_inv p request at_ms :
  plane_inv p →
  plane_inv {| cp_control := (SnapshotControlService_publish_at p.(cp_control) request at_ms).1;
               cp_rollout := p.(cp_rollout); cp_dataplane := p.(cp_dataplane) |}.
Proof.
  intros [[log Hs] Ha Hl Hk Hg Hh]. split; cbn; try done.
  - destruct (SnapshotControlService_publish_at _ request at_ms) as [s' x] eqn:E1.
    destruct (log_publish log request at_ms) as [log' x'] eqn:E2.
    by destruct (publish_at_refines _ _ _ _ _ _ _ _ Hs E1 E2) as (_ & ? & _); eexists.
  - intros a H. destruct (Ha a H) as (r & Hr & ? & ?). exists r.
    split_and!; try done. by eapply publish_keeps_version.
  - intros v H. destruct (Hk v H) as (r & Hr). exists r. by eapply publish_keeps_version.
Qed.

Lemma refused_inv p c m :
  plane_inv p → refused p.(cp_rollout) c p.(cp_dataplane) m →
  plane_inv {| cp_control := p.(cp_control); cp_rollout := c; cp_dataplane := m |}.
Proof. intros [] (-> & Es & Hh). split; cbn; rewrite ?Es; auto. Qed.

Lemma execute_inv p action v pub actor reason at_ms c m r :
  plane_inv p → SnapshotControlService_get_version p.(cp_control) v = Ok pub →
  execute_action p.(cp_rollout) action pub actor reason p.(cp_dataplane) at_ms = (c, m, r) →
  plane_inv {| cp_control := p.(cp_control); cp_rollout := c; cp_dataplane := m |}.
Proof.
  intros [[log Hs] Ha Hl Hk Hg Hh] Hpub E.
  destruct (get_version_named _ _ _ _ Hs Hpub) as [Hv Hd].
  apply execute_spec in E as (_ & Hc & E). destruct r as [resp|e].
  - destruct E as (_ & Hact & [(Em & El & Es)|(El & Hlast & Hnew & a & Em & Hav & Has & Had)]).
    + unfold active_version in *. split; cbn; unfold active_version; rewrite ?Em, ?El, ?Es; eauto.
    + split; cbn; eauto.
      * rewrite Em. intros x [= <-]. exists pub. rewrite Hav, Hv. by split_and!; congruence.
      * by rewrite Hlast, Hact.
      * intros w [Hw| ->]%Hnew; [by apply Hk|]. exists pub. by rewrite Hv.
  - destruct E as (_ & Em & El & Es). unfold active_version in *.
    split; cbn; unfold active_version; rewrite ?Em, ?El, ?Es; eauto.
Qed.

Lemma plane_reachable_inv hook p : plane_reachable hook p → plane_inv p.
Proof.
  induction 1 as [|p q _ IH Hstep].
  { split; cbn; try done; [exists []; apply registry_is_new|]. intros v ?%elem_of_nil. done. }
  destruct Hstep as [request at_ms|request at_ms c m r E|request at_ms c m r E].
  - by apply publish_inv.
  - apply rollout_at_cases in E as [(? & _)|(pub & Hpub & E)]; [by apply refused_inv|].
    by eapply execute_inv.
  - apply rollback_at_cases in E as [(? & _)|(v & pub & Hpub & _ & _ & E)]; [by apply refused_inv|].
    by eapply execute_inv.
Qed.
(** C24: however publications, rollouts and rollbacks follow each other, what runs is the
    snapshot published under its version, it is the last known good one and the last
    of the versions that were applied, all of which stay published, and the history is
    counted. *)
Theorem rollout_plane_consistent (hook : HookState) (p : ControlPlane)
    (Hp : plane_reachable hook p) : plane_inv p.
Proof. by apply (plane_reachable_inv hook). Qed.

Lemma rollback_candidate_Some c m v :
  rollback_candidate c m = Some v →
  Some v ≠ active_version m ∧
  ∃ older newer, c.(ro_successful_versions) = older ++ v :: newer ∧
    ∀ w, w ∈ newer → Some w = active_version m.
Proof.
  unfold rollback_candidate. generalize (ro_successful_versions c) as l. intros l.
  induction l as [|x l IH] using rev_ind; [done|]. rewrite rev_unit. cbn. case_bool_decide as E.
  - intros [= <-]. split; [done|]. exists l, []. split; [done|]. by intros w ?%elem_of_nil.
  - intros [Hv (older & newer & -> & Hn)]%IH. split; [done|]. exists older, (newer ++ [x]).
    rewrite <- app_assoc. split; [done|]. intros w [?|?%list_elem_of_singleton]%elem_of_app; [auto|].
    by subst w.
Qed.

Lemma rollback_candidate_None c m v :
  rollback_candidate c m = None → v ∈ c.(ro_successful_versions) → Some v = active_version m.
Proof.
  intros H Hv. apply dec_stable. intros E.
  pose proof (List.find_none _ _ H v) as Hn. cbn in Hn. rewrite bool_decide_eq_false in Hn.
  apply Hn; [|done]. apply in_rev. rewrite rev_involutive. by apply list_elem_of_In.
Qed.

(** C25: in every reachable plane a rollback without a target goes to the version that
    was applied last among those that do not run now, and that version then runs as
    published; it finds none only if nothing but the running version was ever applied;
    the only other failure is the refusal of the manager, and then nothing changes. *)
Theorem rollback_restores_previous (hook : HookState) (p : ControlPlane) (actor reason : option string)
    (at_ms : N) (c : RolloutCoordinator) (m : DataplaneSnapshotManager)
    (r : Result RolloutResponse RolloutError)
    (Hp : plane_reachable hook p)
    (Hrun : RolloutCoordinator_rollback_at p.(cp_rollout) p.(cp_control) p.(cp_dataplane)
              {| rb_target_version := None; rb_requested_by := actor; rb_reason := reason |} at_ms
            = (c, m, r)) :
  match r with
  | Ok response =>
      ∃ v older newer, p.(cp_rollout).(ro_successful_versions) = older ++ v :: newer ∧
        (∀ w, w ∈ newer → Some w = active_version p.(cp_dataplane)) ∧
        Some v ≠ active_version p.(cp_dataplane) ∧
        response.(rr_active_version) = v ∧ active_version m = Some v ∧
        ∃ a, m.(dm_active) = Some a ∧ runs_published p.(cp_control) a
  | Err NoRollbackCandidate =>
      m = p.(cp_dataplane) ∧
      ∀ v, v ∈ p.(cp_rollout).(ro_successful_versions) → Some v = active_version p.(cp_dataplane)
  | Err (Rollout_Apply _) => m.(dm_active) = p.(cp_dataplane).(dm_active)
  | Err _ => False
  end.
Proof.
  pose proof (plane_reachable_inv _ _ Hp) as Hinv. pose proof Hinv as [[log Hs] _ _ Hk _ _].
  apply rollback_at_cases in Hrun as
    [(Href & [[(v & e & ? & _) _]|[_ [(-> & _ & Hn)|[(v & _ & ? & _)|(v & e & _ & Hv & He)]]]])
    |(v & pub & Hpub & _ & [?|[_ Ht]] & E)]; cbn [rb_target_version] in *; try done.
  - split; [by apply Href|]. intros v. by apply rollback_candidate_None.
  - destruct (Hk v Hv) as [r' Hr']. congruence.
  - destruct (get_version_named _ _ _ _ Hs Hpub) as [Hv _].
    pose proof (execute_inv _ _ _ _ _ _ _ _ _ _ Hinv Hpub E) as [_ Hrun _ _ _ _].
    apply execute_spec in E as (_ & _ & E). destruct r as [resp|e].
    + apply rollback_candidate_Some in Ht as (Hne & older & newer & Hl & Hn).
      destruct E as (Hr & Ha & _). rewrite Hv in *. exists v, older, newer. split_and!; try done.
      unfold active_version in Ha. cbn in Hrun. destruct (dm_active m) as [a|]; [|done].
      exists a. split; [done|by apply Hrun].
    + by destruct E as ([x ->] & ? & _).
Qed.

(** A rollout or rollback that fails keeps the running snapshot and the versions
    known to be good, whatever the state, and leaves one rejected entry in the history;
    only an invalid explicit rollback target leaves none. *)
Theorem failed_action_keeps_active (c c' : RolloutCoordinator) (control : SnapshotControlService)
    (m m' : DataplaneSnapshotManager) (at_ms : N) (error : RolloutError)
    (Hfail : (∃ request, RolloutCoordinator_rollout_at c control m request at_ms = (c', m', Err error)) ∨
             (∃ request, RolloutCoordinator_rollback_at c control m request at_ms = (c', m', Err error))) :
  m'.(dm_active) = m.(dm_active) ∧ c'.(ro_successful_versions) = c.(ro_successful_versions) ∧
  (rejected_once c c' ∨ c' = c ∧ ∃ e, error = Rollout_InvalidRequest e).
Proof.
  assert (Hex : ∀ action pub actor reason,
    execute_action c action pub actor reason m at_ms = (c', m', Err error) →
    m'.(dm_active) = m.(dm_active) ∧ c'.(ro_successful_versions) = c.(ro_successful_versions) ∧
    rejected_once c c').
  { intros ???? ((e & Hh & He) & _ & _ & Ha & _ & Hs)%execute_spec. split_and!; try done.
    exists e. split; [done|]. apply He. by eexists. }
  destruct Hfail as [[request E]|[request E]].
  - apply rollout_at_cases in E as [((-> & Hs & _) & Hr & _)|(pub & _ & E)]; [by auto|].
    apply Hex in E as (? & ? & ?). by auto.
  - apply rollback_at_cases in E as
      [((-> & Hs & _) & [[(v & e & _ & [= ->]) ->]|[Hr _]])|(v & pub & _ & _ & _ & E)];
      [by split_and!; eauto..|]. apply Hex in E as (? & ? & ?). by auto.
Qed.

(** ** Theorems: promotion *)

Lemma preview_cases p control request p' r :
  PromotionCoordinator_preview p control request = (p', r) →
  match r with
  | Ok response =>
      ∃ candidate,
        SnapshotControlService_get_version control (trim request.(pv_candidate_version)) = Ok candidate ∧
        SnapshotControlService_preview_diff control request.(pv_baseline_version)
          candidate.(ps_snapshot) = Ok response.(po_preview) ∧
        (response.(po_requires_staged_apply_ack) = false ↔
           response.(po_preview).(dp_impact_analysis).(ia_severity) = Severity_Low)
  | Err _ => p' = p
  end.
Proof.
  unfold PromotionCoordinator_preview. destruct (is_empty _); [by intros [= <- <-]|].
  destruct (SnapshotControlService_get_version _ _) as [candidate|[]]; [|by intros [= <- <-]..].
  destruct (SnapshotControlService_preview_diff _ _ _) as [preview|] eqn:Ed; [|by intros [= <- <-]].
  intros [= <- <-]. exists candidate. split; [done|]. split; [done|]. cbn. by destruct (ia_severity _).
Qed.

(** The counters of a coordinator are [u64]. *)
Definition counted (p : PromotionCoordinator) : Prop :=
  p.(pc_metrics).(preview_count) ≤ u64_max ∧ p.(pc_metrics).(promotion_apply_count) ≤ u64_max ∧
  p.(pc_metrics).(blocked_staged_apply_count) ≤ u64_max.

(** What the previews and applies of a promotion coordinator count. *)
Definition promotion_counts (p p' : PromotionCoordinator) (previews applies blocked : N) : Prop :=
  p'.(pc_metrics).(preview_count) = saturating_add u64_max p.(pc_metrics).(preview_count) previews ∧
  p'.(pc_metrics).(promotion_apply_count) =
    saturating_add u64_max p.(pc_metrics).(promotion_apply_count) applies ∧
  p'.(pc_metrics).(blocked_staged_apply_count) =
    saturating_add u64_max p.(pc_metrics).(blocked_staged_apply_count) blocked.

Lemma promotion_counts_refl p : counted p → promotion_counts p p 0 0 0.
Proof. intros (? & ? & ?). unfold promotion_counts, saturating_add. lia. Qed.

(** Counts of a state that differs from a counted one by single increments. *)
Ltac solve_counts := unfold promotion_counts, counted, saturating_add in *; cbn; lia.

Lemma preview_counts p control request p' response :
  counted p → PromotionCoordinator_preview p control request = (p', Ok response) →
  promotion_counts p p' 1 0 0.
Proof.
  intros (? & ? & ?). unfold PromotionCoordinator_preview. repeat case_match; try done;
    intros [= <- _]; solve_counts.
Qed.

Lemma get_version_logged control log version record :
  registry_is control log → SnapshotControlService_get_version control version = Ok record →
  record ∈ log ∧ record.(ps_version) = version.
Proof.
  intros Hlog. unfold SnapshotControlService_get_version. rewrite (ri_records _ _ Hlog).
  destruct (log_version log version) as [x|] eqn:Ex; [|done]. intros [= <-].
  by apply (find_key_Some ps_version) in Ex.
Qed.

(** C26: a promotion that succeeds runs the version of the request as it was written, which is
    published; the change from the baseline (without one, the version published last) to the
    version named without surrounding blanks had low impact or was acknowledged.  For a name
    without surrounding blanks the two are the same version; for one with blanks they need not
    be, and the version that runs was not the one compared.  A promotion refused for its impact
    was not acknowledged, touches neither dataplane nor rollout coordinator, and only counts
    one preview and one blocked apply.  Any other failure leaves the running snapshot and counts
    no apply.  The counters of the coordinator are assumed to fit their 64 bits. *)
Theorem promotion_guarded (p p' : PromotionCoordinator) (control : SnapshotControlService)
    (rollout rollout' : RolloutCoordinator) (m m' : DataplaneSnapshotManager)
    (request : PromotionApplyRequest) (clock : Result Duration Duration)
    (r : Result PromotionApplyResponse PromotionError) (log : list PublishedSnapshotRecord)
    (Hlog : registry_is control log) (Hcount : counted p)
    (Happly : PromotionCoordinator_apply p control rollout m request clock = (p', rollout', m', r)) :
  let written := request.(pa_candidate_version) in
  match r with
  | Ok response =>
      active_version m' = Some written ∧ promotion_counts p p' 1 1 0 ∧
      (∃ applied, applied ∈ log ∧ applied.(ps_version) = written) ∧
      (∃ candidate preview, candidate ∈ log ∧ candidate.(ps_version) = trim written ∧
         SnapshotControlService_preview_diff control request.(pa_baseline_version)
           candidate.(ps_snapshot) = Ok preview ∧
         (preview.(dp_impact_analysis).(ia_severity) = Severity_Low ∨
          request.(pa_allow_staged_apply) = true))
  | Err (StagedApplyRequired severity _) =>
      severity ≠ Severity_Low ∧ request.(pa_allow_staged_apply) = false ∧ m' = m ∧ rollout' = rollout ∧
      promotion_counts p p' 1 0 1 ∧
      (∃ candidate preview, candidate ∈ log ∧ candidate.(ps_version) = trim written ∧
         SnapshotControlService_preview_diff control request.(pa_baseline_version)
           candidate.(ps_snapshot) = Ok preview ∧
         preview.(dp_impact_analysis).(ia_severity) = severity)
  | Err _ =>
      m'.(dm_active) = m.(dm_active) ∧
      (promotion_counts p p' 0 0 0 ∨ promotion_counts p p' 1 0 0)
  end.
Proof.
  unfold PromotionCoordinator_apply in Happly. cbv zeta.
  destruct (PromotionCoordinator_preview _ _ _) as [p1 [preview|e]] eqn:Ep;
    pose proof (preview_cases _ _ _ _ _ Ep) as Hp; cbn [pv_candidate_version pv_baseline_version] in Hp.
  2:{ injection Happly as <- <- <- <-. subst p1. pose proof (promotion_counts_refl p Hcount).
      unfold PromotionCoordinator_preview in Ep. repeat case_match; simplify_eq; by auto. }
  apply preview_counts in Ep; [|done]. destruct Hp as (candidate & Hc & Hd & Hsev).
  destruct (get_version_logged _ _ _ _ Hlog Hc) as [Hin Hname].
  destruct (po_requires_staged_apply_ack preview && negb (pa_allow_staged_apply request)) eqn:Eg.
  { injection Happly as <- <- <- <-. apply andb_true_iff in Eg as [E1 E2%negb_true_iff].
    split_and!; try done; [intros E; apply Hsev in E; congruence|solve_counts|eauto 10]. }
  unfold RolloutCoordinator_rollout in Happly.
  destruct (current_unix_ms clock) as [now|e]; [|injection Happly as <- <- <- <-; by auto].
  destruct (RolloutCoordinator_rollout_at _ _ _ _ _) as [[c1 m1] [resp|e]] eqn:Er;
    injection Happly as <- <- <- <-.
  - apply rollout_at_cases in Er as [(_ & _ & [? ?])|(pub & Hpub & E)]; [done|]. cbn in Hpub.
    destruct (get_version_logged _ _ _ _ Hlog Hpub) as [Hpin Hpv].
    apply execute_spec in E as (_ & _ & _ & Ha & _). rewrite Hpv in Ha. split; [done|]. split; [solve_counts|].
    split; [by exists pub|]. exists candidate, (po_preview preview). split_and!; try done.
    apply andb_false_iff in Eg as [E1|E2%negb_false_iff]; [left; by apply Hsev|by right].
  - split; [|by right].
    destruct (rollout_at_cases _ _ _ _ _ _ _ _ Er) as [((-> & _) & _)|(pub & _ & E)]; [done|].
    by apply execute_spec in E as (_ & _ & _ & ? & _).
Qed.

Lemma diff_entries_same {V} (update : string → V → V → list SnapshotResourceChange) (x : gmap string V) :
  (∀ name v, update name v v = []) → diff_entries update x x = [].
Proof.
  intros H. unfold diff_entries. induction (btree_set_iter _) as [|n l IH]; [done|]. cbn.
  rewrite IH, app_nil_r. by destruct (x !! n).
Qed.

Lemma self_diff_low (snapshot : WorkspaceSnapshot) :
  (analyze_snapshot_impact (WorkspaceSnapshot_diff snapshot snapshot)).(ia_severity) = Severity_Low.
Proof.
  unfold WorkspaceSnapshot_diff, diff_named_resources, diff_route_resources.
  rewrite !diff_entries_same; [done|..]; intros; by rewrite decide_False by (intros F; by apply F).
Qed.

(** The version published last, promoted without a baseline, is compared with
    itself: its impact is low whatever it changes, and no acknowledgement is asked. *)
Theorem latest_promotion_unguarded (p : PromotionCoordinator) (control : SnapshotControlService)
    (log : list PublishedSnapshotRecord) (candidate : PublishedSnapshotRecord)
    (requested_by reason : option string)
    (Hlog : registry_is control (log ++ [candidate]))
    (Hname : trim candidate.(ps_version) = candidate.(ps_version))
    (Hsome : is_empty candidate.(ps_version) = false) :
  ∃ p' response,
    PromotionCoordinator_preview p control
      {| pv_candidate_version := candidate.(ps_version); pv_baseline_version := None;
         pv_requested_by := requested_by; pv_reason := reason |} = (p', Ok response) ∧
    response.(po_preview).(dp_impact_analysis).(ia_severity) = Severity_Low ∧
    response.(po_requires_staged_apply_ack) = false.
Proof.
  unfold PromotionCoordinator_preview. cbn [pv_candidate_version pv_baseline_version].
  rewrite Hname, Hsome. unfold SnapshotControlService_get_version.
  rewrite (ri_records _ _ Hlog). unfold log_version.
  rewrite (find_key_NoDup ps_version) by (apply Hlog || set_solver).
  unfold SnapshotControlService_preview_diff. rewrite (registry_latest _ _ Hlog), last_snoc.
  cbn [dp_impact_analysis]. rewrite self_diff_low. eexists _, _. split; [done|]. cbn.
  by rewrite self_diff_low.
Qed.
End rollout.

(** ** A sample control plane *)

#[local] Existing Instances sample_crypto sample_sha256 route_contents route_resources.
#[local] Instance sample_hook : SnapshotActivationHook := NoopSnapshotActivationHook.

(** Signed snapshots; [digit] makes the digest. *)
Definition versioned_snapshot (digit : N) (routes : list RouteSnapshot) : WorkspaceSnapshot :=
  {| ws_digest_sha256 := of_bytes (repeat digit 64); ws_workspace_name := "edge";
     ws_security := sample_security; ws_content := (routes : @SnapshotContent route_contents) |}.

Definition publish_version (version : string) (digit : N) (routes : list RouteSnapshot) :
    SnapshotPublishRequest :=
  {| pr_version := version; pr_snapshot := versioned_snapshot digit routes;
     pr_artifact_attestation :=
       Some {| at_signer_identity := "release"; artifact_digest_sha256 := of_bytes (repeat digit 64);
               signature_ed25519 := sample_attestation.(signature_ed25519) |};
     pr_expected_digest_sha256 := None; pr_published_by := None; pr_reason := None |}.

Definition plane_publish (p : ControlPlane) (request : SnapshotPublishRequest) : ControlPlane :=
  {| cp_control := (SnapshotControlService_publish_at p.(cp_control) request 1).1;
     cp_rollout := p.(cp_rollout); cp_dataplane := p.(cp_dataplane) |}.

Definition plane_rollout (p : ControlPlane) (version : string) : ControlPlane :=
  let '(c, m, _) := RolloutCoordinator_rollout_at p.(cp_rollout) p.(cp_control) p.(cp_dataplane)
    {| rq_version := version; rq_requested_by := None; rq_reason := None |} 2 in
  {| cp_control := p.(cp_control); cp_rollout := c; cp_dataplane := m |}.

Definition rollback_once : RollbackRequest :=
  {| rb_target_version := None; rb_requested_by := None; rb_reason := None |}.

Definition plane_rollback (p : ControlPlane) : ControlPlane :=
  let '(c, m, _) := RolloutCoordinator_rollback_at p.(cp_rollout) p.(cp_control) p.(cp_dataplane)
    rollback_once 3 in
  {| cp_control := p.(cp_control); cp_rollout := c; cp_dataplane := m |}.

Definition empty_plane : ControlPlane :=
  {| cp_control := SnapshotControlService_new; cp_rollout := RolloutCoordinator_new;
     cp_dataplane := DataplaneSnapshotManager_with_hook tt |}.

(** Three versions, the last of which drops a route. *)
Definition published_plane : ControlPlane :=
  plane_publish (plane_publish (plane_publish empty_plane
    (publish_version "v1" 97 [sample_route "api" "a"; sample_route "old" "a"]))
    (publish_version "v2" 98 [sample_route "api" "b"; sample_route "old" "a"]))
    (publish_version "v3" 99 [sample_route "api" "b"]).

Definition running_plane : ControlPlane :=
  plane_rollout (plane_rollout (plane_rollout published_plane "v1") "v2") "v3".

Lemma reach_rollout p version :
  plane_reachable (tt : @HookState _ sample_hook) p →
  plane_reachable (tt : @HookState _ sample_hook) (plane_rollout p version).
Proof.
  intros H. unfold plane_rollout. destruct (RolloutCoordinator_rollout_at _ _ _ _ _) as [[c m] r] eqn:E.
  eapply Reach_step; [done|]. by eapply Step_rollout.
Qed.

Lemma reach_publish p request :
  plane_reachable (tt : @HookState _ sample_hook) p →
  plane_reachable (tt : @HookState _ sample_hook) (plane_publish p request).
Proof. intros H. eapply Reach_step; [exact H|]. apply Step_publish. Qed.

Lemma reach_published : plane_reachable (tt : @HookState _ sample_hook) published_plane.
Proof. unfold published_plane. apply reach_publish, reach_publish, reach_publish, Reach_new. Qed.

Lemma reach_running : plane_reachable (tt : @HookState _ sample_hook) running_plane.
Proof. unfold running_plane. apply reach_rollout, reach_rollout, reach_rollout, reach_published. Qed.

(** A second rollback returns to the version the first one left. *)
Example rollback_alternates :
  active_version running_plane.(cp_dataplane) = Some "v3" ∧
  active_version (plane_rollback running_plane).(cp_dataplane) = Some "v2" ∧
  active_version (plane_rollback (plane_rollback running_plane)).(cp_dataplane) = Some "v3".
Proof. vm_compute. repeat split; reflexivity. Qed.

(** Promotion checks the trimmed version and rolls out the version as written. *)
Example padded_promotion_refused :
  (PromotionCoordinator_apply PromotionCoordinator_new published_plane.(cp_control)
     RolloutCoordinator_new published_plane.(cp_dataplane)
     {| pa_candidate_version := " v3"; pa_baseline_version := Some "v3"; pa_requested_by := None;
        pa_reason := None; pa_allow_staged_apply := false |} (Ok (from_secs 1))).2 =
  Err (Promotion_Rollout (UnknownPublishedVersion " v3")).
Proof. vm_compute. reflexivity. Qed.

Lemma rollout_plane_consistent_witness :
  last running_plane.(cp_rollout).(ro_successful_versions) = active_version running_plane.(cp_dataplane).
Proof. exact (pi_last _ (rollout_plane_consistent _ running_plane reach_running)). Defined.

Lemma rollback_restores_previous_witness :
  ∃ v older newer, running_plane.(cp_rollout).(ro_successful_versions) = older ++ v :: newer ∧
    Some v ≠ active_version running_plane.(cp_dataplane).
Proof.
  assert (Hok : match (RolloutCoordinator_rollback_at running_plane.(cp_rollout)
                  running_plane.(cp_control) running_plane.(cp_dataplane) rollback_once 3).2 with
                | Ok _ => true | Err _ => false end = true) by (vm_compute; reflexivity).
  destruct (RolloutCoordinator_rollback_at _ _ _ _ _) as [[c m] r] eqn:E. cbn [snd] in Hok.
  pose proof (rollback_restores_previous _ running_plane None None 3 c m r reach_running E) as H.
  destruct r as [response|e]; [|discriminate Hok].
  destruct H as (v & older & newer & H1 & _ & H2 & _).
  exists v, older, newer. split; [exact H1|exact H2].
Defined.

(** Rolling out a version that was not published. *)
Definition refused_rollout :=
  RolloutCoordinator_rollout_at running_plane.(cp_rollout) running_plane.(cp_control)
    running_plane.(cp_dataplane)
    {| rq_version := "v9"; rq_requested_by := None; rq_reason := None |} 3.

Lemma failed_action_keeps_active_witness :
  refused_rollout.1.2.(dm_active) = running_plane.(cp_dataplane).(dm_active).
Proof.
  apply (failed_action_keeps_active running_plane.(cp_rollout) refused_rollout.1.1
    running_plane.(cp_control) running_plane.(cp_dataplane) refused_rollout.1.2 3
    (UnknownPublishedVersion "v9")).
  left. exists {| rq_version := "v9"; rq_requested_by := None; rq_reason := None |}.
  vm_compute. reflexivity.
Defined.

(** The log of the published plane. *)
Definition sample_log : list PublishedSnapshotRecord := records_in_order published_plane.(cp_control).

Lemma sample_log_ok : registry_is published_plane.(cp_control) sample_log.
Proof.
  destruct (plane_reachable_inv _ _ reach_published) as [[log Hs] _ _ _ _ _].
  unfold sample_log. by rewrite (registry_records _ _ Hs).
Qed.

(** Promoting the version that drops a route over the first, without acknowledgement. *)
Definition unacknowledged : PromotionApplyRequest :=
  {| pa_candidate_version := "v3"; pa_baseline_version := Some "v1"; pa_requested_by := None;
     pa_reason := None; pa_allow_staged_apply := false |}.

Definition promoted :=
  PromotionCoordinator_apply PromotionCoordinator_new published_plane.(cp_control)
    RolloutCoordinator_new published_plane.(cp_dataplane) unacknowledged (Ok (from_secs 1)).

Lemma promotion_guarded_witness :
  promoted.2 = Err (StagedApplyRequired Severity_High StagedCanary) ∧
  promoted.1.2 = published_plane.(cp_dataplane).
Proof.
  assert (E : promoted = (promoted.1.1.1, promoted.1.1.2, promoted.1.2,
                          Err (StagedApplyRequired Severity_High StagedCanary))).
  { vm_compute. reflexivity. }
  split; [rewrite E; reflexivity|].
  destruct (promotion_guarded PromotionCoordinator_new promoted.1.1.1 published_plane.(cp_control)
    RolloutCoordinator_new promoted.1.1.2 published_plane.(cp_dataplane) promoted.1.2 unacknowledged
    (Ok (from_secs 1)) (Err (StagedApplyRequired Severity_High StagedCanary)) sample_log)
    as (_ & _ & Hm & _).
  - exact sample_log_ok.
  - repeat split; vm_compute; discriminate.
  - exact E.
  - exact Hm.
Defined.

Lemma latest_promotion_unguarded_witness :
  ∃ p response,
    PromotionCoordinator_preview PromotionCoordinator_new published_plane.(cp_control)
      {| pv_candidate_version := "v3"; pv_baseline_version := None; pv_requested_by := None;
         pv_reason := None |} = (p, Ok response) ∧
    response.(po_requires_staged_apply_ack) = false.
Proof.
  destruct (last sample_log) as [candidate|] eqn:E.
  2:{ vm_compute in E. discriminate E. }
  assert (Hv : candidate.(ps_version) = "v3") by (vm_compute in E; injection E as <-; reflexivity).
  destruct (last_Some sample_log candidate) as [[log Hl] _]; [exact E|].
  destruct (latest_promotion_unguarded PromotionCoordinator_new published_plane.(cp_control) log
    candidate None None) as (p & response & Hp & _ & Ha).
  - rewrite <- Hl. exact sample_log_ok.
  - rewrite Hv. vm_compute. reflexivity.
  - rewrite Hv. vm_compute. reflexivity.
  - exists p, response. rewrite <- Hv. split; [exact Hp|exact Ha].
Defined.
