(* ===== verification/FleetStaged.v ===== *)
(** * Staged fleet rollouts: waves and their health gates

    Models [crates/admin-api/src/fleet_staged.rs], the planning of a fleet rollout in
    waves, and [fleet_gate.rs], the evaluation of the health of a wave, with the types
    of a fleet request of [fleet.rs] they use. *)

From stdpp Require Import pretty.
From S2P Require Import Prelude RustStr RustText.
Local Open Scope N_scope.
Local Open Scope rust_scope.

Definition MAX_WAVE_ID_LEN : nat := 64.

(** ** Requests *)

Inductive FleetRolloutStrategy :=
| Strategy_Immediate | Strategy_Sequential | Strategy_Canary (canary_nodes : nat).

Record FleetRolloutRequest := {
  fr_version : string; fr_requested_by : option string; fr_reason : option string;
  fr_node_ids : list string; fr_strategy : FleetRolloutStrategy;
  fr_max_allowed_divergence_ms : N }.

Inductive FleetHealthGateMode := Gate_Required | Gate_BestEffort.

Record FleetHealthGatePolicy := {
  gp_mode : FleetHealthGateMode; gp_min_ready_percent : N; gp_max_error_percent : N;
  gp_evaluation_window_ms : N; gp_timeout_ms : N }.

Definition FleetHealthGatePolicy_default : FleetHealthGatePolicy :=
  {| gp_mode := Gate_Required; gp_min_ready_percent := 95; gp_max_error_percent := 5;
     gp_evaluation_window_ms := 30000; gp_timeout_ms := 120000 |}.

Record FleetRolloutWaveDefinition := {
  wv_wave_id : string; wv_node_ids : list string; wv_max_parallel : nat;
  wv_gate_policy : FleetHealthGatePolicy }.

Record FleetStagedRolloutRequest := {
  sq_rollout : FleetRolloutRequest; sq_waves : list FleetRolloutWaveDefinition }.

Record FleetStagedRolloutPlan := {
  sp_rollout : FleetRolloutRequest; sp_waves : list FleetRolloutWaveDefinition;
  sp_node_to_wave : gmap string string }.

Inductive InvalidFleetStagedRolloutRequest :=
| EmptyWaves
| EmptyWaveId
| WaveIdTooLong
| DuplicateWaveId (wave_id : string)
| EmptyWaveNodes (wave_id : string)
| ZeroMaxParallel (wave_id : string)
| MaxParallelExceedsWaveSize (wave_id : string)
| DuplicateNodeAcrossWaves (node_id : string)
| UnassignedNode (node_id : string)
| UnknownNodeInWave (node_id : string)
| ZeroGateEvaluationWindow (wave_id : string)
| ZeroGateTimeout (wave_id : string)
| InvalidGateReadyPercent (wave_id : string)
| InvalidGateErrorPercent (wave_id : string).

Definition InvalidFleetStagedRolloutRequest_fmt (e : InvalidFleetStagedRolloutRequest) : string :=
  match e with
  | EmptyWaves => "staged rollout must declare at least one wave"
  | EmptyWaveId => "wave_id must not be empty"
  | WaveIdTooLong => "wave_id exceeds max length"
  | DuplicateWaveId wave_id => "duplicate wave_id '" +:+ wave_id +:+ "'"
  | EmptyWaveNodes wave_id => "wave '" +:+ wave_id +:+ "' must include at least one node"
  | ZeroMaxParallel wave_id =>
      "wave '" +:+ wave_id +:+ "' max_parallel must be greater than zero"
  | MaxParallelExceedsWaveSize wave_id =>
      "wave '" +:+ wave_id +:+ "' max_parallel exceeds number of nodes in the wave"
  | DuplicateNodeAcrossWaves node_id => "node '" +:+ node_id +:+ "' appears in more than one wave"
  | UnassignedNode node_id =>
      "requested node '" +:+ node_id +:+ "' is not assigned to any wave"
  | UnknownNodeInWave node_id => "wave references unknown node '" +:+ node_id +:+ "'"
  | ZeroGateEvaluationWindow wave_id =>
      "wave '" +:+ wave_id +:+ "' gate policy evaluation_window_ms must be greater than zero"
  | ZeroGateTimeout wave_id =>
      "wave '" +:+ wave_id +:+ "' gate policy timeout_ms must be greater than zero"
  | InvalidGateReadyPercent wave_id =>
      "wave '" +:+ wave_id +:+ "' gate policy min_ready_percent must be in 1..=100"
  | InvalidGateErrorPercent wave_id =>
      "wave '" +:+ wave_id +:+ "' gate policy max_error_percent must be in 0..=100"
  end.

(** ** Planning *)

(** The checks of a wave that come before its nodes. *)
Definition check_wave (wave_ids : gset string) (wave : FleetRolloutWaveDefinition) :
    Result (gset string) InvalidFleetStagedRolloutRequest :=
  let wave_id := trim wave.(wv_wave_id) in
  let policy := wave.(wv_gate_policy) in
  if is_empty wave_id then Err EmptyWaveId
  else if decide (MAX_WAVE_ID_LEN < length (bytes wave_id))%nat then Err WaveIdTooLong
  else if decide (wave_id ∈ wave_ids) then Err (DuplicateWaveId wave_id)
  else if decide (wave.(wv_node_ids) = []) then Err (EmptyWaveNodes wave_id)
  else if decide (wave.(wv_max_parallel) = 0)%nat then Err (ZeroMaxParallel wave_id)
  else if decide (length wave.(wv_node_ids) < wave.(wv_max_parallel))%nat
  then Err (MaxParallelExceedsWaveSize wave_id)
  else if decide (policy.(gp_evaluation_window_ms) = 0) then Err (ZeroGateEvaluationWindow wave_id)
  else if decide (policy.(gp_timeout_ms) = 0) then Err (ZeroGateTimeout wave_id)
  else if decide (policy.(gp_min_ready_percent) = 0 ∨ 100 < policy.(gp_min_ready_percent))
  then Err (InvalidGateReadyPercent wave_id)
  else if decide (100 < policy.(gp_max_error_percent)) then Err (InvalidGateErrorPercent wave_id)
  else Ok ({[ wave_id ]} ∪ wave_ids).

Fixpoint assign_nodes (expected_nodes : gset string) (wave_id : string) (node_ids : list string)
    (assigned_nodes : gset string) (node_to_wave : gmap string string) :
    Result (gset string * gmap string string) InvalidFleetStagedRolloutRequest :=
  match node_ids with
  | [] => Ok (assigned_nodes, node_to_wave)
  | node_id :: node_ids =>
      let node_id := trim node_id in
      if decide (node_id ∉ expected_nodes) then Err (UnknownNodeInWave node_id)
      else if decide (node_id ∈ assigned_nodes) then Err (DuplicateNodeAcrossWaves node_id)
      else assign_nodes expected_nodes wave_id node_ids ({[ node_id ]} ∪ assigned_nodes)
             (<[ node_id := wave_id ]> node_to_wave)
  end.

Fixpoint plan_waves (expected_nodes : gset string) (waves : list FleetRolloutWaveDefinition)
    (wave_ids assigned_nodes : gset string) (node_to_wave : gmap string string) :
    Result (gset string * gmap string string) InvalidFleetStagedRolloutRequest :=
  match waves with
  | [] => Ok (assigned_nodes, node_to_wave)
  | wave :: waves =>
      let? wave_ids := check_wave wave_ids wave in
      let? assigned := assign_nodes expected_nodes (trim wave.(wv_wave_id)) wave.(wv_node_ids)
                         assigned_nodes node_to_wave in
      plan_waves expected_nodes waves wave_ids assigned.1 assigned.2
  end.

Definition plan_staged_rollout (request : FleetStagedRolloutRequest) :
    Result FleetStagedRolloutPlan InvalidFleetStagedRolloutRequest :=
  match request.(sq_waves) with
  | [] => Err EmptyWaves
  | _ =>
      let expected_nodes := list_to_set (trim <$> request.(sq_rollout).(fr_node_ids)) : gset string in
      let? planned := plan_waves expected_nodes request.(sq_waves) ∅ ∅ ∅ in
      match List.find (λ node_id, bool_decide (node_id ∉ planned.1)) (btree_set_iter expected_nodes) with
      | Some node_id => Err (UnassignedNode node_id)
      | None => Ok {| sp_rollout := request.(sq_rollout); sp_waves := request.(sq_waves);
                      sp_node_to_wave := planned.2 |}
      end
  end.

(** ** Health gates *)

Record FleetNodeHealthSignal := {
  hs_node_id : string; hs_window_ms : N; hs_observed_at_unix_ms : N; hs_ready_percent : N;
  hs_error_percent : N; hs_request_count : N }.

Inductive FleetWaveGateVerdict := Verdict_Passed | Verdict_Failed | Verdict_Pending.

Record FleetWaveGateEvaluation := {
  ge_wave_id : string; ge_verdict : FleetWaveGateVerdict; ge_degraded : bool;
  ge_mode : FleetHealthGateMode; ge_evaluated_nodes : nat; ge_missing_nodes : nat;
  ge_failing_nodes : nat; ge_timed_out : bool; ge_detail : string;
  ge_signals : list FleetNodeHealthSignal }.

Definition signal_fails (policy : FleetHealthGatePolicy) (signal : FleetNodeHealthSignal) : bool :=
  (signal.(hs_ready_percent) <? policy.(gp_min_ready_percent)) ||
  (policy.(gp_max_error_percent) <? signal.(hs_error_percent)).

(** The loop over the nodes: missing, failing and the signals ingested. *)
Definition ingest_signals (policy : FleetHealthGatePolicy)
    (signals : gmap string FleetNodeHealthSignal) (node_ids : list string) :
    nat * nat * list FleetNodeHealthSignal :=
  foldl (λ '(missing_nodes, failing_nodes, ingested) node_id,
    match signals !! node_id with
    | Some signal =>
        (missing_nodes, if signal_fails policy signal then S failing_nodes else failing_nodes,
         ingested ++ [signal])
    | None => (S missing_nodes, failing_nodes, ingested)
    end) (0%nat, 0%nat, []) node_ids.

Definition gate_counts (before : string) (failing_nodes missing_nodes : nat) : string :=
  before +:+ pretty (N.of_nat failing_nodes) +:+ " failing and " +:+
  pretty (N.of_nat missing_nodes) +:+ " missing nodes".

Definition evaluate_wave_gate_with_policy (wave_id : string) (node_ids : list string)
    (policy : FleetHealthGatePolicy) (signals : gmap string FleetNodeHealthSignal)
    (wave_started_at_unix_ms evaluated_at_unix_ms : N) : FleetWaveGateEvaluation :=
  let deadline := saturating_add u64_max wave_started_at_unix_ms policy.(gp_timeout_ms) in
  let timed_out := deadline <=? evaluated_at_unix_ms in
  let '(missing_nodes, failing_nodes, ingested) := ingest_signals policy signals node_ids in
  let evaluated_nodes := length ingested in
  let '(verdict, degraded, detail) :=
    match policy.(gp_mode) with
    | Gate_Required =>
        if decide (failing_nodes = 0 ∧ missing_nodes = 0)%nat
        then (Verdict_Passed, false, "all nodes satisfy required wave gate thresholds")
        else if timed_out
        then (Verdict_Failed, true,
              gate_counts "required wave gate timed out with " failing_nodes missing_nodes)
        else (Verdict_Pending, bool_decide (0 < failing_nodes)%nat,
              gate_counts "required wave gate pending: " failing_nodes missing_nodes)
    | Gate_BestEffort =>
        let degraded := bool_decide (0 < failing_nodes ∨ 0 < missing_nodes)%nat in
        (Verdict_Passed, degraded,
         if degraded
         then gate_counts "best-effort wave gate accepted with " failing_nodes missing_nodes
         else "all nodes satisfy best-effort wave gate thresholds")
    end in
  {| ge_wave_id := wave_id; ge_verdict := verdict; ge_degraded := degraded;
     ge_mode := policy.(gp_mode); ge_evaluated_nodes := evaluated_nodes;
     ge_missing_nodes := missing_nodes; ge_failing_nodes := failing_nodes;
     ge_timed_out := timed_out; ge_detail := detail; ge_signals := ingested |}.

Definition evaluate_wave_gate (wave : FleetRolloutWaveDefinition)
    (signals : gmap string FleetNodeHealthSignal) (wave_started_at_unix_ms evaluated_at_unix_ms : N) :
    FleetWaveGateEvaluation :=
  evaluate_wave_gate_with_policy wave.(wv_wave_id) wave.(wv_node_ids) wave.(wv_gate_policy) signals
    wave_started_at_unix_ms evaluated_at_unix_ms.

(** ** Theorems: plans *)

Definition wave_key (wave : FleetRolloutWaveDefinition) : string := trim wave.(wv_wave_id).
Definition wave_nodes (wave : FleetRolloutWaveDefinition) : list string := trim <$> wave.(wv_node_ids).

(** What a wave must satisfy by itself. *)
Definition wave_ok (wave : FleetRolloutWaveDefinition) : Prop :=
  let policy := wave.(wv_gate_policy) in
  is_empty (wave_key wave) = false ∧ (length (bytes (wave_key wave)) ≤ MAX_WAVE_ID_LEN)%nat ∧
  (0 < wave.(wv_max_parallel) ≤ length wave.(wv_node_ids))%nat ∧
  0 < policy.(gp_evaluation_window_ms) ∧ 0 < policy.(gp_timeout_ms) ∧
  0 < policy.(gp_min_ready_percent) ≤ 100 ∧ policy.(gp_max_error_percent) ≤ 100.

Lemma check_wave_Ok wave_ids wave wave_ids' :
  check_wave wave_ids wave = Ok wave_ids' ↔
  wave_ok wave ∧ wave_key wave ∉ wave_ids ∧ wave_ids' = {[ wave_key wave ]} ∪ wave_ids.
Proof.
  unfold check_wave, wave_ok, wave_key. cbn zeta. destruct (is_empty _) eqn:E1; [naive_solver|].
  repeat (case_decide; [split; [done|]; intros ((? & ? & ? & ? & ? & ? & ?) & ? & ?); simplify_eq/=; try done; try lia|]).
  { destruct (wv_node_ids wave); simpl in *; [lia|done]. }
  split; [intros [= <-]|by intros (_ & _ & ->)]. split_and!; try done; lia.
Qed.

Lemma assign_sound expected id l : ∀ assigned m assigned' m',
  assign_nodes expected id l assigned m = Ok (assigned', m') →
  NoDup (trim <$> l) ∧ (∀ n, n ∈ trim <$> l → n ∈ expected ∧ n ∉ assigned) ∧
  (∀ n, n ∈ assigned' ↔ n ∈ trim <$> l ∨ n ∈ assigned) ∧
  (∀ n w, m' !! n = Some w ↔ n ∈ trim <$> l ∧ w = id ∨ n ∉ trim <$> l ∧ m !! n = Some w).
Proof.
  induction l as [|x l IH]; cbn; intros assigned m assigned' m'.
  { intros [= <- <-]. split_and!; [constructor|..]; set_solver. }
  case_decide; [done|]. case_decide as Ha; [done|].
  intros (Hnd & Hin & Has & Hm)%IH. split_and!.
  - constructor; [|done]. intros Hx%Hin. set_solver.
  - intros n [-> |Hn]%elem_of_cons; [by split|]. apply Hin in Hn. set_solver.
  - intros n. rewrite Has. set_solver.
  - intros n w. rewrite Hm, lookup_insert_Some, elem_of_cons.
    assert (Hx : trim x ∉ trim <$> l) by (intros Hx%Hin; set_solver). split.
    + intros [[? ->]|[? [[<- <-]|[? ?]]]]; [auto|auto|right]. split; [|done].
      intros [-> |?]; done.
    + intros [[[-> |?] ->]|[Hno ?]]; [right; auto|auto|right]. split; [tauto|]. right.
      split; [|done]. intros E. apply Hno. left. by rewrite E.
Qed.

Lemma assign_complete expected id l : ∀ assigned m,
  NoDup (trim <$> l) → (∀ n, n ∈ trim <$> l → n ∈ expected ∧ n ∉ assigned) →
  ∃ r, assign_nodes expected id l assigned m = Ok r.
Proof.
  induction l as [|x l IH]; cbn; intros assigned m Hnd Hin; [by eexists|].
  apply NoDup_cons in Hnd as [Hx Hnd]. destruct (Hin (trim x)) as [H1 H2]; [left|].
  rewrite decide_False by auto. rewrite decide_False by done. apply IH; [done|].
  intros n Hn. destruct (Hin n) as [? ?]; [by right|]. set_solver.
Qed.

Lemma plan_sound expected waves : ∀ ids assigned m assigned' m',
  plan_waves expected waves ids assigned m = Ok (assigned', m') →
  Forall wave_ok waves ∧ NoDup (wave_key <$> waves) ∧ (∀ i, i ∈ wave_key <$> waves → i ∉ ids) ∧
  NoDup (flat_map wave_nodes waves) ∧
  (∀ n, n ∈ flat_map wave_nodes waves → n ∈ expected ∧ n ∉ assigned) ∧
  (∀ n, n ∈ assigned' ↔ n ∈ flat_map wave_nodes waves ∨ n ∈ assigned) ∧
  (∀ n w, m' !! n = Some w ↔
     (∃ wave, wave ∈ waves ∧ n ∈ wave_nodes wave ∧ w = wave_key wave) ∨
     n ∉ flat_map wave_nodes waves ∧ m !! n = Some w).
Proof.
  induction waves as [|x waves IH]; cbn; intros ids assigned m assigned' m'.
  { intros [= <- <-]. split_and!; try constructor; set_solver. }
  destruct (check_wave ids x) as [ids1|] eqn:Ec; [|done]. apply check_wave_Ok in Ec as (Hw & Hid & ->).
  destruct (assign_nodes _ _ _ _ _) as [[a1 m1]|] eqn:Ea; [|done]. cbn.
  apply assign_sound in Ea as (Hnd & Hin & Has & Hm). fold (wave_nodes x) in *.
  intros (Hws & Hids & Hnew & Hnds & Hins & Has' & Hm')%IH. split_and!.
  - by constructor.
  - constructor; [|done]. intros Hx%Hnew. set_solver.
  - intros i [-> |Hi]%elem_of_cons; [done|]. apply Hnew in Hi. set_solver.
  - apply NoDup_app. split_and!; try done. intros n Hn Hn'. apply Hins in Hn' as [_ Hn'].
    apply Hn', Has. by left.
  - intros n [Hn|Hn]%elem_of_app; [by apply Hin|]. destruct (Hins n Hn) as [? Hno].
    split; [done|]. intros Hx. apply Hno, Has. by right.
  - intros n. rewrite Has', Has, elem_of_app. naive_solver.
  - intros n w. rewrite Hm', Hm, elem_of_app. setoid_rewrite elem_of_cons. unfold wave_key at 2.
    assert (n ∈ wave_nodes x → n ∉ flat_map wave_nodes waves).
    { intros Hn Hn'. apply Hins in Hn' as [_ Hn']. apply Hn', Has. by left. }
    split.
    + intros [(wave & ? & ? & ?)|[Hno [[? ->]|[? ?]]]];
        [left; exists wave; auto|left; exists x; auto|right; tauto].
    + intros [(wave & [-> |?] & ? & ->)|[Hno ?]];
        [right; split; auto|left; exists wave; auto|right; tauto].
Qed.

Lemma plan_complete expected waves : ∀ ids assigned m,
  Forall wave_ok waves → NoDup (wave_key <$> waves) → (∀ i, i ∈ wave_key <$> waves → i ∉ ids) →
  NoDup (flat_map wave_nodes waves) →
  (∀ n, n ∈ flat_map wave_nodes waves → n ∈ expected ∧ n ∉ assigned) →
  ∃ r, plan_waves expected waves ids assigned m = Ok r.
Proof.
  induction waves as [|x waves IH]; cbn; intros ids assigned m Hw Hids Hnew Hnd Hin; [by eexists|].
  apply Forall_cons in Hw as [Hx Hw]. apply NoDup_cons in Hids as [Hxi Hids].
  apply NoDup_app in Hnd as (Hn1 & Hdis & Hn2).
  assert (Ec : check_wave ids x = Ok ({[ wave_key x ]} ∪ ids)).
  { apply check_wave_Ok. split_and!; [done| |done]. apply Hnew. left. }
  rewrite Ec. destruct (assign_complete expected (trim x.(wv_wave_id)) x.(wv_node_ids) assigned m)
    as [[a1 m1] Ea]; [done|intros n Hn; apply Hin, elem_of_app; by left|].
  rewrite Ea. cbn. apply assign_sound in Ea as (_ & _ & Has & _). fold (wave_nodes x) in *.
  apply IH; try done.
  - intros i Hi [->%elem_of_singleton|Hi']%elem_of_union; [done|]. eapply Hnew; [by right|done].
  - intros n Hn. destruct (Hin n) as [? Hno]; [apply elem_of_app; by right|]. split; [done|].
    intros [Ha|Ha]%Has; [by eapply Hdis|done].
Qed.

(** The requests that have a plan: valid waves with distinct names whose nodes are the
    requested ones, each once. *)
Definition staged_ok (request : FleetStagedRolloutRequest) : Prop :=
  request.(sq_waves) ≠ [] ∧ Forall wave_ok request.(sq_waves) ∧
  NoDup (wave_key <$> request.(sq_waves)) ∧ NoDup (flat_map wave_nodes request.(sq_waves)) ∧
  ∀ n, n ∈ flat_map wave_nodes request.(sq_waves) ↔ n ∈ trim <$> request.(sq_rollout).(fr_node_ids).

(** C28: exactly the requests whose waves are valid, have distinct names and split the
    requested nodes have a plan; it keeps the request and maps each node to the one
    wave that lists it. *)
Theorem staged_plan_exact (request : FleetStagedRolloutRequest) :
  match plan_staged_rollout request with
  | Ok plan =>
      staged_ok request ∧ plan.(sp_rollout) = request.(sq_rollout) ∧
      plan.(sp_waves) = request.(sq_waves) ∧
      ∀ n w, plan.(sp_node_to_wave) !! n = Some w ↔
        ∃ wave, wave ∈ request.(sq_waves) ∧ n ∈ wave_nodes wave ∧ w = wave_key wave
  | Err _ => ¬ staged_ok request
  end.
Proof.
  unfold plan_staged_rollout, staged_ok. destruct (sq_waves request) as [|x l] eqn:El; [naive_solver|].
  rewrite <- El. set (expected := list_to_set _ : gset string).
  assert (Hexp : ∀ n, n ∈ expected ↔ n ∈ trim <$> fr_node_ids (sq_rollout request)).
  { intros n. apply elem_of_list_to_set. }
  destruct (plan_waves expected _ ∅ ∅ ∅) as [[assigned m]|e] eqn:Ep; cbn [fst snd].
  - pose proof (plan_sound _ _ _ _ _ _ _ Ep) as (H1 & H2 & _ & H3 & H4 & H5 & H6).
    destruct (List.find _ _) as [n|] eqn:Ef.
    + apply List.find_some in Ef as [Hn Hno%bool_decide_eq_true].
      intros (_ & _ & _ & _ & Hall). apply Hno, H5. left. apply Hall, Hexp.
      by apply elem_of_btree_set_iter, list_elem_of_In.
    + split_and!; try done.
      * by rewrite El.
      * intros n. split; [intros [Hn _]%H4; by apply Hexp|]. intros Hn%Hexp.
        pose proof (List.find_none _ _ Ef n) as Hf. cbn in Hf. rewrite bool_decide_eq_false in Hf.
        destruct (decide (n ∈ assigned)) as [[?|?]%H5|Hno]; [done|set_solver|].
        destruct Hf; [|done]. by apply list_elem_of_In, elem_of_btree_set_iter.
      * intros n w. rewrite H6, lookup_empty. naive_solver.
  - intros (_ & H1 & H2 & H3 & H4).
    destruct (plan_complete expected (sq_waves request) ∅ ∅ ∅) as [r Hr]; try done.
    + intros n Hn. split; [by apply Hexp, H4|set_solver].
    + congruence.
Qed.

(** ** Theorems: gates *)

Definition node_healthy (policy : FleetHealthGatePolicy) (signals : gmap string FleetNodeHealthSignal)
    (node_id : string) : Prop :=
  ∃ signal, signals !! node_id = Some signal ∧
    policy.(gp_min_ready_percent) ≤ signal.(hs_ready_percent) ∧
    signal.(hs_error_percent) ≤ policy.(gp_max_error_percent).

Lemma ingest_spec policy signals node_ids :
  let '(missing, failing, ingested) := ingest_signals policy signals node_ids in
  ingested = omap (λ n, signals !! n) node_ids ∧
  (missing + length ingested = length node_ids)%nat ∧
  failing = length (List.filter (signal_fails policy) ingested).
Proof.
  unfold ingest_signals. induction node_ids as [|n l IH] using rev_ind; [done|].
  rewrite foldl_app, omap_app, length_app. cbn [foldl omap list_omap length].
  destruct (foldl _ _ l) as [[missing failing] ingested]. destruct IH as (-> & Hl & ->).
  destruct (signals !! n) as [signal|]; cbn.
  - rewrite List.filter_app, !length_app. cbn. split_and!; [done|lia|].
    destruct (signal_fails policy signal); cbn; lia.
  - rewrite app_nil_r. split_and!; [done|lia|done].
Qed.

Lemma ingest_healthy policy signals node_ids :
  let '(missing, failing, _) := ingest_signals policy signals node_ids in
  (failing = 0 ∧ missing = 0)%nat ↔ Forall (node_healthy policy signals) node_ids.
Proof.
  unfold ingest_signals. induction node_ids as [|n l IH] using rev_ind; [by split|].
  rewrite foldl_app. cbn [foldl].
  destruct (foldl _ _ l) as [[missing failing] ingested]. destruct (signals !! n) as [signal|] eqn:E;
    rewrite Forall_app, Forall_singleton; unfold node_healthy at 2; rewrite E.
  - rewrite <- IH. destruct (signal_fails policy signal) eqn:Ef; unfold signal_fails in Ef.
    + split; [lia|]. intros [_ (x & [= <-] & ? & ?)].
      apply orb_true_iff in Ef as [?%N.ltb_lt|?%N.ltb_lt]; lia.
    + apply orb_false_iff in Ef as [?%N.ltb_ge ?%N.ltb_ge]. split; [|by intros [? _]].
      intros ?. split; [done|]. by exists signal.
  - split; [lia|]. by intros [_ (x & ? & _)].
Qed.

Lemma wave_gate_spec (wave_id : string) (node_ids : list string) (policy : FleetHealthGatePolicy)
    (signals : gmap string FleetNodeHealthSignal) (started evaluated : N) :
  let e := evaluate_wave_gate_with_policy wave_id node_ids policy signals started evaluated in
  let healthy := Forall (node_healthy policy signals) node_ids in
  let late := N.min u64_max (started + policy.(gp_timeout_ms)) ≤ evaluated in
  (e.(ge_timed_out) = true ↔ late) ∧
  (e.(ge_evaluated_nodes) + e.(ge_missing_nodes) = length node_ids)%nat ∧
  (e.(ge_failing_nodes) ≤ e.(ge_evaluated_nodes))%nat ∧
  match policy.(gp_mode) with
  | Gate_Required =>
      (e.(ge_verdict) = Verdict_Passed ↔ healthy) ∧
      (e.(ge_verdict) = Verdict_Failed ↔ ¬ healthy ∧ late) ∧
      (e.(ge_verdict) = Verdict_Pending ↔ ¬ healthy ∧ ¬ late)
  | Gate_BestEffort =>
      e.(ge_verdict) = Verdict_Passed ∧ (e.(ge_degraded) = true ↔ ¬ healthy)
  end.
Proof.
  unfold evaluate_wave_gate_with_policy. pose proof (ingest_spec policy signals node_ids) as Hs.
  pose proof (ingest_healthy policy signals node_ids) as Hh.
  destruct (ingest_signals policy signals node_ids) as [[missing failing] ingested].
  destruct Hs as (_ & Hl & Hf).
  assert (Hfl : (failing ≤ length ingested)%nat) by (rewrite Hf; apply List.filter_length_le).
  set (late := saturating_add _ _ _ <=? evaluated).
  assert (Hlate : late = true ↔ N.min u64_max (started + gp_timeout_ms policy) ≤ evaluated).
  { unfold late, saturating_add. rewrite N.leb_le, N.min_comm. done. }
  destruct (gp_mode policy); cbn zeta.
  - case_decide as D; [|destruct late]; cbn; split_and!; try lia; rewrite <- ?Hh, <- ?Hlate; naive_solver.
  - cbn. split_and!; try lia; [naive_solver|]. rewrite bool_decide_eq_true, <- Hh. lia.
Qed.

(** A required gate passes exactly when every node of the wave reported a healthy
    signal; otherwise it has failed from the deadline on and is pending before; a
    best-effort gate passes and is degraded exactly when some node is not healthy; each
    node counts once, as evaluated or missing. *)
Theorem wave_gate_exact (wave_id : string) (node_ids : list string) (policy : FleetHealthGatePolicy)
    (signals : gmap string FleetNodeHealthSignal) (started evaluated : N) :
  let e := evaluate_wave_gate_with_policy wave_id node_ids policy signals started evaluated in
  let healthy := Forall (node_healthy policy signals) node_ids in
  let late := N.min u64_max (started + policy.(gp_timeout_ms)) ≤ evaluated in
  (e.(ge_timed_out) = true ↔ late) ∧
  (e.(ge_evaluated_nodes) + e.(ge_missing_nodes) = length node_ids)%nat ∧
  (e.(ge_failing_nodes) ≤ e.(ge_evaluated_nodes))%nat ∧
  match policy.(gp_mode) with
  | Gate_Required =>
      (e.(ge_verdict) = Verdict_Passed ↔ healthy) ∧
      (e.(ge_verdict) = Verdict_Failed ↔ ¬ healthy ∧ late) ∧
      (e.(ge_verdict) = Verdict_Pending ↔ ¬ healthy ∧ ¬ late)
  | Gate_BestEffort =>
      e.(ge_verdict) = Verdict_Passed ∧ (e.(ge_degraded) = true ↔ ¬ healthy)
  end.
Proof. apply wave_gate_spec. Qed.
