(* ===== verification/Fleet.v ===== *)
(** * Rollout over a fleet of nodes

    Models [crates/admin-api/src/fleet.rs] and the collection of health signals of
    [fleet_gate.rs]: the coordinator that applies a published version to the nodes of a
    fleet in order, the report on how far the fleet has converged, and the decision on
    abort and automatic rollback.  The nodes are behind the trait [FleetNodeBackend],
    here a class over the state of the backend; its queries take the backend by
    shared reference and leave the state. *)

From S2P Require Import Prelude RustStr RustText ArtifactSecurity ConfigApplication SnapshotDiff SnapshotControl Rollout FleetStaged.
Local Open Scope N_scope.
Local Open Scope rust_scope.

Definition MAX_FLEET_NODES : nat := 128.
Definition MAX_NODE_ID_LEN : nat := 128.

(** ** Requests, reports and errors *)

Inductive FleetConsistencyMode := BoundedEventual.

Inductive FleetConvergenceState :=
| Fleet_Converged | Fleet_Progressing | Fleet_Diverged | Fleet_Degraded.

Inductive FleetRecommendedAction :=
| ObserveOnly | WaitForConvergence | RetryFailedNodes | RollbackFleet | InvestigatePartition.

Inductive FleetAbortReason := WaveGateFailed | WaveGateTimedOut.

Inductive FleetAutoRollbackMode := Auto_Disabled | OnFailedGate | OnFailedOrTimedOut.

Record FleetRollbackPolicyConfig := { auto_rollback_mode : FleetAutoRollbackMode }.

Definition FleetRollbackPolicyConfig_default : FleetRollbackPolicyConfig :=
  {| auto_rollback_mode := OnFailedOrTimedOut |}.

Definition should_auto_rollback (policy : FleetRollbackPolicyConfig) (timed_out : bool) : bool :=
  match policy.(auto_rollback_mode) with
  | Auto_Disabled => false
  | OnFailedGate => negb timed_out
  | OnFailedOrTimedOut => true
  end.

Record FleetAbortRollbackDecision := {
  ad_wave_id : string; ad_should_abort : bool; ad_should_auto_rollback : bool;
  ad_reason : option FleetAbortReason; ad_detail : string }.

Record FleetAutoRollbackOutcome := {
  ao_attempted : bool; ao_succeeded : bool; ao_target_version : option string;
  ao_convergence_state : option FleetConvergenceState; ao_detail : string }.

Inductive FleetNodeConvergenceState :=
| Node_Converged | Node_Pending | Node_Diverged | Node_Unavailable.
#[export] Instance FleetNodeConvergenceState_eq_dec : EqDecision FleetNodeConvergenceState.
Proof. solve_decision. Defined.

Inductive FleetNodeActionResult := Node_Applied | Node_Unchanged | Node_Failed | Node_Skipped.
#[export] Instance FleetNodeActionResult_eq_dec : EqDecision FleetNodeActionResult.
Proof. solve_decision. Defined.

Record FleetNodeRuntimeStatus := {
  nr_node_id : string; nr_desired_version : option string; nr_desired_digest_sha256 : option string;
  nr_active_version : option string; nr_active_digest_sha256 : option string;
  nr_last_known_good_version : option string; nr_readiness : option string;
  nr_observed_at_unix_ms : N }.

Record FleetNodeStatus := {
  ns_node_id : string; ns_desired_version : option string; ns_desired_digest_sha256 : option string;
  ns_active_version : option string; ns_active_digest_sha256 : option string;
  ns_last_known_good_version : option string; ns_readiness : option string;
  ns_observed_at_unix_ms : N; ns_convergence_state : FleetNodeConvergenceState;
  ns_detail : option string }.

Record FleetNodeActionOutcome := {
  no_node_id : string; no_result : FleetNodeActionResult; no_active_version : option string;
  no_active_digest_sha256 : option string; no_last_known_good_version : option string;
  no_detail : string }.

Record FleetConvergenceReport := {
  cr_desired_version : string; cr_desired_digest_sha256 : string;
  cr_consistency_mode : FleetConsistencyMode; cr_state : FleetConvergenceState;
  cr_recommended_action : FleetRecommendedAction; cr_rollout_started_at_unix_ms : N;
  cr_divergence_deadline_unix_ms : N; cr_exceeded_divergence_budget : bool;
  cr_converged_nodes : nat; cr_pending_nodes : nat; cr_diverged_nodes : nat;
  cr_unavailable_nodes : nat; cr_partial_rollout : bool; cr_nodes : list FleetNodeStatus }.

Record FleetRollbackRequest := {
  fb_target_version : option string; fb_requested_by : option string; fb_reason : option string;
  fb_node_ids : list string; fb_max_allowed_divergence_ms : N }.

Record FleetRolloutResponse := {
  fo_action : RolloutActionKind; fo_strategy : FleetRolloutStrategy; fo_desired_version : string;
  fo_desired_digest_sha256 : string; fo_shared_last_known_good_version : option string;
  fo_convergence : FleetConvergenceReport; fo_node_outcomes : list FleetNodeActionOutcome }.

Record FleetRolloutMetrics := {
  fm_rollout_count : N; fm_rollback_count : N; fm_converged_fleet_count : N;
  fm_partial_failure_count : N; fm_divergence_count : N; fm_degraded_count : N;
  fm_audit_event_count : N; fm_history_size : N }.

Record FleetRolloutHistoryEntry := {
  fe_action : RolloutActionKind; fe_strategy : FleetRolloutStrategy; fe_target_version : string;
  fe_desired_digest_sha256 : string; fe_convergence_state : FleetConvergenceState;
  fe_converged_nodes : nat; fe_pending_nodes : nat; fe_diverged_nodes : nat;
  fe_unavailable_nodes : nat; fe_occurred_at_unix_ms : N; fe_detail : string }.

Inductive InvalidFleetRequest :=
| EmptyNodeIds | TooManyNodes | EmptyNodeId | DuplicateNodeId (node_id : string) | NodeIdTooLong
| ZeroMaxAllowedDivergenceMs | ZeroCanaryNodes.

Inductive FleetNodeBackendError :=
| Backend_Unreachable (detail : string)
| Backend_Rejected (detail : string).

Definition FleetNodeBackendError_fmt (e : FleetNodeBackendError) : string :=
  match e with
  | Backend_Unreachable detail => "node unreachable: " +:+ detail
  | Backend_Rejected detail => "node rejected operation: " +:+ detail
  end.

Inductive FleetRolloutError :=
| Fleet_InvalidFleetRequest (error : InvalidFleetRequest)
| Fleet_InvalidRolloutRequest (error : InvalidRolloutRequest)
| Fleet_UnknownPublishedVersion (version : string)
| NoSharedRollbackCandidate
| StatusUnavailable (node_id detail : string).

Class FleetNodeBackend := {
  Backend : Type;
  fetch_status : Backend → string → Result FleetNodeRuntimeStatus FleetNodeBackendError;
  fetch_health_signals : Backend → string → N →
    Result (option FleetNodeHealthSignal) FleetNodeBackendError;
  rollout_node : Backend → string → RolloutRequest → N →
    Backend * Result RolloutResponse FleetNodeBackendError;
  rollback_node : Backend → string → RollbackRequest → N →
    Backend * Result RolloutResponse FleetNodeBackendError
}.

Record FleetRolloutCoordinator := {
  fc_history : list FleetRolloutHistoryEntry; fc_metrics : FleetRolloutMetrics }.

Definition FleetRolloutCoordinator_new : FleetRolloutCoordinator :=
  {| fc_history := [];
     fc_metrics := {| fm_rollout_count := 0; fm_rollback_count := 0; fm_converged_fleet_count := 0;
                      fm_partial_failure_count := 0; fm_divergence_count := 0;
                      fm_degraded_count := 0; fm_audit_event_count := 0; fm_history_size := 0 |} |}.

(** ** Validation *)

Fixpoint check_node_ids (node_ids : list string) (seen : gset string) :
    Result unit InvalidFleetRequest :=
  match node_ids with
  | [] => Ok tt
  | node_id :: node_ids =>
      let node_id := trim node_id in
      if is_empty node_id then Err EmptyNodeId
      else if decide (MAX_NODE_ID_LEN < length (bytes node_id))%nat then Err NodeIdTooLong
      else if decide (node_id ∈ seen) then Err (DuplicateNodeId node_id)
      else check_node_ids node_ids ({[ node_id ]} ∪ seen)
  end.

Definition validate_fleet_request (node_ids : list string) (strategy : FleetRolloutStrategy)
    (max_allowed_divergence_ms : N) : Result unit FleetRolloutError :=
  let invalid e := Err (Fleet_InvalidFleetRequest e) in
  match node_ids with
  | [] => invalid EmptyNodeIds
  | _ =>
      if decide (MAX_FLEET_NODES < length node_ids)%nat then invalid TooManyNodes
      else if decide (max_allowed_divergence_ms = 0) then invalid ZeroMaxAllowedDivergenceMs
      else
        match check_node_ids node_ids ∅ with
        | Err e => invalid e
        | Ok _ =>
            match strategy with
            | Strategy_Canary 0 => invalid ZeroCanaryNodes
            | _ => Ok tt
            end
        end
  end.

(** ** Decisions on a gate *)

Definition decide_wave_abort_and_rollback (gate : FleetWaveGateEvaluation)
    (rollback_policy : FleetRollbackPolicyConfig) : FleetAbortRollbackDecision :=
  let go_on detail :=
    {| ad_wave_id := gate.(ge_wave_id); ad_should_abort := false; ad_should_auto_rollback := false;
       ad_reason := None; ad_detail := detail |} in
  let abort :=
    let auto := should_auto_rollback rollback_policy gate.(ge_timed_out) in
    {| ad_wave_id := gate.(ge_wave_id); ad_should_abort := true; ad_should_auto_rollback := auto;
       ad_reason := Some (if gate.(ge_timed_out) then WaveGateTimedOut else WaveGateFailed);
       ad_detail := if auto
                    then "wave gate failed; aborting rollout and triggering automatic rollback"
                    else "wave gate failed; aborting rollout and waiting for operator rollback" |} in
  match gate.(ge_verdict) with
  | Verdict_Passed => go_on "wave gate passed; rollout can continue"
  | Verdict_Pending =>
      if negb gate.(ge_timed_out) then go_on "wave gate pending within timeout; keep observing"
      else abort
  | Verdict_Failed => abort
  end.

(** ** Convergence *)

Fixpoint shared_known_good (nodes : list FleetNodeStatus) (shared : option string) : option string :=
  match nodes with
  | [] => shared
  | node :: nodes =>
      match node.(ns_last_known_good_version) with
      | None => None
      | Some candidate =>
          match shared with
          | Some existing =>
              if decide (existing ≠ candidate) then None else shared_known_good nodes shared
          | None => shared_known_good nodes (Some candidate)
          end
      end
  end.

Definition shared_last_known_good_version (nodes : list FleetNodeStatus) : option string :=
  shared_known_good nodes None.

Section fleet.
Context {Crypto : Ed25519} {Hash : Sha256} {Contents : SnapshotContents}
  {Resources : SnapshotResources} {Nodes : FleetNodeBackend}.

Definition collect_wave_health_signals (backend : Backend) (wave : FleetRolloutWaveDefinition) :
    gmap string FleetNodeHealthSignal :=
  foldl (λ signals node_id,
    match fetch_health_signals backend node_id wave.(wv_gate_policy).(gp_evaluation_window_ms) with
    | Ok (Some signal) => <[ node_id := signal ]> signals
    | _ => signals
    end) ∅ wave.(wv_node_ids).

(** The status of one node in the report. *)
Definition node_status (backend : Backend) (node_outcomes : list FleetNodeActionOutcome)
    (desired_version desired_digest_sha256 : string) (started deadline : N) (node_id : string) :
    FleetNodeStatus :=
  let outcome := List.find (λ entry, bool_decide (entry.(no_node_id) = node_id)) node_outcomes in
  match fetch_status backend node_id with
  | Ok status =>
      let '(convergence_state, detail) :=
        if decide (status.(nr_active_version) = Some desired_version ∧
                   status.(nr_active_digest_sha256) = Some desired_digest_sha256)
        then (Node_Converged, None)
        else if decide (status.(nr_observed_at_unix_ms) ≤ deadline)
        then (Node_Pending, no_detail <$> outcome)
        else (Node_Diverged,
              match no_detail <$> outcome with
              | Some detail => Some detail
              | None => Some "node did not apply the desired snapshot within the convergence budget"
              end) in
      {| ns_node_id := status.(nr_node_id); ns_desired_version := status.(nr_desired_version);
         ns_desired_digest_sha256 := status.(nr_desired_digest_sha256);
         ns_active_version := status.(nr_active_version);
         ns_active_digest_sha256 := status.(nr_active_digest_sha256);
         ns_last_known_good_version := status.(nr_last_known_good_version);
         ns_readiness := status.(nr_readiness);
         ns_observed_at_unix_ms := status.(nr_observed_at_unix_ms);
         ns_convergence_state := convergence_state; ns_detail := detail |}
  | Err error =>
      {| ns_node_id := node_id; ns_desired_version := None; ns_desired_digest_sha256 := None;
         ns_active_version := None; ns_active_digest_sha256 := None;
         ns_last_known_good_version := None; ns_readiness := None; ns_observed_at_unix_ms := started;
         ns_convergence_state := Node_Unavailable;
         ns_detail := Some (FleetNodeBackendError_fmt error) |}
  end.

(** The counters are of type [usize], which the number of nodes fits. *)
Definition count_state (state : FleetNodeConvergenceState) (nodes : list FleetNodeStatus) : nat :=
  length (List.filter (λ n, bool_decide (n.(ns_convergence_state) = state)) nodes).

Definition build_convergence_report (backend : Backend) (node_ids : list string)
    (node_outcomes : list FleetNodeActionOutcome) (desired_version desired_digest_sha256 : string)
    (rollout_started_at_unix_ms max_allowed_divergence_ms : N) : FleetConvergenceReport :=
  let deadline := saturating_add u64_max rollout_started_at_unix_ms max_allowed_divergence_ms in
  let exceeded := deadline <=? rollout_started_at_unix_ms in
  let nodes := node_status backend node_outcomes desired_version desired_digest_sha256
                 rollout_started_at_unix_ms deadline <$> node_ids in
  let converged_nodes := count_state Node_Converged nodes in
  let diverged_nodes := count_state Node_Diverged nodes in
  let unavailable_nodes := count_state Node_Unavailable nodes in
  let partial_rollout :=
    bool_decide (0 < converged_nodes ∧ converged_nodes < length node_ids)%nat in
  let action_failure :=
    existsb (λ outcome, bool_decide (outcome.(no_result) = Node_Failed)) node_outcomes in
  let state :=
    if decide (converged_nodes = length node_ids) then Fleet_Converged
    else if bool_decide (0 < unavailable_nodes)%nat || action_failure then Fleet_Degraded
    else if decide (0 < diverged_nodes)%nat then Fleet_Diverged
    else Fleet_Progressing in
  {| cr_desired_version := desired_version; cr_desired_digest_sha256 := desired_digest_sha256;
     cr_consistency_mode := BoundedEventual; cr_state := state;
     cr_recommended_action :=
       match state with
       | Fleet_Converged => ObserveOnly
       | Fleet_Progressing => WaitForConvergence
       | Fleet_Diverged => RollbackFleet
       | Fleet_Degraded => if decide (0 < unavailable_nodes)%nat then InvestigatePartition
                           else RetryFailedNodes
       end;
     cr_rollout_started_at_unix_ms := rollout_started_at_unix_ms;
     cr_divergence_deadline_unix_ms := deadline;
     cr_exceeded_divergence_budget :=
       exceeded && match state with Fleet_Converged => false | _ => true end;
     cr_converged_nodes := converged_nodes; cr_pending_nodes := count_state Node_Pending nodes;
     cr_diverged_nodes := diverged_nodes; cr_unavailable_nodes := unavailable_nodes;
     cr_partial_rollout := partial_rollout; cr_nodes := nodes |}.

(** ** The coordinator *)

Definition NodeOperation : Type :=
  Backend → string → option string → option string → N →
  Backend * Result RolloutResponse FleetNodeBackendError.

Definition skipped_outcome (node_id : string) : FleetNodeActionOutcome :=
  {| no_node_id := node_id; no_result := Node_Skipped; no_active_version := None;
     no_active_digest_sha256 := None; no_last_known_good_version := None;
     no_detail := "rollout halted before this node was updated" |}.

Definition node_outcome (action : RolloutActionKind) (node_id : string)
    (result : Result RolloutResponse FleetNodeBackendError) : FleetNodeActionOutcome :=
  match result with
  | Ok response =>
      {| no_node_id := node_id;
         no_result := match response.(rr_result) with
                      | Result_Applied => Node_Applied
                      | Result_Unchanged => Node_Unchanged
                      | Result_Rejected => Node_Failed
                      end;
         no_active_version := Some response.(rr_active_version);
         no_active_digest_sha256 := Some response.(rr_active_digest_sha256);
         no_last_known_good_version := Some response.(rr_last_known_good_version);
         no_detail := match action with
                      | Action_Rollout => "node accepted fleet rollout request"
                      | Action_Rollback => "node accepted fleet rollback request"
                      end |}
  | Err error =>
      {| no_node_id := node_id; no_result := Node_Failed; no_active_version := None;
         no_active_digest_sha256 := None; no_last_known_good_version := None;
         no_detail := FleetNodeBackendError_fmt error |}
  end.

(** Whether an error of the node with this index halts the rollout. *)
Definition halts (strategy : FleetRolloutStrategy) (index : nat) : bool :=
  match strategy with
  | Strategy_Immediate => false
  | Strategy_Sequential => true
  | Strategy_Canary canary_nodes => bool_decide (index < canary_nodes)%nat
  end.

Fixpoint run_nodes (backend : Backend) (action : RolloutActionKind) (strategy : FleetRolloutStrategy)
    (operation : NodeOperation) (requested_by reason : option string) (occurred_at_unix_ms : N)
    (index : nat) (halted : bool) (node_ids : list string) : Backend * list FleetNodeActionOutcome :=
  match node_ids with
  | [] => (backend, [])
  | node_id :: node_ids =>
      let '(backend, outcome, halted) :=
        if halted then (backend, skipped_outcome node_id, true)
        else
          let '(backend, result) :=
            operation backend node_id requested_by reason occurred_at_unix_ms in
          (backend, node_outcome action node_id result,
           match result with Ok _ => false | Err _ => halts strategy index end) in
      let '(backend, outcomes) :=
        run_nodes backend action strategy operation requested_by reason occurred_at_unix_ms
          (S index) halted node_ids in
      (backend, outcome :: outcomes)
  end.

Definition FleetRolloutCoordinator_push_history (c : FleetRolloutCoordinator)
    (entry : FleetRolloutHistoryEntry) : FleetRolloutCoordinator :=
  let history := c.(fc_history) ++ [entry] in
  let x := c.(fc_metrics) in
  {| fc_history := history;
     fc_metrics :=
       {| fm_rollout_count := x.(fm_rollout_count); fm_rollback_count := x.(fm_rollback_count);
          fm_converged_fleet_count := x.(fm_converged_fleet_count);
          fm_partial_failure_count := x.(fm_partial_failure_count);
          fm_divergence_count := x.(fm_divergence_count);
          fm_degraded_count := x.(fm_degraded_count);
          fm_audit_event_count := saturating_add u64_max x.(fm_audit_event_count) 1;
          fm_history_size := N.of_nat (length history) |} |}.

(** The counters of an action and of the state it led to. *)
Definition count_fleet_action (c : FleetRolloutCoordinator) (action : RolloutActionKind)
    (state : FleetConvergenceState) : FleetRolloutCoordinator :=
  let x := c.(fc_metrics) in
  let add n := saturating_add u64_max n 1 in
  {| fc_history := c.(fc_history);
     fc_metrics :=
       {| fm_rollout_count := match action with Action_Rollout => add x.(fm_rollout_count)
                              | Action_Rollback => x.(fm_rollout_count) end;
          fm_rollback_count := match action with Action_Rollback => add x.(fm_rollback_count)
                               | Action_Rollout => x.(fm_rollback_count) end;
          fm_converged_fleet_count :=
            match state with Fleet_Converged => add x.(fm_converged_fleet_count)
            | _ => x.(fm_converged_fleet_count) end;
          fm_partial_failure_count :=
            match state with Fleet_Degraded => add x.(fm_partial_failure_count)
            | _ => x.(fm_partial_failure_count) end;
          fm_divergence_count :=
            match state with Fleet_Diverged => add x.(fm_divergence_count)
            | _ => x.(fm_divergence_count) end;
          fm_degraded_count :=
            match state with Fleet_Degraded => add x.(fm_degraded_count)
            | _ => x.(fm_degraded_count) end;
          fm_audit_event_count := x.(fm_audit_event_count);
          fm_history_size := x.(fm_history_size) |} |}.

Definition fleet_execute_action (c : FleetRolloutCoordinator) (backend : Backend)
    (action : RolloutActionKind) (node_ids : list string) (strategy : FleetRolloutStrategy)
    (max_allowed_divergence_ms : N) (requested_by reason : option string)
    (desired_version desired_digest_sha256 : string) (operation : NodeOperation)
    (occurred_at_unix_ms : N) :
    FleetRolloutCoordinator * Backend * FleetRolloutResponse :=
  let '(backend, node_outcomes) :=
    run_nodes backend action strategy operation requested_by reason occurred_at_unix_ms 0 false
      node_ids in
  let convergence :=
    build_convergence_report backend node_ids node_outcomes desired_version desired_digest_sha256
      occurred_at_unix_ms max_allowed_divergence_ms in
  let c := FleetRolloutCoordinator_push_history c
    {| fe_action := action; fe_strategy := strategy; fe_target_version := desired_version;
       fe_desired_digest_sha256 := desired_digest_sha256;
       fe_convergence_state := convergence.(cr_state);
       fe_converged_nodes := convergence.(cr_converged_nodes);
       fe_pending_nodes := convergence.(cr_pending_nodes);
       fe_diverged_nodes := convergence.(cr_diverged_nodes);
       fe_unavailable_nodes := convergence.(cr_unavailable_nodes);
       fe_occurred_at_unix_ms := occurred_at_unix_ms;
       fe_detail := match convergence.(cr_state) with
                    | Fleet_Converged => "fleet converged on desired snapshot"
                    | Fleet_Progressing =>
                        "fleet rollout is within bounded eventual convergence window"
                    | Fleet_Diverged => "fleet exceeded the configured convergence budget"
                    | Fleet_Degraded => "fleet rollout completed with partial node failures"
                    end |} in
  let c := count_fleet_action c action convergence.(cr_state) in
  (c, backend,
   {| fo_action := action; fo_strategy := strategy; fo_desired_version := desired_version;
      fo_desired_digest_sha256 := desired_digest_sha256;
      fo_shared_last_known_good_version := shared_last_known_good_version convergence.(cr_nodes);
      fo_convergence := convergence; fo_node_outcomes := node_outcomes |}).

Definition rollout_operation (version : string) : NodeOperation :=
  λ backend node_id actor reason at_ms,
    rollout_node backend node_id
      {| rq_version := version; rq_requested_by := actor; rq_reason := reason |} at_ms.

Definition rollback_operation (version : string) : NodeOperation :=
  λ backend node_id actor reason at_ms,
    rollback_node backend node_id
      {| rb_target_version := Some version; rb_requested_by := actor; rb_reason := reason |} at_ms.

Definition FleetRolloutCoordinator_rollout_at (c : FleetRolloutCoordinator)
    (control : SnapshotControlService) (backend : Backend) (request : FleetRolloutRequest)
    (occurred_at_unix_ms : N) :
    FleetRolloutCoordinator * Backend * Result FleetRolloutResponse FleetRolloutError :=
  match validate_fleet_request request.(fr_node_ids) request.(fr_strategy)
          request.(fr_max_allowed_divergence_ms) with
  | Err error => (c, backend, Err error)
  | Ok _ =>
  match validate_rollout_request request.(fr_version) request.(fr_requested_by)
          request.(fr_reason) with
  | Err error => (c, backend, Err (Fleet_InvalidRolloutRequest error))
  | Ok _ =>
  match SnapshotControlService_get_version control request.(fr_version) with
  | Err _ => (c, backend, Err (Fleet_UnknownPublishedVersion request.(fr_version)))
  | Ok published =>
      let '(c, backend, response) :=
        fleet_execute_action c backend Action_Rollout request.(fr_node_ids) request.(fr_strategy)
          request.(fr_max_allowed_divergence_ms) request.(fr_requested_by) request.(fr_reason)
          published.(ps_version) published.(ps_digest_sha256)
          (rollout_operation published.(ps_version)) occurred_at_unix_ms in
      (c, backend, Ok response)
  end end end.

Fixpoint shared_candidate (backend : Backend) (node_ids : list string) (candidate : option string) :
    Result string FleetRolloutError :=
  match node_ids with
  | [] => match candidate with
          | Some candidate => Ok candidate
          | None => Err NoSharedRollbackCandidate
          end
  | node_id :: node_ids =>
      match fetch_status backend node_id with
      | Err error => Err (StatusUnavailable node_id (FleetNodeBackendError_fmt error))
      | Ok status =>
          match status.(nr_last_known_good_version) with
          | None => Err NoSharedRollbackCandidate
          | Some last_known_good =>
              match candidate with
              | Some existing =>
                  if decide (existing ≠ last_known_good) then Err NoSharedRollbackCandidate
                  else shared_candidate backend node_ids candidate
              | None => shared_candidate backend node_ids (Some last_known_good)
              end
          end
      end
  end.

Definition shared_rollback_candidate (backend : Backend) (node_ids : list string) :
    Result string FleetRolloutError := shared_candidate backend node_ids None.

Definition FleetRolloutCoordinator_rollback_at (c : FleetRolloutCoordinator)
    (control : SnapshotControlService) (backend : Backend) (request : FleetRollbackRequest)
    (occurred_at_unix_ms : N) :
    FleetRolloutCoordinator * Backend * Result FleetRolloutResponse FleetRolloutError :=
  let fail error := (c, backend, Err error) in
  match validate_fleet_request request.(fb_node_ids) Strategy_Sequential
          request.(fb_max_allowed_divergence_ms) with
  | Err error => fail error
  | Ok _ =>
  match match request.(fb_target_version) with
        | Some version => validate_rollout_request version request.(fb_requested_by)
                            request.(fb_reason)
        | None => Ok tt
        end with
  | Err error => fail (Fleet_InvalidRolloutRequest error)
  | Ok _ =>
  match match request.(fb_target_version) with
        | Some version => Ok version
        | None => shared_rollback_candidate backend request.(fb_node_ids)
        end with
  | Err error => fail error
  | Ok target_version =>
  match SnapshotControlService_get_version control target_version with
  | Err _ => fail (Fleet_UnknownPublishedVersion target_version)
  | Ok published =>
      let '(c, backend, response) :=
        fleet_execute_action c backend Action_Rollback request.(fb_node_ids) Strategy_Sequential
          request.(fb_max_allowed_divergence_ms) request.(fb_requested_by) request.(fb_reason)
          published.(ps_version) published.(ps_digest_sha256)
          (rollback_operation published.(ps_version)) occurred_at_unix_ms in
      (c, backend, Ok response)
  end end end end.

Definition execute_auto_rollback_if_needed (c : FleetRolloutCoordinator)
    (control : SnapshotControlService) (backend : Backend) (node_ids : list string)
    (decision : FleetAbortRollbackDecision) (requested_by reason : option string)
    (max_allowed_divergence_ms occurred_at_unix_ms : N) :
    FleetRolloutCoordinator * Backend * Result FleetAutoRollbackOutcome FleetRolloutError :=
  if negb decision.(ad_should_auto_rollback) then
    (c, backend,
     Ok {| ao_attempted := false; ao_succeeded := false; ao_target_version := None;
           ao_convergence_state := None;
           ao_detail := "automatic rollback not requested by decision policy" |})
  else
    let rollback_reason :=
      Some match reason with
           | Some existing => existing +:+ "; automatic rollback after " +:+ decision.(ad_detail)
           | None => "automatic rollback after " +:+ decision.(ad_detail)
           end in
    match FleetRolloutCoordinator_rollback_at c control backend
            {| fb_target_version := None; fb_requested_by := requested_by;
               fb_reason := rollback_reason; fb_node_ids := node_ids;
               fb_max_allowed_divergence_ms := max_allowed_divergence_ms |}
            occurred_at_unix_ms with
    | (c, backend, Err error) => (c, backend, Err error)
    | (c, backend, Ok response) =>
        let state := response.(fo_convergence).(cr_state) in
        let succeeded := match state with Fleet_Converged => true | _ => false end in
        (c, backend,
         Ok {| ao_attempted := true; ao_succeeded := succeeded;
               ao_target_version := Some response.(fo_desired_version);
               ao_convergence_state := Some state;
               ao_detail :=
                 if succeeded
                 then "automatic rollback converged fleet to the shared last-known-good snapshot"
                 else "automatic rollback executed but fleet did not fully converge" |})
    end.

(** ** Theorems: running over the nodes *)

(** The state of the backend after the operation on each of the nodes. *)
Definition contact_all (operation : NodeOperation) (requested_by reason : option string) (at_ms : N)
    (backend : Backend) (node_ids : list string) : Backend :=
  foldl (λ b n, (operation b n requested_by reason at_ms).1) backend node_ids.

(** The answer of the node with this index when the nodes before it were contacted. *)
Definition answer_of (operation : NodeOperation) (requested_by reason : option string) (at_ms : N)
    (backend : Backend) (node_ids : list string) (i : nat) :
    option (Result RolloutResponse FleetNodeBackendError) :=
  (λ n, (operation (contact_all operation requested_by reason at_ms backend (take i node_ids))
           n requested_by reason at_ms).2) <$> node_ids !! i.

Lemma run_halted backend action strategy operation by_ reason at_ms index node_ids :
  run_nodes backend action strategy operation by_ reason at_ms index true node_ids =
  (backend, skipped_outcome <$> node_ids).
Proof. revert index. induction node_ids as [|n l IH]; intros index; [done|]. cbn. by rewrite IH. Qed.

(** The first [k] nodes are contacted and the others skipped; [k] ends at the first
    error that halts. *)
Definition run_until (action : RolloutActionKind) (strategy : FleetRolloutStrategy)
    (operation : NodeOperation) (by_ reason : option string) (at_ms : N) (index : nat)
    (backend backend' : Backend) (node_ids : list string) (outcomes : list FleetNodeActionOutcome)
    (k : nat) : Prop :=
  (k ≤ length node_ids)%nat ∧
  backend' = contact_all operation by_ reason at_ms backend (take k node_ids) ∧
  (∀ i n, node_ids !! i = Some n →
     ∃ r, answer_of operation by_ reason at_ms backend node_ids i = Some r ∧
       outcomes !! i = Some (if decide (i < k)%nat then node_outcome action n r
                             else skipped_outcome n)) ∧
  length outcomes = length node_ids ∧
  (∀ i e, answer_of operation by_ reason at_ms backend node_ids i = Some (Err e) → (i < k)%nat →
     halts strategy (index + i) = true → k = S i) ∧
  ((k < length node_ids)%nat →
     ∃ i e, k = S i ∧ answer_of operation by_ reason at_ms backend node_ids i = Some (Err e) ∧
       halts strategy (index + i) = true).

Lemma run_nodes_until action strategy operation by_ reason at_ms node_ids :
  ∀ backend index backend' outcomes,
  run_nodes backend action strategy operation by_ reason at_ms index false node_ids =
    (backend', outcomes) →
  ∃ k, run_until action strategy operation by_ reason at_ms index backend backend' node_ids outcomes k.
Proof.
  induction node_ids as [|n l IH]; intros backend index backend' outcomes; cbn.
  { intros [= <- <-]. exists 0%nat. split_and!; try done; cbn; lia. }
  destruct (operation backend n by_ reason at_ms) as [b1 r] eqn:Eo.
  assert (Hans : ∀ i, answer_of operation by_ reason at_ms backend (n :: l) (S i) =
                      answer_of operation by_ reason at_ms b1 l i).
  { intros i. unfold answer_of, contact_all. cbn. by rewrite Eo. }
  assert (H0 : answer_of operation by_ reason at_ms backend (n :: l) 0 = Some r).
  { unfold answer_of. cbn. by rewrite Eo. }
  destruct (match r with Ok _ => false | Err _ => halts strategy index end) eqn:Eh.
  - rewrite run_halted. intros [= <- <-]. exists 1%nat. destruct r as [|e]; [done|].
    split_and!; cbn; try lia.
    + unfold contact_all. cbn. by rewrite Eo.
    + intros [|i] m Hm; [cbn in Hm; injection Hm as ->; by exists (Err e)|].
      change (l !! i = Some m) in Hm. eexists.
      split; [rewrite Hans; unfold answer_of; by rewrite Hm|].
      rewrite decide_False by lia. etransitivity; [apply (list_lookup_fmap skipped_outcome l i)|].
      by rewrite Hm.
    + by rewrite length_fmap.
    + intros _. exists 0%nat, e. by rewrite Nat.add_0_r.
  - destruct (run_nodes b1 _ _ _ _ _ _ _ _ l) as [b2 os] eqn:Er. intros [= <- <-].
    apply IH in Er as (k & Hk & -> & Ho & Hlen & Hfirst & Hlast). exists (S k). split_and!; cbn; try lia.
    + unfold contact_all. cbn. by rewrite Eo.
    + intros [|i] m Hm; [cbn in Hm; injection Hm as ->; by exists r|].
      destruct (Ho i m Hm) as (r' & Ha & Hl). exists r'. rewrite Hans. split; [done|].
      etransitivity; [exact Hl|]. by destruct (decide (i < k)%nat), (decide (S i < S k)%nat); try lia.
    + intros [|i] e; [rewrite H0; intros [= ->]; rewrite Nat.add_0_r; congruence|].
      rewrite Hans, Nat.add_succ_r. intros Ha ? Hh. f_equal. apply (Hfirst i e); [done|lia|done].
    + intros ?. destruct Hlast as (i & e & -> & Ha & Hh); [lia|]. exists (S i), e.
      rewrite Hans, Nat.add_succ_r. by split_and!.
Qed.

(** C27: a fleet action contacts the nodes in order, each once, up to the first backend error
    that halts: any error for a sequential rollout, one of a canary node for a canary
    rollout, none for an immediate one; the outcome of each contacted node is its answer and
    the other nodes are reported as skipped and not contacted.  Only backend errors halt: a
    node that answers with a rejected result is reported as failed and the action goes on,
    for every strategy, although the runbook says that a sequential rollout stops after the
    first node-level failure ([rejected_answer_goes_on]). *)
Theorem fleet_action_halts_exactly (c : FleetRolloutCoordinator) (backend : Backend)
    (action : RolloutActionKind) (node_ids : list string) (strategy : FleetRolloutStrategy)
    (max_allowed_divergence_ms : N) (requested_by reason : option string) (version digest : string)
    (operation : NodeOperation) (at_ms : N) :
  let '(c', backend', response) :=
    fleet_execute_action c backend action node_ids strategy max_allowed_divergence_ms requested_by
      reason version digest operation at_ms in
  (∃ k, run_until action strategy operation requested_by reason at_ms 0 backend backend' node_ids
          response.(fo_node_outcomes) k) ∧
  (strategy = Strategy_Immediate →
     backend' = contact_all operation requested_by reason at_ms backend node_ids) ∧
  ((∀ i e, answer_of operation requested_by reason at_ms backend node_ids i ≠ Some (Err e)) →
     backend' = contact_all operation requested_by reason at_ms backend node_ids) ∧
  (∀ i n answer, node_ids !! i = Some n →
     answer_of operation requested_by reason at_ms backend node_ids i = Some (Ok answer) →
     answer.(rr_result) = Result_Rejected → ∃ outcome,
     response.(fo_node_outcomes) !! i = Some outcome ∧
     (outcome.(no_result) = Node_Failed ∨ outcome.(no_result) = Node_Skipped)) ∧
  length c'.(fc_history) = S (length c.(fc_history)).
Proof.
  unfold fleet_execute_action.
  destruct (run_nodes _ _ _ _ _ _ _ _ _ _) as [b os] eqn:E.
  apply run_nodes_until in E as (k & Hk). cbn. split_and!.
  - by exists k.
  - intros ->. destruct Hk as (Hk & -> & _ & _ & _ & Hlast).
    destruct (decide (k < length node_ids)%nat) as [Hlt|Hge].
    + by destruct (Hlast Hlt) as (i & e & _ & _ & ?).
    + by rewrite take_ge by lia.
  - intros Hno. destruct Hk as (Hk & -> & _ & _ & _ & Hlast).
    destruct (decide (k < length node_ids)%nat) as [Hlt|Hge].
    + destruct (Hlast Hlt) as (i & e & _ & He & _). by destruct (Hno i e).
    + by rewrite take_ge by lia.
  - intros i n answer Hn Ha Hr. destruct Hk as (_ & _ & Hout & _).
    destruct (Hout i n Hn) as (r & Hr' & Ho). rewrite Ha in Hr'. injection Hr' as <-.
    eexists. split; [exact Ho|]. case_decide; [left|by right]. cbn. by rewrite Hr.
  - rewrite length_app. cbn. lia.
Qed.

(** ** Theorems: convergence *)

Definition node_runs (backend : Backend) (version digest : string) (node_id : string) : Prop :=
  ∃ status, fetch_status backend node_id = Ok status ∧
    status.(nr_active_version) = Some version ∧ status.(nr_active_digest_sha256) = Some digest.

Definition node_unreachable (backend : Backend) (node_id : string) : Prop :=
  ∃ error, fetch_status backend node_id = Err error.

(** Seen after the deadline with another snapshot. *)
Definition node_late (backend : Backend) (version digest : string) (deadline : N)
    (node_id : string) : Prop :=
  ∃ status, fetch_status backend node_id = Ok status ∧ ¬ node_runs backend version digest node_id ∧
    deadline < status.(nr_observed_at_unix_ms).

Lemma node_status_spec backend outcomes version digest started deadline n :
  let s := (node_status backend outcomes version digest started deadline n).(ns_convergence_state) in
  (s = Node_Converged ↔ node_runs backend version digest n) ∧
  (s = Node_Unavailable ↔ node_unreachable backend n) ∧
  (s = Node_Diverged ↔ node_late backend version digest deadline n).
Proof.
  unfold node_status, node_late, node_runs, node_unreachable.
  destruct (fetch_status backend n) as [st|e]; cbn zeta.
  - case_decide as D1; [|case_decide as D2]; cbn.
    + split_and!; split; try done; [by exists st|by intros [? ?]|]. intros (x & [= <-] & Hno & _).
      destruct Hno. by exists st.
    + split_and!; split; try done; [|by intros [? ?]|].
      * intros (x & [= <-] & ? & ?). by destruct D1.
      * intros (x & [= <-] & _ & ?). lia.
    + split_and!; split; try done; [|by intros [? ?]|].
      * intros (x & [= <-] & ? & ?). by destruct D1.
      * intros _. exists st. split_and!; [done| |lia]. intros (x & [= <-] & ? & ?). by destruct D1.
  - cbn. split_and!; split; try done; [by intros (? & ? & _)|by exists e|by intros (? & ? & _)].
Qed.

Lemma count_state_all state nodes :
  count_state state nodes = length nodes ↔ Forall (λ n, n.(ns_convergence_state) = state) nodes.
Proof.
  unfold count_state. induction nodes as [|n l IH]; cbn; [by split|]. rewrite Forall_cons, <- IH.
  pose proof (List.filter_length_le (λ n, bool_decide (ns_convergence_state n = state)) l).
  case_bool_decide; cbn; split.
  - intros. split; [done|lia].
  - intros [_ ?]. lia.
  - lia.
  - by intros [? _].
Qed.

Lemma count_state_some state nodes :
  (0 < count_state state nodes)%nat ↔ Exists (λ n, n.(ns_convergence_state) = state) nodes.
Proof.
  unfold count_state. induction nodes as [|n l IH]; cbn.
  { split; [lia|]. by intros ?%Exists_nil. }
  rewrite Exists_cons, <- IH. case_bool_decide; cbn; split.
  - by left.
  - lia.
  - by right.
  - by intros [?|?].
Qed.

Lemma count_state_nodes state f (P : string → Prop) (node_ids : list string) :
  (∀ n, (f n).(ns_convergence_state) = state ↔ P n) →
  (count_state state (f <$> node_ids) = length node_ids ↔ Forall P node_ids) ∧
  ((0 < count_state state (f <$> node_ids))%nat ↔ Exists P node_ids).
Proof.
  intros H. rewrite count_state_some, <- (length_fmap f node_ids), count_state_all.
  rewrite Forall_fmap, Exists_exists, Exists_exists. split; [apply Forall_iff; apply H|].
  setoid_rewrite <- H. setoid_rewrite list_elem_of_fmap. naive_solver.
Qed.

Lemma count_state_sum nodes :
  (count_state Node_Converged nodes + count_state Node_Pending nodes +
   count_state Node_Diverged nodes + count_state Node_Unavailable nodes = length nodes)%nat.
Proof.
  unfold count_state. induction nodes as [|n l IH]; [done|]. cbn.
  destruct (ns_convergence_state n); repeat case_bool_decide; try done; cbn; lia.
Qed.

(** C29: the report counts every node once; the fleet has converged exactly when every
    node runs the desired version and digest, whenever that was observed and whatever the
    actions answered, and otherwise is degraded exactly when a node cannot be reached or an
    action failed, diverged when then a node was seen with another snapshot after the deadline,
    and progressing else; the divergence budget is never reported as exceeded unless it is zero
    or the clock at its end.  The API documentation asks for convergence within the budget and
    the runbook calls a fleet with a rejecting node degraded ([late_fleet_converged]). *)
Theorem convergence_report_exact (backend : Backend) (node_ids : list string)
    (outcomes : list FleetNodeActionOutcome) (version digest : string) (started budget : N) :
  let report := build_convergence_report backend node_ids outcomes version digest started budget in
  let all_run := Forall (node_runs backend version digest) node_ids in
  let broken := Exists (node_unreachable backend) node_ids ∨
                Exists (λ o, o.(no_result) = Node_Failed) outcomes in
  let late := Exists (node_late backend version digest (N.min u64_max (started + budget))) node_ids in
  (report.(cr_converged_nodes) + report.(cr_pending_nodes) + report.(cr_diverged_nodes) +
   report.(cr_unavailable_nodes) = length node_ids)%nat ∧
  match report.(cr_state) with
  | Fleet_Converged => all_run
  | Fleet_Degraded => ¬ all_run ∧ broken
  | Fleet_Diverged => ¬ all_run ∧ ¬ broken ∧ late
  | Fleet_Progressing => ¬ all_run ∧ ¬ broken ∧ ¬ late
  end ∧
  (0 < budget → started < u64_max → report.(cr_exceeded_divergence_budget) = false).
Proof.
  unfold build_convergence_report. cbn zeta.
  cbn [cr_converged_nodes cr_pending_nodes cr_diverged_nodes cr_unavailable_nodes cr_state
       cr_exceeded_divergence_budget].
  assert (Hd : saturating_add u64_max started budget = N.min u64_max (started + budget)).
  { unfold saturating_add. lia. }
  rewrite Hd. set (deadline := N.min u64_max (started + budget)).
  set (nodes := node_status backend outcomes version digest started deadline <$> node_ids).
  assert (Hlen : length nodes = length node_ids) by apply length_fmap. rewrite <- Hlen.
  pose proof (λ n, node_status_spec backend outcomes version digest started deadline n) as Hspec.
  destruct (count_state_nodes Node_Converged _ _ node_ids (λ n, proj1 (Hspec n))) as [H1 _].
  destruct (count_state_nodes Node_Unavailable _ _ node_ids (λ n, proj1 (proj2 (Hspec n)))) as [_ H2].
  destruct (count_state_nodes Node_Diverged _ _ node_ids (λ n, proj2 (proj2 (Hspec n)))) as [_ H3].
  fold nodes in H1, H2, H3. rewrite <- Hlen in H1.
  assert (H4 : existsb (λ o, bool_decide (o.(no_result) = Node_Failed)) outcomes = true ↔
               Exists (λ o, o.(no_result) = Node_Failed) outcomes).
  { rewrite existsb_exists, Exists_exists. setoid_rewrite bool_decide_eq_true.
    by setoid_rewrite list_elem_of_In. }
  split_and!.
  - apply count_state_sum.
  - destruct (decide (count_state Node_Converged nodes = length nodes)) as [D|D]; [by apply H1|].
    rewrite H1 in D. destruct (bool_decide _ || existsb _ outcomes) eqn:Eb.
    + split; [done|]. apply orb_true_iff in Eb as [Eb%bool_decide_eq_true|Eb];
        [left; by apply H2|right; by apply H4].
    + apply orb_false_iff in Eb as [E1%bool_decide_eq_false E2].
      assert (¬ (Exists (node_unreachable backend) node_ids ∨
                 Exists (λ o, o.(no_result) = Node_Failed) outcomes)).
      { rewrite <- H2, <- H4, E2. intros [?|?]; done. }
      destruct (decide (0 < count_state Node_Diverged nodes)%nat) as [D3|D3]; rewrite H3 in D3;
        by split_and!.
  - intros Hb Hs. apply andb_false_iff. left. apply N.leb_gt. unfold deadline. lia.
Qed.

(** ** Theorems: abort and automatic rollback *)

(** The gate of a wave aborts the rollout exactly when it is required, some node is
    not healthy and the deadline has come; the default policy then rolls back, and the
    policy for failed gates never does, because a gate only fails by its deadline. *)
Theorem abort_decision_exact (wave_id : string) (node_ids : list string)
    (policy : FleetHealthGatePolicy) (signals : gmap string FleetNodeHealthSignal)
    (started evaluated : N) (mode : FleetAutoRollbackMode) :
  let gate := evaluate_wave_gate_with_policy wave_id node_ids policy signals started evaluated in
  let decision := decide_wave_abort_and_rollback gate {| auto_rollback_mode := mode |} in
  let abort := policy.(gp_mode) = Gate_Required ∧
    ¬ Forall (node_healthy policy signals) node_ids ∧
    N.min u64_max (started + policy.(gp_timeout_ms)) ≤ evaluated in
  (decision.(ad_should_abort) = true ↔ abort) ∧
  (decision.(ad_should_auto_rollback) = true ↔ abort ∧ mode = OnFailedOrTimedOut) ∧
  (decision.(ad_reason) = if decision.(ad_should_abort) then Some WaveGateTimedOut else None).
Proof.
  pose proof (wave_gate_spec wave_id node_ids policy signals started evaluated) as (Ht & _ & _ & Hm).
  cbn zeta. set (gate := evaluate_wave_gate_with_policy _ _ _ _ _ _) in *.
  assert (Habort : gate.(ge_verdict) = Verdict_Failed ↔ policy.(gp_mode) = Gate_Required ∧
    ¬ Forall (node_healthy policy signals) node_ids ∧
    N.min u64_max (started + policy.(gp_timeout_ms)) ≤ evaluated).
  { destruct (gp_mode policy); [|destruct Hm as [-> _]; by split; [|intros [? _]]].
    destruct Hm as (_ & -> & _). tauto. }
  assert (Hpend : gate.(ge_verdict) = Verdict_Pending → gate.(ge_timed_out) = false).
  { intros E. apply not_true_is_false. intros Hl%Ht. destruct (gp_mode policy).
    - by destruct Hm as (_ & _ & [[_ Hn] _]).
    - by destruct Hm as [? _]; congruence. }
  rewrite <- Habort. unfold decide_wave_abort_and_rollback, should_auto_rollback.
  destruct (ge_verdict gate) eqn:Ev; cbn.
  - split_and!; split; try done. by intros [? _].
  - assert (ge_timed_out gate = true) as -> by (apply Ht, Habort; done).
    split_and!; [done| |done]. destruct mode; cbn; split; try done; by intros [_ ?].
  - rewrite Hpend by done. cbn. split_and!; split; try done. by intros [? _].
Qed.

Lemma shared_candidate_spec backend node_ids : ∀ candidate v,
  shared_candidate backend node_ids candidate = Ok v →
  (candidate = None ∨ candidate = Some v) ∧
  ∀ n, n ∈ node_ids → ∃ status, fetch_status backend n = Ok status ∧
    status.(nr_last_known_good_version) = Some v.
Proof.
  induction node_ids as [|x l IH]; intros candidate v; cbn.
  { destruct candidate; [|done]. intros [= ->]. split; [by right|]. by intros n ?%elem_of_nil. }
  destruct (fetch_status backend x) as [st|] eqn:Es; [|done].
  destruct (nr_last_known_good_version st) as [k|] eqn:Ek; [|done].
  assert (Hgo : shared_candidate backend l (Some k) = Ok v →
    k = v ∧ ∀ n, n ∈ x :: l → ∃ status, fetch_status backend n = Ok status ∧
      status.(nr_last_known_good_version) = Some v).
  { intros [[?|[= ->]] Hl]%IH; [done|]. split; [done|].
    intros n [-> |?]%elem_of_cons; [by exists st|by apply Hl]. }
  destruct candidate as [c|].
  - case_decide as D; [done|]. subst c. intros [-> ?]%Hgo. by split; [right|].
  - intros [_ ?]%Hgo. by split; [left|].
Qed.

(** When the nodes report the version they run as their last known good one, as the
    snapshot manager does, a fleet rollback without a target, and so every automatic
    one, goes to the version that all nodes run already. *)
Theorem fleet_rollback_targets_running (c c' : FleetRolloutCoordinator)
    (control : SnapshotControlService) (log : list PublishedSnapshotRecord)
    (backend backend' : Backend) (request : FleetRollbackRequest) (at_ms : N)
    (response : FleetRolloutResponse)
    (Hlog : registry_is control log)
    (Hgood : ∀ n status, n ∈ request.(fb_node_ids) → fetch_status backend n = Ok status →
       status.(nr_last_known_good_version) = status.(nr_active_version))
    (Htarget : request.(fb_target_version) = None)
    (Hrun : FleetRolloutCoordinator_rollback_at c control backend request at_ms
            = (c', backend', Ok response)) :
  ∀ n, n ∈ request.(fb_node_ids) →
    ∃ status, fetch_status backend n = Ok status ∧
      status.(nr_active_version) = Some response.(fo_desired_version).
Proof.
  unfold FleetRolloutCoordinator_rollback_at in Hrun. rewrite Htarget in Hrun.
  destruct (validate_fleet_request _ _ _) as [[]|]; [|done].
  destruct (shared_rollback_candidate backend _) as [v|] eqn:Ec; [|done].
  destruct (SnapshotControlService_get_version control v) as [pub|] eqn:Eg; [|done].
  apply (get_version_named _ _ _ _ Hlog) in Eg as [Hv _].
  unfold fleet_execute_action in Hrun. destruct (run_nodes _ _ _ _ _ _ _ _ _ _) as [b os].
  injection Hrun as _ _ <-. cbn. rewrite Hv.
  apply shared_candidate_spec in Ec as [_ Hall]. intros n Hn.
  destruct (Hall n Hn) as (st & Hst & Hk). exists st. split; [done|]. by rewrite <- (Hgood n st).
Qed.
End fleet.

(** ** A sample fleet *)

#[local] Existing Instances sample_crypto sample_sha256 route_contents route_resources.

(** Nodes that run whatever version they are asked to. *)
Definition sample_response (action : RolloutActionKind) (version : string) : RolloutResponse :=
  {| rr_action := action; rr_result := Result_Applied; rr_active_version := version;
     rr_active_digest_sha256 := version; rr_last_known_good_version := version |}.

#[local] Instance sample_fleet : FleetNodeBackend :=
  {| Backend := gmap string string;
     fetch_status backend node_id :=
       match backend !! node_id with
       | Some version =>
           Ok {| nr_node_id := node_id; nr_desired_version := Some version;
                 nr_desired_digest_sha256 := None; nr_active_version := Some version;
                 nr_active_digest_sha256 := Some version;
                 nr_last_known_good_version := Some version; nr_readiness := None;
                 nr_observed_at_unix_ms := 0 |}
       | None => Err (Backend_Unreachable "missing node")
       end;
     fetch_health_signals _ _ _ := Ok None;
     rollout_node backend node_id request _ :=
       match backend !! node_id with
       | Some _ => (<[ node_id := request.(rq_version) ]> backend,
                    Ok (sample_response Action_Rollout request.(rq_version)))
       | None => (backend, Err (Backend_Unreachable "missing node"))
       end;
     rollback_node backend node_id request _ :=
       match request.(rb_target_version) with
       | Some version => (<[ node_id := version ]> backend,
                          Ok (sample_response Action_Rollback version))
       | None => (backend, Err (Backend_Rejected "no target"))
       end |}.

Definition sample_nodes : gmap string string := {[ "a" := "v3"; "b" := "v3" ]}.

Definition sample_fleet_rollback : FleetRollbackRequest :=
  {| fb_target_version := None; fb_requested_by := None; fb_reason := None;
     fb_node_ids := ["a"; "b"]; fb_max_allowed_divergence_ms := 10 |}.

(** A missing node halts a sequential rollout, and the last node is not contacted. *)
Example sequential_rollout_halts :
  let '(_, backend, result) :=
    FleetRolloutCoordinator_rollout_at FleetRolloutCoordinator_new published_plane.(cp_control)
      (sample_nodes : @Backend sample_fleet)
      {| fr_version := "v2"; fr_requested_by := None; fr_reason := None;
         fr_node_ids := ["a"; "missing"; "b"]; fr_strategy := Strategy_Sequential;
         fr_max_allowed_divergence_ms := 10 |} 5 in
  (backend : gmap string string) = {[ "a" := "v2"; "b" := "v3" ]} ∧
  match result with
  | Ok response => no_result <$> response.(fo_node_outcomes) = [Node_Applied; Node_Failed; Node_Skipped]
  | Err _ => False
  end.
Proof. vm_compute. split; reflexivity. Qed.

(** Nodes that refuse every rollout with a rejected result. *)
Definition rejecting_fleet : FleetNodeBackend :=
  {| Backend := list string;
     fetch_status _ _ := Err (Backend_Unreachable "no status");
     fetch_health_signals _ _ _ := Ok None;
     rollout_node backend node_id request _ :=
       (backend ++ [node_id],
        Ok {| rr_action := Action_Rollout; rr_result := Result_Rejected; rr_active_version := "v3";
              rr_active_digest_sha256 := "v3"; rr_last_known_good_version := "v3" |});
     rollback_node backend _ _ _ := (backend, Err (Backend_Rejected "no target")) |}.

(** A sequential rollout contacts every node although each is reported as failed. *)
Example rejected_answer_goes_on :
  let '(_, backend, result) :=
    FleetRolloutCoordinator_rollout_at (Nodes := rejecting_fleet) FleetRolloutCoordinator_new published_plane.(cp_control)
      ([] : @Backend rejecting_fleet)
      {| fr_version := "v2"; fr_requested_by := None; fr_reason := None;
         fr_node_ids := ["a"; "b"; "c"]; fr_strategy := Strategy_Sequential;
         fr_max_allowed_divergence_ms := 10 |} 5 in
  (backend : list string) = ["a"; "b"; "c"] ∧
  match result with
  | Ok response => no_result <$> response.(fo_node_outcomes) = [Node_Failed; Node_Failed; Node_Failed]
  | Err _ => False
  end.
Proof. vm_compute. split; reflexivity. Qed.

(** The same nodes, seen at the given time. *)
Definition observed_fleet (at_ms : N) : FleetNodeBackend :=
  {| Backend := gmap string string;
     fetch_status backend node_id :=
       match @fetch_status sample_fleet backend node_id with
       | Ok s => Ok {| nr_node_id := s.(nr_node_id); nr_desired_version := s.(nr_desired_version);
                       nr_desired_digest_sha256 := s.(nr_desired_digest_sha256);
                       nr_active_version := s.(nr_active_version);
                       nr_active_digest_sha256 := s.(nr_active_digest_sha256);
                       nr_last_known_good_version := s.(nr_last_known_good_version);
                       nr_readiness := s.(nr_readiness); nr_observed_at_unix_ms := at_ms |}
       | Err e => Err e
       end;
     fetch_health_signals := @fetch_health_signals sample_fleet;
     rollout_node := @rollout_node sample_fleet; rollback_node := @rollback_node sample_fleet |}.

(** Nodes seen at 1000 with the desired snapshot, of which one refused the action, in a rollout
    that started at 5 with a budget of 10: the fleet has converged. *)
Example late_fleet_converged :
  let failed := {| no_node_id := "a"; no_result := Node_Failed; no_active_version := None;
                   no_active_digest_sha256 := None; no_last_known_good_version := None;
                   no_detail := "rejected" |} in
  let report := build_convergence_report (Nodes := observed_fleet 1000) sample_nodes ["a"; "b"] [failed] "v3" "v3" 5 10 in
  report.(cr_divergence_deadline_unix_ms) = 15 ∧ report.(cr_state) = Fleet_Converged.
Proof. vm_compute. split; reflexivity. Qed.

Lemma fleet_rollback_targets_running_witness :
  ∃ c backend response,
    FleetRolloutCoordinator_rollback_at FleetRolloutCoordinator_new published_plane.(cp_control)
      (sample_nodes : @Backend sample_fleet) sample_fleet_rollback 5 = (c, backend, Ok response) ∧
    ∃ status, fetch_status (sample_nodes : @Backend sample_fleet) "a" = Ok status ∧
      status.(nr_active_version) = Some response.(fo_desired_version).
Proof.
  assert (Hok : match (FleetRolloutCoordinator_rollback_at FleetRolloutCoordinator_new
                  published_plane.(cp_control) (sample_nodes : @Backend sample_fleet)
                  sample_fleet_rollback 5).2 with
                | Ok _ => true | Err _ => false end = true) by (vm_compute; reflexivity).
  destruct (FleetRolloutCoordinator_rollback_at _ _ _ _ _) as [[c b] [response|e]] eqn:E;
    [|discriminate Hok].
  exists c, b, response. split; [reflexivity|].
  apply (fleet_rollback_targets_running FleetRolloutCoordinator_new c published_plane.(cp_control)
    sample_log (sample_nodes : @Backend sample_fleet) b sample_fleet_rollback 5 response).
  - exact sample_log_ok.
  - intros n status _. unfold fetch_status, sample_fleet.
    destruct (sample_nodes !! n); [|discriminate]. intros H. injection H as <-. reflexivity.
  - reflexivity.
  - exact E.
  - left.
Defined.
